(** * SHAD camera stream lifecycle manager

    A shallow embedding of [src/js/services/CameraManager.js] and of the
    two helpers it imports from [utils/helpers.js] ([clamp] and
    [calculateGridLayout]).

    The JavaScript class is single-threaded and callback driven.  The
    embedding makes the pieces the class relies on explicit:

    - session objects live in a heap and are named by their location, so
      that "the same session object" and "a brand-new session object" are
      different things;
    - closures handed to [setTimeout], [addEventListener], [hls.on] and
      [promise.then] are first-order [Callback] values carrying what the
      closure captured;
    - the browser (timers, media elements, stream engines, the clock, the
      random source) is part of the state, and the calls the manager makes
      on it are appended to an effect log.

    JavaScript numbers are rationals; counters are natural numbers.  Clock
    values and whole delays are integers, on which double arithmetic is
    exact.  Where the class computes with fractions (the retry jitter, the
    playback progress, the distance to the live edge) the result is rounded
    as an IEEE 754 double is ([Double]).

    The last parts of the file embed the other helpers of
    [utils/helpers.js] that have a behaviour of their own ([throttle],
    [debounce], [deepMerge], [formatDateISO]) and the two small services
    that live next to the camera manager ([CalendarService] and
    [SensorService]), each with the part of the browser it uses. *)

From Stdlib Require Import QArith Qminmax Qround Qabs Qpower Lqa Lia ZArith.
From stdpp Require Import base list strings pretty.

(** ** utils/helpers.js *)

Module Helpers.

(** [clamp(value, min, max) = Math.min(Math.max(value, min), max)] *)
Definition clamp (value min max : Z) : Z := Z.min (Z.max value min) max.

Record GridLayout := { columns : Z; rows : Z }.

(** [Math.ceil(a / b)] for the integers the function is applied to. *)
Definition ceilDiv (a b : Z) : Z := Qceiling (inject_Z a / inject_Z b)%Q.

Definition calculateGridLayout (numItems : Z) : GridLayout :=
  let numItems := clamp numItems 1 18 in
  let columns :=
    if (numItems <=? 1)%Z then 1%Z
    else if (numItems <=? 2)%Z then 2%Z
    else if (numItems <=? 4)%Z then 2%Z
    else if (numItems <=? 6)%Z then 3%Z
    else if (numItems <=? 9)%Z then 3%Z
    else if (numItems <=? 12)%Z then 4%Z
    else if (numItems <=? 16)%Z then 4%Z
    else 6%Z in
  let rows := ceilDiv numItems columns in
  {| columns := columns; rows := rows |}.

End Helpers.

Import Helpers.

(** ** JavaScript numbers

    A finite JavaScript number is a rational [m * 2^e] with [|m| < 2^53]
    and [e >= -1074].  An arithmetic operation gives the exact result
    rounded to the nearest such number, a tie going to the even [m]
    (IEEE 754 binary64, round to nearest even).  Overflow to an infinity is
    left out: the operands below are playback positions, a draw of
    [Math.random()] and delays of a few minutes. *)

Module Double.

Definition pow2 (e : Z) : Q := (2 ^ e)%Q.

(** The binary order of magnitude: [2^(mag q - 1) <= |q| < 2^(mag q)]. *)
Definition mag (q : Q) : Z :=
  let e0 := (Z.log2 (Z.abs (Qnum q)) - Z.log2 (Zpos (Qden q)))%Z in
  if Qle_bool (pow2 e0) (Qabs q) then (e0 + 1)%Z else e0.

(** The exponent of the last place: 53 significant bits, and no exponent
    below that of the subnormal numbers. *)
Definition fexp (e : Z) : Z := Z.max (e - 53) (-1074).

(** The nearest integer, a tie going to the even one. *)
Definition rne (q : Q) : Z :=
  let f := Qfloor q in
  match Qcompare (q - inject_Z f) (1 # 2) with
  | Lt => f
  | Gt => (f + 1)%Z
  | Eq => if Z.even f then f else (f + 1)%Z
  end.

Definition round (q : Q) : Q :=
  if Qeq_bool q 0 then 0%Q
  else let e := fexp (mag q) in Qred (inject_Z (rne (q / pow2 e)) * pow2 e)%Q.

(** [a + b], [a - b], [a * b] and [Math.pow(a, n)] on doubles.
    [Math.pow] is taken to round correctly; the class applies it to 1.5 and
    a retry count below 10, where the power is itself a double. *)
Definition add (a b : Q) : Q := round (a + b).
Definition sub (a b : Q) : Q := round (a - b).
Definition mul (a b : Q) : Q := round (a * b).
Definition pow (a : Q) (n : nat) : Q := round (a ^ Z.of_nat n).

End Double.

(** ** Data model *)

(** Identities of the objects the manager juggles. *)
Abbreviation loc := nat (only parsing).       (* a CameraData object *)
Abbreviation elemId := nat (only parsing).    (* a <video> element *)
Abbreviation hlsId := nat (only parsing).     (* an Hls instance *)
Abbreviation timerId := nat (only parsing).   (* what setTimeout / setInterval return *)
Abbreviation waitId := nat (only parsing).    (* one activation of initNextCamera: its
                                             closure variables [resolved], [timeoutId] *)
Abbreviation promiseId := nat (only parsing). (* a promise returned by element.play() *)

(** A camera configuration [{url, name}]. *)
Record Camera := { url : string; name : string }.

(** JavaScript truthiness of the values the code tests. *)
Definition truthyStr (s : string) : bool := negb (String.eqb s "").
Definition truthyNum (q : Q) : bool := negb (Qeq_bool q 0%Q).
Definition truthyZ (z : Z) : bool := negb (z =? 0)%Z.

Definition startsWith (p s : string) : bool := String.prefix p s.
Definition endsWith (suffix s : string) : bool :=
  let n := String.length s in
  let m := String.length suffix in
  (m <=? n)%nat && String.eqb (String.substring (n - m) m s) suffix.
Fixpoint includesChar (c : Ascii.ascii) (s : string) : bool :=
  match s with
  | EmptyString => false
  | String c' s' => Ascii.eqb c c' || includesChar c s'
  end.

Definition Qltb (x y : Q) : bool := negb (Qle_bool y x).

Inductive VideoEvent := VStalled | VError | VWaiting | VPlaying.
Inductive HlsEvent :=
  MEDIA_ATTACHED | MANIFEST_PARSED | ERROR | FRAG_BUFFERED | LEVEL_LOADED.
Inductive ErrorType := NETWORK_ERROR | MEDIA_ERROR | OTHER_ERROR.

(** The payload an event hands to its listeners. *)
Inductive EventData :=
| DNone
| DManifest (levels : nat)
| DLevel (live : bool)
| DError (fatal : bool) (type : ErrorType).

#[global] Instance VideoEvent_eq_dec : EqDecision VideoEvent.
Proof. solve_decision. Defined.
#[global] Instance HlsEvent_eq_dec : EqDecision HlsEvent.
Proof. solve_decision. Defined.
#[global] Instance Camera_eq_dec : EqDecision Camera.
Proof. solve_decision. Defined.

(** Closures, with what each one captured. *)
Inductive Callback :=
(* startHealthMonitor *)
| CbHealthFirst
| CbHealthInterval
(* recoverCamera: the 1000 ms re-initialisation *)
| CbRecoverDelay (l : loc) (index : nat) (camera : Camera)
(* resumeAllStreams, HD mode: the 1000 ms health-monitor start *)
| CbResumeHealth
(* initNextCamera *)
| CbSeqPlaying (w : waitId) (index : nat) (e : elemId)
| CbSeqTimeout (w : waitId) (index : nat) (e : elemId)
| CbSeqNext
(* scheduleRetry *)
| CbRetry (l : loc) (index : nat) (camera : Camera)
| CbCooldown (l : loc) (index : nat) (camera : Camera)
(* createCameraElement *)
| CbStalled (l : loc) (index : nat)
| CbVideoError (l : loc) (index : nat)
| CbWaiting (l : loc)
| CbVideoPlaying (l : loc) (e : elemId)
(* initHlsStream *)
| CbMediaAttached (l : loc) (index : nat) (e : elemId)
| CbManifestParsed (l : loc) (index : nat) (e : elemId) (h : hlsId)
| CbHlsError (l : loc) (index : nat) (camera : Camera)
| CbFragBuffered (l : loc)
| CbLevelLoaded (l : loc) (index : nat) (e : elemId) (h : hlsId)
(* promise continuations *)
| CbPlayThen (l : loc) (index : nat)
| CbPlayCatchLog
| CbPlayCatchRetry (index : nat) (camera : Camera).

#[global] Instance Callback_eq_dec : EqDecision Callback.
Proof. solve_decision. Defined.

(** The [CameraData] typedef, with the two fields the class adds later
    ([initTimeout] in initNextCamera, [videoEventCleanups] in
    createCameraElement).  A cleanup closure is the listener it removes. *)
Record CameraData := {
  hls : option hlsId;
  element : elemId;
  retryTimeout : option timerId;
  retryCount : nat;
  isDestroyed : bool;
  eventCleanups : list (hlsId * HlsEvent * Callback);
  lastPlaybackTime : Q;
  lastCheckTime : Q;
  stallCount : nat;
  initTimeout : option timerId;
  videoEventCleanups : list (elemId * VideoEvent * Callback);
}.

(** A <video> element: what the manager reads from it and writes to it. *)
Record VideoElement := {
  vPaused : bool;
  vEnded : bool;
  vReadyState : nat;
  vError : option nat;
  vCurrentTime : Q;
  vSrc : option string;
  vPlaceholder : string;
  vPreload : option string;
  vListeners : list (VideoEvent * Callback);
}.

(** An Hls instance: its registered handlers, the [liveSyncPosition]
    property, and which of its methods currently throw: [hThrows] stands
    for [loadSource], [attachMedia] and the release calls [stopLoad],
    [detachMedia], [destroy]; [startLoad] and [recoverMediaError] have a
    flag each. *)
Record HlsEngine := {
  hHandlers : list (HlsEvent * Callback);
  hLiveSyncPosition : option Q;
  hThrows : bool;
  hStartLoadThrows : bool;
  hRecoverThrows : bool;
}.

Record Timer := {
  tId : timerId;
  tDue : Q;                 (* clock value at which it may fire *)
  tRepeat : option Q;       (* Some period for setInterval *)
  tCb : Callback;
}.

Record WaitCell := {
  wIndex : nat;
  wResolved : bool;
  wTimeoutId : option timerId;
}.

Record Promise := {
  pId : promiseId;
  pThen : option Callback;
  pCatch : option Callback;
}.

(** Calls made on the browser and the lines written to the console that
    the properties below talk about. *)
Inductive Effect :=
| ENewHls (h : hlsId)
| ELoadSource (h : hlsId) (u : string) (sep : string) (stamp : Q)
| EAttachMedia (h : hlsId) (e : elemId)
| EStopLoad (h : hlsId)
| EStartLoad (h : hlsId)
| EDetachMedia (h : hlsId)
| EDestroy (h : hlsId)
| ERecoverMediaError (h : hlsId)
| EPause (e : elemId)
| EPlay (e : elemId)
| ELoad (e : elemId)
| ESeek (e : elemId) (t : Q)
| ELogRecovering (index : nat)
| ELogNeedsRecovery (index : nat) (reason : string)
| ELogStall (index : nat) (count : nat)
| ELogSeqInit (index : nat)
| ELogSeqPlaying (index : nat)
| ELogSeqTimeout (index : nat)
| ELogSeqComplete
| ELogRetry (index : nat) (attempt : nat) (delay : Q)
| ELogMaxRetries (index : nat)
| ELogHealthStart
| ELogHealthStop.

Record GridConfig := { gColumns : Z; gRows : Z; numCameras : Z }.

(** The manager together with the part of the browser it talks to. *)
Record Mgr := {
  (* CameraManager fields *)
  cameras : list (nat * loc);          (* Map<number, CameraData>, in insertion order *)
  gridElement : bool;                  (* false: null *)
  config : GridConfig;
  cameraConfigs : list Camera;
  isPageVisible : bool;
  visibilityHandler : bool;            (* false: null *)
  isHDMode : bool;
  healthCheckInterval : option timerId;
  initQueue : list (nat * Camera);
  isInitializing : bool;
  (* objects *)
  heap : list CameraData;
  videos : list VideoElement;
  engines : list HlsEngine;
  waits : list WaitCell;
  gridChildren : list elemId;
  (* browser *)
  now : Q;                             (* Date.now() *)
  timers : list Timer;
  nextTimer : timerId;
  promises : list Promise;
  nextPromise : promiseId;
  rng : nat -> Q;                      (* successive results of Math.random() *)
  rngPos : nat;
  hlsSupported : bool;                 (* typeof Hls !== 'undefined' && Hls.isSupported() *)
  canPlayNative : bool;                (* element.canPlayType('application/vnd.apple.mpegurl') *)
  hlsFaulty : bool;                    (* a newly constructed Hls instance throws *)
  trace : list Effect;                 (* newest first *)
}.

(** Constants set once in the constructor. *)
Definition HEALTH_CHECK_INTERVAL_MS : Q := 5000%Q.
Definition MAX_STALL_COUNT : nat := 2.
Definition SEQUENTIAL_TIMEOUT_MS : Q := 15000%Q.
Definition maxRetryDelay : Q := 120000%Q.
Definition baseRetryDelay : Q := 3000%Q.
Definition maxRetryAttempts : nat := 10.

(** ** Field assignment

    [set_f v r] is the record [r] after [r.f = v]. *)

Definition set_hls (v : option hlsId) (r : CameraData) : CameraData :=
  {| hls := v; element := element r; retryTimeout := retryTimeout r; retryCount := retryCount r; isDestroyed := isDestroyed r; eventCleanups := eventCleanups r; lastPlaybackTime := lastPlaybackTime r; lastCheckTime := lastCheckTime r; stallCount := stallCount r; initTimeout := initTimeout r; videoEventCleanups := videoEventCleanups r |}.
Definition set_element (v : elemId) (r : CameraData) : CameraData :=
  {| hls := hls r; element := v; retryTimeout := retryTimeout r; retryCount := retryCount r; isDestroyed := isDestroyed r; eventCleanups := eventCleanups r; lastPlaybackTime := lastPlaybackTime r; lastCheckTime := lastCheckTime r; stallCount := stallCount r; initTimeout := initTimeout r; videoEventCleanups := videoEventCleanups r |}.
Definition set_retryTimeout (v : option timerId) (r : CameraData) : CameraData :=
  {| hls := hls r; element := element r; retryTimeout := v; retryCount := retryCount r; isDestroyed := isDestroyed r; eventCleanups := eventCleanups r; lastPlaybackTime := lastPlaybackTime r; lastCheckTime := lastCheckTime r; stallCount := stallCount r; initTimeout := initTimeout r; videoEventCleanups := videoEventCleanups r |}.
Definition set_retryCount (v : nat) (r : CameraData) : CameraData :=
  {| hls := hls r; element := element r; retryTimeout := retryTimeout r; retryCount := v; isDestroyed := isDestroyed r; eventCleanups := eventCleanups r; lastPlaybackTime := lastPlaybackTime r; lastCheckTime := lastCheckTime r; stallCount := stallCount r; initTimeout := initTimeout r; videoEventCleanups := videoEventCleanups r |}.
Definition set_isDestroyed (v : bool) (r : CameraData) : CameraData :=
  {| hls := hls r; element := element r; retryTimeout := retryTimeout r; retryCount := retryCount r; isDestroyed := v; eventCleanups := eventCleanups r; lastPlaybackTime := lastPlaybackTime r; lastCheckTime := lastCheckTime r; stallCount := stallCount r; initTimeout := initTimeout r; videoEventCleanups := videoEventCleanups r |}.
Definition set_eventCleanups (v : list (hlsId * HlsEvent * Callback)) (r : CameraData) : CameraData :=
  {| hls := hls r; element := element r; retryTimeout := retryTimeout r; retryCount := retryCount r; isDestroyed := isDestroyed r; eventCleanups := v; lastPlaybackTime := lastPlaybackTime r; lastCheckTime := lastCheckTime r; stallCount := stallCount r; initTimeout := initTimeout r; videoEventCleanups := videoEventCleanups r |}.
Definition set_lastPlaybackTime (v : Q) (r : CameraData) : CameraData :=
  {| hls := hls r; element := element r; retryTimeout := retryTimeout r; retryCount := retryCount r; isDestroyed := isDestroyed r; eventCleanups := eventCleanups r; lastPlaybackTime := v; lastCheckTime := lastCheckTime r; stallCount := stallCount r; initTimeout := initTimeout r; videoEventCleanups := videoEventCleanups r |}.
Definition set_lastCheckTime (v : Q) (r : CameraData) : CameraData :=
  {| hls := hls r; element := element r; retryTimeout := retryTimeout r; retryCount := retryCount r; isDestroyed := isDestroyed r; eventCleanups := eventCleanups r; lastPlaybackTime := lastPlaybackTime r; lastCheckTime := v; stallCount := stallCount r; initTimeout := initTimeout r; videoEventCleanups := videoEventCleanups r |}.
Definition set_stallCount (v : nat) (r : CameraData) : CameraData :=
  {| hls := hls r; element := element r; retryTimeout := retryTimeout r; retryCount := retryCount r; isDestroyed := isDestroyed r; eventCleanups := eventCleanups r; lastPlaybackTime := lastPlaybackTime r; lastCheckTime := lastCheckTime r; stallCount := v; initTimeout := initTimeout r; videoEventCleanups := videoEventCleanups r |}.
Definition set_initTimeout (v : option timerId) (r : CameraData) : CameraData :=
  {| hls := hls r; element := element r; retryTimeout := retryTimeout r; retryCount := retryCount r; isDestroyed := isDestroyed r; eventCleanups := eventCleanups r; lastPlaybackTime := lastPlaybackTime r; lastCheckTime := lastCheckTime r; stallCount := stallCount r; initTimeout := v; videoEventCleanups := videoEventCleanups r |}.
Definition set_videoEventCleanups (v : list (elemId * VideoEvent * Callback)) (r : CameraData) : CameraData :=
  {| hls := hls r; element := element r; retryTimeout := retryTimeout r; retryCount := retryCount r; isDestroyed := isDestroyed r; eventCleanups := eventCleanups r; lastPlaybackTime := lastPlaybackTime r; lastCheckTime := lastCheckTime r; stallCount := stallCount r; initTimeout := initTimeout r; videoEventCleanups := v |}.

Definition set_vPaused (v : bool) (r : VideoElement) : VideoElement :=
  {| vPaused := v; vEnded := vEnded r; vReadyState := vReadyState r; vError := vError r; vCurrentTime := vCurrentTime r; vSrc := vSrc r; vPlaceholder := vPlaceholder r; vPreload := vPreload r; vListeners := vListeners r |}.
Definition set_vEnded (v : bool) (r : VideoElement) : VideoElement :=
  {| vPaused := vPaused r; vEnded := v; vReadyState := vReadyState r; vError := vError r; vCurrentTime := vCurrentTime r; vSrc := vSrc r; vPlaceholder := vPlaceholder r; vPreload := vPreload r; vListeners := vListeners r |}.
Definition set_vReadyState (v : nat) (r : VideoElement) : VideoElement :=
  {| vPaused := vPaused r; vEnded := vEnded r; vReadyState := v; vError := vError r; vCurrentTime := vCurrentTime r; vSrc := vSrc r; vPlaceholder := vPlaceholder r; vPreload := vPreload r; vListeners := vListeners r |}.
Definition set_vError (v : option nat) (r : VideoElement) : VideoElement :=
  {| vPaused := vPaused r; vEnded := vEnded r; vReadyState := vReadyState r; vError := v; vCurrentTime := vCurrentTime r; vSrc := vSrc r; vPlaceholder := vPlaceholder r; vPreload := vPreload r; vListeners := vListeners r |}.
Definition set_vCurrentTime (v : Q) (r : VideoElement) : VideoElement :=
  {| vPaused := vPaused r; vEnded := vEnded r; vReadyState := vReadyState r; vError := vError r; vCurrentTime := v; vSrc := vSrc r; vPlaceholder := vPlaceholder r; vPreload := vPreload r; vListeners := vListeners r |}.
Definition set_vSrc (v : option string) (r : VideoElement) : VideoElement :=
  {| vPaused := vPaused r; vEnded := vEnded r; vReadyState := vReadyState r; vError := vError r; vCurrentTime := vCurrentTime r; vSrc := v; vPlaceholder := vPlaceholder r; vPreload := vPreload r; vListeners := vListeners r |}.
Definition set_vPlaceholder (v : string) (r : VideoElement) : VideoElement :=
  {| vPaused := vPaused r; vEnded := vEnded r; vReadyState := vReadyState r; vError := vError r; vCurrentTime := vCurrentTime r; vSrc := vSrc r; vPlaceholder := v; vPreload := vPreload r; vListeners := vListeners r |}.
Definition set_vPreload (v : option string) (r : VideoElement) : VideoElement :=
  {| vPaused := vPaused r; vEnded := vEnded r; vReadyState := vReadyState r; vError := vError r; vCurrentTime := vCurrentTime r; vSrc := vSrc r; vPlaceholder := vPlaceholder r; vPreload := v; vListeners := vListeners r |}.
Definition set_vListeners (v : list (VideoEvent * Callback)) (r : VideoElement) : VideoElement :=
  {| vPaused := vPaused r; vEnded := vEnded r; vReadyState := vReadyState r; vError := vError r; vCurrentTime := vCurrentTime r; vSrc := vSrc r; vPlaceholder := vPlaceholder r; vPreload := vPreload r; vListeners := v |}.

Definition set_hHandlers (v : list (HlsEvent * Callback)) (r : HlsEngine) : HlsEngine :=
  {| hHandlers := v; hLiveSyncPosition := hLiveSyncPosition r; hThrows := hThrows r; hStartLoadThrows := hStartLoadThrows r; hRecoverThrows := hRecoverThrows r |}.
Definition set_hLiveSyncPosition (v : option Q) (r : HlsEngine) : HlsEngine :=
  {| hHandlers := hHandlers r; hLiveSyncPosition := v; hThrows := hThrows r; hStartLoadThrows := hStartLoadThrows r; hRecoverThrows := hRecoverThrows r |}.
Definition set_hThrows (v : bool) (r : HlsEngine) : HlsEngine :=
  {| hHandlers := hHandlers r; hLiveSyncPosition := hLiveSyncPosition r; hThrows := v; hStartLoadThrows := hStartLoadThrows r; hRecoverThrows := hRecoverThrows r |}.
Definition set_hStartLoadThrows (v : bool) (r : HlsEngine) : HlsEngine :=
  {| hHandlers := hHandlers r; hLiveSyncPosition := hLiveSyncPosition r; hThrows := hThrows r; hStartLoadThrows := v; hRecoverThrows := hRecoverThrows r |}.
Definition set_hRecoverThrows (v : bool) (r : HlsEngine) : HlsEngine :=
  {| hHandlers := hHandlers r; hLiveSyncPosition := hLiveSyncPosition r; hThrows := hThrows r; hStartLoadThrows := hStartLoadThrows r; hRecoverThrows := v |}.

Definition set_wIndex (v : nat) (r : WaitCell) : WaitCell :=
  {| wIndex := v; wResolved := wResolved r; wTimeoutId := wTimeoutId r |}.
Definition set_wResolved (v : bool) (r : WaitCell) : WaitCell :=
  {| wIndex := wIndex r; wResolved := v; wTimeoutId := wTimeoutId r |}.
Definition set_wTimeoutId (v : option timerId) (r : WaitCell) : WaitCell :=
  {| wIndex := wIndex r; wResolved := wResolved r; wTimeoutId := v |}.

Definition set_cameras (v : list (nat * loc)) (r : Mgr) : Mgr :=
  {| cameras := v; gridElement := gridElement r; config := config r; cameraConfigs := cameraConfigs r; isPageVisible := isPageVisible r; visibilityHandler := visibilityHandler r; isHDMode := isHDMode r; healthCheckInterval := healthCheckInterval r; initQueue := initQueue r; isInitializing := isInitializing r; heap := heap r; videos := videos r; engines := engines r; waits := waits r; gridChildren := gridChildren r; now := now r; timers := timers r; nextTimer := nextTimer r; promises := promises r; nextPromise := nextPromise r; rng := rng r; rngPos := rngPos r; hlsSupported := hlsSupported r; canPlayNative := canPlayNative r; hlsFaulty := hlsFaulty r; trace := trace r |}.
Definition set_gridElement (v : bool) (r : Mgr) : Mgr :=
  {| cameras := cameras r; gridElement := v; config := config r; cameraConfigs := cameraConfigs r; isPageVisible := isPageVisible r; visibilityHandler := visibilityHandler r; isHDMode := isHDMode r; healthCheckInterval := healthCheckInterval r; initQueue := initQueue r; isInitializing := isInitializing r; heap := heap r; videos := videos r; engines := engines r; waits := waits r; gridChildren := gridChildren r; now := now r; timers := timers r; nextTimer := nextTimer r; promises := promises r; nextPromise := nextPromise r; rng := rng r; rngPos := rngPos r; hlsSupported := hlsSupported r; canPlayNative := canPlayNative r; hlsFaulty := hlsFaulty r; trace := trace r |}.
Definition set_config (v : GridConfig) (r : Mgr) : Mgr :=
  {| cameras := cameras r; gridElement := gridElement r; config := v; cameraConfigs := cameraConfigs r; isPageVisible := isPageVisible r; visibilityHandler := visibilityHandler r; isHDMode := isHDMode r; healthCheckInterval := healthCheckInterval r; initQueue := initQueue r; isInitializing := isInitializing r; heap := heap r; videos := videos r; engines := engines r; waits := waits r; gridChildren := gridChildren r; now := now r; timers := timers r; nextTimer := nextTimer r; promises := promises r; nextPromise := nextPromise r; rng := rng r; rngPos := rngPos r; hlsSupported := hlsSupported r; canPlayNative := canPlayNative r; hlsFaulty := hlsFaulty r; trace := trace r |}.
Definition set_cameraConfigs (v : list Camera) (r : Mgr) : Mgr :=
  {| cameras := cameras r; gridElement := gridElement r; config := config r; cameraConfigs := v; isPageVisible := isPageVisible r; visibilityHandler := visibilityHandler r; isHDMode := isHDMode r; healthCheckInterval := healthCheckInterval r; initQueue := initQueue r; isInitializing := isInitializing r; heap := heap r; videos := videos r; engines := engines r; waits := waits r; gridChildren := gridChildren r; now := now r; timers := timers r; nextTimer := nextTimer r; promises := promises r; nextPromise := nextPromise r; rng := rng r; rngPos := rngPos r; hlsSupported := hlsSupported r; canPlayNative := canPlayNative r; hlsFaulty := hlsFaulty r; trace := trace r |}.
Definition set_isPageVisible (v : bool) (r : Mgr) : Mgr :=
  {| cameras := cameras r; gridElement := gridElement r; config := config r; cameraConfigs := cameraConfigs r; isPageVisible := v; visibilityHandler := visibilityHandler r; isHDMode := isHDMode r; healthCheckInterval := healthCheckInterval r; initQueue := initQueue r; isInitializing := isInitializing r; heap := heap r; videos := videos r; engines := engines r; waits := waits r; gridChildren := gridChildren r; now := now r; timers := timers r; nextTimer := nextTimer r; promises := promises r; nextPromise := nextPromise r; rng := rng r; rngPos := rngPos r; hlsSupported := hlsSupported r; canPlayNative := canPlayNative r; hlsFaulty := hlsFaulty r; trace := trace r |}.
Definition set_visibilityHandler (v : bool) (r : Mgr) : Mgr :=
  {| cameras := cameras r; gridElement := gridElement r; config := config r; cameraConfigs := cameraConfigs r; isPageVisible := isPageVisible r; visibilityHandler := v; isHDMode := isHDMode r; healthCheckInterval := healthCheckInterval r; initQueue := initQueue r; isInitializing := isInitializing r; heap := heap r; videos := videos r; engines := engines r; waits := waits r; gridChildren := gridChildren r; now := now r; timers := timers r; nextTimer := nextTimer r; promises := promises r; nextPromise := nextPromise r; rng := rng r; rngPos := rngPos r; hlsSupported := hlsSupported r; canPlayNative := canPlayNative r; hlsFaulty := hlsFaulty r; trace := trace r |}.
Definition set_isHDMode (v : bool) (r : Mgr) : Mgr :=
  {| cameras := cameras r; gridElement := gridElement r; config := config r; cameraConfigs := cameraConfigs r; isPageVisible := isPageVisible r; visibilityHandler := visibilityHandler r; isHDMode := v; healthCheckInterval := healthCheckInterval r; initQueue := initQueue r; isInitializing := isInitializing r; heap := heap r; videos := videos r; engines := engines r; waits := waits r; gridChildren := gridChildren r; now := now r; timers := timers r; nextTimer := nextTimer r; promises := promises r; nextPromise := nextPromise r; rng := rng r; rngPos := rngPos r; hlsSupported := hlsSupported r; canPlayNative := canPlayNative r; hlsFaulty := hlsFaulty r; trace := trace r |}.
Definition set_healthCheckInterval (v : option timerId) (r : Mgr) : Mgr :=
  {| cameras := cameras r; gridElement := gridElement r; config := config r; cameraConfigs := cameraConfigs r; isPageVisible := isPageVisible r; visibilityHandler := visibilityHandler r; isHDMode := isHDMode r; healthCheckInterval := v; initQueue := initQueue r; isInitializing := isInitializing r; heap := heap r; videos := videos r; engines := engines r; waits := waits r; gridChildren := gridChildren r; now := now r; timers := timers r; nextTimer := nextTimer r; promises := promises r; nextPromise := nextPromise r; rng := rng r; rngPos := rngPos r; hlsSupported := hlsSupported r; canPlayNative := canPlayNative r; hlsFaulty := hlsFaulty r; trace := trace r |}.
Definition set_initQueue (v : list (nat * Camera)) (r : Mgr) : Mgr :=
  {| cameras := cameras r; gridElement := gridElement r; config := config r; cameraConfigs := cameraConfigs r; isPageVisible := isPageVisible r; visibilityHandler := visibilityHandler r; isHDMode := isHDMode r; healthCheckInterval := healthCheckInterval r; initQueue := v; isInitializing := isInitializing r; heap := heap r; videos := videos r; engines := engines r; waits := waits r; gridChildren := gridChildren r; now := now r; timers := timers r; nextTimer := nextTimer r; promises := promises r; nextPromise := nextPromise r; rng := rng r; rngPos := rngPos r; hlsSupported := hlsSupported r; canPlayNative := canPlayNative r; hlsFaulty := hlsFaulty r; trace := trace r |}.
Definition set_isInitializing (v : bool) (r : Mgr) : Mgr :=
  {| cameras := cameras r; gridElement := gridElement r; config := config r; cameraConfigs := cameraConfigs r; isPageVisible := isPageVisible r; visibilityHandler := visibilityHandler r; isHDMode := isHDMode r; healthCheckInterval := healthCheckInterval r; initQueue := initQueue r; isInitializing := v; heap := heap r; videos := videos r; engines := engines r; waits := waits r; gridChildren := gridChildren r; now := now r; timers := timers r; nextTimer := nextTimer r; promises := promises r; nextPromise := nextPromise r; rng := rng r; rngPos := rngPos r; hlsSupported := hlsSupported r; canPlayNative := canPlayNative r; hlsFaulty := hlsFaulty r; trace := trace r |}.
Definition set_heap (v : list CameraData) (r : Mgr) : Mgr :=
  {| cameras := cameras r; gridElement := gridElement r; config := config r; cameraConfigs := cameraConfigs r; isPageVisible := isPageVisible r; visibilityHandler := visibilityHandler r; isHDMode := isHDMode r; healthCheckInterval := healthCheckInterval r; initQueue := initQueue r; isInitializing := isInitializing r; heap := v; videos := videos r; engines := engines r; waits := waits r; gridChildren := gridChildren r; now := now r; timers := timers r; nextTimer := nextTimer r; promises := promises r; nextPromise := nextPromise r; rng := rng r; rngPos := rngPos r; hlsSupported := hlsSupported r; canPlayNative := canPlayNative r; hlsFaulty := hlsFaulty r; trace := trace r |}.
Definition set_videos (v : list VideoElement) (r : Mgr) : Mgr :=
  {| cameras := cameras r; gridElement := gridElement r; config := config r; cameraConfigs := cameraConfigs r; isPageVisible := isPageVisible r; visibilityHandler := visibilityHandler r; isHDMode := isHDMode r; healthCheckInterval := healthCheckInterval r; initQueue := initQueue r; isInitializing := isInitializing r; heap := heap r; videos := v; engines := engines r; waits := waits r; gridChildren := gridChildren r; now := now r; timers := timers r; nextTimer := nextTimer r; promises := promises r; nextPromise := nextPromise r; rng := rng r; rngPos := rngPos r; hlsSupported := hlsSupported r; canPlayNative := canPlayNative r; hlsFaulty := hlsFaulty r; trace := trace r |}.
Definition set_engines (v : list HlsEngine) (r : Mgr) : Mgr :=
  {| cameras := cameras r; gridElement := gridElement r; config := config r; cameraConfigs := cameraConfigs r; isPageVisible := isPageVisible r; visibilityHandler := visibilityHandler r; isHDMode := isHDMode r; healthCheckInterval := healthCheckInterval r; initQueue := initQueue r; isInitializing := isInitializing r; heap := heap r; videos := videos r; engines := v; waits := waits r; gridChildren := gridChildren r; now := now r; timers := timers r; nextTimer := nextTimer r; promises := promises r; nextPromise := nextPromise r; rng := rng r; rngPos := rngPos r; hlsSupported := hlsSupported r; canPlayNative := canPlayNative r; hlsFaulty := hlsFaulty r; trace := trace r |}.
Definition set_waits (v : list WaitCell) (r : Mgr) : Mgr :=
  {| cameras := cameras r; gridElement := gridElement r; config := config r; cameraConfigs := cameraConfigs r; isPageVisible := isPageVisible r; visibilityHandler := visibilityHandler r; isHDMode := isHDMode r; healthCheckInterval := healthCheckInterval r; initQueue := initQueue r; isInitializing := isInitializing r; heap := heap r; videos := videos r; engines := engines r; waits := v; gridChildren := gridChildren r; now := now r; timers := timers r; nextTimer := nextTimer r; promises := promises r; nextPromise := nextPromise r; rng := rng r; rngPos := rngPos r; hlsSupported := hlsSupported r; canPlayNative := canPlayNative r; hlsFaulty := hlsFaulty r; trace := trace r |}.
Definition set_gridChildren (v : list elemId) (r : Mgr) : Mgr :=
  {| cameras := cameras r; gridElement := gridElement r; config := config r; cameraConfigs := cameraConfigs r; isPageVisible := isPageVisible r; visibilityHandler := visibilityHandler r; isHDMode := isHDMode r; healthCheckInterval := healthCheckInterval r; initQueue := initQueue r; isInitializing := isInitializing r; heap := heap r; videos := videos r; engines := engines r; waits := waits r; gridChildren := v; now := now r; timers := timers r; nextTimer := nextTimer r; promises := promises r; nextPromise := nextPromise r; rng := rng r; rngPos := rngPos r; hlsSupported := hlsSupported r; canPlayNative := canPlayNative r; hlsFaulty := hlsFaulty r; trace := trace r |}.
Definition set_now (v : Q) (r : Mgr) : Mgr :=
  {| cameras := cameras r; gridElement := gridElement r; config := config r; cameraConfigs := cameraConfigs r; isPageVisible := isPageVisible r; visibilityHandler := visibilityHandler r; isHDMode := isHDMode r; healthCheckInterval := healthCheckInterval r; initQueue := initQueue r; isInitializing := isInitializing r; heap := heap r; videos := videos r; engines := engines r; waits := waits r; gridChildren := gridChildren r; now := v; timers := timers r; nextTimer := nextTimer r; promises := promises r; nextPromise := nextPromise r; rng := rng r; rngPos := rngPos r; hlsSupported := hlsSupported r; canPlayNative := canPlayNative r; hlsFaulty := hlsFaulty r; trace := trace r |}.
Definition set_timers (v : list Timer) (r : Mgr) : Mgr :=
  {| cameras := cameras r; gridElement := gridElement r; config := config r; cameraConfigs := cameraConfigs r; isPageVisible := isPageVisible r; visibilityHandler := visibilityHandler r; isHDMode := isHDMode r; healthCheckInterval := healthCheckInterval r; initQueue := initQueue r; isInitializing := isInitializing r; heap := heap r; videos := videos r; engines := engines r; waits := waits r; gridChildren := gridChildren r; now := now r; timers := v; nextTimer := nextTimer r; promises := promises r; nextPromise := nextPromise r; rng := rng r; rngPos := rngPos r; hlsSupported := hlsSupported r; canPlayNative := canPlayNative r; hlsFaulty := hlsFaulty r; trace := trace r |}.
Definition set_nextTimer (v : timerId) (r : Mgr) : Mgr :=
  {| cameras := cameras r; gridElement := gridElement r; config := config r; cameraConfigs := cameraConfigs r; isPageVisible := isPageVisible r; visibilityHandler := visibilityHandler r; isHDMode := isHDMode r; healthCheckInterval := healthCheckInterval r; initQueue := initQueue r; isInitializing := isInitializing r; heap := heap r; videos := videos r; engines := engines r; waits := waits r; gridChildren := gridChildren r; now := now r; timers := timers r; nextTimer := v; promises := promises r; nextPromise := nextPromise r; rng := rng r; rngPos := rngPos r; hlsSupported := hlsSupported r; canPlayNative := canPlayNative r; hlsFaulty := hlsFaulty r; trace := trace r |}.
Definition set_promises (v : list Promise) (r : Mgr) : Mgr :=
  {| cameras := cameras r; gridElement := gridElement r; config := config r; cameraConfigs := cameraConfigs r; isPageVisible := isPageVisible r; visibilityHandler := visibilityHandler r; isHDMode := isHDMode r; healthCheckInterval := healthCheckInterval r; initQueue := initQueue r; isInitializing := isInitializing r; heap := heap r; videos := videos r; engines := engines r; waits := waits r; gridChildren := gridChildren r; now := now r; timers := timers r; nextTimer := nextTimer r; promises := v; nextPromise := nextPromise r; rng := rng r; rngPos := rngPos r; hlsSupported := hlsSupported r; canPlayNative := canPlayNative r; hlsFaulty := hlsFaulty r; trace := trace r |}.
Definition set_nextPromise (v : promiseId) (r : Mgr) : Mgr :=
  {| cameras := cameras r; gridElement := gridElement r; config := config r; cameraConfigs := cameraConfigs r; isPageVisible := isPageVisible r; visibilityHandler := visibilityHandler r; isHDMode := isHDMode r; healthCheckInterval := healthCheckInterval r; initQueue := initQueue r; isInitializing := isInitializing r; heap := heap r; videos := videos r; engines := engines r; waits := waits r; gridChildren := gridChildren r; now := now r; timers := timers r; nextTimer := nextTimer r; promises := promises r; nextPromise := v; rng := rng r; rngPos := rngPos r; hlsSupported := hlsSupported r; canPlayNative := canPlayNative r; hlsFaulty := hlsFaulty r; trace := trace r |}.
Definition set_rng (v : nat -> Q) (r : Mgr) : Mgr :=
  {| cameras := cameras r; gridElement := gridElement r; config := config r; cameraConfigs := cameraConfigs r; isPageVisible := isPageVisible r; visibilityHandler := visibilityHandler r; isHDMode := isHDMode r; healthCheckInterval := healthCheckInterval r; initQueue := initQueue r; isInitializing := isInitializing r; heap := heap r; videos := videos r; engines := engines r; waits := waits r; gridChildren := gridChildren r; now := now r; timers := timers r; nextTimer := nextTimer r; promises := promises r; nextPromise := nextPromise r; rng := v; rngPos := rngPos r; hlsSupported := hlsSupported r; canPlayNative := canPlayNative r; hlsFaulty := hlsFaulty r; trace := trace r |}.
Definition set_rngPos (v : nat) (r : Mgr) : Mgr :=
  {| cameras := cameras r; gridElement := gridElement r; config := config r; cameraConfigs := cameraConfigs r; isPageVisible := isPageVisible r; visibilityHandler := visibilityHandler r; isHDMode := isHDMode r; healthCheckInterval := healthCheckInterval r; initQueue := initQueue r; isInitializing := isInitializing r; heap := heap r; videos := videos r; engines := engines r; waits := waits r; gridChildren := gridChildren r; now := now r; timers := timers r; nextTimer := nextTimer r; promises := promises r; nextPromise := nextPromise r; rng := rng r; rngPos := v; hlsSupported := hlsSupported r; canPlayNative := canPlayNative r; hlsFaulty := hlsFaulty r; trace := trace r |}.
Definition set_hlsSupported (v : bool) (r : Mgr) : Mgr :=
  {| cameras := cameras r; gridElement := gridElement r; config := config r; cameraConfigs := cameraConfigs r; isPageVisible := isPageVisible r; visibilityHandler := visibilityHandler r; isHDMode := isHDMode r; healthCheckInterval := healthCheckInterval r; initQueue := initQueue r; isInitializing := isInitializing r; heap := heap r; videos := videos r; engines := engines r; waits := waits r; gridChildren := gridChildren r; now := now r; timers := timers r; nextTimer := nextTimer r; promises := promises r; nextPromise := nextPromise r; rng := rng r; rngPos := rngPos r; hlsSupported := v; canPlayNative := canPlayNative r; hlsFaulty := hlsFaulty r; trace := trace r |}.
Definition set_canPlayNative (v : bool) (r : Mgr) : Mgr :=
  {| cameras := cameras r; gridElement := gridElement r; config := config r; cameraConfigs := cameraConfigs r; isPageVisible := isPageVisible r; visibilityHandler := visibilityHandler r; isHDMode := isHDMode r; healthCheckInterval := healthCheckInterval r; initQueue := initQueue r; isInitializing := isInitializing r; heap := heap r; videos := videos r; engines := engines r; waits := waits r; gridChildren := gridChildren r; now := now r; timers := timers r; nextTimer := nextTimer r; promises := promises r; nextPromise := nextPromise r; rng := rng r; rngPos := rngPos r; hlsSupported := hlsSupported r; canPlayNative := v; hlsFaulty := hlsFaulty r; trace := trace r |}.
Definition set_hlsFaulty (v : bool) (r : Mgr) : Mgr :=
  {| cameras := cameras r; gridElement := gridElement r; config := config r; cameraConfigs := cameraConfigs r; isPageVisible := isPageVisible r; visibilityHandler := visibilityHandler r; isHDMode := isHDMode r; healthCheckInterval := healthCheckInterval r; initQueue := initQueue r; isInitializing := isInitializing r; heap := heap r; videos := videos r; engines := engines r; waits := waits r; gridChildren := gridChildren r; now := now r; timers := timers r; nextTimer := nextTimer r; promises := promises r; nextPromise := nextPromise r; rng := rng r; rngPos := rngPos r; hlsSupported := hlsSupported r; canPlayNative := canPlayNative r; hlsFaulty := v; trace := trace r |}.
Definition set_trace (v : list Effect) (r : Mgr) : Mgr :=
  {| cameras := cameras r; gridElement := gridElement r; config := config r; cameraConfigs := cameraConfigs r; isPageVisible := isPageVisible r; visibilityHandler := visibilityHandler r; isHDMode := isHDMode r; healthCheckInterval := healthCheckInterval r; initQueue := initQueue r; isInitializing := isInitializing r; heap := heap r; videos := videos r; engines := engines r; waits := waits r; gridChildren := gridChildren r; now := now r; timers := timers r; nextTimer := nextTimer r; promises := promises r; nextPromise := nextPromise r; rng := rng r; rngPos := rngPos r; hlsSupported := hlsSupported r; canPlayNative := canPlayNative r; hlsFaulty := hlsFaulty r; trace := v |}.

(** ** The browser side *)

Definition emit (e : Effect) (s : Mgr) : Mgr := set_trace (e :: trace s) s.

Definition updCam (l : loc) (f : CameraData -> CameraData) (s : Mgr) : Mgr :=
  set_heap (alter f l (heap s)) s.
Definition updVideo (e : elemId) (f : VideoElement -> VideoElement) (s : Mgr) : Mgr :=
  set_videos (alter f e (videos s)) s.
Definition updEngine (h : hlsId) (f : HlsEngine -> HlsEngine) (s : Mgr) : Mgr :=
  set_engines (alter f h (engines s)) s.
Definition updWait (w : waitId) (f : WaitCell -> WaitCell) (s : Mgr) : Mgr :=
  set_waits (alter f w (waits s)) s.

(** [this.cameras]: a JavaScript Map keeps its keys in insertion order and
    [set] on a present key replaces the value in place. *)
Fixpoint Map_get (m : list (nat * loc)) (k : nat) : option loc :=
  match m with
  | [] => None
  | (k', v) :: m' => if Nat.eqb k k' then Some v else Map_get m' k
  end.

Fixpoint Map_set (k : nat) (v : loc) (m : list (nat * loc)) : list (nat * loc) :=
  match m with
  | [] => [(k, v)]
  | (k', v') :: m' =>
      if Nat.eqb k k' then (k, v) :: m' else (k', v') :: Map_set k v m'
  end.

Definition setTimeout (cb : Callback) (delay : Q) (s : Mgr) : timerId * Mgr :=
  let id := nextTimer s in
  (id, set_nextTimer (S id)
         (set_timers (timers s ++
            [{| tId := id; tDue := (now s + delay)%Q; tRepeat := None; tCb := cb |}]) s)).

Definition setInterval (cb : Callback) (period : Q) (s : Mgr) : timerId * Mgr :=
  let id := nextTimer s in
  (id, set_nextTimer (S id)
         (set_timers (timers s ++
            [{| tId := id; tDue := (now s + period)%Q; tRepeat := Some period; tCb := cb |}]) s)).

Definition clearTimeout (id : timerId) (s : Mgr) : Mgr :=
  set_timers (List.filter (fun t => negb (Nat.eqb (tId t) id)) (timers s)) s.

Definition clearInterval := clearTimeout.

Definition addEventListener (e : elemId) (evt : VideoEvent) (cb : Callback) (s : Mgr) : Mgr :=
  updVideo e (fun v => set_vListeners (vListeners v ++ [(evt, cb)]) v) s.

Definition removeEventListener (e : elemId) (evt : VideoEvent) (cb : Callback) (s : Mgr) : Mgr :=
  updVideo e (fun v =>
    set_vListeners (List.filter (fun p => negb (bool_decide (p = (evt, cb)))) (vListeners v)) v) s.

Definition hlsOn (h : hlsId) (evt : HlsEvent) (cb : Callback) (s : Mgr) : Mgr :=
  updEngine h (fun en => set_hHandlers (hHandlers en ++ [(evt, cb)]) en) s.

Definition hlsOff (h : hlsId) (evt : HlsEvent) (cb : Callback) (s : Mgr) : Mgr :=
  updEngine h (fun en =>
    set_hHandlers (List.filter (fun p => negb (bool_decide (p = (evt, cb)))) (hHandlers en)) en) s.

Definition engineThrows (s : Mgr) (h : hlsId) : bool :=
  match engines s !! h with
  | Some en => hThrows en
  | None => false
  end.

Definition startLoadThrows (s : Mgr) (h : hlsId) : bool :=
  match engines s !! h with
  | Some en => hStartLoadThrows en
  | None => false
  end.

Definition recoverThrows (s : Mgr) (h : hlsId) : bool :=
  match engines s !! h with
  | Some en => hRecoverThrows en
  | None => false
  end.

(** [element.pause()]: the element reports paused from then on. *)
Definition pause (e : elemId) (s : Mgr) : Mgr :=
  emit (EPause e) (updVideo e (set_vPaused true) s).

(** [element.play()] returns a promise; which of its continuations runs,
    and what the element reports afterwards, is the browser's business. *)
Definition play (e : elemId) (onThen onCatch : option Callback) (s : Mgr) : Mgr :=
  let p := nextPromise s in
  emit (EPlay e)
    (set_nextPromise (S p)
       (set_promises (promises s ++ [{| pId := p; pThen := onThen; pCatch := onCatch |}]) s)).

Definition setSrc (e : elemId) (u : option string) (s : Mgr) : Mgr :=
  updVideo e (set_vSrc u) s.

(** [element.pause(); element.removeAttribute('src'); element.load()] *)
Definition resetElement (e : elemId) (s : Mgr) : Mgr :=
  emit (ELoad e) (setSrc e None (pause e s)).

(** [Math.random()] *)
Definition random (s : Mgr) : Q * Mgr :=
  (rng s (rngPos s), set_rngPos (S (rngPos s)) s).

Definition newline : string := String (Ascii.ascii_of_nat 10) EmptyString.

Definition cameraLabel (index : nat) : string := "Camera " +:+ pretty (index + 1)%nat.

(** ** CameraManager methods *)

Definition stopHealthMonitor (s : Mgr) : Mgr :=
  match healthCheckInterval s with
  | Some id => emit ELogHealthStop (set_healthCheckInterval None (clearInterval id s))
  | None => s
  end.

Definition startHealthMonitor (s : Mgr) : Mgr :=
  let s := stopHealthMonitor s in
  let s := emit ELogHealthStart s in
  let '(_, s) := setTimeout CbHealthFirst 2000%Q s in
  let '(id, s) := setInterval CbHealthInterval HEALTH_CHECK_INTERVAL_MS s in
  set_healthCheckInterval (Some id) s.

(** [cleanupHls(cameraData)]: the argument is the session object itself. *)
Definition cleanupHls (l : loc) (s : Mgr) : Mgr :=
  match heap s !! l with
  | None => s
  | Some cd =>
      let s := foldl (fun s '(h, evt, cb) => hlsOff h evt cb s) s (eventCleanups cd) in
      let s := updCam l (set_eventCleanups []) s in
      match hls cd with
      | Some h =>
          let s :=
            if engineThrows s h then s
            else emit (EDestroy h) (emit (EDetachMedia h) (emit (EStopLoad h) s)) in
          updCam l (set_hls None) s
      | None => s
      end
  end.

Definition setPlaceholder (index : nat) (message : string) (s : Mgr) : Mgr :=
  match Map_get (cameras s) index with
  | None => s
  | Some l =>
      match heap s !! l with
      | None => s
      | Some cd =>
          if isDestroyed cd then s
          else
            let nm :=
              match cameraConfigs s !! index with
              | Some camera => if truthyStr (name camera) then name camera else cameraLabel index
              | None => cameraLabel index
              end in
            let placeholder := if truthyStr message then nm +:+ newline +:+ message else nm in
            updVideo (element cd) (set_vPlaceholder placeholder) s
      end
  end.

(** [Math.min(baseDelay + jitter, maxRetryDelay)] with
    [baseDelay = baseRetryDelay * Math.pow(1.5, retryCount)] and
    [jitter = Math.random() * 1000]; [r] is the draw. *)
Definition retryDelay (n : nat) (r : Q) : Q :=
  let baseDelay := Double.mul baseRetryDelay (Double.pow (3 # 2) n) in
  let jitter := Double.mul r 1000 in
  Qmin (Double.add baseDelay jitter) maxRetryDelay.

Definition scheduleRetry (index : nat) (camera : Camera) (s : Mgr) : Mgr :=
  match Map_get (cameras s) index with
  | None => s
  | Some l =>
      match heap s !! l with
      | None => s
      | Some cd =>
          if isDestroyed cd then s
          else
            let s :=
              match retryTimeout cd with
              | Some id => updCam l (set_retryTimeout None) (clearTimeout id s)
              | None => s
              end in
            if (maxRetryAttempts <=? retryCount cd)%nat then
              let s := emit (ELogMaxRetries index) s in
              let s := updCam l (set_retryCount 0%nat) s in
              let '(id, s) := setTimeout (CbCooldown l index camera) 300000%Q s in
              updCam l (set_retryTimeout (Some id)) s
            else
              let '(r, s) := random s in
              let delay := retryDelay (retryCount cd) r in
              let s := updCam l (set_retryCount (S (retryCount cd))) s in
              let s := emit (ELogRetry index (S (retryCount cd)) delay) s in
              let '(id, s) := setTimeout (CbRetry l index camera) delay s in
              updCam l (set_retryTimeout (Some id)) s
      end
  end.

(** [addCacheBuster(url)]: the separator; the stamp is [Date.now()]. *)
Definition addCacheBuster (u : string) : string :=
  if includesChar (Ascii.ascii_of_nat 63) u then "&" else "?".

Definition initHlsStream (index : nat) (camera : Camera) (s : Mgr) : Mgr :=
  match Map_get (cameras s) index with
  | None => s
  | Some l =>
      match heap s !! l with
      | None => s
      | Some cd =>
          if isDestroyed cd then s
          else
            let s := cleanupHls l s in
            let e := element cd in
            let h := length (engines s) in
            let s := set_engines (engines s ++
                       [{| hHandlers := []; hLiveSyncPosition := None;
                           hThrows := hlsFaulty s; hStartLoadThrows := false;
                           hRecoverThrows := false |}]) s in
            let s := emit (ENewHls h) s in
            let s := updCam l (set_hls (Some h)) s in
            let onMediaAttached := CbMediaAttached l index e in
            let onManifestParsed := CbManifestParsed l index e h in
            let onError := CbHlsError l index camera in
            let onFragBuffered := CbFragBuffered l in
            let onLevelLoaded := CbLevelLoaded l index e h in
            let s := hlsOn h MEDIA_ATTACHED onMediaAttached s in
            let s := hlsOn h MANIFEST_PARSED onManifestParsed s in
            let s := hlsOn h ERROR onError s in
            let s := hlsOn h FRAG_BUFFERED onFragBuffered s in
            let s := hlsOn h LEVEL_LOADED onLevelLoaded s in
            let s := updCam l (set_eventCleanups
                       [ (h, MEDIA_ATTACHED, onMediaAttached);
                         (h, MANIFEST_PARSED, onManifestParsed);
                         (h, ERROR, onError);
                         (h, FRAG_BUFFERED, onFragBuffered);
                         (h, LEVEL_LOADED, onLevelLoaded) ]) s in
            if engineThrows s h then
              scheduleRetry index camera (setPlaceholder index "Error initializing feed" s)
            else
              emit (EAttachMedia h e)
                (emit (ELoadSource h (url camera) (addCacheBuster (url camera)) (now s)) s)
      end
  end.

Definition initializeStream (index : nat) (camera : Camera) (s : Mgr) : Mgr :=
  match Map_get (cameras s) index with
  | None => s
  | Some l =>
      match heap s !! l with
      | None => s
      | Some cd =>
          if isDestroyed cd then s
          else if negb (isPageVisible s) then s
          else
            let e := element cd in
            if startsWith "rtsp://" (url camera) then
              play e None (Some CbPlayCatchLog) (setSrc e (Some (url camera)) s)
            else if endsWith ".m3u8" (url camera) then
              if hlsSupported s then initHlsStream index camera s
              else if canPlayNative s then
                play e None (Some (CbPlayCatchRetry index camera))
                  (setSrc e (Some (url camera)) s)
              else setPlaceholder index "HLS not supported" s
            else
              play e None (Some (CbPlayCatchRetry index camera))
                (setSrc e (Some (url camera)) s)
      end
  end.

Definition handleHlsError (index : nat) (camera : Camera) (data : EventData) (s : Mgr) : Mgr :=
  match Map_get (cameras s) index with
  | None => s
  | Some l =>
      match heap s !! l with
      | None => s
      | Some cd =>
          if isDestroyed cd then s
          else
            match data with
            | DError true NETWORK_ERROR =>
                match hls cd with
                | Some h =>
                    if (retryCount cd <? 3)%nat then
                      (* [hls.startLoad()] is not inside a try: when it throws,
                         the exception leaves the handler before [retryCount++] *)
                      if startLoadThrows s h then s
                      else updCam l (set_retryCount (S (retryCount cd)))
                             (emit (EStartLoad h) s)
                    else
                      scheduleRetry index camera
                        (setPlaceholder index "Network error" (cleanupHls l s))
                | None =>
                    scheduleRetry index camera
                      (setPlaceholder index "Network error" (cleanupHls l s))
                end
            | DError true MEDIA_ERROR =>
                match hls cd with
                | Some h =>
                    if recoverThrows s h then
                      scheduleRetry index camera
                        (setPlaceholder index "Media error" (cleanupHls l s))
                    else emit (ERecoverMediaError h) s
                | None => s
                end
            | DError true OTHER_ERROR =>
                scheduleRetry index camera
                  (setPlaceholder index "Stream error" (cleanupHls l s))
            | _ => s
            end
      end
  end.

Definition recoverCamera (index : nat) (camera : Camera) (s : Mgr) : Mgr :=
  match Map_get (cameras s) index with
  | None => s
  | Some l =>
      match heap s !! l with
      | None => s
      | Some cd =>
          if isDestroyed cd then s
          else
            let s := emit (ELogRecovering index) s in
            let s := updCam l (set_stallCount 0%nat) s in
            let s := updCam l (set_lastPlaybackTime 0%Q) s in
            let s := updCam l (set_lastCheckTime 0%Q) s in
            let s := updCam l (set_retryCount 0%nat) s in
            let s := cleanupHls l s in
            let s := resetElement (element cd) s in
            snd (setTimeout (CbRecoverDelay l index camera) 1000%Q s)
      end
  end.

(** The constants [checkAllCameraHealth] computes for one camera.  The
    literal [0.1] is the double nearest to one tenth. *)
Definition hasProgressed (cd : CameraData) (el : VideoElement) : bool :=
  Qltb (Double.round (1 # 10))
    (Qabs (Double.sub (vCurrentTime el) (lastPlaybackTime cd))).
Definition isPlaying (el : VideoElement) : bool := negb (vPaused el) && negb (vEnded el).
Definition hasEnoughData (el : VideoElement) : bool := (2 <=? vReadyState el)%nat.
Definition hasHls (cd : CameraData) : bool := bool_decide (is_Some (hls cd)).
Definition timeSinceLastCheck (nowT : Q) (cd : CameraData) : Q :=
  (nowT - (if truthyNum (lastCheckTime cd) then lastCheckTime cd else nowT))%Q.
Definition fullInterval (nowT : Q) (cd : CameraData) : bool :=
  Qle_bool (HEALTH_CHECK_INTERVAL_MS - 500)%Q (timeSinceLastCheck nowT cd).

(** The body of the [forEach] in [checkAllCameraHealth]; [nowT] is the
    [Date.now()] read before the loop. *)
Definition checkCameraHealth (nowT : Q) (s : Mgr) (entry : nat * loc) : Mgr :=
  let '(index, l) := entry in
  match heap s !! l with
  | None => s
  | Some cd =>
  if isDestroyed cd then s
  else
  match cameraConfigs s !! index with
  | None => s
  | Some camera =>
  if negb (truthyStr (url camera)) then s
  else
  match videos s !! element cd with
  | None => s
  | Some el =>
  if bool_decide (is_Some (retryTimeout cd)) || isInitializing s then s
  else
    let currentTime := vCurrentTime el in
    let s := updCam l (set_lastCheckTime nowT) s in
    let '(needsRecovery, reason, s) :=
      if negb (hasHls cd) && endsWith ".m3u8" (url camera) then
        (true, "HLS instance missing", s)
      else if bool_decide (is_Some (vError el)) then
        (true, "Video error: " +:+ pretty (default 0%nat (vError el)), s)
      else if isPlaying el && hasEnoughData el && negb (hasProgressed cd el)
              && fullInterval nowT cd then
        let n := S (stallCount cd) in
        let s := emit (ELogStall index n) (updCam l (set_stallCount n) s) in
        if (MAX_STALL_COUNT <=? n)%nat then (true, "Stalled playback", s)
        else (false, "", s)
      else if negb (hasEnoughData el) && hasHls cd && fullInterval nowT cd then
        let n := S (stallCount cd) in
        let s := emit (ELogStall index n) (updCam l (set_stallCount n) s) in
        if (MAX_STALL_COUNT <=? n)%nat then (true, "Stuck loading", s)
        else (false, "", s)
      else if negb (isPlaying el) && hasHls cd then
        let n := S (stallCount cd) in
        let s := emit (ELogStall index n) (updCam l (set_stallCount n) s) in
        if (MAX_STALL_COUNT <=? n)%nat then (true, "Unexpectedly paused", s)
        else (false, "", play (element cd) None (Some CbPlayCatchLog) s)
      else if hasProgressed cd el then
        (false, "", updCam l (set_stallCount 0%nat) s)
      else (false, "", s) in
    let s :=
      if needsRecovery : bool then
        recoverCamera index camera (emit (ELogNeedsRecovery index reason) s)
      else s in
    updCam l (set_lastPlaybackTime currentTime) s
  end end end.

Definition checkAllCameraHealth (s : Mgr) : Mgr :=
  if negb (isPageVisible s) then s
  else foldl (checkCameraHealth (now s)) s (cameras s).

Definition pauseCamera (s : Mgr) (entry : nat * loc) : Mgr :=
  let '(index, l) := entry in
  match heap s !! l with
  | None => s
  | Some cd =>
      if isDestroyed cd then s
      else
        let s :=
          match retryTimeout cd with
          | Some id => updCam l (set_retryTimeout None) (clearTimeout id s)
          | None => s
          end in
        let s :=
          match hls cd with
          | Some h => if engineThrows s h then s else emit (EStopLoad h) s
          | None => s
          end in
        match videos s !! element cd with
        | Some el => if vPaused el then s else pause (element cd) s
        | None => s
        end
  end.

Definition pauseAllStreams (s : Mgr) : Mgr :=
  let s := stopHealthMonitor s in
  foldl pauseCamera s (cameras s).

(** [sequentialInit] and [initNextCamera].  The queue [this.initQueue] is
    consumed by [shift()]; the recursion of [initNextCamera] through the
    skipped cameras follows the queue. *)
Fixpoint initNextCameraFrom (queue : list (nat * Camera)) (s : Mgr) : Mgr :=
  match queue with
  | [] =>
      let s := emit ELogSeqComplete s in
      let s := set_isInitializing false s in
      if isPageVisible s && negb (bool_decide (is_Some (healthCheckInterval s)))
      then startHealthMonitor s else s
  | (index, camera) :: rest =>
      let s := set_initQueue rest s in
      let skip := initNextCameraFrom rest s in
      match Map_get (cameras s) index with
      | None => skip
      | Some l =>
          match heap s !! l with
          | None => skip
          | Some cd =>
              if isDestroyed cd || negb (isPageVisible s) then skip
              else
                let s := emit (ELogSeqInit index) s in
                let e := element cd in
                let w := length (waits s) in
                let s := set_waits (waits s ++
                           [{| wIndex := index; wResolved := false; wTimeoutId := None |}]) s in
                let s := addEventListener e VPlaying (CbSeqPlaying w index e) s in
                let '(timeoutId, s) :=
                  setTimeout (CbSeqTimeout w index e) SEQUENTIAL_TIMEOUT_MS s in
                let s := updWait w (set_wTimeoutId (Some timeoutId)) s in
                let s := updCam l (set_initTimeout (Some timeoutId)) s in
                initializeStream index camera s
          end
      end
  end.

Definition initNextCamera (s : Mgr) : Mgr := initNextCameraFrom (initQueue s) s.

Definition sequentialInit (cams : list (nat * Camera)) (s : Mgr) : Mgr :=
  match cams with
  | [] =>
      let s := emit ELogSeqComplete s in
      let s := set_isInitializing false s in
      if isPageVisible s && negb (bool_decide (is_Some (healthCheckInterval s)))
      then startHealthMonitor s else s
  | _ =>
      let s := set_isInitializing true s in
      let s := set_initQueue cams s in
      initNextCamera s
  end.

Definition resumeCamera (acc : Mgr * list (nat * Camera)) (entry : nat * loc)
  : Mgr * list (nat * Camera) :=
  let '(s, camerasToResume) := acc in
  let '(index, l) := entry in
  match heap s !! l with
  | None => acc
  | Some cd =>
      if isDestroyed cd then acc
      else
        match cameraConfigs s !! index with
        | None => acc
        | Some camera =>
            if negb (truthyStr (url camera)) then acc
            else
              let s := updCam l (set_stallCount 0%nat) s in
              let s := updCam l (set_lastPlaybackTime 0%Q) s in
              let s := updCam l (set_lastCheckTime 0%Q) s in
              let s := updCam l (set_retryCount 0%nat) s in
              let s := cleanupHls l s in
              let s := resetElement (element cd) s in
              (s, camerasToResume ++ [(index, camera)])
        end
  end.

Definition resumeAllStreams (s : Mgr) : Mgr :=
  let '(s, camerasToResume) := foldl resumeCamera (s, []) (cameras s) in
  if isHDMode s then
    let s := foldl (fun s '(index, camera) => initializeStream index camera s) s camerasToResume in
    snd (setTimeout CbResumeHealth 1000%Q s)
  else sequentialInit camerasToResume s.

(** The handler installed by [setupVisibilityHandling]; [hidden] is
    [document.hidden]. *)
Definition visibilityChange (hidden : bool) (s : Mgr) : Mgr :=
  let s := set_isPageVisible (negb hidden) s in
  if isPageVisible s then startHealthMonitor (resumeAllStreams s)
  else stopHealthMonitor (pauseAllStreams s).

Definition init (s : Mgr) : Mgr := set_gridElement true s.

Definition setHDMode (isHD : bool) (s : Mgr) : Mgr := set_isHDMode isHD s.

Definition updateConfig (cams : option (list Camera)) (gridConfig : option GridConfig)
    (s : Mgr) : Mgr :=
  let orOne (z : Z) := if truthyZ z then z else 1%Z in
  let s := set_cameraConfigs (default [] cams) s in
  set_config
    {| gColumns := orOne (from_option gColumns 0%Z gridConfig);
       gRows := orOne (from_option gRows 0%Z gridConfig);
       numCameras := clamp (orOne (from_option numCameras 0%Z gridConfig)) 1 18 |} s.

Definition createCameraElement (index : nat) (camera : Camera) (initStream : bool)
    (s : Mgr) : Mgr :=
  let e := length (videos s) in
  let label := if truthyStr (name camera) then name camera else cameraLabel index in
  let s := set_videos (videos s ++
             [{| vPaused := true; vEnded := false; vReadyState := 0%nat; vError := None;
                 vCurrentTime := 0%Q; vSrc := None;
                 vPlaceholder := label +:+ newline +:+
                   (if truthyStr (url camera) then "Loading..." else "No feed configured");
                 vPreload := None; vListeners := [] |}]) s in
  let l := length (heap s) in
  let s := set_heap (heap s ++
             [{| hls := None; element := e; retryTimeout := None; retryCount := 0%nat;
                 isDestroyed := false; eventCleanups := [];
                 lastPlaybackTime := 0%Q; lastCheckTime := 0%Q; stallCount := 0%nat;
                 initTimeout := None; videoEventCleanups := [] |}]) s in
  let s := set_cameras (Map_set index l (cameras s)) s in
  let s := addEventListener e VStalled (CbStalled l index) s in
  let s := addEventListener e VError (CbVideoError l index) s in
  let s := addEventListener e VWaiting (CbWaiting l) s in
  let s := addEventListener e VPlaying (CbVideoPlaying l e) s in
  let s := updCam l (set_videoEventCleanups
             [ (e, VStalled, CbStalled l index);
               (e, VError, CbVideoError l index);
               (e, VWaiting, CbWaiting l);
               (e, VPlaying, CbVideoPlaying l e) ]) s in
  let s :=
    if truthyStr (url camera) && initStream then
      initializeStream index camera (updVideo e (set_vPreload (Some "metadata")) s)
    else if truthyStr (url camera) then updVideo e (set_vPreload (Some "none")) s
    else s in
  set_gridChildren (gridChildren s ++ [e]) s.

Definition destroyCamera (index : nat) (s : Mgr) : Mgr :=
  match Map_get (cameras s) index with
  | None => s
  | Some l =>
      match heap s !! l with
      | None => s
      | Some cd =>
          let s := updCam l (set_isDestroyed true) s in
          let s :=
            match retryTimeout cd with
            | Some id => updCam l (set_retryTimeout None) (clearTimeout id s)
            | None => s
            end in
          let s :=
            match initTimeout cd with
            | Some id => updCam l (set_initTimeout None) (clearTimeout id s)
            | None => s
            end in
          let s := cleanupHls l s in
          let s := foldl (fun s '(e, evt, cb) => removeEventListener e evt cb s) s
                     (videoEventCleanups cd) in
          let s := updCam l (set_videoEventCleanups []) s in
          let s := resetElement (element cd) s in
          let s := updCam l (set_retryCount 0%nat) s in
          let s := updCam l (set_stallCount 0%nat) s in
          let s := updCam l (set_lastPlaybackTime 0%Q) s in
          updCam l (set_lastCheckTime 0%Q) s
      end
  end.

Definition destroyAllCameras (s : Mgr) : Mgr :=
  let s := set_initQueue [] s in
  let s := set_isInitializing false s in
  let s := foldl (fun s '(index, _) => destroyCamera index s) s (cameras s) in
  let s := if gridElement s then set_gridChildren [] s else s in
  set_cameras [] s.

(** The body of the [for] loop of [setupGrid]. *)
Definition setupCell (acc : Mgr * list (nat * Camera)) (i : nat) : Mgr * list (nat * Camera) :=
  let '(s, camerasToInit) := acc in
  match cameraConfigs s !! i with
  | None => acc
  | Some camera =>
      let s := createCameraElement i camera false s in
      if truthyStr (url camera) then (s, camerasToInit ++ [(i, camera)])
      else (s, camerasToInit)
  end.

Definition setupGrid (s : Mgr) : Mgr :=
  if negb (gridElement s) then s
  else
    let s := destroyAllCameras s in
    let totalCells := (gColumns (config s) * gRows (config s))%Z in
    let n := Z.to_nat (Z.min totalCells (numCameras (config s))) in
    let '(s, camerasToInit) := foldl setupCell (s, []) (seq 0 n) in
    if isHDMode s then
      let s := foldl (fun s '(index, camera) => initializeStream index camera s) s camerasToInit in
      if isPageVisible s then startHealthMonitor s else s
    else sequentialInit camerasToInit s.

Definition applySettings (index : nat) (s : Mgr) : Mgr :=
  match cameraConfigs s !! index with
  | None => s
  | Some camera =>
      let s := destroyCamera index s in
      match Map_get (cameras s) index with
      | Some l =>
          match heap s !! l with
          | Some cd =>
              if bool_decide (element cd ∈ gridChildren s) then
                let s := updCam l (set_isDestroyed false) s in
                let s := updCam l (set_retryCount 0%nat) s in
                if truthyStr (url camera) then initializeStream index camera s else s
              else setupGrid s
          | None => setupGrid s
          end
      | None => setupGrid s
      end
  end.

Definition destroy (s : Mgr) : Mgr :=
  let s := stopHealthMonitor s in
  let s := destroyAllCameras s in
  set_visibilityHandler false s.

(** The [while] loop of [updateGridLayout]: [k] pushes are made. *)
Fixpoint padConfigs (k : nat) (cfgs : list Camera) : list Camera :=
  match k with
  | O => cfgs
  | S k' =>
      padConfigs k' (cfgs ++ [{| url := ""; name := "Camera " +:+ pretty (S (length cfgs)) |}])
  end.

Definition updateGridLayout (n : Z) (s : Mgr) : Mgr :=
  let n := clamp n 1 18 in
  let g := calculateGridLayout n in
  let s := set_cameraConfigs
             (padConfigs (Z.to_nat n - length (cameraConfigs s)) (cameraConfigs s)) s in
  set_config {| gColumns := columns g; gRows := rows g; numCameras := n |} s.

Definition forceRecover (index : nat) (s : Mgr) : Mgr :=
  match cameraConfigs s !! index with
  | Some camera => recoverCamera index camera s
  | None => s
  end.

Definition forceRecoverAll (s : Mgr) : Mgr :=
  foldl (fun s '(index, l) =>
    match cameraConfigs s !! index, heap s !! l with
    | Some camera, Some cd =>
        if truthyStr (url camera) && negb (isDestroyed cd)
        then recoverCamera index camera s else s
    | _, _ => s
    end) s (cameras s).

(** ** Callbacks

    What each closure does when the browser calls it; [data] is the event
    payload. *)

Definition camDestroyed (s : Mgr) (l : loc) : bool :=
  match heap s !! l with
  | Some cd => isDestroyed cd
  | None => true
  end.

(** [element.currentTime = t] *)
Definition seek (e : elemId) (t : Q) (s : Mgr) : Mgr :=
  emit (ESeek e t) (updVideo e (set_vCurrentTime t) s).

Definition liveSyncPosition (s : Mgr) (h : hlsId) : option Q :=
  match engines s !! h with
  | Some en => hLiveSyncPosition en
  | None => None
  end.

Definition currentTimeOf (s : Mgr) (e : elemId) : Q :=
  match videos s !! e with
  | Some el => vCurrentTime el
  | None => 0%Q
  end.

Definition runCb (cb : Callback) (data : EventData) (s : Mgr) : Mgr :=
  match cb with
  | CbHealthFirst | CbHealthInterval => checkAllCameraHealth s
  | CbRecoverDelay l index camera =>
      if negb (camDestroyed s l) && isPageVisible s
      then initializeStream index camera s else s
  | CbResumeHealth =>
      if isPageVisible s && negb (bool_decide (is_Some (healthCheckInterval s)))
      then startHealthMonitor s else s
  | CbSeqPlaying w index e =>
      match waits s !! w with
      | None => s
      | Some cell =>
          if wResolved cell then s
          else
            let s := updWait w (set_wResolved true) s in
            let s := match wTimeoutId cell with
                     | Some id => clearTimeout id s
                     | None => s
                     end in
            let s := removeEventListener e VPlaying (CbSeqPlaying w index e) s in
            let s := emit (ELogSeqPlaying index) s in
            snd (setTimeout CbSeqNext 500%Q s)
      end
  | CbSeqTimeout w index e =>
      match waits s !! w with
      | None => s
      | Some cell =>
          if wResolved cell then s
          else
            let s := updWait w (set_wResolved true) s in
            let s := removeEventListener e VPlaying (CbSeqPlaying w index e) s in
            let s := emit (ELogSeqTimeout index) s in
            initNextCamera s
      end
  | CbSeqNext => initNextCamera s
  | CbRetry l index camera =>
      let s := updCam l (set_retryTimeout None) s in
      if negb (camDestroyed s l) && truthyStr (url camera) && isPageVisible s
      then initializeStream index camera s else s
  | CbCooldown l index camera =>
      if negb (camDestroyed s l) && truthyStr (url camera) && isPageVisible s
      then initializeStream index camera s else s
  | CbStalled l index =>
      if camDestroyed s l then s
      else updCam l (fun cd => set_stallCount (S (stallCount cd)) cd) s
  | CbVideoError l index =>
      if camDestroyed s l then s
      else
        match cameraConfigs s !! index with
        | Some cam => if truthyStr (url cam) then scheduleRetry index cam s else s
        | None => s
        end
  | CbWaiting l => s
  | CbVideoPlaying l e =>
      if camDestroyed s l then s
      else
        let s := updCam l (set_stallCount 0%nat) s in
        let s := updCam l (set_lastPlaybackTime (currentTimeOf s e)) s in
        updCam l (set_lastCheckTime (now s)) s
  | CbMediaAttached l index e =>
      if camDestroyed s l then s
      else play e (Some (CbPlayThen l index)) (Some CbPlayCatchLog) s
  | CbPlayThen l index =>
      setPlaceholder index "" (updCam l (set_retryCount 0%nat) s)
  | CbPlayCatchLog => s
  | CbPlayCatchRetry index camera => scheduleRetry index camera s
  | CbManifestParsed l index e h =>
      if camDestroyed s l then s
      else
        match liveSyncPosition s h with
        | Some pos => if truthyNum pos then seek e pos s else s
        | None => s
        end
  | CbHlsError l index camera =>
      if camDestroyed s l then s else handleHlsError index camera data s
  | CbFragBuffered l =>
      match heap s !! l with
      | Some cd =>
          if negb (isDestroyed cd) && (0 <? retryCount cd)%nat
          then updCam l (set_retryCount 0%nat) s else s
      | None => s
      end
  | CbLevelLoaded l index e h =>
      if camDestroyed s l then s
      else
        match data, liveSyncPosition s h with
        | DLevel true, Some liveEdge =>
            if truthyNum liveEdge && Qltb 5 (Double.sub liveEdge (currentTimeOf s e))
            then seek e liveEdge s else s
        | _, _ => s
        end
  end.

(** ** The event loop *)

Inductive ApiCall :=
| CInit
| CSetHDMode (isHD : bool)
| CUpdateConfig (cams : option (list Camera)) (gridConfig : option GridConfig)
| CSetupGrid
| CApplySettings (index : nat)
| CUpdateGridLayout (n : Z)
| CForceRecover (index : nat)
| CForceRecoverAll
| CDestroy.

Inductive Event :=
| EvAdvance (dt : Q)                               (* time passes *)
| EvTimer (id : timerId)                           (* a due timer fires *)
| EvMedia (e : elemId) (evt : VideoEvent)          (* a media event is dispatched *)
| EvMediaState (e : elemId) (paused ended : bool) (readyState : nat)
    (error : option nat) (currentTime : Q)          (* the element's state changes *)
| EvHls (h : hlsId) (evt : HlsEvent) (data : EventData)
| EvEngineState (h : hlsId) (liveSync : option Q) (throws : bool)
| EvEngineFaults (h : hlsId) (startLoad recoverMediaError : bool)
| EvPlaySettled (p : promiseId) (fulfilled : bool)
| EvVisibility (hidden : bool)                     (* visibilitychange *)
| EvCall (c : ApiCall).

Definition call (c : ApiCall) (s : Mgr) : Mgr :=
  match c with
  | CInit => init s
  | CSetHDMode isHD => setHDMode isHD s
  | CUpdateConfig cams gridConfig => updateConfig cams gridConfig s
  | CSetupGrid => setupGrid s
  | CApplySettings index => applySettings index s
  | CUpdateGridLayout n => updateGridLayout n s
  | CForceRecover index => forceRecover index s
  | CForceRecoverAll => forceRecoverAll s
  | CDestroy => destroy s
  end.

Definition findTimer (id : timerId) (s : Mgr) : option Timer :=
  List.find (fun t => Nat.eqb (tId t) id) (timers s).

(** A listener runs only if it is still registered when its turn comes. *)
Definition dispatchMedia (e : elemId) (evt : VideoEvent) (s : Mgr) : Mgr :=
  match videos s !! e with
  | None => s
  | Some el =>
      foldl (fun s '(evt', cb) =>
        if bool_decide (evt' = evt) &&
           bool_decide ((evt', cb) ∈ from_option vListeners [] (videos s !! e))
        then runCb cb DNone s else s) s (vListeners el)
  end.

Definition dispatchHls (h : hlsId) (evt : HlsEvent) (data : EventData) (s : Mgr) : Mgr :=
  match engines s !! h with
  | None => s
  | Some en =>
      foldl (fun s '(evt', cb) =>
        if bool_decide (evt' = evt) &&
           bool_decide ((evt', cb) ∈ from_option hHandlers [] (engines s !! h))
        then runCb cb data s else s) s (hHandlers en)
  end.

Definition fireTimer (t : Timer) (s : Mgr) : Mgr :=
  let s :=
    match tRepeat t with
    | None => clearTimeout (tId t) s
    | Some period =>
        set_timers (map (fun t' =>
          if Nat.eqb (tId t') (tId t)
          then {| tId := tId t'; tDue := (tDue t' + period)%Q;
                  tRepeat := tRepeat t'; tCb := tCb t' |}
          else t') (timers s)) s
    end in
  runCb (tCb t) DNone s.

(** One turn of the event loop; [None] when the event cannot happen in
    [s].  Timers never fire early; they may fire late. *)
Definition step (ev : Event) (s : Mgr) : option Mgr :=
  match ev with
  | EvAdvance dt =>
      if Qle_bool 0 dt then Some (set_now (now s + dt)%Q s) else None
  | EvTimer id =>
      match findTimer id s with
      | Some t => if Qle_bool (tDue t) (now s) then Some (fireTimer t s) else None
      | None => None
      end
  | EvMedia e evt => Some (dispatchMedia e evt s)
  | EvMediaState e paused ended readyState error currentTime =>
      Some (updVideo e (fun el =>
        set_vPaused paused (set_vEnded ended (set_vReadyState readyState
          (set_vError error (set_vCurrentTime currentTime el))))) s)
  | EvHls h evt data => Some (dispatchHls h evt data s)
  | EvEngineState h liveSync throws =>
      Some (updEngine h (fun en => set_hLiveSyncPosition liveSync (set_hThrows throws en)) s)
  | EvEngineFaults h startLoad recoverMediaError =>
      Some (updEngine h (fun en =>
        set_hStartLoadThrows startLoad (set_hRecoverThrows recoverMediaError en)) s)
  | EvPlaySettled p fulfilled =>
      match List.find (fun pr => Nat.eqb (pId pr) p) (promises s) with
      | Some pr =>
          let s := set_promises
                     (List.filter (fun pr' => negb (Nat.eqb (pId pr') p)) (promises s)) s in
          match (if fulfilled then pThen pr else pCatch pr) with
          | Some cb => Some (runCb cb DNone s)
          | None => Some s
          end
      | None => None
      end
  | EvVisibility hidden =>
      if visibilityHandler s then Some (visibilityChange hidden s) else Some s
  | EvCall c => Some (call c s)
  end.

(** Running a list of events from [s]. *)
Fixpoint run (evs : list Event) (s : Mgr) : option Mgr :=
  match evs with
  | [] => Some s
  | ev :: evs' =>
      match step ev s with
      | Some s' => run evs' s'
      | None => None
      end
  end.

(** The state the constructor leaves: nothing registered but the
    visibility handler. *)
Definition newManager (rnd : nat -> Q) (supported native faulty : bool) : Mgr :=
  {| cameras := []; gridElement := false;
     config := {| gColumns := 1; gRows := 1; numCameras := 1 |};
     cameraConfigs := []; isPageVisible := true; visibilityHandler := true;
     isHDMode := false; healthCheckInterval := None; initQueue := [];
     isInitializing := false; heap := []; videos := []; engines := []; waits := [];
     gridChildren := []; now := 0%Q; timers := []; nextTimer := 1%nat;
     promises := []; nextPromise := 0%nat; rng := rnd; rngPos := 0%nat;
     hlsSupported := supported; canPlayNative := native; hlsFaulty := faulty;
     trace := [] |}.

(** * Verification *)

(** The composite methods are kept folded; only field assignments and
    the small browser operations compute under [simpl]. *)
Arguments stopHealthMonitor : simpl never.
Arguments startHealthMonitor : simpl never.
Arguments cleanupHls : simpl never.
Arguments setPlaceholder : simpl never.
Arguments scheduleRetry : simpl never.
Arguments initHlsStream : simpl never.
Arguments initializeStream : simpl never.
Arguments handleHlsError : simpl never.
Arguments recoverCamera : simpl never.
Arguments checkCameraHealth : simpl never.
Arguments checkAllCameraHealth : simpl never.
Arguments pauseCamera : simpl never.
Arguments pauseAllStreams : simpl never.
Arguments initNextCamera : simpl never.
Arguments sequentialInit : simpl never.
Arguments resumeCamera : simpl never.
Arguments resumeAllStreams : simpl never.
Arguments visibilityChange : simpl never.
Arguments createCameraElement : simpl never.
Arguments destroyCamera : simpl never.
Arguments destroyAllCameras : simpl never.
Arguments setupCell : simpl never.
Arguments setupGrid : simpl never.
Arguments applySettings : simpl never.
Arguments destroy : simpl never.
Arguments updateGridLayout : simpl never.
Arguments forceRecover : simpl never.
Arguments forceRecoverAll : simpl never.
Arguments runCb : simpl never.
Arguments dispatchMedia : simpl never.
Arguments dispatchHls : simpl never.
Arguments fireTimer : simpl never.
Arguments Qplus : simpl never.
Arguments Qminus : simpl never.
Arguments Qmult : simpl never.
Arguments Qle_bool : simpl never.
Arguments Qeq_bool : simpl never.
Arguments retryDelay : simpl never.
Arguments pretty : simpl never.

(** ** Frame facts: what a method leaves alone

    A projection of the manager is [BaseStable] when none of the
    assignments to the object stores, the timer and promise queues, the
    random source position and the effect log changes it.  Every method
    that only works on sessions leaves every such projection alone. *)

Class BaseStable {C : Type} (proj : Mgr -> C) : Prop := {
  stable_heap v s : proj (set_heap v s) = proj s;
  stable_videos v s : proj (set_videos v s) = proj s;
  stable_engines v s : proj (set_engines v s) = proj s;
  stable_timers v s : proj (set_timers v s) = proj s;
  stable_nextTimer v s : proj (set_nextTimer v s) = proj s;
  stable_promises v s : proj (set_promises v s) = proj s;
  stable_nextPromise v s : proj (set_nextPromise v s) = proj s;
  stable_rngPos v s : proj (set_rngPos v s) = proj s;
  stable_trace v s : proj (set_trace v s) = proj s;
}.

(** [SeqStable] projections are moreover untouched by the sequencer's and
    the health monitor's own bookkeeping. *)
Class SeqStable {C : Type} (proj : Mgr -> C) : Prop := {
  seq_base :: BaseStable proj;
  stable_waits v s : proj (set_waits v s) = proj s;
  stable_initQueue v s : proj (set_initQueue v s) = proj s;
  stable_isInitializing v s : proj (set_isInitializing v s) = proj s;
  stable_healthCheckInterval v s : proj (set_healthCheckInterval v s) = proj s;
}.

Ltac solve_stable := repeat split; reflexivity.

#[global] Instance SeqStable_cameras : SeqStable cameras. Proof. solve_stable. Qed.
#[global] Instance SeqStable_gridElement : SeqStable gridElement. Proof. solve_stable. Qed.
#[global] Instance SeqStable_config : SeqStable config. Proof. solve_stable. Qed.
#[global] Instance SeqStable_cameraConfigs : SeqStable cameraConfigs. Proof. solve_stable. Qed.
#[global] Instance SeqStable_isPageVisible : SeqStable isPageVisible. Proof. solve_stable. Qed.
#[global] Instance SeqStable_visibilityHandler : SeqStable visibilityHandler. Proof. solve_stable. Qed.
#[global] Instance SeqStable_isHDMode : SeqStable isHDMode. Proof. solve_stable. Qed.
#[global] Instance SeqStable_gridChildren : SeqStable gridChildren. Proof. solve_stable. Qed.
#[global] Instance SeqStable_now : SeqStable now. Proof. solve_stable. Qed.
#[global] Instance SeqStable_rng : SeqStable rng. Proof. solve_stable. Qed.
#[global] Instance SeqStable_hlsSupported : SeqStable hlsSupported. Proof. solve_stable. Qed.
#[global] Instance SeqStable_canPlayNative : SeqStable canPlayNative. Proof. solve_stable. Qed.
#[global] Instance SeqStable_hlsFaulty : SeqStable hlsFaulty. Proof. solve_stable. Qed.
#[global] Instance BaseStable_healthCheckInterval : BaseStable healthCheckInterval.
Proof. solve_stable. Qed.
#[global] Instance BaseStable_initQueue : BaseStable initQueue. Proof. solve_stable. Qed.
#[global] Instance BaseStable_isInitializing : BaseStable isInitializing.
Proof. solve_stable. Qed.
#[global] Instance BaseStable_waits : BaseStable waits. Proof. solve_stable. Qed.

Lemma foldl_proj {A B C} (proj : A -> C) (g : A -> B -> A) (l : list B) (a : A) :
  (forall a x, proj (g a x) = proj a) -> proj (foldl g a l) = proj a.
Proof.
  intros Hg. revert a. induction l as [|x l IH]; intros a; simpl; [done|].
  by rewrite IH, Hg.
Qed.

Ltac unfold_prims :=
  unfold setTimeout, setInterval, clearInterval, clearTimeout, random, resetElement,
    pause, play, setSrc, seek, addEventListener, removeEventListener, hlsOn, hlsOff,
    updCam, updVideo, updEngine, updWait, emit in *.

Ltac stable_prims proj :=
  rewrite ?(stable_heap (proj:=proj)), ?(stable_videos (proj:=proj)),
    ?(stable_engines (proj:=proj)), ?(stable_timers (proj:=proj)),
    ?(stable_nextTimer (proj:=proj)), ?(stable_promises (proj:=proj)),
    ?(stable_nextPromise (proj:=proj)), ?(stable_rngPos (proj:=proj)),
    ?(stable_trace (proj:=proj)).

Ltac stable_seq_prims proj :=
  rewrite ?(stable_waits (proj:=proj)), ?(stable_initQueue (proj:=proj)),
    ?(stable_isInitializing (proj:=proj)), ?(stable_healthCheckInterval (proj:=proj)).

Section BaseFrame.
Context {C : Type} (proj : Mgr -> C) `{!BaseStable proj}.

Ltac stab := unfold_prims; repeat (stable_prims proj; simpl); try reflexivity.
Ltac cases := unfold_prims; simpl; repeat (case_match; simplify_eq/=); try reflexivity.

Lemma stable_cleanupHls l s : proj (cleanupHls l s) = proj s.
Proof.
  unfold cleanupHls. cases; stab.
  all: apply (foldl_proj proj); intros ? [[??]?]; stab.
Qed.

Lemma stable_setPlaceholder i m s : proj (setPlaceholder i m s) = proj s.
Proof. unfold setPlaceholder. cases; stab. Qed.

Lemma stable_scheduleRetry i c s : proj (scheduleRetry i c s) = proj s.
Proof. unfold scheduleRetry. cases; stab. Qed.

Lemma stable_initHlsStream i c s : proj (initHlsStream i c s) = proj s.
Proof.
  unfold initHlsStream. cases; stab;
    rewrite ?stable_scheduleRetry, ?stable_setPlaceholder; stab;
    apply stable_cleanupHls.
Qed.

Lemma stable_initializeStream i c s : proj (initializeStream i c s) = proj s.
Proof.
  unfold initializeStream. cases;
    rewrite ?stable_initHlsStream, ?stable_setPlaceholder; stab.
Qed.

Lemma stable_handleHlsError i c d s : proj (handleHlsError i c d s) = proj s.
Proof.
  unfold handleHlsError. cases;
    rewrite ?stable_scheduleRetry, ?stable_setPlaceholder, ?stable_cleanupHls; stab.
Qed.

Lemma stable_recoverCamera i c s : proj (recoverCamera i c s) = proj s.
Proof.
  unfold recoverCamera. cases; stab.
  rewrite stable_cleanupHls. stab.
Qed.

Lemma stable_checkCameraHealth t s x : proj (checkCameraHealth t s x) = proj s.
Proof.
  unfold checkCameraHealth. cases; simplify_eq;
    stab; rewrite ?stable_recoverCamera; stab.
Qed.

Lemma stable_checkAllCameraHealth s : proj (checkAllCameraHealth s) = proj s.
Proof.
  unfold checkAllCameraHealth. case_match; [done|].
  apply (foldl_proj proj). intros. apply stable_checkCameraHealth.
Qed.

Lemma stable_pauseCamera s x : proj (pauseCamera s x) = proj s.
Proof. unfold pauseCamera. cases; stab. Qed.

Lemma stable_resumeCamera acc x : proj (fst (resumeCamera acc x)) = proj (fst acc).
Proof.
  unfold resumeCamera. cases; simplify_eq/=; stab.
  rewrite stable_cleanupHls. stab.
Qed.

Lemma stable_destroyCamera i s : proj (destroyCamera i s) = proj s.
Proof.
  unfold destroyCamera. cases; stab.
  all: rewrite (foldl_proj proj); [|intros ? [[??]?]; stab].
  all: rewrite stable_cleanupHls; stab.
Qed.

Lemma stable_forceRecover i s : proj (forceRecover i s) = proj s.
Proof. unfold forceRecover. case_match; [apply stable_recoverCamera|done]. Qed.

Lemma stable_forceRecoverAll s : proj (forceRecoverAll s) = proj s.
Proof.
  unfold forceRecoverAll. apply (foldl_proj proj). intros a [i l].
  cases. apply stable_recoverCamera.
Qed.

Lemma stable_foldl_initializeStream cams s :
  proj (foldl (fun s '(index, camera) => initializeStream index camera s) s cams) = proj s.
Proof. apply (foldl_proj proj). intros a [i c]. apply stable_initializeStream. Qed.

End BaseFrame.

Ltac stable_base proj :=
  rewrite ?(stable_cleanupHls proj), ?(stable_setPlaceholder proj),
    ?(stable_scheduleRetry proj), ?(stable_initHlsStream proj),
    ?(stable_initializeStream proj), ?(stable_handleHlsError proj),
    ?(stable_recoverCamera proj), ?(stable_checkAllCameraHealth proj),
    ?(stable_destroyCamera proj), ?(stable_forceRecover proj),
    ?(stable_forceRecoverAll proj), ?(stable_foldl_initializeStream proj).

Section SeqFrame.
Context {C : Type} (proj : Mgr -> C) `{!SeqStable proj}.

Ltac stab :=
  unfold_prims;
  repeat (stable_prims proj; stable_seq_prims proj; stable_base proj; simpl);
  try reflexivity; try exact _.
Ltac cases := unfold_prims; simpl; repeat (case_match; simplify_eq/=); try reflexivity.

Lemma stable_stopHealthMonitor s : proj (stopHealthMonitor s) = proj s.
Proof. unfold stopHealthMonitor. cases; stab. Qed.

Lemma stable_startHealthMonitor s : proj (startHealthMonitor s) = proj s.
Proof. unfold startHealthMonitor. cases; stab. apply stable_stopHealthMonitor. Qed.

Lemma stable_pauseAllStreams s : proj (pauseAllStreams s) = proj s.
Proof.
  unfold pauseAllStreams. rewrite (foldl_proj proj).
  - apply stable_stopHealthMonitor.
  - intros. apply stable_pauseCamera, _.
Qed.

Lemma stable_initNextCameraFrom q s : proj (initNextCameraFrom q s) = proj s.
Proof.
  revert s. induction q as [|[i c] q IH]; intros s; simpl.
  - cases; rewrite ?stable_startHealthMonitor; stab.
  - cases; rewrite ?IH; stab.
Qed.

Lemma stable_initNextCamera s : proj (initNextCamera s) = proj s.
Proof. apply stable_initNextCameraFrom. Qed.

Lemma stable_sequentialInit cams s : proj (sequentialInit cams s) = proj s.
Proof.
  unfold sequentialInit. cases; rewrite ?stable_startHealthMonitor,
    ?stable_initNextCamera; stab.
Qed.

Lemma stable_foldl_resumeCamera acc cams :
  proj (fst (foldl resumeCamera acc cams)) = proj (fst acc).
Proof.
  revert acc. induction cams as [|x cams IH]; intros acc; simpl; [done|].
  rewrite IH. apply stable_resumeCamera, _.
Qed.

Lemma stable_resumeAllStreams s : proj (resumeAllStreams s) = proj s.
Proof.
  unfold resumeAllStreams.
  pose proof (stable_foldl_resumeCamera (s, []) (cameras s)) as H.
  destruct (foldl resumeCamera (s, []) (cameras s)) as [s' cams]; simpl in H.
  case_match; rewrite ?stable_sequentialInit; stab; try done.
Qed.

Lemma stable_runCb cb d s : proj (runCb cb d s) = proj s.
Proof.
  unfold runCb. cases;
    rewrite ?stable_startHealthMonitor, ?stable_initNextCamera; stab.
Qed.

Lemma stable_dispatchMedia e evt s : proj (dispatchMedia e evt s) = proj s.
Proof.
  unfold dispatchMedia. case_match; [|done].
  apply (foldl_proj proj). intros a [evt' cb]. case_match; [|done].
  apply stable_runCb.
Qed.

Lemma stable_dispatchHls h evt d s : proj (dispatchHls h evt d s) = proj s.
Proof.
  unfold dispatchHls. case_match; [|done].
  apply (foldl_proj proj). intros a [evt' cb]. case_match; [|done].
  apply stable_runCb.
Qed.

Lemma stable_fireTimer t s : proj (fireTimer t s) = proj s.
Proof. unfold fireTimer. rewrite stable_runCb. cases; stab. Qed.

End SeqFrame.

(** [RebuildStable] projections survive the creation and the destruction of
    sessions; [GridStable] ones survive a whole [setupGrid]. *)
Class RebuildStable {C : Type} (proj : Mgr -> C) : Prop := {
rebuild_base :: BaseStable proj;
stable_cameras v s : proj (set_cameras v s) = proj s;
stable_gridChildren v s : proj (set_gridChildren v s) = proj s;
rebuild_initQueue v s : proj (set_initQueue v s) = proj s;
rebuild_isInitializing v s : proj (set_isInitializing v s) = proj s;
}.

Class GridStable {C : Type} (proj : Mgr -> C) : Prop := {
grid_seq :: SeqStable proj;
grid_cameras v s : proj (set_cameras v s) = proj s;
grid_gridChildren v s : proj (set_gridChildren v s) = proj s;
}.

#[global] Instance GridStable_RebuildStable {C} (proj : Mgr -> C) :
  GridStable proj -> RebuildStable proj.
Proof.
  intros H. split.
  - exact _.
  - apply grid_cameras.
  - apply grid_gridChildren.
  - apply stable_initQueue.
  - apply stable_isInitializing.
Qed.

#[global] Instance GridStable_gridElement : GridStable gridElement. Proof. solve_stable. Qed.
#[global] Instance GridStable_config : GridStable config. Proof. solve_stable. Qed.
#[global] Instance GridStable_cameraConfigs : GridStable cameraConfigs.
Proof. solve_stable. Qed.
#[global] Instance GridStable_isPageVisible : GridStable isPageVisible.
Proof. solve_stable. Qed.
#[global] Instance GridStable_visibilityHandler : GridStable visibilityHandler.
Proof. solve_stable. Qed.
#[global] Instance GridStable_isHDMode : GridStable isHDMode. Proof. solve_stable. Qed.
#[global] Instance GridStable_now : GridStable now. Proof. solve_stable. Qed.
#[global] Instance GridStable_rng : GridStable rng. Proof. solve_stable. Qed.
#[global] Instance GridStable_hlsSupported : GridStable hlsSupported. Proof. solve_stable. Qed.
#[global] Instance GridStable_canPlayNative : GridStable canPlayNative.
Proof. solve_stable. Qed.
#[global] Instance GridStable_hlsFaulty : GridStable hlsFaulty. Proof. solve_stable. Qed.
#[global] Instance RebuildStable_healthCheckInterval : RebuildStable healthCheckInterval.
Proof. solve_stable. Qed.
#[global] Instance RebuildStable_waits : RebuildStable waits. Proof. solve_stable. Qed.

Section RebuildFrame.
Context {C : Type} (proj : Mgr -> C) `{!RebuildStable proj}.

Ltac stab :=
  unfold_prims;
  repeat (stable_prims proj; stable_base proj;
          rewrite ?(stable_cameras (proj:=proj)), ?(stable_gridChildren (proj:=proj)),
            ?(rebuild_initQueue (proj:=proj)), ?(rebuild_isInitializing (proj:=proj));
          simpl);
  try reflexivity; try exact _.
Ltac cases := unfold_prims; simpl; repeat (case_match; simplify_eq/=); try reflexivity.

Lemma stable_createCameraElement i c b s : proj (createCameraElement i c b s) = proj s.
Proof. unfold createCameraElement. cases; stab. Qed.

Lemma stable_destroyAllCameras s : proj (destroyAllCameras s) = proj s.
Proof.
  unfold destroyAllCameras. cases; stab.
  all: rewrite (foldl_proj proj); [stab|intros a [i l]; stab].
Qed.

Lemma stable_foldl_setupCell acc l :
  proj (fst (foldl setupCell acc l)) = proj (fst acc).
Proof.
  revert acc. induction l as [|x l IH]; intros acc; simpl; [done|].
  rewrite IH. unfold setupCell. destruct acc as [s cams].
  repeat case_match; simpl; try reflexivity; apply stable_createCameraElement.
Qed.

End RebuildFrame.

Section GridFrame.
Context {C : Type} (proj : Mgr -> C) `{!GridStable proj}.

Lemma stable_setupGrid s : proj (setupGrid s) = proj s.
Proof.
  unfold setupGrid. case_match; [done|].
  match goal with |- context [foldl setupCell ?a ?l] =>
    pose proof (stable_foldl_setupCell proj a l) as H1;
    destruct (foldl setupCell a l) as [s' cams] end.
  cbn [fst] in H1. rewrite (stable_destroyAllCameras proj) in H1.
  repeat case_match;
    rewrite ?(stable_startHealthMonitor proj), ?(stable_sequentialInit proj),
      ?(stable_foldl_initializeStream proj); done.
Qed.

Lemma stable_applySettings i s : proj (applySettings i s) = proj s.
Proof.
  unfold applySettings. unfold_prims.
  repeat case_match; try reflexivity;
    rewrite ?stable_setupGrid, ?(stable_initializeStream proj); simpl;
    rewrite ?(stable_heap (proj:=proj)); apply (stable_destroyCamera proj).
Qed.

End GridFrame.

(** ** The Map of sessions *)

Lemma Map_get_set_eq k v m : Map_get (Map_set k v m) k = Some v.
Proof.
  induction m as [|[k' v'] m IH]; simpl.
  - by rewrite Nat.eqb_refl.
  - destruct (Nat.eqb k k') eqn:E; simpl; rewrite ?Nat.eqb_refl, ?E; done.
Qed.

Lemma Map_get_set_ne k k' v m : k <> k' -> Map_get (Map_set k v m) k' = Map_get m k'.
Proof.
  intros Hne. induction m as [|[k'' v''] m IH]; simpl.
  - destruct (Nat.eqb k' k) eqn:E; [apply Nat.eqb_eq in E; congruence|done].
  - destruct (Nat.eqb k k'') eqn:E; simpl.
    + apply Nat.eqb_eq in E. subst k''.
      destruct (Nat.eqb k' k) eqn:E'; [apply Nat.eqb_eq in E'; congruence|done].
    + destruct (Nat.eqb k' k''); [done|apply IH].
Qed.

Lemma cameras_createCameraElement i c b s :
  cameras (createCameraElement i c b s) = Map_set i (length (heap s)) (cameras s).
Proof.
  unfold createCameraElement. unfold_prims. simpl.
  repeat case_match; simpl; rewrite ?(stable_initializeStream cameras); done.
Qed.
(** ** Double arithmetic: what rounding preserves *)

Arguments Double.pow2 : simpl never.
Arguments Double.mag : simpl never.
Arguments Double.rne : simpl never.
Arguments Double.round : simpl never.
Arguments Double.add : simpl never.
Arguments Double.sub : simpl never.
Arguments Double.mul : simpl never.
Arguments Double.pow : simpl never.

Section DoubleFacts.
Local Open Scope Q_scope.
Local Abbreviation pow2 := Double.pow2.
Local Abbreviation mag := Double.mag.
Local Abbreviation fexp := Double.fexp.
Local Abbreviation rne := Double.rne.
Local Abbreviation round := Double.round.

Lemma pow2_pos e : 0 < pow2 e.
Proof. apply Qpower_0_lt. reflexivity. Qed.

Lemma pow2_add a b : pow2 (a + b) == pow2 a * pow2 b.
Proof. apply Qpower_plus. discriminate. Qed.

Lemma pow2_le a b : (a <= b)%Z -> pow2 a <= pow2 b.
Proof. intros H. apply Qpower_le_compat_l; [exact H|discriminate]. Qed.

Lemma pow2_lt a b : (a < b)%Z -> pow2 a < pow2 b.
Proof. intros H. apply Qpower_lt_compat_l; [exact H|reflexivity]. Qed.

Lemma pow2_lt_inv a b : pow2 a < pow2 b -> (a < b)%Z.
Proof. intros H. apply (Qpower_lt_compat_l_inv 2); [exact H|reflexivity]. Qed.

Lemma pow2_Z e : (0 <= e)%Z -> pow2 e == inject_Z (2 ^ e).
Proof. intros H. unfold Double.pow2. by rewrite Zpower_Qpower. Qed.

Lemma pow2_sub a b : pow2 (a - b) == pow2 a / pow2 b.
Proof.
  pose proof (pow2_add (a - b) b) as H. replace (a - b + b)%Z with a in H by lia.
  pose proof (pow2_pos b). rewrite H. field. lra.
Qed.

(** [mag q] is the binary order of magnitude of [q]. *)
Lemma mag_spec q : ~ q == 0 -> pow2 (mag q - 1) <= Qabs q /\ Qabs q < pow2 (mag q).
Proof.
  intros Hq. unfold Double.mag.
  set (n := Z.abs (Qnum q)). set (d := Zpos (Qden q)).
  assert (Hn : (0 < n)%Z).
  { subst n. destruct q as [[|p|p] qd]; simpl; try lia. exfalso. apply Hq. reflexivity. }
  assert (Hd : (0 < d)%Z) by (subst d; lia).
  assert (Habs : Qabs q == inject_Z n / inject_Z d).
  { subst n d. destruct q as [qn qd]. simpl. apply Qmake_Qdiv. }
  destruct (Z.log2_spec n Hn) as [Ha1 Ha2]. destruct (Z.log2_spec d Hd) as [Hb1 Hb2].
  set (a := Z.log2 n) in *. set (b := Z.log2 d) in *.
  assert (Ha : (0 <= a)%Z) by apply Z.log2_nonneg.
  assert (Hb : (0 <= b)%Z) by apply Z.log2_nonneg.
  assert (Hd' : 0 < inject_Z d) by (change 0 with (inject_Z 0); by rewrite <- Zlt_Qlt).
  assert (Ha1' : pow2 a <= inject_Z n) by (rewrite pow2_Z by lia; by rewrite <- Zle_Qle).
  assert (Ha2' : inject_Z n < pow2 (a + 1)).
  { rewrite pow2_Z by lia. rewrite <- Zlt_Qlt. by rewrite <- Z.add_1_r in Ha2. }
  assert (Hb1' : pow2 b <= inject_Z d) by (rewrite pow2_Z by lia; by rewrite <- Zle_Qle).
  assert (Hb2' : inject_Z d < pow2 (b + 1)).
  { rewrite pow2_Z by lia. rewrite <- Zlt_Qlt. by rewrite <- Z.add_1_r in Hb2. }
  assert (Hlo : pow2 (a - b - 1) < Qabs q).
  { rewrite Habs. apply Qlt_shift_div_l; [done|].
    apply Qlt_le_trans with (pow2 (a - b - 1) * pow2 (b + 1)).
    - apply Qmult_lt_l; [apply pow2_pos|done].
    - rewrite <- pow2_add. by replace (a - b - 1 + (b + 1))%Z with a by lia. }
  assert (Hhi : Qabs q < pow2 (a - b + 1)).
  { rewrite Habs. apply Qlt_shift_div_r; [done|].
    apply Qlt_le_trans with (pow2 (a + 1)); [done|].
    replace (a + 1)%Z with (a - b + 1 + b)%Z by lia. rewrite pow2_add.
    apply Qmult_le_l; [apply pow2_pos|done]. }
  destruct (Qle_bool (pow2 (a - b)) (Qabs q)) eqn:E.
  - apply Qle_bool_iff in E. replace (a - b + 1 - 1)%Z with (a - b)%Z by lia. done.
  - split; [by apply Qlt_le_weak|].
    apply Qnot_le_lt. intros H. apply Qle_bool_iff in H. congruence.
Qed.

Lemma mag_unique q e : pow2 (e - 1) <= Qabs q -> Qabs q < pow2 e -> mag q = e.
Proof.
  intros H1 H2.
  assert (Hq : ~ q == 0).
  { intros H. rewrite H in H1. pose proof (pow2_pos (e - 1)).
    change (Qabs 0) with 0 in H1. lra. }
  destruct (mag_spec q Hq) as [H3 H4].
  assert (mag q - 1 < e)%Z by (apply pow2_lt_inv; lra).
  assert (e - 1 < mag q)%Z by (apply pow2_lt_inv; lra).
  lia.
Qed.

Lemma mag_le a b : 0 < a -> a <= b -> (mag a <= mag b)%Z.
Proof.
  intros Ha Hab.
  destruct (mag_spec a) as [H1 H2]; [lra|]. destruct (mag_spec b) as [H3 H4]; [lra|].
  rewrite Qabs_pos in H1, H2 by lra. rewrite Qabs_pos in H3, H4 by lra.
  assert (mag a - 1 < mag b)%Z by (apply pow2_lt_inv; lra). lia.
Qed.


(** Rounding to the nearest integer. *)
Lemma rne_floor q : (Qfloor q <= rne q <= Qfloor q + 1)%Z.
Proof. unfold Double.rne. repeat case_match; lia. Qed.

Lemma rne_mono a b : a <= b -> (rne a <= rne b)%Z.
Proof.
  intros Hab. pose proof (Qfloor_resp_le a b Hab) as Hf.
  pose proof (rne_floor a) as Ha. pose proof (rne_floor b) as Hb.
  destruct (Z.eq_dec (Qfloor a) (Qfloor b)) as [E|NE]; [|lia].
  unfold Double.rne in *. rewrite <- E in *.
  destruct (Qcompare_spec (a - inject_Z (Qfloor a)) (1 # 2)) as [Ea|Ea|Ea];
  destruct (Qcompare_spec (b - inject_Z (Qfloor a)) (1 # 2)) as [Eb|Eb|Eb];
    try lia; try (exfalso; lra); destruct (Z.even (Qfloor a)); lia.
Qed.

Lemma rne_Z n : rne (inject_Z n) = n.
Proof.
  unfold Double.rne. rewrite Qfloor_Z.
  destruct (Qcompare_spec (inject_Z n - inject_Z n) (1 # 2)) as [E|E|E];
    [exfalso; lra|done|exfalso; lra].
Qed.

Lemma rne_le_Z q n : q <= inject_Z n -> (rne q <= n)%Z.
Proof. intros H. rewrite <- (rne_Z n). by apply rne_mono. Qed.

Lemma rne_ge_Z q n : inject_Z n <= q -> (n <= rne q)%Z.
Proof. intros H. rewrite <- (rne_Z n). by apply rne_mono. Qed.

Lemma rne_small q : 0 <= q -> q < 1 # 2 -> rne q = 0%Z.
Proof.
  intros H0 H1.
  assert (Hf : Qfloor q = 0%Z).
  { pose proof (Qfloor_le q) as A. pose proof (Qlt_floor q) as B.
    assert (inject_Z (Qfloor q) < inject_Z 1) by (change (inject_Z 1) with 1; lra).
    assert (inject_Z (-1) < inject_Z (Qfloor q)).
    { rewrite inject_Z_plus in B. change (inject_Z 1) with 1 in B.
      change (inject_Z (-1)) with (-1). lra. }
    rewrite <- Zlt_Qlt in *. lia. }
  unfold Double.rne. rewrite Hf.
  destruct (Qcompare_spec (q - inject_Z 0) (1 # 2)) as [E|E|E]; [|done|];
    exfalso; change (inject_Z 0) with 0 in E; lra.
Qed.

(** Above the midpoint the upper neighbour is taken; at or below the
    midpoint over an even integer, that integer. *)
Lemma rne_above q n : inject_Z n + (1 # 2) < q -> (n + 1 <= rne q)%Z.
Proof.
  intros H.
  assert (Hf : (n <= Qfloor q)%Z).
  { rewrite <- (Qfloor_Z n). apply Qfloor_resp_le. lra. }
  pose proof (rne_floor q) as Hr.
  destruct (Z.eq_dec (Qfloor q) n) as [E|NE]; [|lia].
  unfold Double.rne in *. rewrite E in *.
  destruct (Qcompare_spec (q - inject_Z n) (1 # 2)) as [Eq|Eq|Eq];
    [exfalso; lra|exfalso; lra|lia].
Qed.

Lemma rne_below q n : q <= inject_Z n + (1 # 2) -> Z.even n = true -> (rne q <= n)%Z.
Proof.
  intros H Hev.
  assert (Hf : (Qfloor q <= n)%Z).
  { pose proof (Qfloor_le q) as A.
    assert (inject_Z (Qfloor q) < inject_Z (n + 1))
      by (rewrite inject_Z_plus; change (inject_Z 1) with 1; lra).
    rewrite <- Zlt_Qlt in *. lia. }
  pose proof (rne_floor q) as Hr.
  destruct (Z.eq_dec (Qfloor q) n) as [E|NE]; [|lia].
  unfold Double.rne in *. rewrite E in *. rewrite Hev.
  destruct (Qcompare_spec (q - inject_Z n) (1 # 2)) as [Eq|Eq|Eq];
    [lia|lia|exfalso; lra].
Qed.

(** Rounding to a double. *)
Lemma round_eq q :
  ~ q == 0 ->
  round q == inject_Z (rne (q / pow2 (fexp (mag q)))) * pow2 (fexp (mag q)).
Proof.
  intros Hq. unfold Double.round.
  destruct (Qeq_bool q 0) eqn:E; [by apply Qeq_bool_iff in E|].
  cbv zeta. apply Qred_correct.
Qed.

Lemma round_0 q : q == 0 -> round q = 0.
Proof. intros H. unfold Double.round. apply Qeq_bool_iff in H. by rewrite H. Qed.

Lemma scaled_pos q e : 0 < q -> 0 < q / pow2 e.
Proof. intros H. apply Qlt_shift_div_l; [apply pow2_pos|lra]. Qed.

Lemma div_pow2_lt q x f : q < x -> q / pow2 f < x / pow2 f.
Proof.
  intros H. unfold Qdiv. apply Qmult_lt_compat_r; [|done].
  apply Qinv_lt_0_compat, pow2_pos.
Qed.

Lemma div_pow2_le q x f : q <= x -> q / pow2 f <= x / pow2 f.
Proof.
  intros H. unfold Qdiv. apply Qmult_le_compat_r; [done|].
  apply Qlt_le_weak, Qinv_lt_0_compat, pow2_pos.
Qed.

Lemma div_mul_pow2 x f : x / pow2 f * pow2 f == x.
Proof. pose proof (pow2_pos f). field. lra. Qed.

Lemma half_pow2 f : pow2 (f - 1) / pow2 f == 1 # 2.
Proof.
  rewrite pow2_sub. change (pow2 1) with 2. pose proof (pow2_pos f). field. lra.
Qed.

Lemma round_nonneg q : 0 <= q -> 0 <= round q.
Proof.
  intros H. destruct (Qeq_dec q 0) as [E|NE]; [by rewrite round_0|].
  rewrite round_eq by done. apply Qmult_le_0_compat; [|apply Qlt_le_weak, pow2_pos].
  change 0 with (inject_Z 0). rewrite <- Zle_Qle. apply rne_ge_Z.
  change (inject_Z 0) with 0. apply Qlt_le_weak, scaled_pos. lra.
Qed.

Lemma round_nonpos q : q <= 0 -> round q <= 0.
Proof.
  intros H. destruct (Qeq_dec q 0) as [E|NE]; [by rewrite round_0|].
  rewrite round_eq by done.
  assert (Hr : (rne (q / pow2 (fexp (mag q))) <= 0)%Z).
  { apply rne_le_Z. change (inject_Z 0) with 0.
    apply Qle_shift_div_r; [apply pow2_pos|]. by rewrite Qmult_0_l. }
  rewrite Zle_Qle in Hr. change (inject_Z 0) with 0 in Hr.
  pose proof (pow2_pos (fexp (mag q))). nra.
Qed.

Lemma round_upper q : 0 < q -> round q <= pow2 (mag q).
Proof.
  intros Hq. destruct (mag_spec q) as [H1 H2]; [lra|]. rewrite Qabs_pos in H1, H2 by lra.
  rewrite round_eq by lra. set (e := mag q) in *. set (f := fexp e).
  pose proof (pow2_pos f) as Hf.
  destruct (Z_le_gt_dec f e) as [Hfe|Hfe].
  - assert (Hs : q / pow2 f <= inject_Z (2 ^ (e - f))).
    { rewrite <- pow2_Z by lia. rewrite pow2_sub. by apply Qlt_le_weak, div_pow2_lt. }
    apply rne_le_Z in Hs. rewrite Zle_Qle in Hs. rewrite <- pow2_Z in Hs by lia.
    rewrite pow2_sub in Hs. rewrite <- (div_mul_pow2 (pow2 e) f).
    apply Qmult_le_compat_r; [done|lra].
  - assert (Hs : rne (q / pow2 f) = 0%Z).
    { apply rne_small; [apply Qlt_le_weak; by apply scaled_pos|].
      rewrite <- (half_pow2 f). apply div_pow2_lt.
      apply Qlt_le_trans with (pow2 e); [done|]. apply pow2_le; lia. }
    rewrite Hs. pose proof (pow2_pos e). change (inject_Z 0) with 0. lra.
Qed.

Lemma round_lower q : 0 < q -> (fexp (mag q) <= mag q - 1)%Z -> pow2 (mag q - 1) <= round q.
Proof.
  intros Hq Hfe. destruct (mag_spec q) as [H1 H2]; [lra|]. rewrite Qabs_pos in H1, H2 by lra.
  rewrite round_eq by lra. set (e := mag q) in *. set (f := fexp e) in *.
  pose proof (pow2_pos f) as Hf.
  assert (Hs : inject_Z (2 ^ (e - 1 - f)) <= q / pow2 f).
  { rewrite <- pow2_Z by lia. rewrite pow2_sub. by apply div_pow2_le. }
  apply rne_ge_Z in Hs. rewrite Zle_Qle in Hs. rewrite <- pow2_Z in Hs by lia.
  rewrite pow2_sub in Hs. rewrite <- (div_mul_pow2 (pow2 (e - 1)) f).
  apply Qmult_le_compat_r; [done|lra].
Qed.

Lemma round_tiny q : 0 < q -> (mag q < fexp (mag q))%Z -> round q == 0.
Proof.
  intros Hq Hfe. destruct (mag_spec q) as [H1 H2]; [lra|]. rewrite Qabs_pos in H1, H2 by lra.
  rewrite round_eq by lra. set (e := mag q) in *. set (f := fexp e) in *.
  pose proof (pow2_pos f) as Hf.
  assert (Hs : rne (q / pow2 f) = 0%Z).
  { apply rne_small; [apply Qlt_le_weak; by apply scaled_pos|].
    rewrite <- (half_pow2 f). apply div_pow2_lt.
    apply Qlt_le_trans with (pow2 e); [done|]. apply pow2_le; lia. }
  rewrite Hs. change (inject_Z 0) with 0. lra.
Qed.

(** Rounding is monotone on the non-negative numbers. *)
Lemma round_mono a b : 0 <= a -> a <= b -> round a <= round b.
Proof.
  intros Ha Hab.
  destruct (Qeq_dec a 0) as [E|NE].
  { rewrite (round_0 a E). apply round_nonneg. lra. }
  assert (Ha' : 0 < a) by lra. assert (Hb' : 0 < b) by lra.
  pose proof (mag_le a b Ha' Hab) as Hm.
  destruct (Z.eq_dec (mag a) (mag b)) as [Em|NEm].
  - rewrite !round_eq by lra. rewrite Em.
    pose proof (pow2_pos (fexp (mag b))) as Hf.
    apply Qmult_le_compat_r; [|lra].
    rewrite <- Zle_Qle. apply rne_mono. by apply div_pow2_le.
  - destruct (Z_le_gt_dec (fexp (mag b)) (mag b - 1)) as [Hfe|Hfe].
    + apply Qle_trans with (pow2 (mag a)); [by apply round_upper|].
      apply Qle_trans with (pow2 (mag b - 1)); [apply pow2_le; lia|].
      by apply round_lower.
    + rewrite (round_tiny a Ha'); [apply round_nonneg; lra|].
      unfold Double.fexp in *. lia.
Qed.


(** A number that is an integer multiple of its own unit in the last place
    is rounded to itself. *)
Lemma round_fixed c n :
  0 < c -> c == inject_Z n * pow2 (fexp (mag c)) -> round c == c.
Proof.
  intros Hc Hn. rewrite round_eq by lra. set (f := fexp (mag c)) in *.
  pose proof (pow2_pos f) as Hf.
  assert (Hs : c / pow2 f == inject_Z n) by (rewrite Hn; field; lra).
  assert (Hr : rne (c / pow2 f) = n).
  { apply Z.le_antisymm; [apply rne_le_Z|apply rne_ge_Z]; rewrite Hs; apply Qle_refl. }
  by rewrite Hr, <- Hn.
Qed.

(** Where the result of a rounding passes a double [c] with an even
    significand [n]: exactly when the exact value passes the midpoint
    between [c] and the next double. *)
Lemma round_gt_iff c n x :
  let f := fexp (mag c) in
  0 < c -> c == inject_Z n * pow2 f -> Z.even n = true ->
  mag (c + pow2 f) = mag c ->
  (c < round x <-> c + pow2 f * (1 # 2) < x).
Proof.
  intros f Hc Hn Hev Hnext. pose proof (pow2_pos f) as Hf.
  destruct (mag_spec c) as [Hc1 Hc2]; [lra|]. rewrite Qabs_pos in Hc1, Hc2 by lra.
  destruct (mag_spec (c + pow2 f)) as [_ Hc3]; [lra|].
  rewrite Qabs_pos, Hnext in Hc3 by lra.
  assert (Hbin : forall y, c <= y -> y < c + pow2 f ->
            round y == inject_Z (rne (y / pow2 f)) * pow2 f).
  { intros y H1 H2. rewrite round_eq by lra.
    assert (mag y = mag c) as -> by (apply mag_unique; rewrite Qabs_pos by lra; lra).
    reflexivity. }
  assert (Hcf : c / pow2 f == inject_Z n) by (rewrite Hn; field; lra).
  split.
  - intros Hlt. apply Qnot_le_lt. intros Hle. apply (Qlt_not_le _ _ Hlt).
    destruct (Qlt_le_dec 0 x) as [Hx|Hx]; [|pose proof (round_nonpos x Hx); lra].
    destruct (Qlt_le_dec x c) as [Hxc|Hxc].
    + rewrite <- (round_fixed c n Hc Hn). apply round_mono; lra.
    + pose proof (Hbin x ltac:(lra) ltac:(lra)) as Hrx. rewrite Hrx.
      assert (Hr : (rne (x / pow2 f) <= n)%Z).
      { apply rne_below; [|done]. rewrite <- Hcf.
        assert (E : c / pow2 f + (1 # 2) == (c + pow2 f * (1 # 2)) / pow2 f) by (field; lra).
        rewrite E. by apply div_pow2_le. }
      rewrite Zle_Qle in Hr. rewrite Hn. apply Qmult_le_compat_r; [done|lra].
  - intros Hgt. destruct (Qlt_le_dec x (c + pow2 f)) as [Hx|Hx].
    + pose proof (Hbin x ltac:(lra) ltac:(lra)) as Hrx. rewrite Hrx.
      assert (Hr : (n + 1 <= rne (x / pow2 f))%Z).
      { apply rne_above. rewrite <- Hcf.
        assert (E : c / pow2 f + (1 # 2) == (c + pow2 f * (1 # 2)) / pow2 f) by (field; lra).
        rewrite E. by apply div_pow2_lt. }
      rewrite Zle_Qle, inject_Z_plus in Hr. change (inject_Z 1) with 1 in Hr.
      apply Qlt_le_trans with ((inject_Z n + 1) * pow2 f); [rewrite Hn; nra|].
      apply Qmult_le_compat_r; [done|lra].
    + apply Qlt_le_trans with (round (c + pow2 f)); [|apply round_mono; lra].
      rewrite (round_fixed (c + pow2 f) (n + 1)); [lra|lra|].
      rewrite Hnext. fold f. rewrite inject_Z_plus, Hn. change (inject_Z 1) with 1. ring.
Qed.

Lemma round_gt_5 x : 5 < round x <-> 5 + (1 # 2 ^ 51) < x.
Proof.
  pose proof (round_gt_iff 5 (5 * 2 ^ 50) x) as H. cbv zeta in H.
  assert (E : 5 + pow2 (fexp (mag 5)) * (1 # 2) == 5 + (1 # 2 ^ 51)) by reflexivity.
  rewrite <- E. apply H; reflexivity.
Qed.

End DoubleFacts.

(** ** Grid layout (calculateGridLayout, updateGridLayout, setupGrid) *)

Lemma ceilDiv_ge a b : (0 < b)%Z -> (a <= b * ceilDiv a b)%Z.
Proof.
  intros Hb. unfold ceilDiv.
  pose proof (Qle_ceiling (inject_Z a / inject_Z b)) as H.
  assert (Hq : (inject_Z a <= inject_Z b * inject_Z (Qceiling (inject_Z a / inject_Z b)))%Q).
  { assert (0 < inject_Z b)%Q by (change 0%Q with (inject_Z 0); rewrite <- Zlt_Qlt; done).
    rewrite <- (Qmult_div_r (inject_Z a) (inject_Z b)) at 1 by lra.
    apply Qmult_le_l; lra. }
  rewrite <- inject_Z_mult in Hq. by rewrite Zle_Qle.
Qed.

Lemma calculateGridLayout_columns n :
  In (columns (calculateGridLayout n)) [1; 2; 3; 4; 6]%Z.
Proof.
  unfold calculateGridLayout. cbn [columns]. repeat case_match; simpl; tauto.
Qed.

Lemma calculateGridLayout_rows n :
  rows (calculateGridLayout n) = ceilDiv (clamp n 1 18) (columns (calculateGridLayout n)).
Proof. reflexivity. Qed.

Lemma calculateGridLayout_cells n :
  (clamp n 1 18 <= columns (calculateGridLayout n) * rows (calculateGridLayout n))%Z.
Proof.
  rewrite calculateGridLayout_rows. apply ceilDiv_ge.
  pose proof (calculateGridLayout_columns n) as H. cbn [In] in H. lia.
Qed.

Lemma clamp_idem n : clamp (clamp n 1 18) 1 18 = clamp n 1 18.
Proof. unfold clamp. lia. Qed.

Lemma padConfigs_length k cfgs : length (padConfigs k cfgs) = (k + length cfgs)%nat.
Proof.
  revert cfgs. induction k as [|k IH]; intros cfgs; simpl; [done|].
  rewrite IH, length_app. simpl. lia.
Qed.

Lemma updateGridLayout_config n s :
  config (updateGridLayout n s) =
    {| gColumns := columns (calculateGridLayout n);
       gRows := rows (calculateGridLayout n);
       numCameras := clamp n 1 18 |}.
Proof.
  unfold updateGridLayout. simpl. unfold calculateGridLayout.
  by rewrite !clamp_idem.
Qed.

Lemma updateGridLayout_configs_length n s :
  (Z.to_nat (clamp n 1 18) <= length (cameraConfigs (updateGridLayout n s)))%nat.
Proof. unfold updateGridLayout. simpl. rewrite padConfigs_length. lia. Qed.

(** The loop of [setupGrid] registers a session for every index below its
    bound that has a configuration. *)
Lemma foldl_setupCell_cameras m s cams :
  (m <= length (cameraConfigs s))%nat ->
  forall i, (i < m)%nat ->
    is_Some (Map_get (cameras (fst (foldl setupCell (s, cams) (seq 0 m)))) i).
Proof.
  induction m as [|m IH]; intros Hm i Hi; [lia|].
  rewrite seq_S, foldl_app. simpl.
  pose proof (stable_foldl_setupCell cameraConfigs (s, cams) (seq 0 m)) as Hc.
  assert (Hm' : (m <= length (cameraConfigs s))%nat) by lia.
  specialize (IH Hm').
  destruct (foldl setupCell (s, cams) (seq 0 m)) as [s' cams'] eqn:E.
  simpl in *. unfold setupCell.
  assert (Hlt : (m < length (cameraConfigs s'))%nat) by (rewrite Hc; lia).
  destruct (lookup_lt_is_Some_2 (cameraConfigs s') m Hlt) as [c Hcm].
  rewrite Hcm.
  assert (is_Some (Map_get (cameras (createCameraElement m c false s')) i)) as Hgoal.
  { rewrite cameras_createCameraElement.
    destruct (decide (i = m)) as [->|Hne].
    - rewrite Map_get_set_eq. eauto.
    - rewrite Map_get_set_ne by done. apply IH. lia. }
  by case_match.
Qed.

Lemma setupGrid_cameras s :
  gridElement s = true ->
  (numCameras (config s) <= gColumns (config s) * gRows (config s))%Z ->
  (Z.to_nat (numCameras (config s)) <= length (cameraConfigs s))%nat ->
  forall i, (Z.of_nat i < numCameras (config s))%Z ->
    is_Some (Map_get (cameras (setupGrid s)) i).
Proof.
  intros Hg Hcells Hlen i Hi. unfold setupGrid. rewrite Hg. cbv zeta. cbn [negb].
  rewrite !(stable_destroyAllCameras config).
  rewrite Z.min_r by done.
  pose proof (foldl_setupCell_cameras (Z.to_nat (numCameras (config s)))
                (destroyAllCameras s) [] ) as H.
  rewrite (stable_destroyAllCameras cameraConfigs) in H.
  specialize (H Hlen i ltac:(lia)).
  destruct (foldl setupCell _ _) as [s' cams]. simpl in H.
  repeat case_match;
    rewrite ?(stable_startHealthMonitor cameras), ?(stable_sequentialInit cameras),
      ?(stable_foldl_initializeStream cameras); done.
Qed.

(** The slots the loop of [setupGrid] registers: those below its bound
    that have a configuration, besides the ones registered before. *)
Lemma foldl_setupCell_dom m s cams i :
  is_Some (Map_get (cameras (fst (foldl setupCell (s, cams) (seq 0 m)))) i) <->
  is_Some (Map_get (cameras s) i) \/ ((i < m)%nat /\ is_Some (cameraConfigs s !! i)).
Proof.
  induction m as [|m IH].
  - simpl. split; [by left|]. intros [H|[H _]]; [done|lia].
  - rewrite seq_S, foldl_app. simpl.
    pose proof (stable_foldl_setupCell cameraConfigs (s, cams) (seq 0 m)) as Hc.
    destruct (foldl setupCell (s, cams) (seq 0 m)) as [s' cams'] eqn:E.
    simpl in *. unfold setupCell. rewrite Hc.
    destruct (cameraConfigs s !! m) as [c|] eqn:Hcm.
    + assert (Hdom : is_Some (Map_get (cameras (createCameraElement m c false s')) i) <->
                is_Some (Map_get (cameras s) i) \/
                ((i < S m)%nat /\ is_Some (cameraConfigs s !! i))).
      { rewrite cameras_createCameraElement.
        destruct (decide (i = m)) as [->|Hne].
        - rewrite Map_get_set_eq. split; [|eauto]. intros _. right. split; [lia|eauto].
        - rewrite Map_get_set_ne by done. rewrite IH.
          split; (intros [H|[H1 H2]]; [by left|right; split; [lia|done]]). }
      by case_match.
    + simpl. rewrite IH.
      split; (intros [H|[H1 H2]]; [by left|right; split; [|done]]); [lia|].
      destruct (decide (i = m)) as [->|Hne]; [|lia].
      rewrite Hcm in H2. by destruct H2.
Qed.

Lemma setupGrid_dom s i :
  gridElement s = true ->
  is_Some (Map_get (cameras (setupGrid s)) i) <->
  (Z.of_nat i < Z.min (gColumns (config s) * gRows (config s)) (numCameras (config s)))%Z /\
  is_Some (cameraConfigs s !! i).
Proof.
  intros Hg. unfold setupGrid. rewrite Hg. cbv zeta. cbn [negb].
  rewrite !(stable_destroyAllCameras config).
  set (m := Z.to_nat (Z.min (gColumns (config s) * gRows (config s))
                        (numCameras (config s)))).
  pose proof (foldl_setupCell_dom m (destroyAllCameras s) [] i) as H.
  rewrite (stable_destroyAllCameras cameraConfigs) in H.
  assert (Hnil : cameras (destroyAllCameras s) = []) by reflexivity.
  rewrite Hnil in H. cbn [Map_get] in H.
  assert (Hm : (i < m)%nat <->
            (Z.of_nat i < Z.min (gColumns (config s) * gRows (config s))
                            (numCameras (config s)))%Z) by (subst m; lia).
  rewrite <- Hm.
  destruct (foldl setupCell _ _) as [s' cams]. simpl in H.
  assert (Hiff : is_Some (Map_get (cameras s') i) <->
                 (i < m)%nat /\ is_Some (cameraConfigs s !! i)).
  { rewrite H. split; [intros [[? Hx]|Hx]; [done|done]|by right]. }
  repeat case_match;
    rewrite ?(stable_startHealthMonitor cameras), ?(stable_sequentialInit cameras),
      ?(stable_foldl_initializeStream cameras); done.
Qed.

(** C10 (as amended).  For every integer [n], [calculateGridLayout n] has
    its columns in {1, 2, 3, 4, 6}, rows = ceil(clamp(n, 1, 18) / columns)
    and at least clamp(n, 1, 18) cells; consequently, when the grid
    configuration was produced by [updateGridLayout], [setupGrid] registers a
    session for every slot below the clamped camera count.  A grid
    configuration handed over through [updateConfig] is used as it is
    (non-zero columns and rows are not recomputed from the camera count),
    and [setupGrid] then registers a session exactly for the configured
    slots below min(columns x rows, numCameras). *)
Theorem calculateGridLayout_covers_grid (n : Z) :
  let g := calculateGridLayout n in
  In (columns g) [1; 2; 3; 4; 6]%Z /\
  rows g = ceilDiv (clamp n 1 18) (columns g) /\
  (clamp n 1 18 <= columns g * rows g)%Z /\
  (forall s i,
    gridElement s = true ->
    (Z.of_nat i < clamp n 1 18)%Z ->
    let s' := setupGrid (updateGridLayout n s) in
    numCameras (config s') = clamp n 1 18 /\
    (numCameras (config s') <= gColumns (config s') * gRows (config s'))%Z /\
    is_Some (Map_get (cameras s') i)) /\
  (forall s cams gc i,
    gridElement s = true ->
    let s' := setupGrid (updateConfig cams (Some gc) s) in
    (gColumns gc <> 0%Z -> gColumns (config s') = gColumns gc) /\
    (gRows gc <> 0%Z -> gRows (config s') = gRows gc) /\
    ((1 <= numCameras gc <= 18)%Z -> numCameras (config s') = numCameras gc) /\
    (is_Some (Map_get (cameras s') i) <->
       (Z.of_nat i < Z.min (gColumns (config s') * gRows (config s'))
                       (numCameras (config s')))%Z /\
       is_Some (default [] cams !! i))).
Proof.
  split; [apply calculateGridLayout_columns|].
  split; [apply calculateGridLayout_rows|].
  split; [apply calculateGridLayout_cells|].
  split.
  - intros s i Hg Hi. simpl.
    rewrite (stable_setupGrid config), updateGridLayout_config. simpl.
    split; [done|]. split; [apply calculateGridLayout_cells|].
    apply setupGrid_cameras.
    + done.
    + rewrite updateGridLayout_config. simpl. apply calculateGridLayout_cells.
    + rewrite updateGridLayout_config. simpl. apply updateGridLayout_configs_length.
    + by rewrite updateGridLayout_config.
  - intros s cams gc i Hg. cbv zeta.
    rewrite (stable_setupGrid config).
    assert (Ht : forall z, truthyZ z = negb (z =? 0)%Z) by reflexivity.
    split; [|split; [|split]].
    + intros H. unfold updateConfig. cbn. rewrite Ht. by destruct (Z.eqb_spec (gColumns gc) 0).
    + intros H. unfold updateConfig. cbn. rewrite Ht. by destruct (Z.eqb_spec (gRows gc) 0).
    + intros H. unfold updateConfig. cbn. rewrite Ht.
      destruct (Z.eqb_spec (numCameras gc) 0); simpl; unfold clamp; lia.
    + by rewrite setupGrid_dom.
Qed.

Definition exampleCamera (u : string) : Camera := {| url := u; name := "" |}.

Lemma calculateGridLayout_covers_grid_witness :
  let s := init (newManager (fun _ => 0%Q) true false false) in
  let s' := setupGrid (updateGridLayout 5 s) in
  let cams := [exampleCamera "http://a/1.m3u8"; exampleCamera "http://a/2.m3u8"] in
  let s2 := setupGrid (updateConfig (Some cams)
                         (Some {| gColumns := 1; gRows := 1; numCameras := 2 |}) s) in
  numCameras (config s') = 5%Z /\ is_Some (Map_get (cameras s') 4) /\
  is_Some (Map_get (cameras s2) 0) /\ ~ is_Some (Map_get (cameras s2) 1).
Proof.
  intros s s' cams s2.
  destruct (calculateGridLayout_covers_grid 5) as (_ & _ & _ & H & H').
  destruct (H s 4%nat) as (H1 & _ & H3); [reflexivity | reflexivity |].
  pose proof (H' s (Some cams) {| gColumns := 1; gRows := 1; numCameras := 2 |} 0%nat
                eq_refl) as (_ & _ & _ & Hdom0).
  pose proof (H' s (Some cams) {| gColumns := 1; gRows := 1; numCameras := 2 |} 1%nat
                eq_refl) as (_ & _ & _ & Hdom1).
  split; [exact H1|]. split; [exact H3|]. split.
  - apply Hdom0. split; [reflexivity|]. eexists. reflexivity.
  - intros Hs. apply Hdom1 in Hs as [Hlt _]. vm_compute in Hlt. discriminate.
Defined.

(** C10 as stated fails: with the grid configuration 1 x 1 and four cameras
    (what a configuration file may hold), [setupGrid] has one cell for four
    configured slots and creates no session for slots 1, 2, 3. *)
Lemma setupGrid_cells_below_camera_count :
  let cams := [exampleCamera "http://a/1.m3u8"; exampleCamera "http://a/2.m3u8";
               exampleCamera "http://a/3.m3u8"; exampleCamera "http://a/4.m3u8"] in
  let s := setupGrid
             (updateConfig (Some cams)
                (Some {| gColumns := 1; gRows := 1; numCameras := 4 |})
                (init (newManager (fun _ => 0%Q) true false false))) in
  numCameras (config s) = clamp 4 1 18 /\
  (gColumns (config s) * gRows (config s) < clamp 4 1 18)%Z /\
  cameraConfigs s !! 1%nat = Some (exampleCamera "http://a/2.m3u8") /\
  Map_get (cameras s) 1 = None /\
  length (cameras s) = 1%nat.
Proof. vm_compute. repeat split; discriminate. Qed.

(** ** Retry policy (scheduleRetry) *)

Lemma retryDelay_le_max n r : (retryDelay n r <= 120000)%Q.
Proof. unfold retryDelay. apply Q.le_min_r. Qed.

(** For fewer than ten retries the base delay 3000 * 1.5^n is a double,
    and so is the base delay plus a full second: neither product nor sum is
    rounded. *)
Lemma baseDelay_exact (n : nat) :
  (n < 10)%nat ->
  let b := (3000 * (3 # 2) ^ Z.of_nat n)%Q in
  (Double.mul baseRetryDelay (Double.pow (3 # 2) n) == b)%Q /\
  (Double.round b == b)%Q /\ (Double.round (b + 1000) == b + 1000)%Q /\
  (0 <= b)%Q.
Proof.
  intros Hn. do 10 (destruct n as [|n]; [vm_compute; repeat split; discriminate|]). lia.
Qed.

(** The jitter [Math.random() * 1000] lies between 0 and 1000; the upper
    end is reached when the product rounds up. *)
Lemma jitter_bounds (r : Q) :
  (0 <= r)%Q -> (r < 1)%Q ->
  (0 <= Double.mul r 1000)%Q /\ (Double.mul r 1000 <= 1000)%Q.
Proof.
  intros H0 H1. unfold Double.mul. split.
  - apply round_nonneg. nra.
  - assert (E : (Double.round 1000 == 1000)%Q) by (vm_compute; reflexivity).
    apply Qle_trans with (Double.round 1000); [apply round_mono; nra|].
    apply Qle_lteq. by right.
Qed.

Lemma retryDelay_window (n : nat) (r : Q) :
  (n < 10)%nat -> (0 <= r)%Q -> (r < 1)%Q ->
  let b := (3000 * (3 # 2) ^ Z.of_nat n)%Q in
  exists j,
    (0 <= j)%Q /\ (j <= 1000)%Q /\
    (b + j == Double.add b (Double.mul r 1000))%Q /\
    (retryDelay n r == Qmin (b + j) 120000)%Q.
Proof.
  intros Hn H0 H1 b.
  destruct (baseDelay_exact n Hn) as (Eb & Rb & Rb1 & Hb). fold b in Eb, Rb, Rb1, Hb.
  destruct (jitter_bounds r H0 H1) as [J0 J1].
  set (j := Double.mul r 1000) in *.
  assert (Hlo : (b <= Double.round (b + j))%Q).
  { apply Qle_trans with (Double.round b); [apply Qle_lteq; right; by symmetry|].
    apply round_mono; lra. }
  assert (Hhi : (Double.round (b + j) <= b + 1000)%Q).
  { apply Qle_trans with (Double.round (b + 1000)); [apply round_mono; lra|].
    apply Qle_lteq. by right. }
  exists (Double.round (b + j) - b)%Q. split; [lra|]. split; [lra|].
  split; [unfold Double.add; ring|].
  unfold retryDelay, maxRetryDelay, Double.add. cbv zeta. fold j.
  assert (E1 : (Double.round (Double.mul baseRetryDelay (Double.pow (3 # 2) n) + j)
                == Double.round (b + j))%Q).
  { apply Qle_antisym; apply round_mono; rewrite ?Eb; lra. }
  assert (E2 : (b + (Double.round (b + j) - b) == Double.round (b + j))%Q) by ring.
  apply Q.min_compat; [|reflexivity]. by rewrite E1, E2.
Qed.

Lemma lookup_updCam_eq s l g : heap (updCam l g s) !! l = g <$> heap s !! l.
Proof. unfold updCam. simpl. rewrite list_lookup_alter. by case_decide. Qed.

Lemma lookup_updCam_ne s l g l' : l <> l' -> heap (updCam l g s) !! l' = heap s !! l'.
Proof. intros. unfold updCam. simpl. by rewrite list_lookup_alter_ne. Qed.

(** C4 (as amended).  With [retryCount = n < 10] on a live session,
    [scheduleRetry] arms one timer whose delay is
    min(3000 * 1.5^n + j, 120000) for a jitter [j] in [0, 1000]: the code
    adds [Math.random() * 1000] in double precision ([j] is what that sum
    adds to the base delay), and the sum can round up to the full second.  The delay is at most 120000 and for
    n = 0, 1, 2, 3 lies in [3000,4000], [4500,5500], [6750,7750],
    [10125,11125]; the counter becomes n + 1.  With [retryCount >= 10] the
    timer is the fixed 300000 ms cooldown and the counter is reset to 0. *)
Theorem scheduleRetry_backoff (index : nat) (camera : Camera) (s : Mgr)
    (l : loc) (cd : CameraData) :
  Map_get (cameras s) index = Some l ->
  heap s !! l = Some cd ->
  isDestroyed cd = false ->
  (0 <= rng s (rngPos s))%Q -> (rng s (rngPos s) < 1)%Q ->
  let n := retryCount cd in
  let s' := scheduleRetry index camera s in
  if (n <? 10)%nat then
    exists j d : Q,
      (0 <= j)%Q /\ (j <= 1000)%Q /\
      (3000 * (3 # 2) ^ Z.of_nat n + j ==
         Double.add (3000 * (3 # 2) ^ Z.of_nat n) (Double.mul (rng s (rngPos s)) 1000))%Q /\
      (d == Qmin (3000 * (3 # 2) ^ Z.of_nat n + j) 120000)%Q /\
      last (timers s') =
        Some {| tId := nextTimer s; tDue := (now s + d)%Q; tRepeat := None;
                tCb := CbRetry l index camera |} /\
      (d <= 120000)%Q /\
      (n = 0%nat -> (3000 <= d)%Q /\ (d <= 4000)%Q) /\
      (n = 1%nat -> (4500 <= d)%Q /\ (d <= 5500)%Q) /\
      (n = 2%nat -> (6750 <= d)%Q /\ (d <= 7750)%Q) /\
      (n = 3%nat -> (10125 <= d)%Q /\ (d <= 11125)%Q) /\
      retryCount <$> heap s' !! l = Some (S n) /\
      retryTimeout <$> heap s' !! l = Some (Some (nextTimer s))
  else
    last (timers s') =
      Some {| tId := nextTimer s; tDue := (now s + 300000)%Q; tRepeat := None;
              tCb := CbCooldown l index camera |} /\
    retryCount <$> heap s' !! l = Some 0%nat /\
    retryTimeout <$> heap s' !! l = Some (Some (nextTimer s)).
Proof.
  intros Hget Hcd Hlive Hr0 Hr1 n s'. subst s'.
  unfold scheduleRetry. rewrite Hget, Hcd, Hlive.
  assert (Hpre : forall s0,
    s0 = match retryTimeout cd with
         | Some id => updCam l (set_retryTimeout None) (clearTimeout id s)
         | None => s
         end ->
    nextTimer s0 = nextTimer s /\ now s0 = now s /\ rng s0 = rng s /\
    rngPos s0 = rngPos s /\
    exists cd0, heap s0 !! l = Some cd0 /\ retryCount cd0 = retryCount cd).
  { intros s0 ->. destruct (retryTimeout cd); repeat split; try reflexivity.
    - rewrite lookup_updCam_eq. simpl. rewrite Hcd. simpl. eauto.
    - eauto. }
  destruct (Hpre _ eq_refl) as (Hnt & Hnow & Hrng & Hpos & cd0 & Hcd0 & Hrc).
  generalize dependent (match retryTimeout cd with
                        | Some id => updCam l (set_retryTimeout None) (clearTimeout id s)
                        | None => s
                        end).
  intros s0 _ Hnt Hnow Hrng Hpos Hcd0.
  fold n. unfold maxRetryAttempts.
  destruct (n <? 10)%nat eqn:Hn.
  - apply Nat.ltb_lt in Hn.
    destruct (10 <=? n)%nat eqn:Hn'; [apply Nat.leb_le in Hn'; lia|].
    unfold random, setTimeout. simpl.
    rewrite Hrng, Hpos, Hnt, Hnow.
    destruct (retryDelay_window n (rng s (rngPos s)) Hn Hr0 Hr1)
      as (j & Hj0 & Hj1 & Hj & Hd).
    cbv zeta in Hj, Hd.
    assert (Hwin : forall k lo, n = k -> (3000 * (3 # 2) ^ Z.of_nat k == lo)%Q ->
              (lo + 1000 <= 120000)%Q ->
              (lo <= retryDelay n (rng s (rngPos s)))%Q /\
              (retryDelay n (rng s (rngPos s)) <= lo + 1000)%Q).
    { intros k lo -> Hlo Hmax. rewrite Hd, Hlo. rewrite Q.min_l by lra. lra. }
    exists j, (retryDelay n (rng s (rngPos s))).
    split; [done|]. split; [done|]. split; [done|]. split; [done|].
    split; [apply last_snoc|].
    split; [apply retryDelay_le_max|].
    split; [intros E; apply (Hwin 0%nat 3000%Q E); [reflexivity|lra]|].
    split; [intros E; apply (Hwin 1%nat 4500%Q E); [reflexivity|lra]|].
    split; [intros E; apply (Hwin 2%nat 6750%Q E); [reflexivity|lra]|].
    split; [intros E; apply (Hwin 3%nat 10125%Q E); [reflexivity|lra]|].
    rewrite !list_lookup_alter. repeat case_decide; try done.
    rewrite Hcd0. done.
  - apply Nat.ltb_ge in Hn.
    destruct (10 <=? n)%nat eqn:Hn'; [|apply Nat.leb_gt in Hn'; lia].
    unfold setTimeout. simpl. rewrite Hnt, Hnow.
    split; [apply last_snoc|].
    rewrite !list_lookup_alter. repeat case_decide; try done.
    rewrite Hcd0. done.
Qed.

Definition retryWitnessCamera : Camera := {| url := "http://cam/stream.mp4"; name := "Door" |}.

Definition retryWitnessState : Mgr :=
  Eval vm_compute in
  createCameraElement 0 retryWitnessCamera false
    (init (newManager (fun _ => 1 # 2) true false false)).

Lemma scheduleRetry_backoff_witness :
  exists d : Q,
    (3000 <= d)%Q /\ (d <= 4000)%Q /\
    last (timers (scheduleRetry 0 retryWitnessCamera retryWitnessState)) =
      Some {| tId := 1; tDue := (0 + d)%Q; tRepeat := None;
              tCb := CbRetry 0 0 retryWitnessCamera |}.
Proof.
  assert (H0 : (0 <= 1 # 2)%Q) by discriminate.
  assert (H1 : (1 # 2 < 1)%Q) by reflexivity.
  pose proof (scheduleRetry_backoff 0 retryWitnessCamera retryWitnessState 0 _
                eq_refl eq_refl eq_refl H0 H1) as H.
  simpl in H. destruct H as (j & d & _ & _ & _ & _ & Hlast & _ & Hw & _).
  exists d. destruct (Hw eq_refl) as [Hlo Hhi].
  split; [exact Hlo|]. split; [exact Hhi|]. exact Hlast.
Defined.

(** C4 as stated fails at the upper end of each window.  With the draw
    [1 - 2^-52], a double below 1, the jitter is [1000 - 2^-42], and
    [3000 + jitter] lies halfway between two doubles: it rounds to 4000, so
    the first retry is scheduled after exactly 4000 ms, not less.  The
    second, third and fourth retry are scheduled after exactly 5500, 7750
    and 11125 ms in the same way. *)
Definition largestDraw : Q := 1 - (1 # 2 ^ 52).

Definition lateRetryState : Mgr :=
  Eval vm_compute in
  createCameraElement 0 retryWitnessCamera false
    (init (newManager (fun _ => largestDraw) true false false)).

Lemma retry_delay_reaches_upper_end :
  (0 <= largestDraw)%Q /\ (largestDraw < 1)%Q /\
  Double.round largestDraw = largestDraw /\
  retryCount <$> heap lateRetryState !! 0%nat = Some 0%nat /\
  last (timers (scheduleRetry 0 retryWitnessCamera lateRetryState)) =
    Some {| tId := 1; tDue := 4000%Q; tRepeat := None;
            tCb := CbRetry 0 0 retryWitnessCamera |} /\
  ~ (4000 < 4000)%Q /\
  retryDelay 0 largestDraw = 4000%Q /\ retryDelay 1 largestDraw = 5500%Q /\
  retryDelay 2 largestDraw = 7750%Q /\ retryDelay 3 largestDraw = 11125%Q.
Proof. vm_compute. repeat split; discriminate. Qed.

(** ** Live-edge seeking (initHlsStream: onManifestParsed, onLevelLoaded) *)

Lemma currentTimeOf_seek e t s el :
  videos s !! e = Some el -> currentTimeOf (seek e t s) e = t.
Proof.
  intros H. unfold currentTimeOf, seek, emit, updVideo. simpl.
  rewrite list_lookup_alter. case_decide; [|done]. by rewrite H.
Qed.

(** C6 (as amended).  On a live session, the level-loaded handler of a
    live stream whose live-sync position is known (not 0) seeks to the live
    edge exactly when [liveEdge - currentTime], as the code computes it in
    double precision, is more than 5, and changes nothing otherwise (also
    when the level is not live or the live-sync position is unknown).  The
    computed difference is more than 5 exactly when the exact difference is
    more than 5 + 2^-51.  The manifest-parsed handler seeks to the live-sync
    position whenever it is known, whatever the distance, and changes
    nothing when it is unknown. *)
Theorem live_edge_seek (s : Mgr) (l index e h : nat) (el : VideoElement)
    (live : bool) (edge : option Q) :
  camDestroyed s l = false ->
  videos s !! e = Some el ->
  liveSyncPosition s h = edge ->
  let known := match edge with Some p => truthyNum p | None => false end in
  let pos := default 0%Q edge in
  let behind := Double.sub pos (vCurrentTime el) in
  let onLevelLoaded := runCb (CbLevelLoaded l index e h) (DLevel live) s in
  let onManifestParsed levels := runCb (CbManifestParsed l index e h) (DManifest levels) s in
  (live = true -> known = true -> (5 < behind)%Q ->
     onLevelLoaded = seek e pos s /\ currentTimeOf onLevelLoaded e = pos) /\
  (live = false \/ known = false \/ (behind <= 5)%Q ->
     onLevelLoaded = s) /\
  ((5 < behind)%Q <-> (5 + (1 # 2 ^ 51) < pos - vCurrentTime el)%Q) /\
  (forall levels, known = true ->
     onManifestParsed levels = seek e pos s /\
     currentTimeOf (onManifestParsed levels) e = pos) /\
  (forall levels, known = false -> onManifestParsed levels = s).
Proof.
  intros Hlive Hel Hedge known pos behind onLL onMP. subst onLL onMP known behind pos.
  assert (Hct : currentTimeOf s e = vCurrentTime el) by (unfold currentTimeOf; by rewrite Hel).
  unfold runCb. rewrite Hlive, Hedge, ?Hct.
  split; [|split; [|split; [|split]]].
  - intros -> Hk Hlt. destruct edge as [p|]; [|done]. simpl in *. rewrite Hk.
    unfold Qltb. destruct (Qle_bool (Double.sub p (vCurrentTime el)) 5) eqn:E.
    + apply Qle_bool_iff in E. lra.
    + simpl. split; [done|]. by apply currentTimeOf_seek with el.
  - intros [->|[Hk|Hle]]; [done| |].
    + destruct live; [|done]. destruct edge as [p|]; [|done]. simpl in Hk. by rewrite Hk.
    + destruct live; [|done]. destruct edge as [p|]; [|done]. simpl in Hle.
      unfold Qltb. apply Qle_bool_iff in Hle. rewrite Hle. simpl.
      by rewrite andb_false_r.
  - apply round_gt_5.
  - intros levels Hk. destruct edge as [p|]; [|done]. simpl in *. rewrite Hk.
    split; [done|]. by apply currentTimeOf_seek with el.
  - intros levels Hk. destruct edge as [p|]; [|done]. simpl in Hk. by rewrite Hk.
Qed.

(** A single HLS camera started in HD mode (no staggering): session 0 on
    element 0 with engine 0. *)
Definition liveCamera : Camera := {| url := "http://cam/live.m3u8"; name := "Yard" |}.

Definition liveSession : Mgr :=
  Eval vm_compute in
  setupGrid
    (updateConfig (Some [liveCamera])
       (Some {| gColumns := 1; gRows := 1; numCameras := 1 |})
       (setHDMode true (init (newManager (fun _ => 0%Q) true false false)))).

(** The session playing at 10 s with its live edge at 20 s. *)
Definition behindLive : Mgr :=
  Eval vm_compute in
  default liveSession
    (run [ EvEngineState 0 (Some 20%Q) false;
           EvMediaState 0 false false 4 None 10%Q ] liveSession).

Lemma live_edge_seek_witness :
  currentTimeOf (runCb (CbLevelLoaded 0 0 0 0) (DLevel true) behindLive) 0 = 20%Q /\
  runCb (CbLevelLoaded 0 0 0 0) (DLevel false) behindLive = behindLive.
Proof.
  pose proof (live_edge_seek behindLive 0 0 0 0 _ true (Some 20%Q)
                eq_refl eq_refl eq_refl) as (H1 & _).
  pose proof (live_edge_seek behindLive 0 0 0 0 _ false (Some 20%Q)
                eq_refl eq_refl eq_refl) as (_ & H2 & _).
  split.
  - exact (proj2 (H1 eq_refl eq_refl eq_refl)).
  - exact (H2 (or_introl eq_refl)).
Defined.

(** C6 as stated fails in two places.  For manifest-parsed: a session
    playing at 10 s whose live edge is at 12 s (2 s ahead, not more than 5)
    is moved to 12 s.  For level-loaded: a live edge at 5 + 2^-50 s and a
    position of 0.75 * 2^-50 s are more than 5 s apart, but their difference
    as a double is exactly 5, and the handler does not seek. *)
Lemma manifest_parsed_seeks_within_5s :
  (exists s s',
    run [ EvEngineState 0 (Some 12%Q) false;
          EvMediaState 0 false false 4 None 10%Q ] liveSession = Some s /\
    step (EvHls 0 MANIFEST_PARSED (DManifest 3)) s = Some s' /\
    camDestroyed s 0 = false /\
    liveSyncPosition s 0 = Some 12%Q /\
    currentTimeOf s 0 = 10%Q /\
    ~ (5 < 12 - 10)%Q /\
    currentTimeOf s' 0 = 12%Q /\
    currentTimeOf s' 0 <> currentTimeOf s 0) /\
  (let edge := (5 + (1 # 2 ^ 50))%Q in
   let position := ((3 # 4) * (1 # 2 ^ 50))%Q in
   exists s,
     run [ EvEngineState 0 (Some edge) false;
           EvMediaState 0 false false 4 None position ] liveSession = Some s /\
     camDestroyed s 0 = false /\
     liveSyncPosition s 0 = Some edge /\ currentTimeOf s 0 = position /\
     Double.round edge = edge /\ Double.round position = position /\
     (5 < edge - position)%Q /\
     Double.sub edge position = 5%Q /\
     step (EvHls 0 LEVEL_LOADED (DLevel true)) s = Some s).
Proof.
  split.
  - eexists. eexists. split; [vm_compute; reflexivity|].
    split; [vm_compute; reflexivity|].
    vm_compute. repeat split; discriminate.
  - eexists. split; [vm_compute; reflexivity|]. vm_compute. repeat split; discriminate.
Qed.

(** ** Releasing an engine (cleanupHls) *)

Lemma set_videos_id s : set_videos (videos s) s = s.
Proof. by destruct s. Qed.

Lemma set_engines_id s : set_engines (engines s) s = s.
Proof. by destruct s. Qed.

Lemma setPlaceholder_videos i m s : exists vs, setPlaceholder i m s = set_videos vs s.
Proof.
  unfold setPlaceholder, updVideo.
  repeat case_match; eauto; exists (videos s); by rewrite set_videos_id.
Qed.

(** Unregistering handlers only touches the handler lists of the engines. *)
Lemma foldl_hlsOff (cl : list (nat * HlsEvent * Callback)) s :
  exists en,
    foldl (fun s '(h, evt, cb) => hlsOff h evt cb s) s cl = set_engines en s /\
    length en = length (engines s) /\
    (forall h, hThrows <$> en !! h = hThrows <$> engines s !! h) /\
    (forall h, hLiveSyncPosition <$> en !! h = hLiveSyncPosition <$> engines s !! h).
Proof.
  revert s. induction cl as [|[[h evt] cb] cl IH]; intros s; simpl.
  - exists (engines s). by rewrite set_engines_id.
  - destruct (IH (hlsOff h evt cb s)) as (en & -> & Hlen & Hthr & Hpos).
    exists en. unfold hlsOff, updEngine in *. simpl in *.
    split; [done|]. split; [by rewrite Hlen, length_alter|].
    split; intros h'; [rewrite Hthr|rewrite Hpos]; rewrite list_lookup_alter;
      case_decide; subst; try done; by destruct (engines s !! h').
Qed.

Definition releaseEffects (h : nat) : list Effect :=
  [EDestroy h; EDetachMedia h; EStopLoad h].

Lemma cleanupHls_eq l s cd :
  heap s !! l = Some cd ->
  exists en,
    length en = length (engines s) /\
    (forall h, hThrows <$> en !! h = hThrows <$> engines s !! h) /\
    (forall h, hLiveSyncPosition <$> en !! h = hLiveSyncPosition <$> engines s !! h) /\
    cleanupHls l s =
      let s1 := updCam l (set_eventCleanups []) (set_engines en s) in
      match hls cd with
      | Some h =>
          updCam l (set_hls None)
            (if engineThrows s h then s1
             else set_trace (releaseEffects h ++ trace s1) s1)
      | None => s1
      end.
Proof.
  intros Hcd. unfold cleanupHls. rewrite Hcd.
  destruct (foldl_hlsOff (eventCleanups cd) s) as (en & -> & Hlen & Hthr & Hpos).
  exists en. split; [done|]. split; [done|]. split; [done|].
  destruct (hls cd) as [h|]; [|done]. simpl.
  assert (engineThrows (updCam l (set_eventCleanups []) (set_engines en s)) h
          = engineThrows s h) as ->.
  { unfold engineThrows. simpl. specialize (Hthr h).
    destruct (en !! h), (engines s !! h); naive_solver. }
  by destruct (engineThrows s h).
Qed.

Lemma cleanupHls_session l s cd :
  heap s !! l = Some cd ->
  heap (cleanupHls l s) !! l = Some (set_hls None (set_eventCleanups [] cd)).
Proof.
  intros Hcd. destruct (cleanupHls_eq l s cd Hcd) as (en & _ & _ & _ & ->).
  destruct (hls cd) as [h|] eqn:Hh; simpl.
  - destruct (engineThrows s h); simpl; rewrite !list_lookup_alter;
      repeat case_decide; try done; by rewrite Hcd.
  - rewrite list_lookup_alter. case_decide; [|done]. rewrite Hcd. simpl.
    destruct cd; simpl in *; by subst.
Qed.

Lemma cleanupHls_trace l s cd h :
  heap s !! l = Some cd -> hls cd = Some h -> engineThrows s h = false ->
  trace (cleanupHls l s) = releaseEffects h ++ trace s.
Proof.
  intros Hcd Hh Hthr. destruct (cleanupHls_eq l s cd Hcd) as (en & _ & _ & _ & ->).
  by rewrite Hh, Hthr.
Qed.


Lemma cleanupHls_untouched l s :
  timers (cleanupHls l s) = timers s /\ nextTimer (cleanupHls l s) = nextTimer s /\
  rngPos (cleanupHls l s) = rngPos s /\ promises (cleanupHls l s) = promises s /\
  nextPromise (cleanupHls l s) = nextPromise s /\ videos (cleanupHls l s) = videos s /\
  length (engines (cleanupHls l s)) = length (engines s) /\
  length (heap (cleanupHls l s)) = length (heap s).
Proof.
  destruct (heap s !! l) as [cd|] eqn:Hcd.
  - destruct (cleanupHls_eq l s cd Hcd) as (en & Hlen & _ & _ & ->).
    destruct (hls cd) as [h|]; [destruct (engineThrows s h)|]; simpl;
      rewrite ?length_alter; done.
  - unfold cleanupHls. by rewrite Hcd.
Qed.

Lemma scheduleRetry_live index camera s l cd :
  Map_get (cameras s) index = Some l ->
  heap s !! l = Some cd ->
  isDestroyed cd = false ->
  let s0 := match retryTimeout cd with
            | Some id => updCam l (set_retryTimeout None) (clearTimeout id s)
            | None => s
            end in
  scheduleRetry index camera s =
    if (maxRetryAttempts <=? retryCount cd)%nat then
      updCam l (set_retryTimeout (Some (nextTimer s)))
        (snd (setTimeout (CbCooldown l index camera) 300000%Q
           (updCam l (set_retryCount 0%nat) (emit (ELogMaxRetries index) s0))))
    else
      let delay := retryDelay (retryCount cd) (rng s (rngPos s)) in
      updCam l (set_retryTimeout (Some (nextTimer s)))
        (snd (setTimeout (CbRetry l index camera) delay
           (emit (ELogRetry index (S (retryCount cd)) delay)
              (updCam l (set_retryCount (S (retryCount cd))) (snd (random s0)))))).
Proof.
  intros Hget Hcd Hlive. unfold scheduleRetry. rewrite Hget, Hcd, Hlive.
  destruct (retryTimeout cd); simpl; by case_match.
Qed.

(** What [scheduleRetry] leaves behind on a live session: a pending retry
    timer, recorded in [retryTimeout]; the release effects logged before it
    are still in the log. *)
Lemma scheduleRetry_arms index camera s l cd :
  Map_get (cameras s) index = Some l ->
  heap s !! l = Some cd ->
  isDestroyed cd = false ->
  let s' := scheduleRetry index camera s in
  let rc := retryCount cd in
  exists t cd' e,
    last (timers s') = Some t /\ tId t = nextTimer s /\ tRepeat t = None /\
    heap s' !! l = Some cd' /\
    retryTimeout cd' = Some (nextTimer s) /\ hls cd' = hls cd /\
    eventCleanups cd' = eventCleanups cd /\
    trace s' = e :: trace s /\
    (forall h, e <> EStartLoad h) /\
    if (rc <? 10)%nat then
      tCb t = CbRetry l index camera /\
      tDue t = (now s + retryDelay rc (rng s (rngPos s)))%Q /\
      retryCount cd' = S rc
    else
      tCb t = CbCooldown l index camera /\
      tDue t = (now s + 300000)%Q /\
      retryCount cd' = 0%nat.
Proof.
  intros Hget Hcd Hlive. simpl. rewrite (scheduleRetry_live _ _ _ _ _ Hget Hcd Hlive).
  unfold maxRetryAttempts.
  destruct (Nat.leb_spec 10 (retryCount cd)) as [Hle|Hlt].
  - destruct (Nat.ltb_spec (retryCount cd) 10); [lia|].
    destruct (retryTimeout cd) eqn:Hrt; unfold_prims; simpl;
      (eexists _, _, _; split; [apply last_snoc|]; simpl;
       rewrite !list_lookup_alter; repeat case_decide; try done; rewrite Hcd; simpl;
       repeat split; done).
  - destruct (Nat.ltb_spec (retryCount cd) 10); [|lia].
    destruct (retryTimeout cd) eqn:Hrt; unfold_prims; simpl;
      (eexists _, _, _; split; [apply last_snoc|]; simpl;
       rewrite !list_lookup_alter; repeat case_decide; try done; rewrite Hcd; simpl;
       repeat split; done).
Qed.

(** ** Fatal engine errors (handleHlsError) *)






(** ** Recovery (recoverCamera) *)




(** ** Page hidden (setupVisibilityHandling, pauseAllStreams) *)

(** While the page is hidden and the monitor's interval is cleared. *)
Definition hiddenIdle (s : Mgr) : Prop :=
  isPageVisible s = false /\ healthCheckInterval s = None.

(** The only calls pausing makes on the browser. *)
Definition pauseEffect (e : Effect) : Prop :=
  match e with
  | EStopLoad _ | EPause _ | ELogHealthStop => True
  | _ => False
  end.

(** What pausing never does: sessions keep their engine, their element and
    their destroyed flag; engines keep their handlers; timers are only
    removed; elements that were paused stay paused; only [pauseEffect]s are
    logged. *)
Definition pausePreserves (s s' : Mgr) : Prop :=
  (forall l cd, heap s !! l = Some cd ->
     exists cd', heap s' !! l = Some cd' /\ hls cd' = hls cd /\
       isDestroyed cd' = isDestroyed cd /\ element cd' = element cd) /\
  engines s' = engines s /\
  (exists tr, trace s' = tr ++ trace s /\ Forall pauseEffect tr) /\
  (forall t, t ∈ timers s' -> t ∈ timers s) /\
  (forall e el, videos s !! e = Some el ->
     exists el', videos s' !! e = Some el' /\ (vPaused el = true -> vPaused el' = true)).

Lemma hiddenIdle_base (f : Mgr -> Mgr) s :
  isPageVisible (f s) = isPageVisible s ->
  healthCheckInterval (f s) = healthCheckInterval s ->
  hiddenIdle s -> hiddenIdle (f s).
Proof. intros H1 H2 [??]. split; congruence. Qed.

Lemma checkAllCameraHealth_hidden s :
  isPageVisible s = false -> checkAllCameraHealth s = s.
Proof. intros H. unfold checkAllCameraHealth. by rewrite H. Qed.

Lemma stopHealthMonitor_cleared s : healthCheckInterval (stopHealthMonitor s) = None.
Proof. unfold stopHealthMonitor. by destruct (healthCheckInterval s) eqn:E. Qed.

Lemma hiddenIdle_initNextCameraFrom q s :
  hiddenIdle s -> hiddenIdle (initNextCameraFrom q s).
Proof.
  revert s. induction q as [|[i c] q IH]; intros s [Hv Hh]; simpl.
  - rewrite Hv. simpl. done.
  - assert (Hskip : hiddenIdle (initNextCameraFrom q (set_initQueue q s))) by (by apply IH).
    repeat case_match; try done.
    rewrite Hv in *. simpl in *. by rewrite orb_true_r in *.
Qed.

Lemma hiddenIdle_sequentialInit cams s :
  hiddenIdle s -> hiddenIdle (sequentialInit cams s).
Proof.
  intros [Hv Hh]. unfold sequentialInit. destruct cams.
  - simpl. rewrite Hv. done.
  - by apply hiddenIdle_initNextCameraFrom.
Qed.

Lemma hiddenIdle_runCb cb d s : hiddenIdle s -> hiddenIdle (runCb cb d s).
Proof.
  intros H. pose proof H as [Hv Hh]. unfold runCb.
  destruct cb; try (apply hiddenIdle_base; [|by stable_base healthCheckInterval|done];
                    by stable_base isPageVisible);
    repeat case_match; try done;
    try (by apply hiddenIdle_initNextCameraFrom);
    try (apply hiddenIdle_base; [| |done]; unfold_prims; simpl;
         rewrite ?(stable_initializeStream isPageVisible),
           ?(stable_initializeStream healthCheckInterval),
           ?(stable_scheduleRetry isPageVisible),
           ?(stable_scheduleRetry healthCheckInterval),
           ?(stable_handleHlsError isPageVisible),
           ?(stable_handleHlsError healthCheckInterval),
           ?(stable_setPlaceholder isPageVisible),
           ?(stable_setPlaceholder healthCheckInterval); done).
  all: try (rewrite Hv in *; done).
Qed.

Lemma foldl_inv {A B} (P : A -> Prop) (g : A -> B -> A) (l : list B) (a : A) :
  (forall a x, P a -> P (g a x)) -> P a -> P (foldl g a l).
Proof.
  intros Hg. revert a. induction l as [|x l IH]; intros a Ha; simpl; [done|].
  apply IH, Hg, Ha.
Qed.

Lemma hiddenIdle_dispatchMedia e evt s : hiddenIdle s -> hiddenIdle (dispatchMedia e evt s).
Proof.
  intros H. unfold dispatchMedia. case_match; [|done].
  apply foldl_inv; [|done]. intros a [evt' cb] Ha. case_match; [|done].
  by apply hiddenIdle_runCb.
Qed.

Lemma hiddenIdle_dispatchHls h evt d s : hiddenIdle s -> hiddenIdle (dispatchHls h evt d s).
Proof.
  intros H. unfold dispatchHls. case_match; [|done].
  apply foldl_inv; [|done]. intros a [evt' cb] Ha. case_match; [|done].
  by apply hiddenIdle_runCb.
Qed.

Lemma hiddenIdle_fireTimer t s : hiddenIdle s -> hiddenIdle (fireTimer t s).
Proof.
  intros H. unfold fireTimer. apply hiddenIdle_runCb.
  destruct (tRepeat t); unfold_prims; exact H.
Qed.

Lemma hiddenIdle_setupGrid s : hiddenIdle s -> hiddenIdle (setupGrid s).
Proof.
  intros [Hv Hh]. unfold setupGrid. case_match; [done|].
  match goal with |- context [foldl setupCell ?a ?l] =>
    pose proof (stable_foldl_setupCell isPageVisible a l) as H1;
    pose proof (stable_foldl_setupCell healthCheckInterval a l) as H2;
    destruct (foldl setupCell a l) as [s' cams] end.
  cbn [fst] in H1, H2.
  rewrite (stable_destroyAllCameras isPageVisible) in H1.
  rewrite (stable_destroyAllCameras healthCheckInterval) in H2.
  case_match.
  - rewrite (stable_foldl_initializeStream isPageVisible), H1, Hv.
    split; [by rewrite (stable_foldl_initializeStream isPageVisible), H1|].
    by rewrite (stable_foldl_initializeStream healthCheckInterval), H2.
  - apply hiddenIdle_sequentialInit. split; congruence.
Qed.

Lemma hiddenIdle_destroyCamera i s : hiddenIdle s -> hiddenIdle (destroyCamera i s).
Proof.
  apply hiddenIdle_base; [by stable_base isPageVisible|by stable_base healthCheckInterval].
Qed.

Lemma hiddenIdle_applySettings i s : hiddenIdle s -> hiddenIdle (applySettings i s).
Proof.
  intros H. unfold applySettings.
  pose proof (hiddenIdle_destroyCamera i s H) as Hd.
  destruct (cameraConfigs s !! i) as [camera|]; [|done].
  destruct (Map_get (cameras (destroyCamera i s)) i) as [l|];
    [|by apply hiddenIdle_setupGrid].
  destruct (heap (destroyCamera i s) !! l) as [cd|]; [|by apply hiddenIdle_setupGrid].
  case_match; [|by apply hiddenIdle_setupGrid].
  case_match.
  - apply hiddenIdle_base; [| |exact Hd].
    + by rewrite (stable_initializeStream isPageVisible).
    + by rewrite (stable_initializeStream healthCheckInterval).
  - exact Hd.
Qed.

Lemma hiddenIdle_call c s : hiddenIdle s -> hiddenIdle (call c s).
Proof.
  intros H. pose proof H as [Hv Hh]. destruct c; simpl.
  - done.
  - done.
  - done.
  - by apply hiddenIdle_setupGrid.
  - by apply hiddenIdle_applySettings.
  - done.
  - apply hiddenIdle_base; [by stable_base isPageVisible|
      by stable_base healthCheckInterval|done].
  - apply hiddenIdle_base; [by stable_base isPageVisible|
      by stable_base healthCheckInterval|done].
  - unfold destroy. split; cbn [isPageVisible healthCheckInterval set_visibilityHandler].
    + by rewrite (stable_destroyAllCameras isPageVisible),
        (stable_stopHealthMonitor isPageVisible).
    + by rewrite (stable_destroyAllCameras healthCheckInterval), stopHealthMonitor_cleared.
Qed.

(** While the page stays hidden no event re-arms the health monitor. *)
Lemma hiddenIdle_step ev s s' :
  (forall hidden, ev = EvVisibility hidden -> hidden = true) ->
  hiddenIdle s -> step ev s = Some s' -> hiddenIdle s'.
Proof.
  intros Hev H Hstep. pose proof H as [Hv Hh].
  destruct ev as [dt|id|e evt|e p en r er ct|h evt d|h ls th|h sl rm|p f|hidden|c];
    simpl in Hstep; repeat case_match; simplify_eq; try done;
    try (by apply hiddenIdle_fireTimer); try (by apply hiddenIdle_dispatchMedia);
    try (by apply hiddenIdle_dispatchHls); try (by apply hiddenIdle_runCb);
    try (by apply hiddenIdle_call).
  rewrite (Hev hidden eq_refl). unfold visibilityChange.
  cbn [isPageVisible set_isPageVisible negb]. split.
  - by rewrite (stable_stopHealthMonitor isPageVisible),
      (stable_pauseAllStreams isPageVisible).
  - apply stopHealthMonitor_cleared.
Qed.

Ltac pause_split := split; [|split; [|split; [|split]]].

Lemma pausePreserves_refl s : pausePreserves s s.
Proof.
  pause_split; eauto. exists []. split; [done|constructor].
Qed.

Lemma pausePreserves_trans s1 s2 s3 :
  pausePreserves s1 s2 -> pausePreserves s2 s3 -> pausePreserves s1 s3.
Proof.
  intros (Hh1 & He1 & (tr1 & Ht1 & Hf1) & Hti1 & Hv1) (Hh2 & He2 & (tr2 & Ht2 & Hf2) & Hti2 & Hv2).
  pause_split.
  - intros l cd H. destruct (Hh1 l cd H) as (cd1 & Hc1 & ? & ? & ?).
    destruct (Hh2 l cd1 Hc1) as (cd2 & Hc2 & ? & ? & ?).
    exists cd2. repeat split; congruence.
  - congruence.
  - exists (tr2 ++ tr1). rewrite Ht2, Ht1, app_assoc. split; [done|].
    by apply Forall_app.
  - eauto.
  - intros e el H. destruct (Hv1 e el H) as (el1 & Hc1 & ?).
    destruct (Hv2 e el1 Hc1) as (el2 & Hc2 & ?). exists el2. split; eauto.
Qed.

Lemma elem_of_filter_list {A} (P : A -> bool) (l : list A) x :
  x ∈ List.filter P l -> x ∈ l.
Proof. rewrite !list_elem_of_In. intros H. by apply filter_In in H as [? _]. Qed.

Lemma pausePreserves_stopHealthMonitor s : pausePreserves s (stopHealthMonitor s).
Proof.
  unfold stopHealthMonitor. destruct (healthCheckInterval s); [|apply pausePreserves_refl].
  unfold_prims. pause_split; simpl; eauto.
  - exists [ELogHealthStop]. split; [done|]. by repeat constructor.
  - apply elem_of_filter_list.
Qed.

Lemma pausePreserves_clearRetry s l id :
  pausePreserves s (updCam l (set_retryTimeout None) (clearTimeout id s)).
Proof.
  unfold_prims. pause_split; simpl; eauto.
  - intros l' cd H. rewrite list_lookup_alter. case_decide; subst; rewrite H; simpl; eauto.
  - exists []. split; [done|constructor].
  - apply elem_of_filter_list.
Qed.

Lemma pausePreserves_stopLoad s h : pausePreserves s (emit (EStopLoad h) s).
Proof.
  unfold_prims. pause_split; simpl; eauto.
  exists [EStopLoad h]. split; [done|]. by repeat constructor.
Qed.

Lemma pausePreserves_pause s e : pausePreserves s (pause e s).
Proof.
  unfold_prims. pause_split; simpl; eauto.
  - exists [EPause e]. split; [done|]. by repeat constructor.
  - intros e' el H. rewrite list_lookup_alter. case_decide; subst; rewrite H; simpl; eauto.
Qed.

Lemma pauseCamera_preserves s x : pausePreserves s (pauseCamera s x).
Proof.
  destruct x as [index l]. unfold pauseCamera.
  destruct (heap s !! l) as [cd|]; [|apply pausePreserves_refl].
  destruct (isDestroyed cd); [apply pausePreserves_refl|].
  set (s1 := match retryTimeout cd with Some id => _ | None => s end).
  assert (H1 : pausePreserves s s1).
  { subst s1. destruct (retryTimeout cd);
      [apply pausePreserves_clearRetry|apply pausePreserves_refl]. }
  set (s2 := match hls cd with Some h => _ | None => s1 end).
  assert (H2 : pausePreserves s1 s2).
  { subst s2. destruct (hls cd) as [h|]; [|apply pausePreserves_refl].
    destruct (engineThrows s1 h); [apply pausePreserves_refl|apply pausePreserves_stopLoad]. }
  eapply pausePreserves_trans; [exact H1|]. eapply pausePreserves_trans; [exact H2|].
  destruct (videos s2 !! element cd) as [el|]; [|apply pausePreserves_refl].
  destruct (vPaused el); [apply pausePreserves_refl|apply pausePreserves_pause].
Qed.

Lemma engineThrows_preserved s s' h :
  engines s' = engines s -> engineThrows s' h = engineThrows s h.
Proof. intros H. unfold engineThrows. by rewrite H. Qed.

(** What pausing one live session achieves. *)
Lemma pauseCamera_pauses s index l cd :
  heap s !! l = Some cd -> isDestroyed cd = false ->
  let s' := pauseCamera s (index, l) in
  (forall h, hls cd = Some h -> engineThrows s h = false -> EStopLoad h ∈ trace s') /\
  (forall el, videos s !! element cd = Some el ->
     exists el', videos s' !! element cd = Some el' /\ vPaused el' = true).
Proof.
  intros Hcd Hlive. simpl. unfold pauseCamera. rewrite Hcd, Hlive.
  set (s1 := match retryTimeout cd with Some id => _ | None => s end).
  assert (H1 : pausePreserves s s1).
  { subst s1. destruct (retryTimeout cd);
      [apply pausePreserves_clearRetry|apply pausePreserves_refl]. }
  set (s2 := match hls cd with Some h => _ | None => s1 end).
  assert (H2 : pausePreserves s1 s2).
  { subst s2. destruct (hls cd) as [h|]; [|apply pausePreserves_refl].
    destruct (engineThrows s1 h); [apply pausePreserves_refl|apply pausePreserves_stopLoad]. }
  assert (Hstop : forall h, hls cd = Some h -> engineThrows s h = false ->
            EStopLoad h ∈ trace s2).
  { intros h Hh Hthr. subst s2. rewrite Hh.
    rewrite (engineThrows_preserved s s1) by apply H1. rewrite Hthr. simpl. left. }
  pose proof (pausePreserves_trans _ _ _ H1 H2) as H12.
  split.
  - intros h Hh Hthr. specialize (Hstop h Hh Hthr).
    destruct (videos s2 !! element cd) as [el|]; [|done].
    destruct (vPaused el); [done|]. simpl. by right.
  - intros el Hel. destruct H12 as (_ & _ & _ & _ & Hv).
    destruct (Hv _ _ Hel) as (el2 & Hel2 & _). rewrite Hel2.
    destruct (vPaused el2) eqn:Hp; [eauto|].
    unfold_prims. simpl. rewrite list_lookup_alter. case_decide; [|done].
    rewrite Hel2. simpl. eauto.
Qed.

Lemma foldl_pauseCamera cams s :
  let s' := foldl pauseCamera s cams in
  pausePreserves s s' /\
  forall index l cd, (index, l) ∈ cams -> heap s !! l = Some cd -> isDestroyed cd = false ->
    (forall h, hls cd = Some h -> engineThrows s h = false -> EStopLoad h ∈ trace s') /\
    (forall el, videos s !! element cd = Some el ->
       exists el', videos s' !! element cd = Some el' /\ vPaused el' = true).
Proof.
  revert s. induction cams as [|x cams IH]; intros s; simpl.
  - split; [apply pausePreserves_refl|]. intros ??? H. by apply elem_of_nil in H.
  - destruct (IH (pauseCamera s x)) as [Hp Hall].
    pose proof (pauseCamera_preserves s x) as Hx.
    split; [by eapply pausePreserves_trans|].
    intros index l cd Hin Hcd Hlive.
    apply elem_of_cons in Hin as [Heq|Hin].
    + subst x. destruct (pauseCamera_pauses s index l cd Hcd Hlive) as [Hs Hv].
      destruct Hp as (_ & _ & (tr & Htr & _) & _ & Hvid).
      split.
      * intros h Hh Hthr. rewrite Htr. apply elem_of_app. right. by apply Hs.
      * intros el Hel. destruct (Hv el Hel) as (el1 & Hel1 & Hp1).
        destruct (Hvid _ _ Hel1) as (el2 & Hel2 & Hp2). eauto.
    + destruct Hx as (Hh & He & _ & _ & Hvid).
      destruct (Hh l cd Hcd) as (cd1 & Hcd1 & Hhls & Hd & Hel).
      destruct (Hall index l cd1 Hin Hcd1) as [Hs Hv]; [congruence|].
      split.
      * intros h Hh' Hthr. apply Hs; [congruence|].
        by rewrite (engineThrows_preserved s).
      * intros el Hel'. destruct (Hvid _ _ Hel') as (el1 & Hel1 & _).
        rewrite <- Hel. apply (Hv el1). by rewrite Hel.
Qed.

Lemma stopHealthMonitor_removes s id t :
  healthCheckInterval s = Some id -> t ∈ timers (stopHealthMonitor s) -> tId t <> id.
Proof.
  intros Hid. unfold stopHealthMonitor. rewrite Hid. unfold_prims. simpl.
  rewrite list_elem_of_In, filter_In. intros [_ H] E. by rewrite E, Nat.eqb_refl in H.
Qed.

Lemma run_hiddenIdle evs s s' :
  (forall ev, ev ∈ evs -> forall hidden, ev = EvVisibility hidden -> hidden = true) ->
  hiddenIdle s -> run evs s = Some s' -> hiddenIdle s'.
Proof.
  revert s. induction evs as [|ev evs IH]; intros s Hevs Hs Hrun; simpl in Hrun.
  - by simplify_eq.
  - destruct (step ev s) as [s1|] eqn:Hstep; [|done].
    apply (IH s1); [| |done].
    + intros ev' Hin. apply Hevs. by right.
    + eapply hiddenIdle_step; [|exact Hs|exact Hstep]. apply Hevs. by left.
Qed.

(** C9.  When the page becomes hidden, every live session's engine gets a
    stopLoad (engines whose methods throw apart) and its element is paused;
    every session keeps its engine ([hls] unchanged), the engines keep
    their handlers, and nothing but stopLoad and pause calls is made, so no
    engine is detached or destroyed; the monitor's interval is cleared, and
    as long as the page stays hidden no event re-arms it and
    [checkAllCameraHealth] does nothing. *)
Theorem page_hidden_pauses_streams (s s' : Mgr) :
  visibilityHandler s = true ->
  step (EvVisibility true) s = Some s' ->
  isPageVisible s' = false /\
  (forall index l cd,
     (index, l) ∈ cameras s -> heap s !! l = Some cd -> isDestroyed cd = false ->
     (forall h, hls cd = Some h -> engineThrows s h = false -> EStopLoad h ∈ trace s') /\
     (forall el, videos s !! element cd = Some el ->
        exists el', videos s' !! element cd = Some el' /\ vPaused el' = true)) /\
  (forall l cd, heap s !! l = Some cd ->
     exists cd', heap s' !! l = Some cd' /\ hls cd' = hls cd /\
       isDestroyed cd' = isDestroyed cd /\ element cd' = element cd) /\
  engines s' = engines s /\
  (exists tr, trace s' = tr ++ trace s /\ Forall pauseEffect tr) /\
  healthCheckInterval s' = None /\
  (forall id t, healthCheckInterval s = Some id -> t ∈ timers s' -> tId t <> id) /\
  (forall t, t ∈ timers s' -> t ∈ timers s) /\
  (forall evs s'',
     (forall ev, ev ∈ evs -> forall hidden, ev = EvVisibility hidden -> hidden = true) ->
     run evs s' = Some s'' ->
     isPageVisible s'' = false /\ healthCheckInterval s'' = None /\
     checkAllCameraHealth s'' = s'').
Proof.
  intros Hvh Hstep. simpl in Hstep. rewrite Hvh in Hstep. simplify_eq.
  unfold visibilityChange. simpl. unfold pauseAllStreams.
  set (s0 := set_isPageVisible false s).
  set (sa := stopHealthMonitor s0).
  set (sb := foldl pauseCamera sa (cameras sa)).
  assert (H0 : pausePreserves s s0).
  { subst s0. pause_split; simpl; eauto. exists []. split; [done|constructor]. }
  pose proof (pausePreserves_stopHealthMonitor s0) as Ha. fold sa in Ha.
  destruct (foldl_pauseCamera (cameras sa) sa) as [Hb Hall]. fold sb in Hb, Hall.
  pose proof (pausePreserves_stopHealthMonitor sb) as Hc.
  pose proof (pausePreserves_trans _ _ _ H0 Ha) as H0a.
  pose proof (pausePreserves_trans _ _ _ H0a Hb) as H0b.
  pose proof (pausePreserves_trans _ _ _ H0b Hc) as H0c.
  assert (Hvis : isPageVisible (stopHealthMonitor sb) = false).
  { rewrite (stable_stopHealthMonitor isPageVisible). subst sb.
    rewrite (foldl_proj isPageVisible); [|intros; apply stable_pauseCamera, _].
    subst sa. by rewrite (stable_stopHealthMonitor isPageVisible). }
  split; [done|]. split; [|split; [apply H0c|split; [apply H0c|split; [apply H0c|]]]].
  - intros index l cd Hin Hcd Hlive.
    destruct H0a as (Hh & He & _ & _ & Hv).
    destruct (Hh l cd Hcd) as (cd1 & Hcd1 & Hhls & Hd & Hel).
    destruct (Hall index l cd1) as [Hs Hp]; [|done|congruence|].
    { subst sa. by rewrite (stable_stopHealthMonitor cameras). }
    destruct Hc as (_ & _ & (tr & Htr & _) & _ & Hvc).
    split.
    + intros h Hh' Hthr. rewrite Htr. apply elem_of_app. right.
      apply Hs; [congruence|]. by rewrite (engineThrows_preserved s).
    + intros el Hel'. destruct (Hv _ _ Hel') as (el1 & Hel1 & _).
      rewrite <- Hel. destruct (Hp el1) as (el2 & Hel2 & Hp2); [by rewrite Hel|].
      destruct (Hvc _ _ Hel2) as (el3 & Hel3 & Hp3). eauto.
  - split; [apply stopHealthMonitor_cleared|]. split; [|split; [apply H0c|]].
    + intros id t Hid Hin.
      destruct Hc as (_ & _ & _ & Htc & _). destruct Hb as (_ & _ & _ & Htb & _).
      apply Htc, Htb in Hin. by apply (stopHealthMonitor_removes s0 id t).
    + intros evs s'' Hevs Hrun.
      assert (Hidle : hiddenIdle s'').
      { eapply run_hiddenIdle; [exact Hevs| |exact Hrun].
        split; [done|apply stopHealthMonitor_cleared]. }
      destruct Hidle as [Hv Hh]. split; [done|]. split; [done|].
      by apply checkAllCameraHealth_hidden.
Qed.

(** Three HLS cameras playing in HD mode. *)
Definition threePlaying : Mgr :=
  Eval vm_compute in
  let cams := [exampleCamera "http://a/1.m3u8"; exampleCamera "http://a/2.m3u8";
               exampleCamera "http://a/3.m3u8"] in
  let s := setupGrid
             (updateConfig (Some cams)
                (Some {| gColumns := 2; gRows := 2; numCameras := 3 |})
                (setHDMode true (init (newManager (fun _ => 0%Q) true false false)))) in
  let playing e s := updVideo e (set_vPaused false) s in
  playing 0%nat (playing 1%nat (playing 2%nat s)).

Lemma page_hidden_pauses_streams_witness :
  exists s',
    step (EvVisibility true) threePlaying = Some s' /\
    isPageVisible s' = false /\ healthCheckInterval s' = None /\
    engines s' = engines threePlaying.
Proof.
  eexists. split; [reflexivity|].
  destruct (page_hidden_pauses_streams threePlaying _ eq_refl eq_refl)
    as (H1 & _ & _ & H4 & _ & H6 & _).
  split; [exact H1|]. split; [exact H6|exact H4].
Defined.

(** ** Stall escalation (checkAllCameraHealth, the 'stalled' listener) *)

(** The three conditions under which a health-check tick counts a stall,
    in the order the method tests them, given that neither of the two
    immediate-recovery conditions holds. *)
Definition stalledPlayback (nowT : Q) (cd : CameraData) (el : VideoElement) : bool :=
  isPlaying el && hasEnoughData el && negb (hasProgressed cd el) && fullInterval nowT cd.
Definition stuckLoading (nowT : Q) (cd : CameraData) (el : VideoElement) : bool :=
  negb (hasEnoughData el) && hasHls cd && fullInterval nowT cd.
Definition unexpectedlyPaused (cd : CameraData) (el : VideoElement) : bool :=
  negb (isPlaying el) && hasHls cd.
Definition immediateRecovery (camera : Camera) (cd : CameraData) (el : VideoElement) : bool :=
  (negb (hasHls cd) && endsWith ".m3u8" (url camera)) || bool_decide (is_Some (vError el)).
Definition qualifyingTick (nowT : Q) (camera : Camera) (cd : CameraData)
    (el : VideoElement) : bool :=
  negb (immediateRecovery camera cd el) &&
  (stalledPlayback nowT cd el || stuckLoading nowT cd el || unexpectedlyPaused cd el).

(** A session the health check does not skip. *)
Definition checked (s : Mgr) (index l : nat) (camera : Camera) (cd : CameraData)
    (el : VideoElement) : Prop :=
  Map_get (cameras s) index = Some l /\
  heap s !! l = Some cd /\ isDestroyed cd = false /\
  cameraConfigs s !! index = Some camera /\ truthyStr (url camera) = true /\
  videos s !! element cd = Some el /\
  retryTimeout cd = None /\ isInitializing s = false.

Definition isRecovering (index : nat) (e : Effect) : bool :=
  match e with
  | ELogRecovering i => Nat.eqb i index
  | _ => false
  end.

(** The number of [recoverCamera] runs for slot [index] recorded in [tr]. *)
Definition recoveries (index : nat) (tr : list Effect) : nat :=
  length (List.filter (isRecovering index) tr).

Lemma recoveries_app index tr1 tr2 :
  recoveries index (tr1 ++ tr2) = (recoveries index tr1 + recoveries index tr2)%nat.
Proof. unfold recoveries. by rewrite List.filter_app, length_app. Qed.

Lemma cleanupHls_trace_any l s :
  exists rel, trace (cleanupHls l s) = rel ++ trace s /\
    (rel = [] \/ exists h, rel = releaseEffects h).
Proof.
  destruct (heap s !! l) as [cd|] eqn:Hcd.
  - destruct (cleanupHls_eq l s cd Hcd) as (en & _ & _ & _ & ->).
    destruct (hls cd) as [h|]; [destruct (engineThrows s h)|]; simpl;
      first [by exists []; eauto | exists (releaseEffects h); eauto].
  - exists []. unfold cleanupHls. rewrite Hcd. eauto.
Qed.

Lemma cleanupHls_other l s l' : l' <> l -> heap (cleanupHls l s) !! l' = heap s !! l'.
Proof.
  intros Hne. destruct (heap s !! l) as [cd|] eqn:Hcd.
  - destruct (cleanupHls_eq l s cd Hcd) as (en & _ & _ & _ & ->).
    destruct (hls cd) as [h|]; [destruct (engineThrows s h)|]; simpl;
      by rewrite !list_lookup_alter_ne.
  - unfold cleanupHls. by rewrite Hcd.
Qed.

Lemma recoverCamera_live index camera s l cd :
  Map_get (cameras s) index = Some l -> heap s !! l = Some cd -> isDestroyed cd = false ->
  exists rel cd',
    trace (recoverCamera index camera s) =
      [ELoad (element cd); EPause (element cd)] ++ rel ++ [ELogRecovering index] ++ trace s /\
    (rel = [] \/ exists h, rel = releaseEffects h) /\
    heap (recoverCamera index camera s) !! l = Some cd' /\
    stallCount cd' = 0%nat /\ retryCount cd' = 0%nat /\ hls cd' = None /\
    isDestroyed cd' = false /\ element cd' = element cd /\
    (forall l', l' <> l -> heap (recoverCamera index camera s) !! l' = heap s !! l').
Proof.
  intros Hget Hcd Hlive. unfold recoverCamera. rewrite Hget, Hcd, Hlive.
  set (s1 := updCam l (set_retryCount 0%nat) _).
  assert (Hcd1 : heap s1 !! l =
            Some (set_retryCount 0%nat (set_lastCheckTime 0%Q
                   (set_lastPlaybackTime 0%Q (set_stallCount 0%nat cd))))).
  { subst s1. unfold_prims. simpl. rewrite !list_lookup_alter.
    repeat case_decide; try done. by rewrite Hcd. }
  assert (Hother : forall l', l' <> l -> heap s1 !! l' = heap s !! l').
  { intros l' Hne. subst s1. unfold_prims. simpl. by rewrite !list_lookup_alter_ne. }
  assert (Htr1 : trace s1 = ELogRecovering index :: trace s) by done.
  clearbody s1.
  destruct (cleanupHls_trace_any l s1) as (rel & Htr & Hrel).
  pose proof (cleanupHls_session l s1 _ Hcd1) as Hcd2.
  exists rel. eexists. unfold_prims. cbn [trace heap set_trace set_heap set_videos
    set_timers set_nextTimer snd].
  rewrite Htr, Htr1, Hcd2. split; [done|]. split; [done|].
  split; [done|]. repeat split; try done.
  intros l' Hne. rewrite cleanupHls_other by done. by apply Hother.
Qed.

(** The state after a tick has counted one more stall on session [l]. *)
Definition escalated (nowT : Q) (index l : nat) (cd : CameraData) (s : Mgr) : Mgr :=
  emit (ELogStall index (S (stallCount cd)))
    (updCam l (set_stallCount (S (stallCount cd)))
       (updCam l (set_lastCheckTime nowT) s)).

(** A qualifying tick on a checked session: the stall is counted, and the
    session is recovered exactly when the count has reached the threshold;
    below it, the unexpected-pause branch only calls [play()]. *)
Lemma checkCameraHealth_qualifying nowT s index l camera cd el :
  checked s index l camera cd el ->
  qualifyingTick nowT camera cd el = true ->
  let sE := escalated nowT index l cd s in
  exists reason,
    checkCameraHealth nowT s (index, l) =
      updCam l (set_lastPlaybackTime (vCurrentTime el))
        (if (MAX_STALL_COUNT <=? S (stallCount cd))%nat then
           recoverCamera index camera (emit (ELogNeedsRecovery index reason) sE)
         else if stalledPlayback nowT cd el || stuckLoading nowT cd el then sE
         else play (element cd) None (Some CbPlayCatchLog) sE).
Proof.
  intros (Hget & Hcd & Hlive & Hcfg & Hurl & Hel & Hrt & Hinit) Hq. cbv zeta.
  unfold qualifyingTick, immediateRecovery in Hq.
  apply andb_true_iff in Hq as [Him Hq]. apply negb_true_iff, orb_false_iff in Him.
  destruct Him as [Him1 Him2].
  unfold checkCameraHealth. rewrite Hcd, Hlive, Hcfg, Hurl, Hel, Hrt, Hinit, Him1, Him2.
  cbn [negb orb bool_decide decide_rel].
  unfold stalledPlayback, stuckLoading, unexpectedlyPaused, escalated in *.
  destruct (isPlaying el && hasEnoughData el && negb (hasProgressed cd el)
            && fullInterval nowT cd) eqn:E1.
  { exists "Stalled playback". by destruct (MAX_STALL_COUNT <=? S (stallCount cd))%nat. }
  destruct (negb (hasEnoughData el) && hasHls cd && fullInterval nowT cd) eqn:E2.
  { exists "Stuck loading". by destruct (MAX_STALL_COUNT <=? S (stallCount cd))%nat. }
  simpl in Hq. rewrite Hq.
  exists "Unexpectedly paused". by destruct (MAX_STALL_COUNT <=? S (stallCount cd))%nat.
Qed.

Lemma recoveries_nil index : recoveries index [] = 0%nat.
Proof. done. Qed.

Ltac list_mem :=
  unfold releaseEffects in *;
  repeat match goal with
         | H : _ ∈ _ |- _ =>
             apply list_elem_of_In in H; simpl in H; rewrite ?in_app_iff in H; simpl in H
         end;
  try (apply list_elem_of_In; simpl; rewrite ?in_app_iff; simpl);
  intuition congruence.

Lemma recoveries_release index h : recoveries index (releaseEffects h) = 0%nat.
Proof. done. Qed.

(** One health-check tick on a session it does not skip, when a stall,
    stuck-loading or unexpected-pause condition holds: the stall count is
    raised by exactly one (one stall line is logged, with the new count);
    below [MAX_STALL_COUNT] nothing is recovered and no timer is touched;
    at or above it [recoverCamera] runs exactly once for that slot and for no
    other, leaving the count at 0 and no engine.  In both cases
    [lastPlaybackTime] ends as the position read at the start of the tick. *)
Theorem stall_escalation_tick (s : Mgr) (index l : nat) (camera : Camera)
    (cd : CameraData) (el : VideoElement) :
  checked s index l camera cd el ->
  qualifyingTick (now s) camera cd el = true ->
  let n := stallCount cd in
  let s' := checkCameraHealth (now s) s (index, l) in
  exists tr cd',
    trace s' = tr ++ trace s /\ heap s' !! l = Some cd' /\
    ELogStall index (S n) ∈ tr /\
    (forall i k, ELogStall i k ∈ tr -> i = index /\ k = S n) /\
    lastPlaybackTime cd' = vCurrentTime el /\
    if (S n <? MAX_STALL_COUNT)%nat then
      stallCount cd' = S n /\ hls cd' = hls cd /\
      (forall i, recoveries i tr = 0%nat) /\ timers s' = timers s
    else
      recoveries index tr = 1%nat /\ (forall i, i <> index -> recoveries i tr = 0%nat) /\
      stallCount cd' = 0%nat /\ retryCount cd' = 0%nat /\ hls cd' = None.
Proof.
  intros Hck Hq n s'. subst s'.
  destruct (checkCameraHealth_qualifying _ _ _ _ _ _ _ Hck Hq) as [reason ->].
  destruct Hck as (Hget & Hcd & Hlive & Hcfg & Hurl & Hel & Hrt & Hinit).
  set (sE := escalated (now s) index l cd s).
  assert (HcdE : heap sE !! l =
            Some (set_stallCount (S n) (set_lastCheckTime (now s) cd))).
  { subst sE. unfold escalated. unfold_prims. simpl. rewrite !list_lookup_alter.
    repeat case_decide; try done. by rewrite Hcd. }
  assert (HtrE : trace sE = ELogStall index (S n) :: trace s) by done.
  assert (HtiE : timers sE = timers s) by done.
  assert (HgetE : Map_get (cameras sE) index = Some l) by done.
  clearbody sE. unfold MAX_STALL_COUNT. fold n.
  destruct (Nat.leb_spec 2 (S n)) as [Hge|Hlt].
  - destruct (Nat.ltb_spec (S n) 2) as [?|_]; [lia|].
    destruct (recoverCamera_live index camera (emit (ELogNeedsRecovery index reason) sE) l
                (set_stallCount (S n) (set_lastCheckTime (now s) cd)))
      as (rel & cd' & Htr & Hrel & Hcd' & Hsc & Hrc & Hh & _); [done|done|done|].
    exists ([ELoad (element cd); EPause (element cd)] ++ rel ++
            [ELogRecovering index; ELogNeedsRecovery index reason; ELogStall index (S n)]).
    exists (set_lastPlaybackTime (vCurrentTime el) cd').
    rewrite lookup_updCam_eq, Hcd'.
    change (trace (updCam ?l ?g ?x)) with (trace x).
    rewrite Htr. cbn [emit trace set_trace]. rewrite HtrE.
    split; [by rewrite <- !app_assoc|]. split; [done|].
    split; [list_mem|]. split.
    { intros i k Hk. destruct Hrel as [->|[h ->]]; list_mem. }
    split; [done|]. split.
    { destruct Hrel as [->|[h ->]]; unfold recoveries; simpl; by rewrite Nat.eqb_refl. }
    split; [|done].
    intros i Hi. destruct Hrel as [->|[h ->]]; unfold recoveries; simpl;
      by destruct (Nat.eqb_spec index i).
  - destruct (Nat.ltb_spec (S n) 2) as [_|?]; [|lia].
    destruct (stalledPlayback (now s) cd el || stuckLoading (now s) cd el).
    + exists [ELogStall index (S n)], (set_lastPlaybackTime (vCurrentTime el)
        (set_stallCount (S n) (set_lastCheckTime (now s) cd))).
      rewrite lookup_updCam_eq, HcdE.
      change (trace (updCam ?l ?g ?x)) with (trace x).
      change (timers (updCam ?l ?g ?x)) with (timers x).
      rewrite HtrE, HtiE.
      split; [done|]. split; [done|]. split; [list_mem|]. split; [intros i k Hk; list_mem|]. split; [done|]. done.
    + exists [EPlay (element cd); ELogStall index (S n)],
        (set_lastPlaybackTime (vCurrentTime el)
          (set_stallCount (S n) (set_lastCheckTime (now s) cd))).
      rewrite lookup_updCam_eq.
      change (trace (updCam ?l ?g (play ?e ?a ?b ?x))) with (EPlay e :: trace x).
      change (timers (updCam ?l ?g (play ?e ?a ?b ?x))) with (timers x).
      change (heap (play ?e ?a ?b ?x)) with (heap x).
      rewrite HcdE, HtrE, HtiE.
      split; [done|]. split; [done|]. split; [list_mem|]. split; [intros i k Hk; list_mem|]. split; [done|]. done.
Qed.

(** An engine-backed session whose element reports paused. *)
Definition pausedSession : Mgr :=
  Eval vm_compute in updVideo 0 (set_vReadyState 4) liveSession.

Lemma stall_escalation_tick_witness :
  exists tr cd',
    trace (checkCameraHealth (now pausedSession) pausedSession (0, 0)%nat)
      = tr ++ trace pausedSession /\
    heap (checkCameraHealth (now pausedSession) pausedSession (0, 0)%nat) !! 0%nat
      = Some cd' /\
    stallCount cd' = 1%nat.
Proof.
  assert (Hck : checked pausedSession 0 0 liveCamera
                  (default (set_hls None (set_eventCleanups [] (set_retryCount 0%nat
                     {| hls := None; element := 0; retryTimeout := None; retryCount := 0;
                        isDestroyed := false; eventCleanups := [];
                        lastPlaybackTime := 0; lastCheckTime := 0; stallCount := 0;
                        initTimeout := None; videoEventCleanups := [] |})))
                     (heap pausedSession !! 0%nat))
                  (default {| vPaused := true; vEnded := false; vReadyState := 0;
                              vError := None; vCurrentTime := 0; vSrc := None;
                              vPlaceholder := ""; vPreload := None; vListeners := [] |}
                     (videos pausedSession !! 0%nat))).
  { vm_compute. repeat split; reflexivity. }
  destruct (stall_escalation_tick pausedSession 0 0 liveCamera _ _ Hck eq_refl)
    as (tr & cd' & H1 & H2 & _ & _ & _ & H3).
  exists tr, cd'. split; [exact H1|]. split; [exact H2|].
  exact (proj1 H3).
Defined.

Lemma foldl_id {A B} (g : A -> B -> A) (l : list B) (a : A) :
  (forall x, x ∈ l -> g a x = a) -> foldl g a l = a.
Proof.
  induction l as [|x l IH]; intros H; simpl; [done|].
  rewrite (H x) by left. apply IH. intros y Hy. apply H. by right.
Qed.

(** What the health check skips.  While the page is hidden or a
    sequential initialisation is in progress a tick changes nothing at
    all; within a tick, a session that is destroyed, has a retry pending,
    or has no configuration or an empty URL is left untouched (not even
    [lastCheckTime] is updated). *)
Theorem health_check_skips (s : Mgr) :
  (isPageVisible s = false \/ isInitializing s = true -> checkAllCameraHealth s = s) /\
  (forall nowT index l cd,
     heap s !! l = Some cd ->
     isDestroyed cd = true \/ is_Some (retryTimeout cd) \/
       cameraConfigs s !! index = None \/
       (exists camera, cameraConfigs s !! index = Some camera /\ url camera = "") ->
     checkCameraHealth nowT s (index, l) = s).
Proof.
  split.
  - intros [Hv|Hi].
    + unfold checkAllCameraHealth. by rewrite Hv.
    + unfold checkAllCameraHealth. destruct (isPageVisible s); [|done]. simpl.
      apply foldl_id. intros [index l] _. unfold checkCameraHealth.
      destruct (heap s !! l) as [cd|]; [|done].
      destruct (isDestroyed cd); [done|].
      destruct (cameraConfigs s !! index) as [camera|]; [|done].
      destruct (negb (truthyStr (url camera))); [done|].
      destruct (videos s !! element cd); [|done].
      by rewrite Hi, orb_true_r.
  - intros nowT index l cd Hcd Hskip. unfold checkCameraHealth. rewrite Hcd.
    destruct Hskip as [->|[[id Hrt]|[->|(camera & -> & ->)]]]; try done.
    + destruct (isDestroyed cd); [done|].
      destruct (cameraConfigs s !! index) as [camera|]; [|done].
      destruct (negb (truthyStr (url camera))); [done|].
      destruct (videos s !! element cd); [|done].
      by rewrite Hrt.
    + by destruct (isDestroyed cd).
    + by destruct (isDestroyed cd).
Qed.

Definition sequencingSession : Mgr :=
  Eval vm_compute in set_isInitializing true pausedSession.

Lemma health_check_skips_witness :
  checkAllCameraHealth sequencingSession = sequencingSession.
Proof. exact (proj1 (health_check_skips sequencingSession) (or_intror eq_refl)). Defined.

(** A tick on a checked session on which neither an immediate-recovery
    condition nor a stall condition holds: the stall count is reset to 0 if
    the progress test of the code holds ([hasProgressed]: the position
    differs from the one of the last tick by more than 0.1, both the
    difference and the 0.1 being doubles) and is kept otherwise; nothing
    is recovered, no call is made on the browser, and
    only [lastCheckTime], [lastPlaybackTime] and [stallCount] of that
    session change. *)
Theorem healthy_tick (s : Mgr) (index l : nat) (camera : Camera)
    (cd : CameraData) (el : VideoElement) :
  checked s index l camera cd el ->
  immediateRecovery camera cd el = false ->
  qualifyingTick (now s) camera cd el = false ->
  let s' := checkCameraHealth (now s) s (index, l) in
  heap s' !! l =
    Some (set_lastPlaybackTime (vCurrentTime el)
            (set_stallCount (if hasProgressed cd el then 0%nat else stallCount cd)
               (set_lastCheckTime (now s) cd))) /\
  (forall l', l' <> l -> heap s' !! l' = heap s !! l') /\
  trace s' = trace s /\ timers s' = timers s /\ videos s' = videos s /\
  engines s' = engines s /\ promises s' = promises s.
Proof.
  intros (Hget & Hcd & Hlive & Hcfg & Hurl & Hel & Hrt & Hinit) Him Hq.
  unfold qualifyingTick in Hq. rewrite Him in Hq. simpl in Hq.
  apply orb_false_iff in Hq as [Hq H3]. apply orb_false_iff in Hq as [H1 H2].
  unfold immediateRecovery in Him. apply orb_false_iff in Him as [Him1 Him2].
  unfold stalledPlayback, stuckLoading, unexpectedlyPaused in *.
  cbv zeta. unfold checkCameraHealth.
  rewrite Hcd, Hlive, Hcfg, Hurl, Hel, Hrt, Hinit, Him1, Him2, H1, H2, H3.
  cbn [negb orb bool_decide decide_rel].
  destruct (hasProgressed cd el) eqn:Hp; unfold_prims; simpl.
  - rewrite !list_lookup_alter. repeat case_decide; try done. rewrite Hcd. simpl.
    split; [done|]. split; [|done]. intros l' Hne. by rewrite !list_lookup_alter_ne.
  - rewrite !list_lookup_alter. repeat case_decide; try done. rewrite Hcd. simpl.
    split; [by destruct cd|]. split; [|done].
    intros l' Hne. by rewrite !list_lookup_alter_ne.
Qed.

(** A session playing normally: position 7.5 after 0 at the last tick. *)
Definition playingSession : Mgr :=
  Eval vm_compute in
  updVideo 0 (fun el => set_vPaused false (set_vReadyState 4 (set_vCurrentTime (15 # 2) el)))
    (updCam 0 (set_stallCount 1%nat) liveSession).

Lemma healthy_tick_witness :
  stallCount <$>
    heap (checkCameraHealth (now playingSession) playingSession (0, 0)%nat) !! 0%nat
  = Some 0%nat.
Proof.
  assert (Hck : checked playingSession 0 0 liveCamera
                  (default (set_stallCount 0%nat
                     {| hls := None; element := 0; retryTimeout := None; retryCount := 0;
                        isDestroyed := false; eventCleanups := [];
                        lastPlaybackTime := 0; lastCheckTime := 0; stallCount := 0;
                        initTimeout := None; videoEventCleanups := [] |})
                     (heap playingSession !! 0%nat))
                  (default {| vPaused := true; vEnded := false; vReadyState := 0;
                              vError := None; vCurrentTime := 0; vSrc := None;
                              vPlaceholder := ""; vPreload := None; vListeners := [] |}
                     (videos playingSession !! 0%nat))).
  { vm_compute. repeat split; reflexivity. }
  destruct (healthy_tick playingSession 0 0 liveCamera _ _ Hck eq_refl eq_refl) as [H _].
  rewrite H. reflexivity.
Defined.

(** The progress test is made in double precision: the double 0.1 is a
    little more than one tenth, and a position of exactly that double
    after 0 does not count as progress. *)
Lemma tenth_is_no_progress (cd : CameraData) (el : VideoElement) :
  lastPlaybackTime cd = 0%Q -> vCurrentTime el = Double.round (1 # 10) ->
  (1 # 10 < vCurrentTime el - lastPlaybackTime cd)%Q /\ hasProgressed cd el = false.
Proof.
  intros H0 H1. unfold hasProgressed. rewrite H0, H1. split; reflexivity.
Qed.

Lemma recoverCamera_timers index camera s l cd :
  Map_get (cameras s) index = Some l -> heap s !! l = Some cd -> isDestroyed cd = false ->
  timers (recoverCamera index camera s) =
    timers s ++ [{| tId := nextTimer s; tDue := (now s + 1000)%Q; tRepeat := None;
                    tCb := CbRecoverDelay l index camera |}].
Proof.
  intros Hget Hcd Hlive. unfold recoverCamera. rewrite Hget, Hcd, Hlive.
  set (s1 := updCam l (set_retryCount 0%nat) _).
  assert (H1 : timers s1 = timers s /\ nextTimer s1 = nextTimer s /\ now s1 = now s) by done.
  destruct H1 as (Ht & Hn & Hnow). clearbody s1.
  destruct (cleanupHls_untouched l s1) as (Ht' & Hn' & _).
  pose proof (stable_cleanupHls now l s1) as Hnow'.
  unfold_prims. cbn [timers set_timers set_nextTimer snd set_trace set_videos
    nextTimer now].
  by rewrite Ht', Hn', Hnow', Ht, Hn, Hnow.
Qed.

Lemma immediate_recovery_spec (s : Mgr) (index l : nat) (camera : Camera)
    (cd : CameraData) (el : VideoElement) :
  checked s index l camera cd el ->
  immediateRecovery camera cd el = true ->
  let s' := checkCameraHealth (now s) s (index, l) in
  exists tr cd',
    trace s' = tr ++ trace s /\
    recoveries index tr = 1%nat /\ (forall i, i <> index -> recoveries i tr = 0%nat) /\
    (forall i k, ELogStall i k ∉ tr) /\
    heap s' !! l = Some cd' /\
    stallCount cd' = 0%nat /\ retryCount cd' = 0%nat /\ hls cd' = None /\
    lastPlaybackTime cd' = vCurrentTime el /\
    timers s' =
      timers s ++ [{| tId := nextTimer s; tDue := (now s + 1000)%Q; tRepeat := None;
                      tCb := CbRecoverDelay l index camera |}].
Proof.
  intros (Hget & Hcd & Hlive & Hcfg & Hurl & Hel & Hrt & Hinit) Him. cbv zeta.
  set (s0 := updCam l (set_lastCheckTime (now s)) s).
  assert (Hcd0 : heap s0 !! l = Some (set_lastCheckTime (now s) cd)).
  { subst s0. by rewrite lookup_updCam_eq, Hcd. }
  assert (Heq : exists reason,
            checkCameraHealth (now s) s (index, l) =
              updCam l (set_lastPlaybackTime (vCurrentTime el))
                (recoverCamera index camera (emit (ELogNeedsRecovery index reason) s0))).
  { unfold checkCameraHealth. rewrite Hcd, Hlive, Hcfg, Hurl, Hel, Hrt, Hinit.
    cbn [negb orb bool_decide decide_rel].
    unfold immediateRecovery in Him.
    destruct (negb (hasHls cd) && endsWith ".m3u8" (url camera)) eqn:E1.
    - by eexists.
    - simpl in Him. rewrite Him. by eexists. }
  destruct Heq as [reason ->].
  destruct (recoverCamera_live index camera (emit (ELogNeedsRecovery index reason) s0) l
              (set_lastCheckTime (now s) cd))
    as (rel & cd' & Htr & Hrel & Hcd' & Hsc & Hrc & Hh & _); [done|done|done|].
  pose proof (recoverCamera_timers index camera (emit (ELogNeedsRecovery index reason) s0) l
                (set_lastCheckTime (now s) cd) Hget Hcd0 Hlive) as Hti.
  exists ([ELoad (element cd); EPause (element cd)] ++ rel ++
          [ELogRecovering index; ELogNeedsRecovery index reason]).
  exists (set_lastPlaybackTime (vCurrentTime el) cd').
  rewrite lookup_updCam_eq, Hcd'.
  change (trace (updCam ?l ?g ?x)) with (trace x).
  change (timers (updCam ?l ?g ?x)) with (timers x).
  rewrite Htr, Hti. cbn [emit trace set_trace].
  split; [by rewrite <- !app_assoc|].
  split.
  { destruct Hrel as [->|[h ->]]; unfold recoveries; simpl; by rewrite Nat.eqb_refl. }
  split.
  { intros i Hi. destruct Hrel as [->|[h ->]]; unfold recoveries; simpl;
      by destruct (Nat.eqb_spec index i). }
  split.
  { intros i k Hk. destruct Hrel as [->|[h ->]]; list_mem. }
  done.
Qed.

(** A tick on a checked session whose engine is missing although its URL
    is an HLS manifest, or whose element reports an error: the session is
    recovered at once, exactly once, without any stall being counted,
    whatever the stall count was, and the 1000 ms re-initialisation timer is
    armed. *)
Theorem immediate_recovery_tick (s : Mgr) (index l : nat) (camera : Camera)
    (cd : CameraData) (el : VideoElement) :
  checked s index l camera cd el ->
  immediateRecovery camera cd el = true ->
  let s' := checkCameraHealth (now s) s (index, l) in
  exists tr cd',
    trace s' = tr ++ trace s /\
    recoveries index tr = 1%nat /\ (forall i, i <> index -> recoveries i tr = 0%nat) /\
    (forall i k, ELogStall i k ∉ tr) /\
    heap s' !! l = Some cd' /\
    stallCount cd' = 0%nat /\ retryCount cd' = 0%nat /\ hls cd' = None /\
    lastPlaybackTime cd' = vCurrentTime el /\
    timers s' =
      timers s ++ [{| tId := nextTimer s; tDue := (now s + 1000)%Q; tRepeat := None;
                      tCb := CbRecoverDelay l index camera |}].
Proof. exact (immediate_recovery_spec s index l camera cd el). Qed.

(** The engine of session 0 is gone although its URL is a manifest. *)
Definition engineMissing : Mgr :=
  Eval vm_compute in updCam 0 (fun cd => set_stallCount 1%nat (set_hls None cd)) liveSession.

Lemma immediate_recovery_tick_witness :
  exists tr cd',
    trace (checkCameraHealth (now engineMissing) engineMissing (0, 0)%nat)
      = tr ++ trace engineMissing /\
    recoveries 0 tr = 1%nat /\
    heap (checkCameraHealth (now engineMissing) engineMissing (0, 0)%nat) !! 0%nat
      = Some cd' /\
    stallCount cd' = 0%nat.
Proof.
  assert (Hck : checked engineMissing 0 0 liveCamera
                  (default (set_stallCount 0%nat
                     {| hls := None; element := 0; retryTimeout := None; retryCount := 0;
                        isDestroyed := false; eventCleanups := [];
                        lastPlaybackTime := 0; lastCheckTime := 0; stallCount := 0;
                        initTimeout := None; videoEventCleanups := [] |})
                     (heap engineMissing !! 0%nat))
                  (default {| vPaused := true; vEnded := false; vReadyState := 0;
                              vError := None; vCurrentTime := 0; vSrc := None;
                              vPlaceholder := ""; vPreload := None; vListeners := [] |}
                     (videos engineMissing !! 0%nat))).
  { vm_compute. repeat split; reflexivity. }
  destruct (immediate_recovery_tick engineMissing 0 0 liveCamera _ _ Hck eq_refl)
    as (tr & cd' & H1 & H2 & _ & _ & H5 & H6 & _).
  exists tr, cd'. split; [exact H1|]. split; [exact H2|]. split; [exact H5|exact H6].
Defined.

(** The 'stalled' listener installed by [createCameraElement]: each event
    on a live session raises its stall count by one and does nothing else
    (no threshold, no recovery); on a destroyed session it does nothing. *)
Theorem stalled_event_counts (s : Mgr) (l index : nat) (cd : CameraData) (d : EventData) :
  heap s !! l = Some cd ->
  let s' := runCb (CbStalled l index) d s in
  (isDestroyed cd = true -> s' = s) /\
  (isDestroyed cd = false ->
     heap s' !! l = Some (set_stallCount (S (stallCount cd)) cd) /\
     (forall l', l' <> l -> heap s' !! l' = heap s !! l') /\
     trace s' = trace s /\ timers s' = timers s /\ videos s' = videos s /\
     engines s' = engines s).
Proof.
  intros Hcd. cbv zeta. unfold runCb, camDestroyed. rewrite Hcd. split.
  - by intros ->.
  - intros ->. rewrite lookup_updCam_eq, Hcd. split; [done|].
    split; [|done]. intros l' Hne. by rewrite lookup_updCam_ne.
Qed.

Lemma stalled_event_counts_witness :
  stallCount <$>
    heap (runCb (CbStalled 0 0) DNone
            (runCb (CbStalled 0 0) DNone (runCb (CbStalled 0 0) DNone liveSession))) !! 0%nat
  = Some 3%nat.
Proof.
  pose proof (stalled_event_counts liveSession 0 0 _ DNone eq_refl) as [_ H1].
  destruct (H1 eq_refl) as [Ha _].
  pose proof (stalled_event_counts _ 0 0 _ DNone Ha) as [_ H2].
  destruct (H2 eq_refl) as [Hb _].
  pose proof (stalled_event_counts _ 0 0 _ DNone Hb) as [_ H3].
  destruct (H3 eq_refl) as [Hc _].
  rewrite Hc. reflexivity.
Defined.

(** ** Destroyed sessions *)

(** The record [destroyCamera] leaves behind. *)
Definition quiescent (cd : CameraData) : Prop :=
  isDestroyed cd = true /\ hls cd = None /\ retryTimeout cd = None /\
  initTimeout cd = None /\ eventCleanups cd = [] /\ videoEventCleanups cd = [] /\
  retryCount cd = 0%nat /\ stallCount cd = 0%nat /\
  lastPlaybackTime cd = 0%Q /\ lastCheckTime cd = 0%Q.

Lemma quiescent_set cd :
  quiescent cd ->
  set_isDestroyed true cd = cd /\ set_hls None cd = cd /\
  set_retryTimeout None cd = cd /\ set_initTimeout None cd = cd /\
  set_eventCleanups [] cd = cd /\ set_videoEventCleanups [] cd = cd /\
  set_retryCount 0%nat cd = cd /\ set_stallCount 0%nat cd = cd /\
  set_lastPlaybackTime 0%Q cd = cd /\ set_lastCheckTime 0%Q cd = cd.
Proof.
  intros (?&?&?&?&?&?&?&?&?&?). destruct cd; simpl in *; subst. repeat split.
Qed.

Lemma frozen_alter (g : CameraData -> CameraData) (l' l : nat) (L : list CameraData) cd :
  (l' = l -> g cd = cd) -> L !! l = Some cd -> alter g l' L !! l = Some cd.
Proof.
  intros Hg HL. rewrite list_lookup_alter. case_decide; [|done].
  subst. rewrite HL. simpl. by rewrite Hg.
Qed.

Section Frozen.
Variables (l : nat) (cd : CameraData).
Hypothesis Hq : quiescent cd.

Let Hdead : isDestroyed cd = true := proj1 Hq.

Ltac frozen_side :=
  let E := fresh in
  intros E;
  first
    [ exfalso; subst;
      repeat match goal with
             | H1 : ?x = Some ?a, H2 : ?x = Some ?b |- _ =>
                 assert (a = b) by congruence; subst; clear H2
             end;
      unfold camDestroyed in *;
      repeat match goal with
             | H1 : ?x = Some ?a, H2 : context [?x] |- _ => rewrite H1 in H2
             end;
      simpl in *; congruence
    | subst; destruct (quiescent_set cd Hq) as (?&?&?&?&?&?&?&?&?&?); assumption ].

Ltac frozen_norm :=
  unfold setTimeout, setInterval, clearInterval, clearTimeout, random, resetElement,
    pause, play, setSrc, seek, addEventListener, removeEventListener, hlsOn, hlsOff,
    updCam, updVideo, updEngine, updWait, emit;
  cbn [heap set_heap set_videos set_engines set_timers set_nextTimer set_promises
       set_nextPromise set_rngPos set_trace set_waits set_initQueue set_isInitializing
       set_healthCheckInterval set_cameras set_gridChildren set_isPageVisible
       set_gridElement set_isHDMode set_visibilityHandler set_cameraConfigs set_config
       set_now fst snd].

Ltac frozen_go tac :=
  repeat first
    [ assumption
    | apply frozen_alter; [frozen_side|]
    | progress frozen_norm
    | tac ].

Ltac frozen_cases :=
  unfold setTimeout, setInterval, random; cbv beta iota zeta;
  repeat case_match; try done.

Lemma frozen_foldl {B} (g : Mgr -> B -> Mgr) (xs : list B) s :
  (forall s x, heap s !! l = Some cd -> heap (g s x) !! l = Some cd) ->
  heap s !! l = Some cd -> heap (foldl g s xs) !! l = Some cd.
Proof.
  intros Hg. revert s. induction xs as [|x xs IH]; intros s Hs; simpl; [done|].
  apply IH, Hg, Hs.
Qed.

Lemma frozen_cleanupHls l' s :
  heap s !! l = Some cd -> heap (cleanupHls l' s) !! l = Some cd.
Proof.
  intros H. destruct (decide (l' = l)) as [->|Hne].
  - rewrite (cleanupHls_session l s cd H).
    destruct (quiescent_set cd Hq) as (_&E1&_&_&E2&_). by rewrite E2, E1.
  - by rewrite cleanupHls_other.
Qed.

Lemma frozen_setPlaceholder i m s :
  heap s !! l = Some cd -> heap (setPlaceholder i m s) !! l = Some cd.
Proof. intros H. by destruct (setPlaceholder_videos i m s) as [vs ->]. Qed.

Lemma frozen_scheduleRetry i c s :
  heap s !! l = Some cd -> heap (scheduleRetry i c s) !! l = Some cd.
Proof.
  intros H. unfold scheduleRetry. frozen_cases; frozen_go fail.
Qed.

Lemma frozen_initHlsStream i c s :
  heap s !! l = Some cd -> heap (initHlsStream i c s) !! l = Some cd.
Proof.
  intros H. unfold initHlsStream. frozen_cases;
    frozen_go ltac:(first [apply frozen_scheduleRetry | apply frozen_setPlaceholder
                          | apply frozen_cleanupHls ]).
Qed.

Ltac frozen_base :=
  first [ apply frozen_scheduleRetry | apply frozen_setPlaceholder
        | apply frozen_cleanupHls | apply frozen_initHlsStream ].

Lemma frozen_initializeStream i c s :
  heap s !! l = Some cd -> heap (initializeStream i c s) !! l = Some cd.
Proof. intros H. unfold initializeStream. frozen_cases; frozen_go frozen_base. Qed.

Lemma frozen_handleHlsError i c d s :
  heap s !! l = Some cd -> heap (handleHlsError i c d s) !! l = Some cd.
Proof. intros H. unfold handleHlsError. frozen_cases; frozen_go frozen_base. Qed.

Lemma frozen_recoverCamera i c s :
  heap s !! l = Some cd -> heap (recoverCamera i c s) !! l = Some cd.
Proof. intros H. unfold recoverCamera. frozen_cases; frozen_go frozen_base. Qed.

Lemma frozen_checkCameraHealth t s x :
  heap s !! l = Some cd -> heap (checkCameraHealth t s x) !! l = Some cd.
Proof.
  intros H. unfold checkCameraHealth. frozen_cases; simplify_eq;
    frozen_go ltac:(apply frozen_recoverCamera).
Qed.

Lemma frozen_checkAllCameraHealth s :
  heap s !! l = Some cd -> heap (checkAllCameraHealth s) !! l = Some cd.
Proof.
  intros H. unfold checkAllCameraHealth. case_match; [done|].
  apply frozen_foldl; [|done]. intros. by apply frozen_checkCameraHealth.
Qed.

Lemma frozen_stopHealthMonitor s :
  heap s !! l = Some cd -> heap (stopHealthMonitor s) !! l = Some cd.
Proof. intros H. unfold stopHealthMonitor. frozen_cases; frozen_go fail. Qed.

Lemma frozen_startHealthMonitor s :
  heap s !! l = Some cd -> heap (startHealthMonitor s) !! l = Some cd.
Proof.
  intros H. unfold startHealthMonitor. frozen_cases;
    frozen_go ltac:(apply frozen_stopHealthMonitor).
Qed.

Lemma frozen_pauseCamera s x :
  heap s !! l = Some cd -> heap (pauseCamera s x) !! l = Some cd.
Proof. intros H. unfold pauseCamera. frozen_cases; frozen_go fail. Qed.

Lemma frozen_pauseAllStreams s :
  heap s !! l = Some cd -> heap (pauseAllStreams s) !! l = Some cd.
Proof.
  intros H. unfold pauseAllStreams. apply frozen_foldl.
  - intros. by apply frozen_pauseCamera.
  - by apply frozen_stopHealthMonitor.
Qed.

Lemma frozen_initNextCameraFrom q s :
  heap s !! l = Some cd -> heap (initNextCameraFrom q s) !! l = Some cd.
Proof.
  revert s. induction q as [|[i c] q IH]; intros s H; simpl.
  - frozen_cases; frozen_go ltac:(apply frozen_startHealthMonitor).
  - assert (Hskip : heap (initNextCameraFrom q (set_initQueue q s)) !! l = Some cd)
      by (by apply IH).
    frozen_cases. apply orb_false_iff in H2 as [H2 _].
    frozen_go ltac:(apply frozen_initializeStream).
Qed.

Lemma frozen_sequentialInit cams s :
  heap s !! l = Some cd -> heap (sequentialInit cams s) !! l = Some cd.
Proof.
  intros H. unfold sequentialInit, initNextCamera. destruct cams.
  - frozen_cases; frozen_go ltac:(apply frozen_startHealthMonitor).
  - by apply frozen_initNextCameraFrom.
Qed.

Lemma frozen_resumeCamera acc x :
  heap (fst acc) !! l = Some cd -> heap (fst (resumeCamera acc x)) !! l = Some cd.
Proof.
  destruct acc as [s cams]. intros H. simpl in H. unfold resumeCamera.
  frozen_cases; frozen_go frozen_base.
Qed.

Lemma frozen_foldl_resumeCamera acc xs :
  heap (fst acc) !! l = Some cd ->
  heap (fst (foldl resumeCamera acc xs)) !! l = Some cd.
Proof.
  revert acc. induction xs as [|x xs IH]; intros acc H; simpl; [done|].
  by apply IH, frozen_resumeCamera.
Qed.

Lemma frozen_foldl_initializeStream cams s :
  heap s !! l = Some cd ->
  heap (foldl (fun s '(index, camera) => initializeStream index camera s) s cams) !! l
    = Some cd.
Proof.
  intros H. apply frozen_foldl; [|done]. intros s' [i c] Hs.
  by apply frozen_initializeStream.
Qed.

Lemma frozen_resumeAllStreams s :
  heap s !! l = Some cd -> heap (resumeAllStreams s) !! l = Some cd.
Proof.
  intros H. unfold resumeAllStreams.
  pose proof (frozen_foldl_resumeCamera (s, []) (cameras s) H) as H1.
  destruct (foldl resumeCamera (s, []) (cameras s)) as [s' cams]. cbn [fst] in H1.
  case_match.
  - frozen_go ltac:(apply frozen_foldl_initializeStream).
  - by apply frozen_sequentialInit.
Qed.

Lemma frozen_visibilityChange hidden s :
  heap s !! l = Some cd -> heap (visibilityChange hidden s) !! l = Some cd.
Proof.
  intros H. unfold visibilityChange. case_match.
  - by apply frozen_startHealthMonitor, frozen_resumeAllStreams.
  - by apply frozen_stopHealthMonitor, frozen_pauseAllStreams.
Qed.

Lemma frozen_runCb cb d s :
  heap s !! l = Some cd -> heap (runCb cb d s) !! l = Some cd.
Proof.
  intros H. unfold runCb, initNextCamera.
  destruct cb; frozen_cases;
    frozen_go ltac:(first [ apply frozen_checkAllCameraHealth
                          | apply frozen_initializeStream
                          | apply frozen_startHealthMonitor
                          | apply frozen_initNextCameraFrom
                          | apply frozen_handleHlsError
                          | frozen_base ]).
Qed.

Lemma frozen_dispatchMedia e evt s :
  heap s !! l = Some cd -> heap (dispatchMedia e evt s) !! l = Some cd.
Proof.
  intros H. unfold dispatchMedia. case_match; [|done].
  apply frozen_foldl; [|done]. intros s' [evt' cb] Hs. case_match; [|done].
  by apply frozen_runCb.
Qed.

Lemma frozen_dispatchHls h evt d s :
  heap s !! l = Some cd -> heap (dispatchHls h evt d s) !! l = Some cd.
Proof.
  intros H. unfold dispatchHls. case_match; [|done].
  apply frozen_foldl; [|done]. intros s' [evt' cb] Hs. case_match; [|done].
  by apply frozen_runCb.
Qed.

Lemma frozen_fireTimer t s :
  heap s !! l = Some cd -> heap (fireTimer t s) !! l = Some cd.
Proof.
  intros H. unfold fireTimer. apply frozen_runCb. by destruct (tRepeat t).
Qed.

Lemma frozen_destroyCamera i s :
  heap s !! l = Some cd -> heap (destroyCamera i s) !! l = Some cd.
Proof.
  intros H. unfold destroyCamera.
  destruct (Map_get (cameras s) i) as [l'|]; [|done].
  destruct (heap s !! l') as [cd'|] eqn:Hcd'; [|done].
  destruct (decide (l' = l)) as [->|Hne].
  - assert (cd' = cd) by congruence. subst cd'.
    pose proof Hq as (_&_&E1&E2&_&E3&_). rewrite E1, E2, E3. simpl.
    frozen_go ltac:(apply frozen_cleanupHls).
  - set (s1 := match retryTimeout cd' with Some id => _ | None => _ end).
    assert (H1 : heap s1 !! l = Some cd).
    { subst s1. destruct (retryTimeout cd'); frozen_go fail. }
    clearbody s1.
    set (s2 := match initTimeout cd' with Some id => _ | None => _ end).
    assert (H2 : heap s2 !! l = Some cd).
    { subst s2. destruct (initTimeout cd'); frozen_go fail. }
    clearbody s2.
    frozen_go fail.
    apply frozen_foldl.
    + intros s' [[e evt] cb] Hs. frozen_go fail.
    + by apply frozen_cleanupHls.
Qed.

Lemma frozen_destroyAllCameras s :
  heap s !! l = Some cd -> heap (destroyAllCameras s) !! l = Some cd.
Proof.
  intros H. unfold destroyAllCameras.
  assert (H1 : heap (foldl (fun s '(index, _) => destroyCamera index s)
                       (set_isInitializing false (set_initQueue [] s)) (cameras s)) !! l
               = Some cd).
  { apply frozen_foldl; [|done]. intros s' [i l'] Hs. by apply frozen_destroyCamera. }
  by case_match.
Qed.

Lemma frozen_createCameraElement i c b s :
  heap s !! l = Some cd -> heap (createCameraElement i c b s) !! l = Some cd.
Proof.
  intros H. assert (Hlt : l < length (heap s)) by (by eapply lookup_lt_Some).
  unfold createCameraElement. unfold_prims. simpl.
  repeat case_match; try apply frozen_initializeStream; simpl;
    (rewrite list_lookup_alter_ne by lia); by rewrite lookup_app_l.
Qed.

Lemma frozen_foldl_setupCell acc xs :
  heap (fst acc) !! l = Some cd ->
  heap (fst (foldl setupCell acc xs)) !! l = Some cd.
Proof.
  revert acc. induction xs as [|x xs IH]; intros acc H; simpl; [done|].
  apply IH. destruct acc as [s cams]. unfold setupCell. simpl in H.
  repeat case_match; simpl; try done; by apply frozen_createCameraElement.
Qed.

Lemma frozen_setupGrid s :
  heap s !! l = Some cd -> heap (setupGrid s) !! l = Some cd.
Proof.
  intros H. unfold setupGrid. case_match; [done|].
  match goal with |- context [foldl setupCell ?a ?xs] =>
    pose proof (frozen_foldl_setupCell a xs) as H1;
    destruct (foldl setupCell a xs) as [s' cams] end.
  cbn [fst] in H1. specialize (H1 (frozen_destroyAllCameras s H)).
  repeat case_match; try done.
  - by apply frozen_startHealthMonitor, frozen_foldl_initializeStream.
  - by apply frozen_foldl_initializeStream.
  - by apply frozen_sequentialInit.
Qed.

Lemma frozen_forceRecoverAll s :
  heap s !! l = Some cd -> heap (forceRecoverAll s) !! l = Some cd.
Proof.
  intros H. unfold forceRecoverAll. apply frozen_foldl; [|done].
  intros s' [i l'] Hs. repeat case_match; try done. by apply frozen_recoverCamera.
Qed.

Lemma frozen_call c s :
  (forall i, c <> CApplySettings i) ->
  heap s !! l = Some cd -> heap (call c s) !! l = Some cd.
Proof.
  intros Hc H. destruct c; simpl; try done.
  - by apply frozen_setupGrid.
  - by destruct (Hc index).
  - unfold forceRecover. case_match; [|done]. by apply frozen_recoverCamera.
  - by apply frozen_forceRecoverAll.
  - unfold destroy. cbn [heap set_visibilityHandler].
    by apply frozen_destroyAllCameras, frozen_stopHealthMonitor.
Qed.

Lemma frozen_step ev s s' :
  (forall i, ev <> EvCall (CApplySettings i)) ->
  heap s !! l = Some cd -> step ev s = Some s' -> heap s' !! l = Some cd.
Proof.
  intros Hev H Hstep. destruct ev; simpl in Hstep.
  - case_match; by simplify_eq.
  - repeat case_match; simplify_eq. by apply frozen_fireTimer.
  - simplify_eq. by apply frozen_dispatchMedia.
  - by simplify_eq.
  - simplify_eq. by apply frozen_dispatchHls.
  - by simplify_eq.
  - by simplify_eq.
  - repeat case_match; simplify_eq; try apply frozen_runCb; done.
  - case_match; simplify_eq; [by apply frozen_visibilityChange|done].
  - simplify_eq. apply frozen_call; [|done]. intros i ->. by apply (Hev i).
Qed.

End Frozen.
(** ** Tearing a session down (destroyCamera) *)

(** The record [destroyCamera] leaves behind for a session on element [e]. *)
Definition torn (e : nat) : CameraData :=
  {| hls := None; element := e; retryTimeout := None; retryCount := 0%nat;
     isDestroyed := true; eventCleanups := []; lastPlaybackTime := 0%Q;
     lastCheckTime := 0%Q; stallCount := 0%nat; initTimeout := None;
     videoEventCleanups := [] |}.

Lemma quiescent_torn e : quiescent (torn e).
Proof. by repeat split. Qed.

Lemma quiescent_eq cd : quiescent cd -> cd = torn (element cd).
Proof. intros (?&?&?&?&?&?&?&?&?&?). destruct cd; simpl in *; by subst. Qed.

Lemma foldl_removeEventListener (cl : list (nat * VideoEvent * Callback)) s :
  exists vs,
    foldl (fun s '(e, evt, cb) => removeEventListener e evt cb s) s cl = set_videos vs s /\
    forall e el, videos s !! e = Some el ->
      exists el', vs !! e = Some el' /\
        vPaused el' = vPaused el /\ vSrc el' = vSrc el /\
        (forall p, p ∈ vListeners el' -> p ∈ vListeners el) /\
        (forall evt cb, (e, evt, cb) ∈ cl -> (evt, cb) ∉ vListeners el').
Proof.
  revert s. induction cl as [|[[e0 evt0] cb0] cl IH]; intros s; simpl.
  - exists (videos s). rewrite set_videos_id. split; [done|].
    intros e el Hel. exists el. repeat split; try done. intros ?? H. by apply elem_of_nil in H.
  - destruct (IH (removeEventListener e0 evt0 cb0 s)) as (vs & -> & Hvs).
    exists vs. split; [done|]. intros e el Hel.
    unfold removeEventListener, updVideo in Hvs. simpl in Hvs.
    destruct (decide (e0 = e)) as [->|Hne].
    + destruct (Hvs e (set_vListeners
          (List.filter (fun p => negb (bool_decide (p = (evt0, cb0)))) (vListeners el)) el))
        as (el' & Hel' & Hp & Hs & Hsub & Hrem).
      { rewrite list_lookup_alter. case_decide; [|done]. by rewrite Hel. }
      exists el'. split; [done|]. split; [done|]. split; [done|]. split.
      * intros p Hin. apply Hsub in Hin. simpl in Hin.
        apply list_elem_of_In, filter_In in Hin as [Hin _]. by apply list_elem_of_In.
      * intros evt cb Hin. apply elem_of_cons in Hin as [Heq|Hin]; [|by apply Hrem].
        simplify_eq. intros Hin. apply Hsub in Hin. simpl in Hin.
        apply list_elem_of_In, filter_In in Hin as [_ Hin].
        by rewrite bool_decide_eq_true_2 in Hin.
    + destruct (Hvs e el) as (el' & Hel' & Hp & Hs & Hsub & Hrem).
      { by rewrite list_lookup_alter_ne. }
      exists el'. split; [done|]. split; [done|]. split; [done|]. split; [done|].
      intros evt cb Hin. apply elem_of_cons in Hin as [Heq|Hin]; [|by apply Hrem].
      by simplify_eq.
Qed.

Lemma clearTimeout_timers id s t :
  t ∈ timers (clearTimeout id s) <-> t ∈ timers s /\ tId t <> id.
Proof.
  unfold clearTimeout. simpl. rewrite !list_elem_of_In, filter_In.
  destruct (Nat.eqb_spec (tId t) id); simpl; intuition congruence.
Qed.

Lemma destroyCamera_spec (index : nat) (s : Mgr) (l : nat) (cd : CameraData) :
  Map_get (cameras s) index = Some l ->
  heap s !! l = Some cd ->
  let s' := destroyCamera index s in
  heap s' !! l = Some (torn (element cd)) /\
  (forall l', l' <> l -> heap s' !! l' = heap s !! l') /\
  (forall t, t ∈ timers s' <->
     t ∈ timers s /\ Some (tId t) <> retryTimeout cd /\ Some (tId t) <> initTimeout cd) /\
  (forall el, videos s !! element cd = Some el ->
     exists el', videos s' !! element cd = Some el' /\
       vPaused el' = true /\ vSrc el' = None /\
       (forall evt cb, (element cd, evt, cb) ∈ videoEventCleanups cd ->
          (evt, cb) ∉ vListeners el')) /\
  trace s' =
    ELoad (element cd) :: EPause (element cd) ::
    match hls cd with
    | Some h => if engineThrows s h then [] else releaseEffects h
    | None => []
    end ++ trace s /\
  cameras s' = cameras s /\
  length (engines s') = length (engines s) /\
  promises s' = promises s.
Proof.
  intros Hget Hcd. cbv zeta. unfold destroyCamera. rewrite Hget, Hcd.
  set (s1 := updCam l (set_isDestroyed true) s).
  set (s2 := match retryTimeout cd with
             | Some id => updCam l (set_retryTimeout None) (clearTimeout id s1)
             | None => s1 end).
  set (s3 := match initTimeout cd with
             | Some id => updCam l (set_initTimeout None) (clearTimeout id s2)
             | None => s2 end).
  assert (H3 : heap s3 !! l =
            Some (set_initTimeout None (set_retryTimeout None (set_isDestroyed true cd))) /\
          (forall l', l' <> l -> heap s3 !! l' = heap s !! l') /\
          (forall t, t ∈ timers s3 <->
             t ∈ timers s /\ Some (tId t) <> retryTimeout cd /\
             Some (tId t) <> initTimeout cd) /\
          videos s3 = videos s /\ trace s3 = trace s /\ engines s3 = engines s /\
          cameras s3 = cameras s /\ promises s3 = promises s).
  { subst s3 s2 s1. destruct (retryTimeout cd) as [id1|] eqn:E1;
      destruct (initTimeout cd) as [id2|] eqn:E2;
      (split; [rewrite ?lookup_updCam_eq; unfold clearTimeout; simpl;
               rewrite ?list_lookup_alter; repeat case_decide; try done; rewrite Hcd;
               destruct cd; simpl in *; by subst|]);
      (split; [intros l' Hne; unfold_prims; simpl;
               by rewrite ?list_lookup_alter_ne by done|]);
      (split; [|done]); intros t; unfold updCam, clearTimeout; simpl;
      rewrite !list_elem_of_In, ?filter_In;
      repeat match goal with |- context [Nat.eqb ?a ?b] => destruct (Nat.eqb_spec a b) end;
      simpl; intuition congruence. }
  clearbody s3. clear s2 s1. destruct H3 as (Hl3 & Ho3 & Ht3 & Hv3 & Htr3 & He3 & Hc3 & Hp3).
  set (s4 := cleanupHls l s3).
  assert (H4 : heap s4 !! l = Some (set_hls None (set_eventCleanups []
                 (set_initTimeout None (set_retryTimeout None (set_isDestroyed true cd))))) /\
          (forall l', l' <> l -> heap s4 !! l' = heap s !! l') /\
          timers s4 = timers s3 /\ videos s4 = videos s /\
          trace s4 = match hls cd with
                     | Some h => if engineThrows s h then [] else releaseEffects h
                     | None => []
                     end ++ trace s /\
          length (engines s4) = length (engines s) /\
          cameras s4 = cameras s /\ promises s4 = promises s).
  { subst s4. split; [by apply cleanupHls_session|].
    split; [intros l' Hne; by rewrite cleanupHls_other, Ho3|].
    destruct (cleanupHls_untouched l s3) as (Ht & _ & _ & Hp & _ & Hv & Hlen & _).
    split; [done|]. split; [by rewrite Hv|].
    split; [|by rewrite Hlen, He3, (stable_cleanupHls cameras), Hp].
    destruct (cleanupHls_eq l s3 _ Hl3) as (en & _ & _ & _ & ->). simpl.
    assert (Hthr : forall h, engineThrows s3 h = engineThrows s h)
      by (intros h; unfold engineThrows; by rewrite He3).
    destruct (hls cd) as [h|]; simpl; [|done].
    rewrite Hthr. destruct (engineThrows s h); simpl; by rewrite Htr3. }
  clearbody s4. destruct H4 as (Hl4 & Ho4 & Ht4 & Hv4 & Htr4 & He4 & Hc4 & Hp4).
  destruct (foldl_removeEventListener (videoEventCleanups cd) s4) as (vs & -> & Hvs).
  unfold_prims. simpl.
  rewrite !list_lookup_alter. repeat case_decide; try done. rewrite Hl4. simpl.
  split; [done|].
  split; [intros l' Hne; by rewrite !list_lookup_alter_ne, Ho4 by done|].
  split; [intros t; by rewrite Ht4, Ht3|].
  split.
  { intros el Hel. rewrite <- Hv4 in Hel. destruct (Hvs _ _ Hel) as (el' & Hel' & _ & _ & _ & Hrem).
    rewrite Hel'. simpl. eexists. split; [done|]. simpl. by repeat split. }
  by rewrite Htr4, Hc4, He4, Hp4.
Qed.

(** Tearing one session down.  Its record ends with the destroyed flag set,
    no engine, no pending retry or start-up timer, all counters at zero and
    no recorded listener; the two timers it had pending are cancelled and
    no other timer is touched; the engine, if any, is released; the
    listeners recorded for its element are removed, and the element is
    paused and has no source.  No other session changes, the slot stays
    registered, no engine is constructed and no playback is started. *)
Theorem destroyCamera_teardown (index : nat) (s : Mgr) (l : nat) (cd : CameraData) :
  Map_get (cameras s) index = Some l ->
  heap s !! l = Some cd ->
  let s' := destroyCamera index s in
  heap s' !! l = Some (torn (element cd)) /\
  (forall l', l' <> l -> heap s' !! l' = heap s !! l') /\
  (forall t, t ∈ timers s' <->
     t ∈ timers s /\ Some (tId t) <> retryTimeout cd /\ Some (tId t) <> initTimeout cd) /\
  (forall el, videos s !! element cd = Some el ->
     exists el', videos s' !! element cd = Some el' /\
       vPaused el' = true /\ vSrc el' = None /\
       (forall evt cb, (element cd, evt, cb) ∈ videoEventCleanups cd ->
          (evt, cb) ∉ vListeners el')) /\
  trace s' =
    ELoad (element cd) :: EPause (element cd) ::
    match hls cd with
    | Some h => if engineThrows s h then [] else releaseEffects h
    | None => []
    end ++ trace s /\
  cameras s' = cameras s /\
  length (engines s') = length (engines s) /\
  promises s' = promises s.
Proof. exact (destroyCamera_spec index s l cd). Qed.

Lemma destroyCamera_teardown_witness :
  heap (destroyCamera 0 liveSession) !! 0%nat = Some (torn 0).
Proof. exact (proj1 (destroyCamera_teardown 0 liveSession 0 _ eq_refl eq_refl)). Defined.

(** Once a session is torn down, its record never changes again, whatever
    happens: time passing, timers firing (pending retry, recovery and
    sequencer timers included), media and engine events, a settled
    [play()] promise, visibility changes, and every public method except
    [applySettings].  In particular its destroyed flag stays set and no
    engine is attached to it. *)
Theorem destroyed_session_frozen (evs : list Event) (s s' : Mgr) (l : nat)
    (cd : CameraData) :
  quiescent cd ->
  heap s !! l = Some cd ->
  (forall ev i, ev ∈ evs -> ev <> EvCall (CApplySettings i)) ->
  run evs s = Some s' ->
  heap s' !! l = Some cd.
Proof.
  intros Hq. revert s. induction evs as [|ev evs IH]; intros s Hcd Hevs Hrun; simpl in Hrun.
  - by simplify_eq.
  - destruct (step ev s) as [s1|] eqn:Hstep; [|done].
    apply (IH s1); [|intros ev' i Hin; apply Hevs; by right|done].
    eapply frozen_step; [exact Hq| |exact Hcd|exact Hstep].
    intros i. apply Hevs. by left.
Qed.

(** Events after tearing the only session of [liveSession] down. *)
Definition afterTeardown : list Event :=
  [ EvAdvance 2000; EvTimer 1; EvHls 0 ERROR (DError true NETWORK_ERROR);
    EvMedia 0 VStalled; EvVisibility true; EvVisibility false;
    EvCall CForceRecoverAll ].

Definition tornState : Mgr :=
  Eval vm_compute in
  default liveSession (run afterTeardown (destroyCamera 0 liveSession)).

Lemma destroyed_session_frozen_witness :
  run afterTeardown (destroyCamera 0 liveSession) = Some tornState /\
  heap tornState !! 0%nat = Some (torn 0).
Proof.
  assert (Hevs : forall ev i, ev ∈ afterTeardown -> ev <> EvCall (CApplySettings i)).
  { intros ev i Hin. unfold afterTeardown in Hin.
    repeat (apply elem_of_cons in Hin as [Heq|Hin]; [subst ev; discriminate|]).
    apply elem_of_nil in Hin. destruct Hin. }
  assert (Hrun : run afterTeardown (destroyCamera 0 liveSession) = Some tornState)
    by (vm_compute; reflexivity).
  split; [exact Hrun|].
  exact (destroyed_session_frozen afterTeardown (destroyCamera 0 liveSession) tornState 0
           (torn 0) (quiescent_torn 0) eq_refl Hevs Hrun).
Defined.

(** ** Reviving a session (applySettings) *)

(** What starting a stream never changes in a session record. *)
Definition sameSession (cd cd' : CameraData) : Prop :=
  isDestroyed cd' = isDestroyed cd /\ element cd' = element cd /\
  videoEventCleanups cd' = videoEventCleanups cd.

Definition kept (l : nat) (cd : CameraData) (L : list CameraData) : Prop :=
  exists cd', L !! l = Some cd' /\ sameSession cd cd'.

Lemma kept_alter (g : CameraData -> CameraData) l' l cd L :
  (forall x, sameSession x (g x)) -> kept l cd L -> kept l cd (alter g l' L).
Proof.
  intros Hg (cd' & Hcd' & H1 & H2 & H3). unfold kept.
  rewrite list_lookup_alter. case_decide; [|by exists cd'].
  subst. rewrite Hcd'. simpl. exists (g cd'). split; [done|].
  destruct (Hg cd') as (G1 & G2 & G3). repeat split; congruence.
Qed.

Ltac kept_norm :=
  unfold setTimeout, setInterval, clearInterval, clearTimeout, random, resetElement,
    pause, play, setSrc, seek, addEventListener, removeEventListener, hlsOn, hlsOff,
    updCam, updVideo, updEngine, updWait, emit;
  cbn [heap set_heap set_videos set_engines set_timers set_nextTimer set_promises
       set_nextPromise set_rngPos set_trace fst snd].

Ltac kept_go tac :=
  repeat first
    [ assumption
    | apply kept_alter; [by intros []|]
    | progress kept_norm
    | tac ].

Ltac kept_cases :=
  unfold setTimeout, setInterval, random; cbv beta iota zeta;
  repeat case_match; try done.

Lemma kept_cleanupHls l' s l cd :
  kept l cd (heap s) -> kept l cd (heap (cleanupHls l' s)).
Proof.
  intros H. destruct (decide (l' = l)) as [->|Hne].
  - destruct H as (cd' & Hcd' & H1 & H2 & H3).
    exists (set_hls None (set_eventCleanups [] cd')).
    split; [by apply cleanupHls_session|]. by repeat split.
  - unfold kept. by rewrite cleanupHls_other.
Qed.

Lemma kept_setPlaceholder i m s l cd :
  kept l cd (heap s) -> kept l cd (heap (setPlaceholder i m s)).
Proof. intros H. by destruct (setPlaceholder_videos i m s) as [vs ->]. Qed.

Lemma kept_scheduleRetry i c s l cd :
  kept l cd (heap s) -> kept l cd (heap (scheduleRetry i c s)).
Proof. intros H. unfold scheduleRetry. kept_cases; kept_go fail. Qed.

Lemma kept_initHlsStream i c s l cd :
  kept l cd (heap s) -> kept l cd (heap (initHlsStream i c s)).
Proof.
  intros H. unfold initHlsStream.
  kept_cases;
    kept_go ltac:(first [ apply kept_scheduleRetry | apply kept_setPlaceholder
                        | apply kept_cleanupHls ]).
Qed.

Lemma kept_initializeStream i c s l cd :
  kept l cd (heap s) -> kept l cd (heap (initializeStream i c s)).
Proof.
  intros H. unfold initializeStream.
  kept_cases;
    kept_go ltac:(first [ apply kept_initHlsStream | apply kept_setPlaceholder ]).
Qed.

(** The listeners on the elements are not touched by starting a stream. *)
Definition listeners (e : nat) (s : Mgr) : option (list (VideoEvent * Callback)) :=
  vListeners <$> videos s !! e.

Lemma listeners_alter (g : VideoElement -> VideoElement) e' e (V : list VideoElement) :
  (forall x, vListeners (g x) = vListeners x) ->
  vListeners <$> alter g e' V !! e = vListeners <$> V !! e.
Proof.
  intros Hg. rewrite list_lookup_alter. case_decide; [|done].
  subst. destruct (V !! e); simpl; [by rewrite Hg|done].
Qed.

Lemma listeners_setPlaceholder i m s e :
  listeners e (setPlaceholder i m s) = listeners e s.
Proof.
  unfold setPlaceholder, listeners. repeat case_match; try done;
    unfold updVideo; cbn [videos set_videos]; by apply listeners_alter.
Qed.

Lemma videos_scheduleRetry i c s : videos (scheduleRetry i c s) = videos s.
Proof. unfold scheduleRetry. kept_cases; unfold_prims; reflexivity. Qed.

Lemma listeners_scheduleRetry i c s e :
  listeners e (scheduleRetry i c s) = listeners e s.
Proof. unfold listeners. by rewrite videos_scheduleRetry. Qed.

Lemma listeners_initHlsStream i c s e :
  listeners e (initHlsStream i c s) = listeners e s.
Proof.
  assert (Hc : forall l s, listeners e (cleanupHls l s) = listeners e s).
  { intros l s0. unfold listeners.
    destruct (cleanupHls_untouched l s0) as (_&_&_&_&_&->&_). done. }
  unfold initHlsStream. kept_cases;
    rewrite ?listeners_scheduleRetry, ?listeners_setPlaceholder;
    unfold_prims; unfold listeners at 1;
    cbn [videos set_heap set_engines set_trace]; apply Hc.
Qed.

Lemma listeners_initializeStream i c s e :
  listeners e (initializeStream i c s) = listeners e s.
Proof.
  unfold initializeStream. kept_cases;
    rewrite ?listeners_initHlsStream, ?listeners_setPlaceholder; try done;
    unfold_prims; unfold listeners; cbn [videos set_videos set_promises set_nextPromise
      set_trace]; by apply listeners_alter.
Qed.

(** [applySettings] on a slot whose element is still in the grid tears the
    session down and then clears the destroyed flag of the very same
    session object: the slot keeps its session and its element, the session
    is live again afterwards (also when it was destroyed before the call),
    and, since [destroyCamera] removed the element's stalled, error, waiting
    and playing listeners and nothing re-registers them, the revived
    session has none of them left and none recorded. *)
Theorem applySettings_revives (index : nat) (camera : Camera) (s : Mgr) (l : nat)
    (cd : CameraData) :
  cameraConfigs s !! index = Some camera ->
  Map_get (cameras s) index = Some l ->
  heap s !! l = Some cd ->
  element cd ∈ gridChildren s ->
  let s' := applySettings index s in
  Map_get (cameras s') index = Some l /\
  (exists cd',
     heap s' !! l = Some cd' /\ isDestroyed cd' = false /\
     element cd' = element cd /\ videoEventCleanups cd' = []) /\
  (forall el, videos s !! element cd = Some el ->
     exists el', videos s' !! element cd = Some el' /\
       forall evt cb, (element cd, evt, cb) ∈ videoEventCleanups cd ->
         (evt, cb) ∉ vListeners el').
Proof.
  intros Hcfg Hget Hcd Hin. cbv zeta.
  destruct (destroyCamera_spec index s l cd Hget Hcd)
    as (Hl & _ & _ & Hv & _ & Hc & _).
  cbv zeta in Hl, Hv, Hc.
  unfold applySettings. rewrite Hcfg. cbv zeta. rewrite Hc, Hget, Hl.
  rewrite (stable_destroyCamera gridChildren). cbn [element torn].
  rewrite bool_decide_eq_true_2 by done.
  set (s1 := destroyCamera index s) in *.
  set (s2 := updCam l (set_retryCount 0%nat) (updCam l (set_isDestroyed false) s1)).
  assert (H2 : heap s2 !! l = Some (set_isDestroyed false (torn (element cd)))).
  { subst s2. rewrite !lookup_updCam_eq, Hl. reflexivity. }
  assert (Hc2 : cameras s2 = cameras s) by (subst s2; exact Hc).
  assert (Hv2 : listeners (element cd) s2 = listeners (element cd) s1) by reflexivity.
  clearbody s2.
  assert (Hgoal : forall s3, cameras s3 = cameras s2 ->
            kept l (set_isDestroyed false (torn (element cd))) (heap s3) ->
            listeners (element cd) s3 = listeners (element cd) s2 ->
            Map_get (cameras s3) index = Some l /\
            (exists cd', heap s3 !! l = Some cd' /\ isDestroyed cd' = false /\
               element cd' = element cd /\ videoEventCleanups cd' = []) /\
            (forall el, videos s !! element cd = Some el ->
               exists el', videos s3 !! element cd = Some el' /\
                 forall evt cb, (element cd, evt, cb) ∈ videoEventCleanups cd ->
                   (evt, cb) ∉ vListeners el')).
  { intros s3 Hc3 (cd3 & Hcd3 & K1 & K2 & K3) Hv3.
    split; [by rewrite Hc3, Hc2|]. split; [by exists cd3|].
    intros el Hel. destruct (Hv el Hel) as (el1 & Hel1 & _ & _ & Hrem).
    rewrite Hv2 in Hv3. unfold listeners in Hv3. rewrite Hel1 in Hv3. simpl in Hv3.
    destruct (videos s3 !! element cd) as [el3|]; [|done].
    exists el3. split; [done|]. simpl in Hv3. simplify_eq.
    intros evt cb Hcl. rewrite Hv3. by apply Hrem. }
  destruct (truthyStr (url camera)).
  - apply Hgoal.
    + apply (stable_initializeStream cameras).
    + apply kept_initializeStream. eexists. split; [exact H2|]. by repeat split.
    + apply listeners_initializeStream.
  - apply Hgoal; [done| |done]. eexists. split; [exact H2|]. by repeat split.
Qed.

Lemma applySettings_revives_witness :
  exists cd',
    heap (applySettings 0 (destroyCamera 0 liveSession)) !! 0%nat = Some cd' /\
    isDestroyed cd' = false.
Proof.
  destruct (applySettings_revives 0 liveCamera (destroyCamera 0 liveSession) 0 (torn 0)
              eq_refl eq_refl eq_refl (list_elem_of_here 0 []))
    as (_ & (cd' & H1 & H2 & _) & _).
  exists cd'. split; [exact H1|exact H2].
Defined.

(** ** Shutting down (destroyAllCameras, destroy) *)

Lemma Map_get_elem_of m k v : Map_get m k = Some v -> (k, v) ∈ m.
Proof.
  induction m as [|[k' v'] m IH]; simpl; [done|].
  destruct (Nat.eqb_spec k k') as [->|Hne]; intros H.
  - simplify_eq. left.
  - right. by apply IH.
Qed.

Lemma foldl_destroyCamera (cams : list (nat * nat)) s index l cd :
  index ∈ cams.*1 ->
  Map_get (cameras s) index = Some l ->
  heap s !! l = Some cd ->
  heap (foldl (fun s '(index, _) => destroyCamera index s) s cams) !! l
    = Some (torn (element cd)).
Proof.
  revert s cd. induction cams as [|[i x] cams IH]; intros s cd Hin Hget Hcd; simpl.
  - by apply elem_of_nil in Hin.
  - destruct (decide (i = index)) as [->|Hne].
    + apply frozen_foldl.
      * intros s' [i' x'] Hs. by apply frozen_destroyCamera; [apply quiescent_torn|].
      * by apply destroyCamera_spec.
    + simpl in Hin. apply elem_of_cons in Hin as [Heq|Hin]; [by subst|].
      assert (Hs1 : exists cd1, heap (destroyCamera i s) !! l = Some cd1 /\
                element cd1 = element cd).
      { destruct (Map_get (cameras s) i) as [l'|] eqn:Hgi;
          [|exists cd; unfold destroyCamera; by rewrite Hgi].
        destruct (heap s !! l') as [cd'|] eqn:Hcd';
          [|exists cd; unfold destroyCamera; by rewrite Hgi, Hcd'].
        destruct (destroyCamera_spec i s l' cd' Hgi Hcd') as (Hl & Ho & _).
        cbv zeta in Hl, Ho.
        destruct (decide (l = l')) as [->|Hll].
        - simplify_eq. by exists (torn (element cd)).
        - exists cd. by rewrite Ho. }
      destruct Hs1 as (cd1 & Hcd1 & <-).
      apply IH; [done| |done]. by rewrite (stable_destroyCamera cameras).
Qed.

Lemma destroyAllCameras_fields s :
  let s' := destroyAllCameras s in
  cameras s' = [] /\ initQueue s' = [] /\ isInitializing s' = false /\
  (gridElement s = true -> gridChildren s' = []) /\
  gridElement s' = gridElement s /\ visibilityHandler s' = visibilityHandler s /\
  healthCheckInterval s' = healthCheckInterval s /\ isPageVisible s' = isPageVisible s.
Proof.
  cbv zeta. unfold destroyAllCameras.
  cbv zeta. cbn [cameras set_initQueue set_isInitializing].
  set (s1 := foldl (fun s '(index, _) => destroyCamera index s)
               (set_isInitializing false (set_initQueue [] s)) (cameras s)).
  assert (H1 : initQueue s1 = [] /\ isInitializing s1 = false /\
               gridElement s1 = gridElement s /\
               visibilityHandler s1 = visibilityHandler s /\
               healthCheckInterval s1 = healthCheckInterval s /\
               isPageVisible s1 = isPageVisible s).
  { subst s1. repeat split.
    all: match goal with |- ?p (foldl ?g ?a ?xs) = _ =>
           rewrite (foldl_proj p g xs a); [reflexivity|] end.
    all: intros a [i x]; apply (stable_destroyCamera _). }
  clearbody s1. destruct H1 as (?&?&Hg&?&?&?).
  destruct (gridElement s1) eqn:E; simpl; rewrite <- Hg; repeat split; try done.
Qed.

Lemma destroyAllCameras_sessions s index l cd :
  Map_get (cameras s) index = Some l ->
  heap s !! l = Some cd ->
  heap (destroyAllCameras s) !! l = Some (torn (element cd)).
Proof.
  intros Hget Hcd. unfold destroyAllCameras.
  cbv zeta. cbn [cameras set_initQueue set_isInitializing].
  set (s1 := foldl (fun s '(index, _) => destroyCamera index s)
               (set_isInitializing false (set_initQueue [] s)) (cameras s)).
  assert (H1 : heap s1 !! l = Some (torn (element cd))).
  { subst s1. apply (foldl_destroyCamera _ _ index); [|done|done].
    apply list_elem_of_fmap. exists (index, l). split; [done|].
    by apply Map_get_elem_of. }
  clearbody s1. by destruct (gridElement s1).
Qed.

Lemma timers_foldl_destroyCamera t (cams : list (nat * nat)) s :
  t ∈ timers (foldl (fun s '(index, _) => destroyCamera index s) s cams) -> t ∈ timers s.
Proof.
  revert s. induction cams as [|[i x] cams IH]; intros s1 Ht; simpl in Ht; [done|].
  apply IH in Ht.
  destruct (Map_get (cameras s1) i) as [l'|] eqn:Hgi;
    [|unfold destroyCamera in Ht; by rewrite Hgi in Ht].
  destruct (heap s1 !! l') as [cd'|] eqn:Hcd';
    [|unfold destroyCamera in Ht; by rewrite Hgi, Hcd' in Ht].
  destruct (destroyCamera_spec i s1 l' cd' Hgi Hcd') as (_ & _ & Htm & _).
  by apply Htm in Ht as [Ht _].
Qed.

Lemma destroy_fixed s :
  healthCheckInterval s = None -> cameras s = [] -> initQueue s = [] ->
  isInitializing s = false -> (gridElement s = true -> gridChildren s = []) ->
  visibilityHandler s = false ->
  destroy s = s.
Proof.
  intros H1 H2 H3 H4 H5 H6. unfold destroy, stopHealthMonitor, destroyAllCameras.
  rewrite H1. cbv zeta. cbn [cameras set_initQueue set_isInitializing]. rewrite H2.
  cbn [foldl gridElement set_initQueue set_isInitializing].
  destruct s. simpl in *. subst.
  case_match; simpl; [by rewrite H5|done].
Qed.

Lemma destroy_spec (s : Mgr) :
  let s' := destroy s in
  cameras s' = [] /\ initQueue s' = [] /\ isInitializing s' = false /\
  healthCheckInterval s' = None /\ visibilityHandler s' = false /\
  (gridElement s = true -> gridChildren s' = []) /\
  (forall index l cd,
     Map_get (cameras s) index = Some l -> heap s !! l = Some cd ->
     heap s' !! l = Some (torn (element cd))) /\
  (forall id t, healthCheckInterval s = Some id -> t ∈ timers s' -> tId t <> id) /\
  (forall hidden, step (EvVisibility hidden) s' = Some s') /\
  destroy s' = s'.
Proof.
  cbv zeta.
  destruct (destroyAllCameras_fields (stopHealthMonitor s))
    as (F1 & F2 & F3 & F4 & F5 & F6 & F7 & F8).
  cbv zeta in F1, F2, F3, F4, F5, F6, F7, F8.
  rewrite stopHealthMonitor_cleared in F7.
  rewrite (stable_stopHealthMonitor gridElement) in F4, F5.
  assert (G1 : cameras (destroy s) = []) by exact F1.
  assert (G2 : initQueue (destroy s) = []) by exact F2.
  assert (G3 : isInitializing (destroy s) = false) by exact F3.
  assert (G4 : healthCheckInterval (destroy s) = None) by exact F7.
  assert (G5 : visibilityHandler (destroy s) = false) by reflexivity.
  assert (G6 : gridElement s = true -> gridChildren (destroy s) = []) by exact F4.
  assert (G7 : gridElement (destroy s) = gridElement s) by exact F5.
  split; [done|]. split; [done|]. split; [done|]. split; [done|]. split; [done|].
  split; [done|]. split.
  { intros index l cd Hget Hcd. unfold destroy. cbn [heap set_visibilityHandler].
    apply (destroyAllCameras_sessions _ index).
    - by rewrite (stable_stopHealthMonitor cameras).
    - unfold stopHealthMonitor. by destruct (healthCheckInterval s). }
  split.
  { intros id t Hid Hin. unfold destroy in Hin. cbn [timers set_visibilityHandler] in Hin.
    apply (stopHealthMonitor_removes s id t Hid).
    revert Hin. generalize (stopHealthMonitor s). intros s0 Hin.
    unfold destroyAllCameras in Hin.
    pose proof (timers_foldl_destroyCamera t) as Hsub.
    cbv zeta in Hin.
    match type of Hin with
    | t ∈ timers (set_cameras _ (if _ then set_gridChildren _ ?a else ?a)) =>
        assert (Hin' : t ∈ timers a) by (by destruct (gridElement a))
    end.
    by apply Hsub in Hin'. }
  split.
  { intros hidden. unfold step. by rewrite G5. }
  apply destroy_fixed; try done. intros Hg. apply G6. by rewrite <- G7.
Qed.

(** [destroy()]: afterwards no slot is registered, the start-up queue is
    empty, the monitor's interval is cleared, the visibility handler is
    removed (visibility changes no longer do anything), the grid is emptied,
    and every session that was registered is torn down (destroyed flag set,
    no engine, no timer of its own).  Calling [destroy()] again changes
    nothing. *)
Theorem destroy_shuts_down (s : Mgr) :
  let s' := destroy s in
  cameras s' = [] /\ initQueue s' = [] /\ isInitializing s' = false /\
  healthCheckInterval s' = None /\ visibilityHandler s' = false /\
  (gridElement s = true -> gridChildren s' = []) /\
  (forall index l cd,
     Map_get (cameras s) index = Some l -> heap s !! l = Some cd ->
     heap s' !! l = Some (torn (element cd))) /\
  (forall id t, healthCheckInterval s = Some id -> t ∈ timers s' -> tId t <> id) /\
  (forall hidden, step (EvVisibility hidden) s' = Some s') /\
  destroy s' = s'.
Proof. exact (destroy_spec s). Qed.

Lemma destroy_shuts_down_witness :
  heap (destroy liveSession) !! 0%nat = Some (torn 0) /\
  step (EvVisibility false) (destroy liveSession) = Some (destroy liveSession).
Proof.
  pose proof (destroy_shuts_down liveSession) as (_ & _ & _ & _ & _ & _ & H & _ & Hv & _).
  split; [exact (H 0%nat 0%nat _ eq_refl eq_refl)|exact (Hv false)].
Defined.

(** ** The health monitor (startHealthMonitor, stopHealthMonitor) *)

Definition firstCheck (s : Mgr) : Timer :=
  {| tId := nextTimer s; tDue := (now s + 2000)%Q; tRepeat := None; tCb := CbHealthFirst |}.

Definition periodicCheck (s : Mgr) : Timer :=
  {| tId := S (nextTimer s); tDue := (now s + HEALTH_CHECK_INTERVAL_MS)%Q;
     tRepeat := Some HEALTH_CHECK_INTERVAL_MS; tCb := CbHealthInterval |}.

Lemma startHealthMonitor_fields s :
  let s' := startHealthMonitor s in
  healthCheckInterval s' = Some (S (nextTimer s)) /\
  timers s' = timers (stopHealthMonitor s) ++ [firstCheck s; periodicCheck s] /\
  nextTimer s' = S (S (nextTimer s)) /\
  heap s' = heap s /\ videos s' = videos s /\ engines s' = engines s /\
  promises s' = promises s.
Proof.
  cbv zeta. unfold startHealthMonitor, stopHealthMonitor, firstCheck, periodicCheck.
  destruct (healthCheckInterval s); unfold_prims; simpl; rewrite <- ?app_assoc; done.
Qed.

(** Starting the health monitor cancels the interval that was running, if
    any, schedules one check 2000 ms from now and a check every
    [HEALTH_CHECK_INTERVAL_MS] = 5000 ms after that, and records the new
    interval; it touches no session, element or engine.  So however often
    it is called, at most one of its intervals is recorded and the replaced
    one is gone. *)
Theorem startHealthMonitor_replaces (s : Mgr) :
  let s' := startHealthMonitor s in
  healthCheckInterval s' = Some (S (nextTimer s)) /\
  (exists ts, timers s' = ts ++ [firstCheck s; periodicCheck s] /\
     (forall t, t ∈ ts <-> t ∈ timers s /\ Some (tId t) <> healthCheckInterval s)) /\
  tDue (firstCheck s) = (now s + 2000)%Q /\
  tDue (periodicCheck s) = (now s + 5000)%Q /\
  tRepeat (periodicCheck s) = Some 5000%Q /\
  heap s' = heap s /\ videos s' = videos s /\ engines s' = engines s.
Proof.
  destruct (startHealthMonitor_fields s) as (H1 & H2 & _ & H4 & H5 & H6 & _).
  cbv zeta in *. split; [done|]. split; [|done].
  exists (timers (stopHealthMonitor s)). split; [done|].
  intros t. unfold stopHealthMonitor.
  destruct (healthCheckInterval s) as [id|]; [|split; [done|by intros [? _]]].
  unfold_prims. simpl. rewrite !list_elem_of_In, filter_In.
  destruct (Nat.eqb_spec (tId t) id); simpl; intuition congruence.
Qed.

(** ** Page visible again (setupVisibilityHandling) *)

(** When the page becomes visible the health monitor is started
    unconditionally, right after [resumeAllStreams]: its interval is
    recorded and is the last timer armed, preceded by the 2000 ms first
    check; this also holds in kiosk mode while the cameras are still being
    started one by one. *)
Theorem page_visible_starts_monitor (s s' : Mgr) :
  visibilityHandler s = true ->
  step (EvVisibility false) s = Some s' ->
  isPageVisible s' = true /\
  exists id ts,
    healthCheckInterval s' = Some (S id) /\
    timers s' =
      ts ++ [ {| tId := id; tDue := (now s + 2000)%Q; tRepeat := None;
                 tCb := CbHealthFirst |};
              {| tId := S id; tDue := (now s + 5000)%Q; tRepeat := Some 5000%Q;
                 tCb := CbHealthInterval |} ].
Proof.
  intros Hh Hstep. unfold step in Hstep. rewrite Hh in Hstep. simplify_eq.
  unfold visibilityChange. cbv zeta. cbn [isPageVisible set_isPageVisible negb].
  set (s1 := resumeAllStreams _).
  destruct (startHealthMonitor_fields s1) as (H1 & H2 & _).
  cbv zeta in H1, H2.
  split.
  { rewrite (stable_startHealthMonitor isPageVisible). subst s1.
    by rewrite (stable_resumeAllStreams isPageVisible). }
  exists (nextTimer s1), (timers (stopHealthMonitor s1)).
  split; [done|]. rewrite H2. unfold firstCheck, periodicCheck.
  assert (now s1 = now s) as ->; [|done].
  subst s1. by rewrite (stable_resumeAllStreams now).
Qed.

Definition shownAgain : Mgr := Eval vm_compute in visibilityChange false liveSession.

Lemma page_visible_starts_monitor_witness :
  isPageVisible shownAgain = true /\
  exists id, healthCheckInterval shownAgain = Some (S id).
Proof.
  assert (Hstep : step (EvVisibility false) liveSession = Some shownAgain)
    by (vm_compute; reflexivity).
  destruct (page_visible_starts_monitor liveSession shownAgain eq_refl Hstep)
    as (Hv & id & ts & Hi & _).
  split; [exact Hv|]. exists id. exact Hi.
Defined.

(** ** Timers that outlive [destroy()] *)

Lemma initNextCamera_empty s :
  initQueue s = [] -> isPageVisible s = true -> healthCheckInterval s = None ->
  initNextCamera s =
    startHealthMonitor (set_isInitializing false (emit ELogSeqComplete s)).
Proof.
  intros Hq Hv Hi. unfold initNextCamera. rewrite Hq. simpl. by rewrite Hv, Hi.
Qed.

Lemma late_timer_starts_monitor cb s :
  initQueue s = [] -> isPageVisible s = true -> healthCheckInterval s = None ->
  cb = CbSeqNext \/ cb = CbResumeHealth ->
  exists id ti,
    healthCheckInterval (runCb cb DNone s) = Some id /\
    last (timers (runCb cb DNone s)) = Some ti /\
    tId ti = id /\ tCb ti = CbHealthInterval /\
    tRepeat ti = Some HEALTH_CHECK_INTERVAL_MS.
Proof.
  intros Hq1 Hv1 Hi1 Hcb.
  assert (Hrun : runCb cb DNone s = startHealthMonitor s \/
                 runCb cb DNone s =
                   startHealthMonitor (set_isInitializing false (emit ELogSeqComplete s))).
  { destruct Hcb as [-> | ->]; unfold runCb.
    - right. by apply initNextCamera_empty.
    - left. by rewrite Hv1, Hi1. }
  assert (Hgoal : forall s2, exists id ti,
            healthCheckInterval (startHealthMonitor s2) = Some id /\
            last (timers (startHealthMonitor s2)) = Some ti /\
            tId ti = id /\ tCb ti = CbHealthInterval /\
            tRepeat ti = Some HEALTH_CHECK_INTERVAL_MS).
  { intros s2. destruct (startHealthMonitor_fields s2) as (G1 & G2 & _).
    cbv zeta in G1, G2.
    exists (S (nextTimer s2)), (periodicCheck s2). rewrite G1, G2.
    split; [done|]. split; [|done].
    change [firstCheck s2; periodicCheck s2] with ([firstCheck s2] ++ [periodicCheck s2]).
    by rewrite app_assoc, last_snoc. }
  destruct Hrun as [-> | ->]; apply Hgoal.
Qed.

(** [destroy()] cancels the sessions' retry and start-up timers and the
    monitor's interval, but not the sequencer's 500 ms hand-over timer nor
    the 1000 ms timer armed by [resumeAllStreams] in HD mode.  If one of
    them is still pending and fires afterwards while the page is visible,
    the health monitor is started again: an interval is recorded and armed
    although the manager was destroyed. *)
Theorem monitor_restarts_after_destroy (s s' : Mgr) (t : Timer) :
  isPageVisible s = true ->
  findTimer (tId t) (destroy s) = Some t ->
  tCb t = CbSeqNext \/ tCb t = CbResumeHealth ->
  step (EvTimer (tId t)) (destroy s) = Some s' ->
  exists id ti,
    healthCheckInterval s' = Some id /\ last (timers s') = Some ti /\
    tId ti = id /\ tCb ti = CbHealthInterval /\
    tRepeat ti = Some HEALTH_CHECK_INTERVAL_MS.
Proof.
  intros Hv Hfind Hcb Hstep.
  destruct (destroy_spec s) as (_ & Hq & _ & Hi & _).
  cbv zeta in Hq, Hi.
  assert (Hv' : isPageVisible (destroy s) = true).
  { destruct (destroyAllCameras_fields (stopHealthMonitor s)) as (_&_&_&_&_&_&_&F).
    cbv zeta in F. unfold destroy. cbn [isPageVisible set_visibilityHandler].
    by rewrite F, (stable_stopHealthMonitor isPageVisible). }
  revert Hq Hi Hv' Hfind Hstep. generalize (destroy s). clear s Hv.
  intros s Hq Hi Hv Hfind Hstep.
  unfold step in Hstep. rewrite Hfind in Hstep.
  destruct (Qle_bool (tDue t) (now s)); [|discriminate Hstep].
  injection Hstep as <-. unfold fireTimer.
  apply late_timer_starts_monitor; [| | |exact Hcb];
    destruct (tRepeat t); assumption.
Qed.

(** Kiosk mode, one camera: the camera starts playing, the manager is
    destroyed within the 500 ms hand-over delay, and the delay elapses. *)
Definition kioskSession : Mgr :=
  Eval vm_compute in
  setupGrid
    (updateConfig (Some [liveCamera])
       (Some {| gColumns := 1; gRows := 1; numCameras := 1 |})
       (init (newManager (fun _ => 0%Q) true false false))).

Definition kioskPlaying : Mgr :=
  Eval vm_compute in
  default kioskSession (run [EvMedia 0 VPlaying; EvAdvance 500] kioskSession).

Definition handOver : Timer :=
  {| tId := 2; tDue := 500%Q; tRepeat := None; tCb := CbSeqNext |}.

Definition restarted : Mgr :=
  Eval vm_compute in
  default kioskSession (step (EvTimer 2) (destroy kioskPlaying)).

Lemma monitor_restarts_after_destroy_witness :
  cameras (destroy kioskPlaying) = [] /\
  step (EvTimer 2) (destroy kioskPlaying) = Some restarted /\
  exists id, healthCheckInterval restarted = Some id.
Proof.
  assert (Hfind : findTimer (tId handOver) (destroy kioskPlaying) = Some handOver)
    by (vm_compute; reflexivity).
  assert (Hstep : step (EvTimer (tId handOver)) (destroy kioskPlaying) = Some restarted)
    by (vm_compute; reflexivity).
  destruct (monitor_restarts_after_destroy kioskPlaying restarted handOver
              eq_refl Hfind (or_introl eq_refl) Hstep) as (id & ti & Hi & _).
  split; [vm_compute; reflexivity|]. split; [exact Hstep|]. exists id. exact Hi.
Defined.

(** ** Giving up on an engine (handleHlsError, the other branches) *)

(** The label shown for slot [index]: the configured name, or "Camera n". *)
Definition slotLabel (s : Mgr) (index : nat) : string :=
  match cameraConfigs s !! index with
  | Some camera => if truthyStr (name camera) then name camera else cameraLabel index
  | None => cameraLabel index
  end.

Lemma setPlaceholder_live index msg s l cd :
  Map_get (cameras s) index = Some l -> heap s !! l = Some cd -> isDestroyed cd = false ->
  setPlaceholder index msg s =
    updVideo (element cd)
      (set_vPlaceholder (if truthyStr msg then slotLabel s index +:+ newline +:+ msg
                         else slotLabel s index)) s.
Proof.
  intros Hget Hcd Hlive. unfold setPlaceholder, slotLabel. by rewrite Hget, Hcd, Hlive.
Qed.

(** Releasing the engine, showing [msg] and scheduling a retry. *)
Lemma release_and_retry index camera msg s l cd :
  Map_get (cameras s) index = Some l -> heap s !! l = Some cd -> isDestroyed cd = false ->
  truthyStr msg = true ->
  let s' := scheduleRetry index camera (setPlaceholder index msg (cleanupHls l s)) in
  let rc := retryCount cd in
  exists t cd' e,
    heap s' !! l = Some cd' /\ hls cd' = None /\ isDestroyed cd' = false /\
    retryTimeout cd' = Some (nextTimer s) /\
    last (timers s') = Some t /\ tId t = nextTimer s /\ tRepeat t = None /\
    trace s' = e :: trace (cleanupHls l s) /\
    (forall h, e <> EStartLoad h) /\
    (forall el, videos s !! element cd = Some el ->
       vPlaceholder <$> videos s' !! element cd
         = Some (slotLabel s index +:+ newline +:+ msg)) /\
    if (rc <? 10)%nat then
      tCb t = CbRetry l index camera /\
      tDue t = (now s + retryDelay rc (rng s (rngPos s)))%Q /\
      retryCount cd' = S rc
    else
      tCb t = CbCooldown l index camera /\
      tDue t = (now s + 300000)%Q /\
      retryCount cd' = 0%nat.
Proof.
  intros Hget Hcd Hlive Hmsg. cbv zeta.
  pose proof (cleanupHls_session l s cd Hcd) as Hcd1.
  pose proof (stable_cleanupHls cameras l s) as Hcam.
  pose proof (stable_cleanupHls cameraConfigs l s) as Hcfg.
  pose proof (stable_cleanupHls now l s) as Hnow.
  pose proof (stable_cleanupHls rng l s) as Hrng.
  destruct (cleanupHls_untouched l s) as (_ & Hnt & Hpos & _ & _ & Hvid & _).
  rewrite (setPlaceholder_live index msg (cleanupHls l s) l _) by (by rewrite ?Hcam).
  rewrite Hmsg. cbn [element set_hls set_eventCleanups].
  assert (slotLabel (cleanupHls l s) index = slotLabel s index) as ->
    by (unfold slotLabel; by rewrite Hcfg).
  set (s1 := updVideo _ _ _).
  destruct (scheduleRetry_arms index camera s1 l (set_hls None (set_eventCleanups [] cd)))
    as (t & cd' & e & Hlast & Hid & Hrep & Hcd' & Hrt & Hhls & _ & Htrace & He & Hcase).
  { subst s1. unfold updVideo. cbn [cameras set_videos]. by rewrite Hcam. }
  { subst s1. unfold updVideo. by cbn [heap set_videos]. }
  { done. }
  assert (Hlive' : isDestroyed cd' = false).
  { destruct (kept_scheduleRetry index camera s1 l (set_hls None (set_eventCleanups [] cd)))
      as (cd2 & Hcd2 & K1 & _).
    - eexists. split; [subst s1; unfold updVideo; cbn [heap set_videos]; exact Hcd1|].
      by repeat split.
    - cbv zeta in Hcd'. rewrite Hcd' in Hcd2. simplify_eq. cbn in K1. congruence. }
  assert (Hs1 : nextTimer s1 = nextTimer s /\ now s1 = now s /\ rng s1 = rng s /\
                rngPos s1 = rngPos s /\ trace s1 = trace (cleanupHls l s)).
  { subst s1. unfold updVideo. cbn [nextTimer now rng rngPos trace set_videos].
    by rewrite Hnt, Hnow, Hrng, Hpos. }
  destruct Hs1 as (E1 & E2 & E3 & E4 & E5).
  cbv zeta in *. cbn [retryCount set_hls set_eventCleanups hls] in *.
  rewrite E1, E2, E3, E4, ?E5 in *.
  exists t, cd', e. split; [done|]. split; [done|]. split; [done|]. split; [done|].
  split; [done|]. split; [done|]. split; [done|]. split; [done|]. split; [done|].
  split; [|done].
  intros el Hel. rewrite videos_scheduleRetry. subst s1. unfold updVideo.
  cbn [videos set_videos]. rewrite list_lookup_alter. case_decide; [|done].
  by rewrite Hvid, Hel.
Qed.

(** What [handleHlsError] does with the errors that are not fatal network
    errors, on a live session.  Non-fatal errors are ignored.  A fatal
    media error asks the engine to recover ([recoverMediaError]) and keeps
    the engine; only if that call throws is the engine released (whether
    or not its release calls throw as well), "Media error" shown and a
    retry scheduled.  Any other fatal error releases the
    engine at once (stopLoad, detachMedia, destroy), shows "Stream error"
    under the slot's label and schedules a retry with the usual back-off. *)
Theorem hls_error_dispatch (index : nat) (camera : Camera) (s : Mgr)
    (l : nat) (cd : CameraData) (h : nat) :
  Map_get (cameras s) index = Some l ->
  heap s !! l = Some cd ->
  isDestroyed cd = false ->
  hls cd = Some h ->
  (forall ty, handleHlsError index camera (DError false ty) s = s) /\
  (recoverThrows s h = false ->
     handleHlsError index camera (DError true MEDIA_ERROR) s
       = emit (ERecoverMediaError h) s) /\
  (forall ty msg,
     (ty = OTHER_ERROR /\ msg = "Stream error") \/
     (ty = MEDIA_ERROR /\ msg = "Media error" /\ recoverThrows s h = true) ->
     let s' := handleHlsError index camera (DError true ty) s in
     exists t cd' e,
       heap s' !! l = Some cd' /\ hls cd' = None /\ isDestroyed cd' = false /\
       retryTimeout cd' = Some (tId t) /\
       last (timers s') = Some t /\ tId t = nextTimer s /\
       (tCb t = CbRetry l index camera \/ tCb t = CbCooldown l index camera) /\
       trace s' = e :: (if engineThrows s h then [] else releaseEffects h) ++ trace s /\
       (forall el, videos s !! element cd = Some el ->
          vPlaceholder <$> videos s' !! element cd
            = Some (slotLabel s index +:+ newline +:+ msg))).
Proof.
  intros Hget Hcd Hlive Hh. split; [|split].
  - intros ty. unfold handleHlsError. by rewrite Hget, Hcd, Hlive.
  - intros Hthr. unfold handleHlsError. by rewrite Hget, Hcd, Hlive, Hh, Hthr.
  - intros ty msg Hcase. cbv zeta.
    assert (Heq : handleHlsError index camera (DError true ty) s =
              scheduleRetry index camera (setPlaceholder index msg (cleanupHls l s)) /\
              truthyStr msg = true).
    { unfold handleHlsError. rewrite Hget, Hcd, Hlive, Hh.
      destruct Hcase as [[-> ->]|(-> & -> & ->)]; done. }
    destruct Heq as [-> Hmsg].
    destruct (release_and_retry index camera msg s l cd Hget Hcd Hlive Hmsg)
      as (t & cd' & e & H1 & H2 & H3 & H4 & H5 & H6 & _ & H8 & _ & H10 & H11).
    cbv zeta in *.
    exists t, cd', e. split; [done|]. split; [done|]. split; [done|].
    split; [by rewrite H6|]. split; [done|]. split; [done|].
    split; [destruct (retryCount cd <? 10)%nat; [left|right]; apply H11|].
    split; [|done]. rewrite H8. f_equal.
    destruct (cleanupHls_eq l s cd Hcd) as (en & _ & _ & _ & ->). rewrite Hh.
    by destruct (engineThrows s h).
Qed.

(** The engine of the session refuses [recoverMediaError]; its release
    calls work. *)
Definition recoverFails : Mgr :=
  Eval vm_compute in default liveSession (step (EvEngineFaults 0 false true) liveSession).

Lemma hls_error_dispatch_witness :
  handleHlsError 0 liveCamera (DError false NETWORK_ERROR) liveSession = liveSession /\
  handleHlsError 0 liveCamera (DError true MEDIA_ERROR) liveSession
    = emit (ERecoverMediaError 0) liveSession /\
  exists e,
    trace (handleHlsError 0 liveCamera (DError true MEDIA_ERROR) recoverFails)
      = e :: releaseEffects 0 ++ trace recoverFails.
Proof.
  pose proof (hls_error_dispatch 0 liveCamera liveSession 0 _ 0
                eq_refl eq_refl eq_refl eq_refl) as (H1 & H2 & _).
  pose proof (hls_error_dispatch 0 liveCamera recoverFails 0 _ 0
                eq_refl eq_refl eq_refl eq_refl) as (_ & _ & H3).
  split; [exact (H1 NETWORK_ERROR)|]. split; [exact (H2 eq_refl)|].
  destruct (H3 MEDIA_ERROR "Media error"
              (or_intror (conj eq_refl (conj eq_refl eq_refl))))
    as (t & cd' & e & _ & _ & _ & _ & _ & _ & _ & Htr & _).
  exists e. exact Htr.
Defined.

(** ** Retry timers (scheduleRetry and its two callbacks) *)

Lemma filter_true {A} (l : list A) : List.filter (fun _ => true) l = l.
Proof. induction l as [|a l IH]; simpl; [done|]. by rewrite IH. Qed.

Lemma scheduleRetry_cases (index : nat) (camera : Camera) (s : Mgr) :
  let s' := scheduleRetry index camera s in
  (forall l cd,
     Map_get (cameras s) index = Some l -> heap s !! l = Some cd ->
     isDestroyed cd = false ->
     exists t,
       timers s' =
         List.filter (fun t' => negb (bool_decide (Some (tId t') = retryTimeout cd)))
           (timers s) ++ [t] /\
       tId t = nextTimer s /\
       retryTimeout <$> heap s' !! l = Some (Some (nextTimer s)) /\
       (forall l', l' <> l -> heap s' !! l' = heap s !! l')) /\
  (forall l cd,
     Map_get (cameras s) index = Some l -> heap s !! l = Some cd ->
     isDestroyed cd = true -> s' = s) /\
  (Map_get (cameras s) index = None -> s' = s).
Proof.
  cbv zeta. split; [|split].
  - intros l cd Hget Hcd Hlive.
    rewrite (scheduleRetry_live index camera s l cd Hget Hcd Hlive). cbv zeta.
    assert (Hf : forall id,
              List.filter (fun t' => negb (bool_decide (Some (tId t') = Some id))) (timers s)
              = List.filter (fun t' => negb (tId t' =? id)%nat) (timers s)).
    { intros id. apply filter_ext. intros t'.
      destruct (Nat.eqb_spec (tId t') id) as [->|Hne].
      - by rewrite bool_decide_eq_true_2.
      - rewrite bool_decide_eq_false_2; [done|congruence]. }
    assert (Hn : List.filter (fun t' => negb (bool_decide (Some (tId t') = None)))
                   (timers s) = timers s).
    { exact (filter_true (timers s)). }
    assert (HF : exists F,
              F = List.filter (fun t' => negb (bool_decide (Some (tId t') = retryTimeout cd)))
                    (timers s) /\
              F = match retryTimeout cd with
                  | Some id => List.filter (fun t' => negb (tId t' =? id)%nat) (timers s)
                  | None => timers s
                  end).
    { eexists. split; [reflexivity|]. destruct (retryTimeout cd); [apply Hf|apply Hn]. }
    destruct HF as (F & <- & HF). clear Hf Hn.
    destruct (retryTimeout cd) as [id|];
      destruct (maxRetryAttempts <=? retryCount cd)%nat;
      unfold_prims; simpl; rewrite HF;
      (eexists; split; [reflexivity|]; split; [done|]; split;
        [rewrite !list_lookup_alter; repeat case_decide; try done; by rewrite Hcd
        |intros l' Hne; by rewrite !list_lookup_alter_ne by done]).
  - intros l cd Hget Hcd Hdead. unfold scheduleRetry. by rewrite Hget, Hcd, Hdead.
  - intros Hget. unfold scheduleRetry. by rewrite Hget.
Qed.

(** [scheduleRetry] on a live session cancels the retry that was pending
    for it, if any, before arming the new one: the timers afterwards are the
    earlier ones without the session's recorded retry, followed by exactly
    one new timer, which is the one the session records.  On a destroyed
    session and on a slot without a session it does nothing at all. *)
Theorem scheduleRetry_replaces_pending (index : nat) (camera : Camera) (s : Mgr) :
  let s' := scheduleRetry index camera s in
  (forall l cd,
     Map_get (cameras s) index = Some l -> heap s !! l = Some cd ->
     isDestroyed cd = false ->
     exists t,
       timers s' =
         List.filter (fun t' => negb (bool_decide (Some (tId t') = retryTimeout cd)))
           (timers s) ++ [t] /\
       tId t = nextTimer s /\
       retryTimeout <$> heap s' !! l = Some (Some (nextTimer s)) /\
       (forall l', l' <> l -> heap s' !! l' = heap s !! l')) /\
  (forall l cd,
     Map_get (cameras s) index = Some l -> heap s !! l = Some cd ->
     isDestroyed cd = true -> s' = s) /\
  (Map_get (cameras s) index = None -> s' = s).
Proof. exact (scheduleRetry_cases index camera s). Qed.

Definition retryPending : Mgr :=
  Eval vm_compute in scheduleRetry 0 liveCamera liveSession.

Lemma scheduleRetry_replaces_pending_witness :
  exists t,
    timers (scheduleRetry 0 liveCamera retryPending) =
      List.filter (fun t' => negb (bool_decide (Some (tId t') = Some 3%nat)))
        (timers retryPending) ++ [t] /\
    tId t = nextTimer retryPending.
Proof.
  destruct (proj1 (scheduleRetry_replaces_pending 0 liveCamera retryPending)
              0%nat _ eq_refl eq_refl eq_refl) as (t & H1 & H2 & _).
  exists t. split; [exact H1|exact H2].
Defined.

(** A live session with a retry recorded as pending. *)
Definition marked (l : nat) (L : list CameraData) : Prop :=
  exists cd, L !! l = Some cd /\ is_Some (retryTimeout cd) /\ isDestroyed cd = false.

Lemma marked_alter (g : CameraData -> CameraData) l' l L :
  (forall x, retryTimeout (g x) = retryTimeout x /\ isDestroyed (g x) = isDestroyed x) ->
  marked l L -> marked l (alter g l' L).
Proof.
  intros Hg (cd & Hcd & H1 & H2). unfold marked.
  rewrite list_lookup_alter. case_decide; [|by exists cd].
  subst. rewrite Hcd. simpl. exists (g cd). destruct (Hg cd) as [-> ->]. done.
Qed.

Ltac marked_go tac :=
  repeat first
    [ assumption
    | apply marked_alter; [by intros []|]
    | progress kept_norm
    | tac ].

Lemma marked_cleanupHls l' s l : marked l (heap s) -> marked l (heap (cleanupHls l' s)).
Proof.
  intros (cd & Hcd & H1 & H2). destruct (decide (l' = l)) as [->|Hne].
  - exists (set_hls None (set_eventCleanups [] cd)).
    split; [by apply cleanupHls_session|done].
  - exists cd. by rewrite cleanupHls_other.
Qed.

Lemma marked_setPlaceholder i m s l :
  marked l (heap s) -> marked l (heap (setPlaceholder i m s)).
Proof. intros H. by destruct (setPlaceholder_videos i m s) as [vs ->]. Qed.

Lemma marked_scheduleRetry i c s l :
  marked l (heap s) -> marked l (heap (scheduleRetry i c s)).
Proof.
  intros (cd & Hcd & H1 & H2).
  destruct (scheduleRetry_cases i c s) as (Hlive & Hdead & Hnone).
  cbv zeta in Hlive, Hdead, Hnone.
  destruct (Map_get (cameras s) i) as [l'|] eqn:Hget;
    [|rewrite Hnone by done; by exists cd].
  destruct (heap s !! l') as [cd'|] eqn:Hcd';
    [|unfold scheduleRetry; rewrite Hget, Hcd'; by exists cd].
  destruct (isDestroyed cd') eqn:Hd; [rewrite (Hdead l' cd') by done; by exists cd|].
  destruct (decide (l' = l)) as [->|Hne].
  - simplify_eq.
    destruct (scheduleRetry_arms i c s l cd Hget Hcd H2)
      as (t & cd2 & e & _ & _ & _ & Hcd2 & Hrt & _).
    destruct (kept_scheduleRetry i c s l cd) as (cd3 & Hcd3 & K1 & _);
      [eexists; split; [exact Hcd|by repeat split]|].
    cbv zeta in Hcd2. rewrite Hcd2 in Hcd3. simplify_eq.
    exists cd3. split; [done|]. split; [by rewrite Hrt|congruence].
  - destruct (Hlive l' cd' eq_refl Hcd' Hd) as (t & _ & _ & _ & Ho).
    exists cd. by rewrite Ho.
Qed.

Lemma marked_initHlsStream i c s l :
  marked l (heap s) -> marked l (heap (initHlsStream i c s)).
Proof.
  intros H. unfold initHlsStream.
  kept_cases;
    marked_go ltac:(first [ apply marked_scheduleRetry | apply marked_setPlaceholder
                          | apply marked_cleanupHls ]).
Qed.

Lemma marked_initializeStream i c s l :
  marked l (heap s) -> marked l (heap (initializeStream i c s)).
Proof.
  intros H. unfold initializeStream.
  kept_cases;
    marked_go ltac:(first [ apply marked_initHlsStream | apply marked_setPlaceholder ]).
Qed.

(** The two retry callbacks differ in one assignment.  The back-off retry
    clears the session's [retryTimeout] before anything else, also when the
    session is destroyed or the page hidden.  The 5-minute cooldown retry
    never clears it: after it has fired, the session still records a retry
    as pending, and the health check, which skips sessions with a pending
    retry, does nothing for that session (until a pause, a teardown or the
    next back-off retry clears the record). *)
Theorem cooldown_keeps_retry_marker (l index : nat) (camera : Camera) (s : Mgr)
    (cd : CameraData) (d : EventData) :
  heap s !! l = Some cd ->
  isDestroyed cd = false ->
  is_Some (retryTimeout cd) ->
  (exists cd',
     heap (runCb (CbCooldown l index camera) d s) !! l = Some cd' /\
     is_Some (retryTimeout cd') /\ isDestroyed cd' = false) /\
  (forall nowT,
     checkCameraHealth nowT (runCb (CbCooldown l index camera) d s) (index, l)
       = runCb (CbCooldown l index camera) d s) /\
  (isPageVisible s = false ->
     heap (runCb (CbRetry l index camera) d s) !! l = Some (set_retryTimeout None cd)).
Proof.
  intros Hcd Hlive Hrt.
  assert (Hm : marked l (heap (runCb (CbCooldown l index camera) d s))).
  { unfold runCb. case_match; [apply marked_initializeStream|]; by exists cd. }
  split; [exact Hm|]. split.
  - intros nowT. destruct Hm as (cd' & Hcd' & [id Hrt'] & Hlive').
    generalize dependent (runCb (CbCooldown l index camera) d s). intros s' Hcd'.
    unfold checkCameraHealth. rewrite Hcd', Hlive', Hrt'.
    by repeat case_match.
  - intros Hv. unfold runCb. cbv zeta.
    change (isPageVisible (updCam l (set_retryTimeout None) s)) with (isPageVisible s).
    rewrite Hv, andb_false_r.
    by rewrite lookup_updCam_eq, Hcd.
Qed.

Definition coolingDown : Mgr :=
  Eval vm_compute in scheduleRetry 0 liveCamera (updCam 0 (set_retryCount 10%nat) liveSession).

Lemma cooldown_keeps_retry_marker_witness :
  checkCameraHealth 300000 (runCb (CbCooldown 0 0 liveCamera) DNone coolingDown) (0, 0)%nat
    = runCb (CbCooldown 0 0 liveCamera) DNone coolingDown.
Proof.
  exact (proj1 (proj2 (cooldown_keeps_retry_marker 0 0 liveCamera coolingDown _ DNone
                         eq_refl eq_refl (ex_intro _ 3%nat eq_refl))) 300000%Q).
Defined.

(** ** Rebuilding the grid (setupGrid, createCameraElement) *)

Lemma kept_foldl {B} (g : Mgr -> B -> Mgr) (xs : list B) s l cd :
  (forall s x, kept l cd (heap s) -> kept l cd (heap (g s x))) ->
  kept l cd (heap s) -> kept l cd (heap (foldl g s xs)).
Proof.
  intros Hg. revert s. induction xs as [|x xs IH]; intros s Hs; simpl; [done|].
  apply IH, Hg, Hs.
Qed.

Lemma kept_stopHealthMonitor s l cd :
  kept l cd (heap s) -> kept l cd (heap (stopHealthMonitor s)).
Proof. intros H. unfold stopHealthMonitor. by case_match. Qed.

Lemma kept_startHealthMonitor s l cd :
  kept l cd (heap s) -> kept l cd (heap (startHealthMonitor s)).
Proof.
  intros H. destruct (startHealthMonitor_fields s) as (_ & _ & _ & Hh & _).
  cbv zeta in Hh. by rewrite Hh.
Qed.

Lemma kept_initNextCameraFrom q s l cd :
  kept l cd (heap s) -> kept l cd (heap (initNextCameraFrom q s)).
Proof.
  revert s. induction q as [|[i c] q IH]; intros s H; simpl.
  - case_match; [by apply kept_startHealthMonitor|done].
  - assert (Hskip : kept l cd (heap (initNextCameraFrom q (set_initQueue q s))))
      by (by apply IH).
    kept_cases;
      kept_go ltac:(first [ apply kept_initializeStream
                          | progress cbn [heap set_waits set_initQueue] ]).
Qed.

Lemma kept_sequentialInit cams s l cd :
  kept l cd (heap s) -> kept l cd (heap (sequentialInit cams s)).
Proof.
  intros H. unfold sequentialInit, initNextCamera. destruct cams.
  - cbv zeta. case_match; [by apply kept_startHealthMonitor|done].
  - by apply kept_initNextCameraFrom.
Qed.

(** Every registered slot has a session that is not destroyed. *)
Definition allLive (s : Mgr) : Prop :=
  forall index l, Map_get (cameras s) index = Some l ->
    exists cd, heap s !! l = Some cd /\ isDestroyed cd = false.

Lemma allLive_kept s s' :
  cameras s' = cameras s ->
  (forall l cd, kept l cd (heap s) -> kept l cd (heap s')) ->
  allLive s -> allLive s'.
Proof.
  intros Hc Hk Hall index l Hget. rewrite Hc in Hget.
  destruct (Hall index l Hget) as (cd & Hcd & Hlive).
  destruct (Hk l cd) as (cd' & Hcd' & K1 & _).
  - exists cd. split; [done|]. by repeat split.
  - exists cd'. split; [done|]. congruence.
Qed.

Lemma allLive_createCameraElement i c s :
  allLive s -> allLive (createCameraElement i c false s).
Proof.
  intros Hall index l. rewrite cameras_createCameraElement.
  assert (Hnew : exists cd, heap (createCameraElement i c false s) !! length (heap s)
                   = Some cd /\ isDestroyed cd = false).
  { unfold createCameraElement. unfold_prims. simpl. rewrite andb_false_r.
    case_match; simpl; rewrite list_lookup_alter; (case_decide; [|done]);
      rewrite lookup_app_r, Nat.sub_diag by done; simpl; eauto. }
  destruct (decide (index = i)) as [->|Hne].
  - rewrite Map_get_set_eq. intros ?. by simplify_eq.
  - rewrite Map_get_set_ne by done. intros Hget.
    destruct (Hall index l Hget) as (cd & Hcd & Hlive).
    exists cd. split; [|done].
    assert (Hlt : l < length (heap s)) by (by eapply lookup_lt_Some).
    unfold createCameraElement. unfold_prims. simpl. rewrite andb_false_r.
    case_match; simpl; rewrite list_lookup_alter_ne by lia; by rewrite lookup_app_l.
Qed.

Lemma allLive_foldl_setupCell acc xs :
  allLive (fst acc) -> allLive (fst (foldl setupCell acc xs)).
Proof.
  revert acc. induction xs as [|x xs IH]; intros acc H; simpl; [done|].
  apply IH. destruct acc as [s cams]. unfold setupCell. simpl in H.
  repeat case_match; simpl; try done; by apply allLive_createCameraElement.
Qed.

Lemma setupGrid_spec (s : Mgr) :
  gridElement s = true ->
  let s' := setupGrid s in
  (forall index l cd,
     Map_get (cameras s) index = Some l -> heap s !! l = Some cd ->
     heap s' !! l = Some (torn (element cd))) /\
  allLive s'.
Proof.
  intros Hg. cbv zeta. unfold setupGrid. rewrite Hg. cbv zeta. cbn [negb].
  match goal with |- context [foldl setupCell ?a ?xs] =>
    pose proof (fun l cd Hq => frozen_foldl_setupCell l cd Hq a xs) as H1;
    pose proof (allLive_foldl_setupCell a xs) as H2;
    pose proof (stable_foldl_setupCell isHDMode a xs) as H3;
    destruct (foldl setupCell a xs) as [s1 cams] end.
  cbn [fst] in H1, H2, H3.
  assert (Hall : allLive s1).
  { apply H2. intros index l Hget.
    destruct (destroyAllCameras_fields s) as (Hc & _). cbv zeta in Hc.
    by rewrite Hc in Hget. }
  assert (Hold : forall index l cd,
            Map_get (cameras s) index = Some l -> heap s !! l = Some cd ->
            heap s1 !! l = Some (torn (element cd))).
  { intros index l cd Hget Hcd. apply H1; [apply quiescent_torn|].
    by apply (destroyAllCameras_sessions s index). }
  clear H1 H2. split.
  - intros index l cd Hget Hcd. specialize (Hold index l cd Hget Hcd).
    pose proof (quiescent_torn (element cd)) as Hq.
    repeat case_match; try done.
    + by apply frozen_startHealthMonitor, frozen_foldl_initializeStream.
    + by apply frozen_foldl_initializeStream.
    + by apply frozen_sequentialInit.
  - repeat case_match.
    + eapply allLive_kept; [| |exact Hall].
      * by rewrite (stable_startHealthMonitor cameras), (stable_foldl_initializeStream cameras).
      * intros l cd Hk. apply kept_startHealthMonitor, kept_foldl; [|done].
        intros s' [i c] Hs. by apply kept_initializeStream.
    + eapply allLive_kept; [| |exact Hall].
      * by rewrite (stable_foldl_initializeStream cameras).
      * intros l cd Hk. apply kept_foldl; [|done].
        intros s' [i c] Hs. by apply kept_initializeStream.
    + eapply allLive_kept; [| |exact Hall].
      * by rewrite (stable_sequentialInit cameras).
      * intros l cd Hk. by apply kept_sequentialInit.
Qed.

(** [setupGrid] never reuses a session object.  Every session registered
    before the call is torn down and stays in the heap with its destroyed
    flag set, so callbacks that still hold it find it destroyed; every slot
    registered afterwards has a session that is not destroyed, hence a
    different object from every earlier one. *)
Theorem setupGrid_rebuilds (s : Mgr) :
  gridElement s = true ->
  let s' := setupGrid s in
  (forall index l cd,
     Map_get (cameras s) index = Some l -> heap s !! l = Some cd ->
     heap s' !! l = Some (torn (element cd))) /\
  (forall index l,
     Map_get (cameras s') index = Some l ->
     exists cd, heap s' !! l = Some cd /\ isDestroyed cd = false) /\
  (forall index index0 l,
     Map_get (cameras s') index = Some l -> Map_get (cameras s) index0 = Some l ->
     heap s !! l = None).
Proof.
  intros Hg. destruct (setupGrid_spec s Hg) as (Hold & Hall). cbv zeta in *.
  split; [exact Hold|]. split; [exact Hall|].
  intros index index0 l Hnew Hwas.
  destruct (heap s !! l) as [cd|] eqn:Hcd; [|done].
  destruct (Hall index l Hnew) as (cd' & Hcd' & Hlive).
  rewrite (Hold index0 l cd Hwas Hcd) in Hcd'. by simplify_eq.
Qed.

Lemma setupGrid_rebuilds_witness :
  heap (setupGrid liveSession) !! 0%nat = Some (torn 0) /\
  Map_get (cameras (setupGrid liveSession)) 0 = Some 1%nat.
Proof.
  split; [|vm_compute; reflexivity].
  exact (proj1 (setupGrid_rebuilds liveSession eq_refl) 0%nat 0%nat _ eq_refl eq_refl).
Defined.

(** ** Native HLS playback and the health check *)

(** In a browser without Hls.js support that plays HLS natively,
    [initializeStream] hands the manifest URL to the element and attaches no
    engine.  The health check treats an [.m3u8] session without an engine as
    failed: at the next tick that does not skip the session it is recovered
    (element reset, re-initialisation after 1000 ms), however well it plays. *)
Theorem native_hls_recovered_each_tick (s : Mgr) (index l : nat) (camera : Camera)
    (cd : CameraData) (el : VideoElement) :
  checked s index l camera cd el ->
  hls cd = None ->
  endsWith ".m3u8" (url camera) = true ->
  startsWith "rtsp://" (url camera) = false ->
  hlsSupported s = false -> canPlayNative s = true -> isPageVisible s = true ->
  let s1 := initializeStream index camera s in
  heap s1 = heap s /\ engines s1 = engines s /\
  vSrc <$> videos s1 !! element cd = Some (Some (url camera)) /\
  trace s1 = EPlay (element cd) :: trace s /\
  forall paused ended readyState currentTime s2,
    step (EvMediaState (element cd) paused ended readyState None currentTime) s1
      = Some s2 ->
    exists tr,
      trace (checkCameraHealth (now s2) s2 (index, l)) = tr ++ trace s2 /\
      recoveries index tr = 1%nat.
Proof.
  intros (Hget & Hcd & Hlive & Hcfg & Hurl & Hel & Hrt & Hinit) Hh Hm3 Hrtsp Hsup Hnat Hvis.
  cbv zeta.
  assert (Heq : initializeStream index camera s =
            play (element cd) None (Some (CbPlayCatchRetry index camera))
              (setSrc (element cd) (Some (url camera)) s)).
  { unfold initializeStream. by rewrite Hget, Hcd, Hlive, Hvis, Hrtsp, Hm3, Hsup, Hnat. }
  rewrite Heq. unfold_prims. cbn [heap engines videos trace set_videos set_promises
    set_nextPromise set_trace].
  split; [done|]. split; [done|].
  split; [rewrite list_lookup_alter; case_decide; [|done]; by rewrite Hel|].
  split; [done|].
  intros paused ended readyState currentTime s2 Hstep.
  unfold step, updVideo in Hstep. cbn [videos set_videos set_promises set_nextPromise
    set_trace] in Hstep. simplify_eq.
  match goal with |- context [checkCameraHealth _ ?x _] => set (s2 := x) end.
  assert (Hel2 : exists el2, videos s2 !! element cd = Some el2).
  { subst s2. cbn [videos set_videos]. rewrite !list_lookup_alter.
    repeat case_decide; try done. rewrite Hel. simpl. eauto. }
  destruct Hel2 as [el2 Hel2].
  destruct (immediate_recovery_spec s2 index l camera cd el2) as (tr & cd' & Htr & Hrec & _).
  - by repeat split.
  - unfold immediateRecovery, hasHls. rewrite Hh, Hm3.
    rewrite bool_decide_eq_false_2 by (by intros [? ?]). done.
  - cbv zeta in Htr. exists tr. by split.
Qed.

(** The single camera of [liveSession] in a browser that only plays HLS
    natively. *)
Definition nativeSession : Mgr :=
  Eval vm_compute in
  setupGrid
    (updateConfig (Some [liveCamera])
       (Some {| gColumns := 1; gRows := 1; numCameras := 1 |})
       (setHDMode true (init (newManager (fun _ => 0%Q) false true false)))).

Lemma native_hls_recovered_each_tick_witness :
  heap (initializeStream 0 liveCamera nativeSession) = heap nativeSession /\
  trace (initializeStream 0 liveCamera nativeSession) = EPlay 0 :: trace nativeSession.
Proof.
  assert (Hck : checked nativeSession 0 0 liveCamera
                  (default (torn 0) (heap nativeSession !! 0%nat))
                  (default {| vPaused := true; vEnded := false; vReadyState := 0;
                              vError := None; vCurrentTime := 0; vSrc := None;
                              vPlaceholder := EmptyString; vPreload := None;
                              vListeners := [] |} (videos nativeSession !! 0%nat)))
    by (repeat split; reflexivity).
  destruct (native_hls_recovered_each_tick nativeSession 0 0 liveCamera _ _ Hck
              eq_refl eq_refl eq_refl eq_refl eq_refl eq_refl) as (H1 & _ & _ & H4 & _).
  split; [exact H1|exact H4].
Defined.

(** ** Attaching an engine (initHlsStream) *)

Lemma lookup_alter_same {A} (f : A -> A) (i : nat) (L : list A) :
  alter f i L !! i = f <$> L !! i.
Proof. rewrite list_lookup_alter. by case_decide. Qed.

Lemma foldl_hlsOff_removed (cl : list (nat * HlsEvent * Callback)) s :
  forall h en, engines s !! h = Some en ->
    exists en',
      engines (foldl (fun s '(h, evt, cb) => hlsOff h evt cb s) s cl) !! h = Some en' /\
      (forall p, p ∈ hHandlers en' -> p ∈ hHandlers en) /\
      (forall evt cb, (h, evt, cb) ∈ cl -> (evt, cb) ∉ hHandlers en').
Proof.
  revert s. induction cl as [|[[h0 evt0] cb0] cl IH]; intros s h en Hen; simpl.
  - exists en. repeat split; try done. intros ?? H. by apply elem_of_nil in H.
  - unfold hlsOff at 2. unfold updEngine.
    destruct (decide (h0 = h)) as [->|Hne].
    + destruct (IH (set_engines (alter (fun en => set_hHandlers
          (List.filter (fun p => negb (bool_decide (p = (evt0, cb0)))) (hHandlers en)) en)
          h (engines s)) s) h
          (set_hHandlers (List.filter (fun p => negb (bool_decide (p = (evt0, cb0))))
             (hHandlers en)) en)) as (en' & Hen' & Hsub & Hrem).
      { cbn [engines set_engines]. rewrite list_lookup_alter. case_decide; [|done].
        by rewrite Hen. }
      exists en'. split; [done|]. split.
      * intros p Hin. apply Hsub in Hin. simpl in Hin.
        apply list_elem_of_In, filter_In in Hin as [Hin _]. by apply list_elem_of_In.
      * intros evt cb Hin. apply elem_of_cons in Hin as [Heq|Hin]; [|by apply Hrem].
        simplify_eq. intros Hin. apply Hsub in Hin. simpl in Hin.
        apply list_elem_of_In, filter_In in Hin as [_ Hin].
        by rewrite bool_decide_eq_true_2 in Hin.
    + destruct (IH (set_engines (alter (fun en => set_hHandlers
          (List.filter (fun p => negb (bool_decide (p = (evt0, cb0)))) (hHandlers en)) en)
          h0 (engines s)) s) h en) as (en' & Hen' & Hsub & Hrem).
      { cbn [engines set_engines]. by rewrite list_lookup_alter_ne. }
      exists en'. split; [done|]. split; [done|].
      intros evt cb Hin. apply elem_of_cons in Hin as [Heq|Hin]; [|by apply Hrem].
      by simplify_eq.
Qed.

Lemma cleanupHls_engines l s cd :
  heap s !! l = Some cd ->
  engines (cleanupHls l s) =
    engines (foldl (fun s '(h, evt, cb) => hlsOff h evt cb s) s (eventCleanups cd)).
Proof.
  intros Hcd. unfold cleanupHls. rewrite Hcd. cbv zeta.
  destruct (hls cd); [case_match|]; reflexivity.
Qed.

(** The five handlers [initHlsStream] registers on the engine [h] it
    creates for session [l] of slot [index]. *)
Definition engineHandlers (l index e h : nat) (camera : Camera)
  : list (HlsEvent * Callback) :=
  [ (MEDIA_ATTACHED, CbMediaAttached l index e);
    (MANIFEST_PARSED, CbManifestParsed l index e h);
    (ERROR, CbHlsError l index camera);
    (FRAG_BUFFERED, CbFragBuffered l);
    (LEVEL_LOADED, CbLevelLoaded l index e h) ].

Lemma initHlsStream_spec (index : nat) (camera : Camera) (s : Mgr) (l : nat)
    (cd : CameraData) :
  Map_get (cameras s) index = Some l ->
  heap s !! l = Some cd ->
  isDestroyed cd = false ->
  hlsFaulty s = false ->
  let s' := initHlsStream index camera s in
  let h := length (engines s) in
  let e := element cd in
  heap s' !! l =
    Some (set_eventCleanups (map (fun p => (h, p.1, p.2)) (engineHandlers l index e h camera))
            (set_hls (Some h) cd)) /\
  (forall l', l' <> l -> heap s' !! l' = heap s !! l') /\
  engines s' !! h =
    Some {| hHandlers := engineHandlers l index e h camera; hLiveSyncPosition := None;
            hThrows := false; hStartLoadThrows := false;
            hRecoverThrows := false |} /\
  length (engines s') = S (length (engines s)) /\
  trace s' =
    EAttachMedia h e :: ELoadSource h (url camera) (addCacheBuster (url camera)) (now s) ::
    ENewHls h ::
    match hls cd with
    | Some h0 => if engineThrows s h0 then [] else releaseEffects h0
    | None => []
    end ++ trace s /\
  (forall h0 en0, engines s !! h0 = Some en0 ->
     exists en', engines s' !! h0 = Some en' /\
       (forall p, p ∈ hHandlers en' -> p ∈ hHandlers en0) /\
       (forall evt cb, (h0, evt, cb) ∈ eventCleanups cd -> (evt, cb) ∉ hHandlers en')) /\
  timers s' = timers s /\ promises s' = promises s /\ videos s' = videos s.
Proof.
  intros Hget Hcd Hlive Hfaulty. cbv zeta.
  unfold initHlsStream. rewrite Hget, Hcd, Hlive. cbv zeta.
  pose proof (cleanupHls_session l s cd Hcd) as Hcd1.
  pose proof (cleanupHls_engines l s cd Hcd) as Hen1.
  pose proof (stable_cleanupHls hlsFaulty l s) as Hf1.
  pose proof (stable_cleanupHls now l s) as Hnow1.
  destruct (cleanupHls_untouched l s) as (Ht1 & _ & _ & Hp1 & _ & Hv1 & Hlen1 & _).
  assert (Hother1 : forall l', l' <> l -> heap (cleanupHls l s) !! l' = heap s !! l')
    by (intros l' Hne; by apply cleanupHls_other).
  assert (Htr1 : trace (cleanupHls l s) =
            match hls cd with
            | Some h0 => if engineThrows s h0 then [] else releaseEffects h0
            | None => []
            end ++ trace s).
  { destruct (cleanupHls_eq l s cd Hcd) as (en & _ & _ & _ & ->).
    destruct (hls cd) as [h0|]; [destruct (engineThrows s h0)|]; reflexivity. }
  assert (Hold : forall h0 en0, engines s !! h0 = Some en0 ->
            exists en', engines (cleanupHls l s) !! h0 = Some en' /\
              (forall p, p ∈ hHandlers en' -> p ∈ hHandlers en0) /\
              (forall evt cb, (h0, evt, cb) ∈ eventCleanups cd -> (evt, cb) ∉ hHandlers en')).
  { intros h0 en0 Hen0. rewrite Hen1. by apply foldl_hlsOff_removed. }
  generalize dependent (cleanupHls l s). intros s1 Hcd1 Hen1 Hf1 Hnow1 Ht1 Hp1 Hv1 Hlen1
    Hother1 Htr1 Hold.
  unfold engineThrows, hlsOn, updEngine, updCam, emit.
  cbn [engines heap trace hlsFaulty now timers promises videos
       set_engines set_heap set_trace].
  rewrite Hlen1.
  assert (Hnew : forall (L : list HlsEngine) x, length L = length (engines s) ->
            (L ++ [x]) !! length (engines s) = Some x).
  { intros L x HL. rewrite lookup_app_r by lia. by rewrite HL, Nat.sub_diag. }
  rewrite !lookup_alter_same.
  rewrite (Hnew _ _ Hlen1). cbn [fmap option_fmap option_map hThrows set_hHandlers hHandlers
    app hLiveSyncPosition]. rewrite Hf1, Hfaulty.
  cbn [heap engines trace timers promises videos set_trace set_heap set_engines].
  rewrite !lookup_alter_same. rewrite Hcd1.
  split; [by destruct cd|].
  split; [intros l' Hne; by rewrite !list_lookup_alter_ne, Hother1 by done|].
  rewrite ?lookup_alter_same, ?(Hnew _ _ Hlen1).
  split; [by rewrite ?Hfaulty|].
  split; [by rewrite !length_alter, length_app, Hlen1, Nat.add_1_r|].
  split; [by rewrite Htr1, Hnow1|].
  split; [|done].
  intros h0 en0 Hen0. destruct (Hold h0 en0 Hen0) as (en' & Hen' & Hsub & Hrem).
  exists en'. split; [|done].
  assert (Hlt : h0 < length (engines s)) by (by eapply lookup_lt_Some).
  rewrite !list_lookup_alter_ne by lia. rewrite lookup_app_l by lia. done.
Qed.

(** [initHlsStream] on a live session, when constructing and loading the
    engine does not throw.  The engine the session had is released first
    (its recorded handlers unregistered, then stopLoad, detachMedia,
    destroy); exactly one engine is constructed; the session records it as
    its only engine together with the five handlers registered on it; the
    cache-busted source is loaded before the element is attached.  No
    timer is armed and playback is not started here (that is left to the
    media-attached handler). *)
Theorem initHlsStream_replaces_engine (index : nat) (camera : Camera) (s : Mgr)
    (l : nat) (cd : CameraData) :
  Map_get (cameras s) index = Some l ->
  heap s !! l = Some cd ->
  isDestroyed cd = false ->
  hlsFaulty s = false ->
  let s' := initHlsStream index camera s in
  let h := length (engines s) in
  let e := element cd in
  heap s' !! l =
    Some (set_eventCleanups (map (fun p => (h, p.1, p.2)) (engineHandlers l index e h camera))
            (set_hls (Some h) cd)) /\
  (forall l', l' <> l -> heap s' !! l' = heap s !! l') /\
  engines s' !! h =
    Some {| hHandlers := engineHandlers l index e h camera; hLiveSyncPosition := None;
            hThrows := false; hStartLoadThrows := false;
            hRecoverThrows := false |} /\
  length (engines s') = S (length (engines s)) /\
  trace s' =
    EAttachMedia h e :: ELoadSource h (url camera) (addCacheBuster (url camera)) (now s) ::
    ENewHls h ::
    match hls cd with
    | Some h0 => if engineThrows s h0 then [] else releaseEffects h0
    | None => []
    end ++ trace s /\
  (forall h0 en0, engines s !! h0 = Some en0 ->
     exists en', engines s' !! h0 = Some en' /\
       (forall p, p ∈ hHandlers en' -> p ∈ hHandlers en0) /\
       (forall evt cb, (h0, evt, cb) ∈ eventCleanups cd -> (evt, cb) ∉ hHandlers en')) /\
  timers s' = timers s /\ promises s' = promises s /\ videos s' = videos s.
Proof. exact (initHlsStream_spec index camera s l cd). Qed.

Lemma initHlsStream_replaces_engine_witness :
  hls <$> heap (initHlsStream 0 liveCamera liveSession) !! 0%nat = Some (Some 1%nat) /\
  trace (initHlsStream 0 liveCamera liveSession) =
    [ EAttachMedia 1 0; ELoadSource 1 (url liveCamera) "?" 0; ENewHls 1 ] ++
    releaseEffects 0 ++ trace liveSession.
Proof.
  destruct (initHlsStream_replaces_engine 0 liveCamera liveSession 0 _
              eq_refl eq_refl eq_refl eq_refl) as (H1 & _ & _ & _ & H5 & _).
  split; [by rewrite H1|exact H5].
Defined.

(** ** The start-up sequencer (initNextCamera: onPlaying against onTimeout) *)

(** For each camera the sequencer starts, the 'playing' listener and the
    15 s timeout race to advance the queue, and only the first of them
    does.  If 'playing' comes first, the timeout is cancelled, the listener
    is removed and the next camera is started by a timer 500 ms later (the
    queue is not touched before that).  If the timeout comes first, the
    listener is removed and the next camera is started at once.  Once the
    wait is resolved, either callback does nothing. *)
Theorem sequencer_advances_once (w index e : nat) (s : Mgr) (cell : WaitCell)
    (d : EventData) :
  waits s !! w = Some cell ->
  wResolved cell = false ->
  let onPlaying := CbSeqPlaying w index e in
  let onTimeout := CbSeqTimeout w index e in
  (let s1 := runCb onPlaying d s in
   waits s1 !! w = Some (set_wResolved true cell) /\
   timers s1 =
     List.filter (fun t => negb (bool_decide (Some (tId t) = wTimeoutId cell))) (timers s)
     ++ [{| tId := nextTimer s; tDue := (now s + 500)%Q; tRepeat := None;
            tCb := CbSeqNext |}] /\
   initQueue s1 = initQueue s /\ heap s1 = heap s /\
   (forall el, videos s1 !! e = Some el -> (VPlaying, onPlaying) ∉ vListeners el)) /\
  (exists s0,
     runCb onTimeout d s = initNextCamera s0 /\
     waits s0 !! w = Some (set_wResolved true cell) /\
     initQueue s0 = initQueue s /\ heap s0 = heap s /\ timers s0 = timers s /\
     (forall el, videos s0 !! e = Some el -> (VPlaying, onPlaying) ∉ vListeners el)) /\
  (forall s2 cell2,
     waits s2 !! w = Some cell2 -> wResolved cell2 = true ->
     runCb onPlaying d s2 = s2 /\ runCb onTimeout d s2 = s2).
Proof.
  intros Hw Hres. cbv zeta.
  assert (Hrem : forall (V : list VideoElement) el,
            alter (fun v => set_vListeners
              (List.filter (fun p => negb (bool_decide (p = (VPlaying, CbSeqPlaying w index e))))
                 (vListeners v)) v) e V !! e = Some el ->
            (VPlaying, CbSeqPlaying w index e) ∉ vListeners el).
  { intros V el. rewrite lookup_alter_same. destruct (V !! e) as [v|]; [|done].
    simpl. intros ?. simplify_eq. simpl. intros Hin.
    apply list_elem_of_In, filter_In in Hin as [_ Hin].
    by rewrite bool_decide_eq_true_2 in Hin. }
  split; [|split].
  - unfold runCb. rewrite Hw, Hres. cbv zeta.
    assert (HF : exists F,
              F = List.filter (fun t => negb (bool_decide (Some (tId t) = wTimeoutId cell)))
                    (timers s) /\
              F = match wTimeoutId cell with
                  | Some id => List.filter (fun t' => negb (tId t' =? id)%nat) (timers s)
                  | None => timers s
                  end).
    { eexists. split; [reflexivity|]. destruct (wTimeoutId cell) as [id|].
      - apply filter_ext. intros t'. destruct (Nat.eqb_spec (tId t') id) as [->|Hne].
        + by rewrite bool_decide_eq_true_2.
        + rewrite bool_decide_eq_false_2; [done|congruence].
      - exact (filter_true (timers s)). }
    destruct HF as (F & <- & HF).
    destruct (wTimeoutId cell) as [id|]; unfold_prims; simpl; rewrite HF;
      rewrite lookup_alter_same, Hw; (split; [done|]); (split; [done|]);
      (split; [done|]); (split; [done|]); apply Hrem.
  - eexists. split; [unfold runCb; rewrite Hw, Hres; cbv zeta; reflexivity|].
    unfold_prims. simpl. rewrite lookup_alter_same, Hw.
    split; [done|]. split; [done|]. split; [done|]. split; [done|]. apply Hrem.
  - intros s2 cell2 Hw2 Hres2. unfold runCb. by rewrite Hw2, Hres2.
Qed.

Lemma sequencer_advances_once_witness :
  wResolved <$> waits (runCb (CbSeqPlaying 0 0 0) DNone kioskSession) !! 0%nat = Some true /\
  initQueue (runCb (CbSeqPlaying 0 0 0) DNone kioskSession) = initQueue kioskSession.
Proof.
  destruct (proj1 (sequencer_advances_once 0 0 0 kioskSession _ DNone eq_refl eq_refl))
    as (H1 & _ & H3 & _).
  split; [by rewrite H1|exact H3].
Defined.

(** ** The start-up sequencer (initNextCamera: which camera is started) *)

Lemma alter_snoc {A} (f : A -> A) (L : list A) (x : A) :
  alter f (length L) (L ++ [x]) = L ++ [f x].
Proof. induction L as [|a L IH]; simpl; [done|]. f_equal. exact IH. Qed.

(** A queue entry the sequencer skips: its slot has no session, or the
    session is destroyed. *)
Definition unstartable (s : Mgr) (entry : nat * Camera) : Prop :=
  match Map_get (cameras s) entry.1 with
  | None => True
  | Some l =>
      match heap s !! l with
      | None => True
      | Some cd => isDestroyed cd = true
      end
  end.

Lemma initNextCameraFrom_requeue x rest Q s :
  initNextCameraFrom (x :: rest) (set_initQueue Q s) = initNextCameraFrom (x :: rest) s.
Proof. destruct x as [i c]. reflexivity. Qed.

Lemma initNextCameraFrom_skip skipped x rest s :
  Forall (unstartable s) skipped ->
  initNextCameraFrom (skipped ++ x :: rest) s = initNextCameraFrom (x :: rest) s.
Proof.
  revert s. induction skipped as [|[i c] q IH]; intros s Hall; [done|].
  apply Forall_cons in Hall as [Hi Hq]. unfold unstartable in Hi. cbn [fst] in Hi.
  remember (x :: rest) as xr eqn:Hxr.
  assert (Heq : initNextCameraFrom (q ++ xr) (set_initQueue (q ++ xr) s)
                = initNextCameraFrom xr s).
  { subst xr. rewrite IH; [|exact Hq]. apply initNextCameraFrom_requeue. }
  change (((i, c) :: q) ++ xr) with ((i, c) :: (q ++ xr)).
  cbn [initNextCameraFrom]. rewrite Heq. cbn [cameras heap set_initQueue].
  destruct (Map_get (cameras s) i) as [l|]; [|reflexivity].
  destruct (heap s !! l) as [cd|]; [|reflexivity]. rewrite Hi. reflexivity.
Qed.

Lemma initNextCameraFrom_hidden q s :
  isPageVisible s = false ->
  let s' := initNextCameraFrom q s in
  initQueue s' = match q with [] => initQueue s | _ => [] end /\
  isInitializing s' = false /\
  trace s' = ELogSeqComplete :: trace s /\
  heap s' = heap s /\ timers s' = timers s /\ videos s' = videos s /\
  engines s' = engines s /\ promises s' = promises s /\
  healthCheckInterval s' = healthCheckInterval s.
Proof.
  revert s. induction q as [|[i c] q IH]; intros s Hv.
  - cbn [initNextCameraFrom]. cbv zeta.
    cbn [isPageVisible set_isInitializing emit set_trace]. rewrite Hv. done.
  - cbn [initNextCameraFrom]. cbv zeta. cbn [cameras heap isPageVisible set_initQueue].
    assert (Hskip : let s' := initNextCameraFrom q (set_initQueue q s) in
              initQueue s' = [] /\ isInitializing s' = false /\
              trace s' = ELogSeqComplete :: trace s /\
              heap s' = heap s /\ timers s' = timers s /\ videos s' = videos s /\
              engines s' = engines s /\ promises s' = promises s /\
              healthCheckInterval s' = healthCheckInterval s).
    { destruct (IH (set_initQueue q s) Hv) as (H1 & H2). cbv zeta in *.
      split; [|exact H2]. rewrite H1. by destruct q. }
    destruct (Map_get (cameras s) i) as [l|]; [|exact Hskip].
    destruct (heap s !! l) as [cd|]; [|exact Hskip].
    rewrite Hv. cbn [negb]. rewrite orb_true_r. exact Hskip.
Qed.

(** Which camera the sequencer starts.  Queue entries whose slot has no
    session or whose session is destroyed are skipped; the first other entry
    is taken off the queue and started, alone: one wait is opened for it
    with the 15 s timeout and a 'playing' listener, and the rest of the
    queue stays untouched until that wait is resolved.  If the page is
    hidden, nothing is started at all: the whole queue is dropped and the
    sequence is declared complete without starting the health monitor. *)
Theorem sequencer_starts_first_live (skipped rest : list (nat * Camera)) (index : nat)
    (camera : Camera) (s : Mgr) (l : nat) (cd : CameraData) :
  initQueue s = skipped ++ (index, camera) :: rest ->
  Forall (unstartable s) skipped ->
  Map_get (cameras s) index = Some l ->
  heap s !! l = Some cd ->
  isDestroyed cd = false ->
  (isPageVisible s = true ->
   exists s1,
     initNextCamera s = initializeStream index camera s1 /\
     initQueue s1 = rest /\
     waits s1 = waits s ++ [{| wIndex := index; wResolved := false;
                               wTimeoutId := Some (nextTimer s) |}] /\
     timers s1 = timers s ++ [{| tId := nextTimer s;
                                 tDue := (now s + SEQUENTIAL_TIMEOUT_MS)%Q;
                                 tRepeat := None;
                                 tCb := CbSeqTimeout (length (waits s)) index (element cd) |}] /\
     heap s1 !! l = Some (set_initTimeout (Some (nextTimer s)) cd) /\
     (forall el, videos s !! element cd = Some el ->
        vListeners <$> videos s1 !! element cd =
          Some (vListeners el ++
                [(VPlaying, CbSeqPlaying (length (waits s)) index (element cd))])) /\
     trace s1 = ELogSeqInit index :: trace s /\
     promises s1 = promises s /\ engines s1 = engines s) /\
  (isPageVisible s = false ->
   let s' := initNextCamera s in
   initQueue s' = [] /\ isInitializing s' = false /\
   trace s' = ELogSeqComplete :: trace s /\
   heap s' = heap s /\ timers s' = timers s /\ videos s' = videos s /\
   engines s' = engines s /\ promises s' = promises s /\
   healthCheckInterval s' = healthCheckInterval s).
Proof.
  intros Hq Hskip Hget Hcd Hlive. split.
  - intros Hv. unfold initNextCamera. rewrite Hq.
    rewrite (initNextCameraFrom_skip skipped _ _ s Hskip). simpl.
    cbn [cameras heap isPageVisible set_initQueue]. rewrite Hget, Hcd, Hlive, Hv. simpl.
    eexists. split; [reflexivity|].
    unfold_prims. simpl. rewrite !lookup_alter_same, Hcd.
    rewrite alter_snoc. simpl.
    split; [done|]. split; [done|]. split; [done|]. split; [done|].
    split; [|done]. intros el Hel. by rewrite Hel.
  - intros Hv. unfold initNextCamera.
    pose proof (initNextCameraFrom_hidden (initQueue s) s Hv) as H.
    cbv zeta in H |- *. revert H.
    generalize (initNextCameraFrom (initQueue s) s). intros s'.
    rewrite Hq. by destruct skipped.
Qed.

(** [liveSession] with two cameras queued, the first for a slot that has no
    session. *)
Definition queued : Mgr :=
  Eval vm_compute in set_initQueue [(5%nat, liveCamera); (0%nat, liveCamera)] liveSession.

Lemma sequencer_starts_first_live_witness :
  exists s1,
    initNextCamera queued = initializeStream 0 liveCamera s1 /\ initQueue s1 = [].
Proof.
  assert (Hskip : Forall (unstartable queued) [(5%nat, liveCamera)]).
  { apply Forall_cons_2; [exact I|apply Forall_nil_2]. }
  destruct (proj1 (sequencer_starts_first_live [(5%nat, liveCamera)] [] 0 liveCamera
                     queued 0 _ eq_refl Hskip eq_refl eq_refl eq_refl) eq_refl)
    as (s1 & H1 & H2 & _).
  exists s1. split; [exact H1|exact H2].
Defined.

(** ** Configuration (updateConfig, updateGridLayout) and the helpers *)

(** [clamp] returns a value between the bounds when they are ordered, and
    the value itself when it already lies between them; the upper bound
    wins when the bounds are crossed. *)
Theorem clamp_bounds (value lo hi : Z) :
  ((lo <= hi)%Z -> (lo <= clamp value lo hi <= hi)%Z) /\
  ((lo <= value <= hi)%Z -> clamp value lo hi = value) /\
  ((hi < lo)%Z -> clamp value lo hi = hi) /\
  clamp (clamp value lo hi) lo hi = clamp value lo hi.
Proof. unfold clamp. lia. Qed.

Lemma clamp_bounds_witness :
  (1 <= clamp 40 1 18 <= 18)%Z /\ clamp 7 1 18 = 7%Z /\ clamp 7 18 1 = 1%Z.
Proof.
  destruct (clamp_bounds 40 1 18) as (H1 & _).
  destruct (clamp_bounds 7 1 18) as (_ & H2 & _).
  destruct (clamp_bounds 7 18 1) as (_ & _ & H3 & _).
  split; [apply H1; lia|]. split; [apply H2; lia|apply H3; lia].
Defined.

Lemma ceilDiv_lt a b : (0 < b)%Z -> (b * (ceilDiv a b - 1) < a)%Z.
Proof.
  intros Hb. unfold ceilDiv.
  pose proof (Qceiling_lt (inject_Z a / inject_Z b)) as H'.
  assert (Hb' : (0 < inject_Z b)%Q)
    by (change 0%Q with (inject_Z 0); rewrite <- Zlt_Qlt; done).
  assert (Hq : (inject_Z b * inject_Z (Qceiling (inject_Z a / inject_Z b) - 1)
                < inject_Z a)%Q).
  { rewrite <- (Qmult_div_r (inject_Z a) (inject_Z b)) at 2 by lra.
    apply Qmult_lt_l; [done|]. exact H'. }
  rewrite <- inject_Z_mult in Hq. by rewrite Zlt_Qlt.
Qed.

(** The layout [calculateGridLayout] picks is tight: the grid has room for
    all the (clamped) items, its last row is not empty, and fewer than one
    row of cells stays unused. *)
Theorem calculateGridLayout_tight (n : Z) :
  let g := calculateGridLayout n in
  let k := clamp n 1 18 in
  (1 <= rows g)%Z /\
  (k <= columns g * rows g)%Z /\
  (columns g * (rows g - 1) < k)%Z /\
  (columns g * rows g - k < columns g)%Z.
Proof.
  cbv zeta.
  pose proof (calculateGridLayout_columns n) as Hc. cbn [In] in Hc.
  assert (Hpos : (0 < columns (calculateGridLayout n))%Z) by lia.
  pose proof (calculateGridLayout_cells n) as H1.
  pose proof (ceilDiv_lt (clamp n 1 18) _ Hpos) as H2.
  rewrite <- calculateGridLayout_rows in H2.
  assert (1 <= clamp n 1 18)%Z by (unfold clamp; lia).
  split; [nia|]. split; [done|]. split; [done|]. nia.
Qed.

(** [updateConfig] stores the camera list as given (an absent list becomes
    empty) and normalises the grid configuration: missing or zero columns
    and rows become 1 and non-zero ones are taken over unchanged; a count
    between 1 and 18 is taken over, a missing, zero or smaller count becomes
    1 and a larger one 18.  It does not check the count against
    columns x rows, and it touches no session, no timer and no element: the
    grid is only rebuilt by [setupGrid]. *)
Theorem updateConfig_normalises (cams : option (list Camera))
    (gridConfig : option GridConfig) (s : Mgr) :
  let s' := updateConfig cams gridConfig s in
  (1 <= numCameras (config s') <= 18)%Z /\
  gColumns (config s') <> 0%Z /\ gRows (config s') <> 0%Z /\
  (forall g, gridConfig = Some g ->
     (gColumns g <> 0%Z -> gColumns (config s') = gColumns g) /\
     (gColumns g = 0%Z -> gColumns (config s') = 1%Z) /\
     (gRows g <> 0%Z -> gRows (config s') = gRows g) /\
     (gRows g = 0%Z -> gRows (config s') = 1%Z) /\
     ((1 <= numCameras g <= 18)%Z -> numCameras (config s') = numCameras g) /\
     ((numCameras g < 1)%Z -> numCameras (config s') = 1%Z) /\
     ((18 < numCameras g)%Z -> numCameras (config s') = 18%Z)) /\
  (gridConfig = None ->
     config s' = {| gColumns := 1; gRows := 1; numCameras := 1 |}) /\
  cameraConfigs s' = default [] cams /\
  cameras s' = cameras s /\ heap s' = heap s /\ timers s' = timers s /\
  videos s' = videos s /\ gridChildren s' = gridChildren s /\ trace s' = trace s.
Proof.
  cbv zeta. unfold updateConfig. cbv zeta.
  cbn [config cameraConfigs cameras heap timers videos gridChildren trace
       set_config set_cameraConfigs gColumns gRows numCameras].
  assert (Ht : forall z, truthyZ z = negb (z =? 0)%Z) by reflexivity.
  split; [unfold clamp; lia|].
  split; [rewrite Ht; destruct (Z.eqb_spec (from_option gColumns 0%Z gridConfig) 0);
          simpl; lia|].
  split; [rewrite Ht; destruct (Z.eqb_spec (from_option gRows 0%Z gridConfig) 0);
          simpl; lia|].
  split.
  { intros g ->. cbn [from_option]. rewrite !Ht.
    destruct (Z.eqb_spec (gColumns g) 0), (Z.eqb_spec (gRows g) 0),
      (Z.eqb_spec (numCameras g) 0); simpl; unfold clamp; repeat split; lia. }
  split; [by intros ->|]. done.
Qed.

Lemma updateConfig_normalises_witness :
  let s' := updateConfig None (Some {| gColumns := 2; gRows := 0; numCameras := 40 |})
              liveSession in
  gColumns (config s') = 2%Z /\ gRows (config s') = 1%Z /\ numCameras (config s') = 18%Z.
Proof.
  intros s'.
  destruct (updateConfig_normalises None
              (Some {| gColumns := 2; gRows := 0; numCameras := 40 |}) liveSession)
    as (_ & _ & _ & H & _).
  destruct (H _ eq_refl) as (H1 & _ & _ & H4 & _ & _ & H7).
  split; [apply H1; discriminate|]. split; [exact (H4 eq_refl)|apply H7; reflexivity].
Defined.

Lemma padConfigs_lookup_old k cfgs i c :
  cfgs !! i = Some c -> padConfigs k cfgs !! i = Some c.
Proof.
  revert cfgs. induction k as [|k IH]; intros cfgs H; simpl; [done|].
  apply IH. by apply lookup_app_l_Some.
Qed.

Lemma padConfigs_lookup_new k cfgs i :
  (length cfgs <= i < length cfgs + k)%nat ->
  padConfigs k cfgs !! i = Some {| url := ""; name := "Camera " +:+ pretty (S i) |}.
Proof.
  revert cfgs. induction k as [|k IH]; intros cfgs H; simpl; [lia|].
  destruct (decide (i = length cfgs)) as [->|Hne].
  - apply padConfigs_lookup_old. rewrite lookup_app_r by lia.
    by rewrite Nat.sub_diag.
  - apply IH. rewrite length_app. simpl. lia.
Qed.

(** [updateGridLayout] clamps the camera count to 1..18, takes columns and
    rows from [calculateGridLayout], and pads the configuration list with
    empty entries named "Camera k" up to the count.  It never shortens the
    list and never changes an existing entry; no session, timer or element
    is touched. *)
Theorem updateGridLayout_pads (n : Z) (s : Mgr) :
  let s' := updateGridLayout n s in
  let k := clamp n 1 18 in
  numCameras (config s') = k /\
  gColumns (config s') = columns (calculateGridLayout n) /\
  gRows (config s') = rows (calculateGridLayout n) /\
  length (cameraConfigs s') = Nat.max (length (cameraConfigs s)) (Z.to_nat k) /\
  (forall i c, cameraConfigs s !! i = Some c -> cameraConfigs s' !! i = Some c) /\
  (forall i, (length (cameraConfigs s) <= i < Z.to_nat k)%nat ->
     cameraConfigs s' !! i = Some {| url := ""; name := "Camera " +:+ pretty (S i) |}) /\
  cameras s' = cameras s /\ heap s' = heap s /\ timers s' = timers s /\
  videos s' = videos s /\ trace s' = trace s.
Proof.
  cbv zeta. rewrite updateGridLayout_config. cbn [numCameras gColumns gRows].
  split; [done|]. split; [done|]. split; [done|].
  unfold updateGridLayout. cbv zeta.
  cbn [cameraConfigs cameras heap timers videos trace set_config set_cameraConfigs].
  split; [rewrite padConfigs_length; lia|].
  split; [intros i c; apply padConfigs_lookup_old|].
  split; [|done]. intros i Hi. apply padConfigs_lookup_new. lia.
Qed.

Lemma updateGridLayout_pads_witness :
  cameraConfigs (updateGridLayout 3 liveSession) !! 2%nat
    = Some {| url := ""; name := "Camera 3" |}.
Proof.
  exact (proj1 (proj2 (proj2 (proj2 (proj2 (proj2
           (updateGridLayout_pads 3 liveSession)))))) 2%nat
           (conj (le_S _ _ (le_n 1)) (le_n 3))).
Defined.
(** * utils/helpers.js: throttle and debounce

    The closures returned by [throttle(func, limit)] and
    [debounce(func, wait)], with the timers they arm and a log of the runs
    of [func].  [func] is any function; what is recorded of a run is its
    arguments, the time, whether it threw, and the calls of the throttled
    function it made from inside. *)

(** One call of the throttled function: its arguments and, should [func]
    run for it, the calls of the throttled function that this run of
    [func] makes before it returns or throws. *)
#[local] Unset Elimination Schemes.
Inductive Call (A : Type) := Invoke (args : A) (inner : list (Call A)).
#[local] Set Elimination Schemes.
Arguments Invoke {A} args inner.

Lemma Call_induction {A} (P : Call A -> Prop)
    (H : forall args inner, Forall P inner -> P (Invoke args inner)) (c : Call A) : P c.
Proof.
  revert c. fix IH 1. intros [args inner]. apply H.
  induction inner as [|c' cs IHcs]; constructor; [apply IH|exact IHcs].
Qed.

Section Throttle.
Context {A : Type}.
Variable throws : A -> bool.
Variable limit : Q.

Record Throttled := {
  inThrottle : bool;                 (* [let inThrottle]: undefined is falsy *)
  thResets : list (nat * Q);         (* pending [() => inThrottle = false] timers: id, due *)
  thNextId : nat;
  thClock : Q;
  thRuns : list (Q * A);             (* runs of [func], newest first *)
}.

(** [setTimeout] treats a negative delay as 0. *)
Definition delayed (clock delay : Q) : Q := (clock + Qmax 0 delay)%Q.

Definition throttle : Throttled :=
  {| inThrottle := false; thResets := []; thNextId := 1; thClock := 0; thRuns := [] |}.

Definition logRun (args : A) (st : Throttled) : Throttled :=
  {| inThrottle := inThrottle st; thResets := thResets st; thNextId := thNextId st;
     thClock := thClock st; thRuns := (thClock st, args) :: thRuns st |}.

(** [inThrottle = true; setTimeout(() => (inThrottle = false), limit)] *)
Definition armReset (st : Throttled) : Throttled :=
  {| inThrottle := true;
     thResets := thResets st ++ [(thNextId st, delayed (thClock st) limit)];
     thNextId := S (thNextId st); thClock := thClock st; thRuns := thRuns st |}.

(** A call of the throttled function.  [func] runs first, with the flag
    still unset, so a call it makes from inside runs [func] again; the flag
    is set and the reset timer armed after [func] has returned.  When
    [func] throws, the exception leaves the closure before that. *)
Fixpoint throttledCall (c : Call A) (st : Throttled) : Throttled :=
  match c with
  | Invoke args inner =>
      if inThrottle st then st
      else
        let st := logRun args st in
        let st :=
          (fix calls (cs : list (Call A)) (st : Throttled) : Throttled :=
             match cs with
             | [] => st
             | c' :: cs' => calls cs' (throttledCall c' st)
             end) inner st in
        if throws args then st else armReset st
  end.

Inductive ThEvent :=
| ThAdvance (dt : Q)
| ThCall (c : Call A)
| ThFire (id : nat).

Definition thStep (ev : ThEvent) (st : Throttled) : option Throttled :=
  match ev with
  | ThAdvance dt =>
      if Qle_bool 0 dt then
        Some {| inThrottle := inThrottle st; thResets := thResets st;
                thNextId := thNextId st; thClock := (thClock st + dt)%Q;
                thRuns := thRuns st |}
      else None
  | ThCall c => Some (throttledCall c st)
  | ThFire id =>
      match List.find (fun t => Nat.eqb t.1 id) (thResets st) with
      | Some t =>
          if Qle_bool t.2 (thClock st) then
            Some {| inThrottle := false;
                    thResets := List.filter (fun t' => negb (Nat.eqb t'.1 id)) (thResets st);
                    thNextId := thNextId st; thClock := thClock st; thRuns := thRuns st |}
          else None
      | None => None
      end
  end.

Fixpoint thRun (evs : list ThEvent) (st : Throttled) : option Throttled :=
  match evs with
  | [] => Some st
  | ev :: evs' =>
      match thStep ev st with
      | Some st' => thRun evs' st'
      | None => None
      end
  end.

(** [func] does not call the throttled function from inside. *)
Definition plain (ev : ThEvent) : bool :=
  match ev with
  | ThCall (Invoke _ (_ :: _)) => false
  | _ => true
  end.

(** Runs are in time order. *)
Fixpoint ordered (runs : list (Q * A)) : Prop :=
  match runs with
  | later :: (((earlier :: _) as rest)) => (earlier.1 <= later.1)%Q /\ ordered rest
  | _ => True
  end.

Definition thOrd (st : Throttled) : Prop :=
  ordered (thRuns st) /\ (forall r, r ∈ thRuns st -> (r.1 <= thClock st)%Q).

(** Consecutive runs are at least [limit] apart, unless the earlier one
    threw. *)
Fixpoint spaced (runs : list (Q * A)) : Prop :=
  match runs with
  | later :: (((earlier :: _) as rest)) =>
      (throws earlier.2 = false -> (earlier.1 + limit <= later.1)%Q) /\
      (earlier.1 <= later.1)%Q /\ spaced rest
  | _ => True
  end.

Definition thInv (st : Throttled) : Prop :=
  spaced (thRuns st) /\
  (forall r, r ∈ thRuns st -> (r.1 <= thClock st)%Q) /\
  if inThrottle st then
    exists r rest id,
      thRuns st = r :: rest /\ throws r.2 = false /\
      thResets st = [(id, delayed r.1 limit)]
  else
    thResets st = [] /\
    match thRuns st with
    | r :: _ => throws r.2 = false -> (r.1 + limit <= thClock st)%Q
    | [] => True
    end.

End Throttle.

Section ThrottleFacts.
Context {A : Type}.
Variable throws : A -> bool.
Variable limit : Q.

Lemma throttledCall_plain args st :
  throttledCall throws limit (Invoke args []) st =
    if inThrottle st then st
    else if throws args then logRun args st else armReset limit (logRun args st).
Proof. reflexivity. Qed.

Lemma thOrd_call c : forall st,
  thOrd st ->
  thOrd (throttledCall throws limit c st) /\
  thClock (throttledCall throws limit c st) = thClock st.
Proof.
  induction c as [args inner IH] using Call_induction. intros st Hst. simpl.
  destruct (inThrottle st); [done|].
  assert (H0 : thOrd (logRun args st) /\ thClock (logRun args st) = thClock st).
  { split; [|done]. destruct Hst as [Ho Hle]. split; simpl.
    - destruct (thRuns st) as [|r rest] eqn:E; [done|]. split; [|done].
      apply (Hle r). left.
    - intros r Hr. apply elem_of_cons in Hr as [->|Hr]; [simpl; lra|by apply Hle]. }
  generalize dependent (logRun args st). intros st0 [Hord Hclk].
  assert (H1 : forall st1, thOrd st1 -> thClock st1 = thClock st ->
            let st2 := (fix calls (cs : list (Call A)) (st : Throttled) : Throttled :=
                          match cs with
                          | [] => st
                          | c' :: cs' => calls cs' (throttledCall throws limit c' st)
                          end) inner st1 in
            thOrd st2 /\ thClock st2 = thClock st).
  { induction IH as [|c' cs' Hc' _ IHcs]; intros st1 Ho1 Hc1; simpl; [done|].
    destruct (Hc' st1 Ho1) as [Ho2 Hc2]. apply IHcs; [done|congruence]. }
  destruct (H1 st0 Hord Hclk) as [Ho2 Hc2].
  destruct (throws args); [done|]. split; [|done]. exact Ho2.
Qed.

Lemma thOrd_step ev st st' :
  thOrd st -> thStep throws limit ev st = Some st' -> thOrd st'.
Proof.
  intros Hst Hstep. destruct ev as [dt|c|id]; simpl in Hstep.
  - destruct (Qle_bool 0 dt) eqn:Hdt; [|done]. simplify_eq.
    apply Qle_bool_iff in Hdt. destruct Hst as [Ho Hle]. split; [done|]. simpl.
    intros r Hr. specialize (Hle r Hr). lra.
  - simplify_eq. by apply thOrd_call.
  - repeat case_match; by simplify_eq.
Qed.

Lemma thOrd_run evs st st' :
  thOrd st -> thRun throws limit evs st = Some st' -> thOrd st'.
Proof.
  revert st. induction evs as [|ev evs IH]; intros st Hinv Hrun; simpl in Hrun.
  - by simplify_eq.
  - destruct (thStep throws limit ev st) as [st1|] eqn:Hstep; [|done].
    eapply IH; [|exact Hrun]. by eapply thOrd_step.
Qed.

Lemma ordered_consecutive (runs pre post : list (Q * A)) later earlier :
  ordered runs -> runs = pre ++ later :: earlier :: post -> (earlier.1 <= later.1)%Q.
Proof.
  revert runs. induction pre as [|p pre IH]; intros runs Hsp ->; simpl in Hsp.
  - by destruct Hsp as (H1 & _).
  - apply (IH (pre ++ later :: earlier :: post)); [|done].
    destruct pre; simpl in *; by destruct Hsp as (_ & H).
Qed.

Lemma thInv_init : thInv throws limit (@throttle A).
Proof. repeat split. intros r Hr. by apply elem_of_nil in Hr. Qed.

Lemma thInv_step ev st st' :
  plain ev = true ->
  thInv throws limit st -> thStep throws limit ev st = Some st' -> thInv throws limit st'.
Proof.
  intros Hplain (Hsp & Hle & Hst) Hstep. destruct ev as [dt|[args inner]|id]; simpl in Hstep.
  - destruct (Qle_bool 0 dt) eqn:Hdt; [|done]. simplify_eq.
    apply Qle_bool_iff in Hdt. unfold thInv. simpl.
    split; [done|]. split; [intros r Hr; specialize (Hle r Hr); lra|].
    destruct (inThrottle st); [done|]. destruct Hst as [Hr Hhead]. split; [done|].
    destruct (thRuns st) as [|r rest]; [done|]. intros Hth. specialize (Hhead Hth). lra.
  - destruct inner as [|c' inner]; [|done]. simplify_eq.
    destruct (inThrottle st) eqn:Hin; [unfold thInv; by rewrite Hin|].
    destruct Hst as [Hres Hhead].
    assert (Hsp' : spaced throws limit ((thClock st, args) :: thRuns st)).
    { destruct (thRuns st) as [|r rest] eqn:Hruns; [done|]. simpl.
      split; [exact Hhead|]. split; [|done]. apply (Hle r). left. }
    assert (Hle' : forall r, r ∈ (thClock st, args) :: thRuns st -> (r.1 <= thClock st)%Q).
    { intros r Hr. apply elem_of_cons in Hr as [->|Hr]; [simpl; lra|by apply Hle]. }
    destruct (throws args) eqn:Hth; unfold thInv; simpl; rewrite ?Hin.
    + split; [done|]. split; [done|]. split; [done|]. by rewrite Hth.
    + split; [done|]. split; [done|].
      exists (thClock st, args), (thRuns st), (thNextId st). by rewrite Hres.
  - destruct (List.find _ (thResets st)) as [t|] eqn:Hfind; [|done].
    destruct (Qle_bool t.2 (thClock st)) eqn:Hdue; [|done]. simplify_eq.
    apply Qle_bool_iff in Hdue.
    destruct (inThrottle st); [|by destruct Hst as [Hres _]; rewrite Hres in Hfind].
    destruct Hst as (r & rest & id0 & Hruns & Hth & Hres).
    rewrite Hres in Hfind. simpl in Hfind.
    destruct (Nat.eqb_spec id0 id) as [->|Hne]; [|done]. simplify_eq. simpl in Hdue.
    unfold thInv. simpl. split; [done|]. split; [done|].
    rewrite Hres. simpl. rewrite Nat.eqb_refl. simpl. split; [done|].
    rewrite Hruns. intros _. unfold delayed in Hdue.
    pose proof (Q.le_max_r 0 limit). lra.
Qed.

Lemma thInv_run evs st st' :
  forallb plain evs = true ->
  thInv throws limit st -> thRun throws limit evs st = Some st' -> thInv throws limit st'.
Proof.
  revert st. induction evs as [|ev evs IH]; intros st Hplain Hinv Hrun; simpl in *.
  - by simplify_eq.
  - apply andb_true_iff in Hplain as [Hp Hps].
    destruct (thStep throws limit ev st) as [st1|] eqn:Hstep; [|done].
    eapply IH; [done| |exact Hrun]. by eapply thInv_step.
Qed.

Lemma spaced_consecutive (runs pre post : list (Q * A)) later earlier :
  spaced throws limit runs ->
  runs = pre ++ later :: earlier :: post ->
  (throws earlier.2 = false -> (earlier.1 + limit <= later.1)%Q) /\
  (earlier.1 <= later.1)%Q.
Proof.
  revert runs. induction pre as [|p pre IH]; intros runs Hsp ->; simpl in Hsp.
  - by destruct Hsp as (H1 & H2 & _).
  - apply (IH (pre ++ later :: earlier :: post)); [|done].
    destruct pre; simpl in *; by destruct Hsp as (_ & _ & H).
Qed.

End ThrottleFacts.

(** [throttle(func, limit)]: whenever the reset timers fire (never before
    they are due), the runs of [func] are in time order.  If [func] never
    calls the throttled function from inside itself, then moreover two
    consecutive runs of [func] are at least [limit] apart, unless the
    earlier run threw (the exception leaves before the flag is set), and at
    most one reset timer is pending.  Calls made in between are dropped,
    not deferred. *)
Theorem throttle_spacing {A : Type} (throws : A -> bool) (limit : Q)
    (evs : list (ThEvent (A:=A))) (st : Throttled) :
  thRun throws limit evs throttle = Some st ->
  (forall pre later earlier post,
     thRuns st = pre ++ later :: earlier :: post -> (earlier.1 <= later.1)%Q) /\
  (forallb plain evs = true ->
     (forall pre later earlier post,
        thRuns st = pre ++ later :: earlier :: post ->
        throws earlier.2 = false -> (earlier.1 + limit <= later.1)%Q) /\
     (length (thResets st) <= 1)%nat /\
     (inThrottle st = true <-> thResets st <> [])).
Proof.
  intros Hrun. split.
  - assert (H0 : thOrd (@throttle A)).
    { split; [done|]. intros r Hr. by apply elem_of_nil in Hr. }
    destruct (thOrd_run throws limit evs _ _ H0 Hrun) as [Ho _].
    intros pre later earlier post Heq. by eapply ordered_consecutive.
  - intros Hplain.
    destruct (thInv_run throws limit evs _ _ Hplain (thInv_init throws limit) Hrun)
      as (Hsp & _ & Hst).
    split; [intros pre later earlier post Heq;
            by eapply (proj1 (spaced_consecutive throws limit _ _ _ _ _ Hsp Heq))|].
    destruct (inThrottle st).
    + destruct Hst as (r & rest & id & _ & _ & ->). simpl. split; [lia|]. by split.
    + destruct Hst as [-> _]. simpl. split; [lia|]. by split.
Qed.

Definition dragMoves : list (ThEvent (A:=nat)) :=
  [ThCall (Invoke 1%nat []); ThAdvance 5; ThCall (Invoke 2%nat []); ThAdvance 11;
   ThFire 1; ThCall (Invoke 3%nat [])].

Lemma throttle_spacing_witness :
  thRuns (default throttle (thRun (fun _ => false) 16 dragMoves throttle))
    = [(16%Q, 3%nat); (0%Q, 1%nat)] /\
  (0 + 16 <= 16)%Q.
Proof.
  split; [reflexivity|].
  assert (Hrun : thRun (fun _ => false) 16 dragMoves throttle
                 = Some (default throttle (thRun (fun _ : nat => false) 16 dragMoves throttle)))
    by reflexivity.
  destruct (throttle_spacing (fun _ => false) 16 dragMoves _ Hrun) as (_ & H).
  destruct (H eq_refl) as (Hsp & _).
  exact (Hsp [] (16%Q, 3%nat) (0%Q, 1%nat) [] eq_refl eq_refl).
Defined.

(** What a call from inside [func] does: [func] runs for it at once, at
    the same instant as the run that made it, and both runs arm a reset
    timer.  Once the first timer has fired and [func] has run again, the
    second timer clears the flag a second time, and the next call runs
    [func] only 1 ms after the previous run. *)
Lemma throttle_reentrant_call :
  exists st,
    thRun (fun _ : nat => false) 16
      [ ThCall (Invoke 1%nat [Invoke 2%nat []]); ThAdvance 16; ThFire 1;
        ThCall (Invoke 3%nat []); ThFire 2; ThAdvance 1; ThCall (Invoke 4%nat []) ]
      throttle = Some st /\
    thRuns st = [(17%Q, 4%nat); (16%Q, 3%nat); (0%Q, 2%nat); (0%Q, 1%nat)] /\
    length (thResets st) = 2%nat.
Proof. eexists. split; [reflexivity|]. split; reflexivity. Qed.

Section Debounce.
Context {A : Type}.
Variable wait : Q.

(** What happened, newest first: a call of the debounced function, or a
    run of [func]. *)
Inductive DbEntry :=
| Called (t : Q) (args : A)
| Ran (t : Q) (args : A).

Record Debounced := {
  timeout : option nat;               (* [let timeout] *)
  dbPending : list (nat * Q * A);     (* pending [() => func.apply(context, args)] timers *)
  dbNextId : nat;
  dbClock : Q;
  dbHistory : list DbEntry;
}.

Definition debounce : Debounced :=
  {| timeout := None; dbPending := []; dbNextId := 1; dbClock := 0; dbHistory := [] |}.

(** [clearTimeout(timeout); timeout = setTimeout(..., wait)] *)
Definition debouncedCall (args : A) (st : Debounced) : Debounced :=
  let pending :=
    match timeout st with
    | Some id => List.filter (fun t => negb (Nat.eqb t.1.1 id)) (dbPending st)
    | None => dbPending st
    end in
  {| timeout := Some (dbNextId st);
     dbPending := pending ++ [(dbNextId st, delayed (dbClock st) wait, args)];
     dbNextId := S (dbNextId st); dbClock := dbClock st;
     dbHistory := Called (dbClock st) args :: dbHistory st |}.

Inductive DbEvent :=
| DbAdvance (dt : Q)
| DbCall (args : A)
| DbFire (id : nat).

Definition dbStep (ev : DbEvent) (st : Debounced) : option Debounced :=
  match ev with
  | DbAdvance dt =>
      if Qle_bool 0 dt then
        Some {| timeout := timeout st; dbPending := dbPending st; dbNextId := dbNextId st;
                dbClock := (dbClock st + dt)%Q; dbHistory := dbHistory st |}
      else None
  | DbCall args => Some (debouncedCall args st)
  | DbFire id =>
      match List.find (fun t => Nat.eqb t.1.1 id) (dbPending st) with
      | Some t =>
          if Qle_bool t.1.2 (dbClock st) then
            Some {| timeout := timeout st;
                    dbPending :=
                      List.filter (fun t' => negb (Nat.eqb t'.1.1 id)) (dbPending st);
                    dbNextId := dbNextId st; dbClock := dbClock st;
                    dbHistory := Ran (dbClock st) t.2 :: dbHistory st |}
          else None
      | None => None
      end
  end.

Fixpoint dbRun (evs : list DbEvent) (st : Debounced) : option Debounced :=
  match evs with
  | [] => Some st
  | ev :: evs' =>
      match dbStep ev st with
      | Some st' => dbRun evs' st'
      | None => None
      end
  end.

(** Every run directly follows the call whose arguments it uses, at least
    [wait] later. *)
Fixpoint trailing (h : list DbEntry) : Prop :=
  match h with
  | Ran t args :: rest =>
      match rest with
      | Called t0 args0 :: _ => args0 = args /\ (t0 + wait <= t)%Q
      | _ => False
      end /\ trailing rest
  | Called _ _ :: rest => trailing rest
  | [] => True
  end.

Definition dbInv (st : Debounced) : Prop :=
  trailing (dbHistory st) /\
  (forall t args, Called t args ∈ dbHistory st -> (t <= dbClock st)%Q) /\
  (forall id, timeout st = Some id -> (id < dbNextId st)%nat) /\
  (dbPending st = [] \/
   exists t0 args rest,
     dbHistory st = Called t0 args :: rest /\
     timeout st = Some (pred (dbNextId st)) /\ (0 < dbNextId st)%nat /\
     dbPending st = [(pred (dbNextId st), delayed t0 wait, args)]).

End Debounce.

Section DebounceFacts.
Context {A : Type}.
Variable wait : Q.

Lemma dbInv_init : dbInv wait (@debounce A).
Proof.
  split; [done|]. split; [intros t args H; by apply elem_of_nil in H|].
  split; [done|by left].
Qed.

Lemma dbInv_step ev (st st' : Debounced (A:=A)) :
  dbInv wait st -> dbStep wait ev st = Some st' -> dbInv wait st'.
Proof.
  intros (Htr & Hle & Hid & Hp) Hstep. destruct ev as [dt|args|id]; simpl in Hstep.
  - destruct (Qle_bool 0 dt) eqn:Hdt; [|done]. simplify_eq.
    apply Qle_bool_iff in Hdt. unfold dbInv. simpl.
    split; [done|]. split; [intros t args H; specialize (Hle t args H); lra|].
    split; done.
  - simplify_eq. unfold debouncedCall, dbInv. simpl.
    split; [done|]. split.
    { intros t a H. apply elem_of_cons in H as [H|H]; [simplify_eq; lra|by eapply Hle]. }
    split; [intros id ?; simplify_eq; lia|].
    right. exists (dbClock st), args, (dbHistory st).
    split; [done|]. split; [done|]. split; [lia|].
    destruct Hp as [->|(t0 & a0 & rest & _ & Hto & Hpos & ->)].
    + by destruct (timeout st).
    + rewrite Hto. simpl. by rewrite Nat.eqb_refl.
  - destruct (List.find _ (dbPending st)) as [t|] eqn:Hfind; [|done].
    destruct (Qle_bool t.1.2 (dbClock st)) eqn:Hdue; [|done]. simplify_eq.
    apply Qle_bool_iff in Hdue.
    destruct Hp as [Hp|(t0 & a0 & rest & Hh & Hto & Hpos & Hp)];
      [by rewrite Hp in Hfind|].
    rewrite Hp in Hfind. simpl in Hfind.
    destruct (Nat.eqb_spec (pred (dbNextId st)) id) as [<-|Hne]; [|done].
    simplify_eq. simpl in Hdue. unfold dbInv. simpl.
    split.
    { rewrite Hh. split; [|by rewrite Hh in Htr]. split; [done|].
      unfold delayed in Hdue. pose proof (Q.le_max_r 0 wait). lra. }
    split.
    { intros t a H. apply elem_of_cons in H as [H|H]; [done|by eapply Hle]. }
    split; [done|]. left. rewrite Hp. simpl. by rewrite Nat.eqb_refl.
Qed.

Lemma dbInv_run evs (st st' : Debounced (A:=A)) :
  dbInv wait st -> dbRun wait evs st = Some st' -> dbInv wait st'.
Proof.
  revert st. induction evs as [|ev evs IH]; intros st Hinv Hrun; simpl in Hrun.
  - by simplify_eq.
  - destruct (dbStep wait ev st) as [st1|] eqn:Hstep; [|done].
    eapply IH; [|exact Hrun]. by eapply dbInv_step.
Qed.

Lemma trailing_at (h pre post : list (DbEntry (A:=A))) t args :
  trailing wait h -> h = pre ++ Ran t args :: post ->
  exists t0 post', post = Called t0 args :: post' /\ (t0 + wait <= t)%Q.
Proof.
  revert h. induction pre as [|e pre IH]; intros h Htr ->; simpl in Htr.
  - destruct Htr as [H _]. destruct post as [|[t0 a0|t0 a0] post']; try done.
    destruct H as [-> H]. eauto.
  - apply (IH (pre ++ Ran t args :: post)); [|done].
    destruct e; [done|by destruct Htr].
Qed.

End DebounceFacts.

(** [debounce(func, wait)]: however the debounced function is called and
    whenever its timers fire (never before they are due), every run of
    [func] directly follows the call whose arguments it uses, with no other
    call or run in between, and happens at least [wait] after that call.  So
    only the last call of a burst is run, once; at most one timer is
    pending. *)
Theorem debounce_runs_last_call {A : Type} (wait : Q) (evs : list (DbEvent (A:=A)))
    (st : Debounced) :
  dbRun wait evs debounce = Some st ->
  (forall pre t args post,
     dbHistory st = pre ++ Ran t args :: post ->
     exists t0 post', post = Called t0 args :: post' /\ (t0 + wait <= t)%Q) /\
  (length (dbPending st) <= 1)%nat.
Proof.
  intros Hrun.
  destruct (dbInv_run wait evs _ _ (dbInv_init wait) Hrun) as (Htr & _ & _ & Hp).
  split; [intros pre t args post Heq; by eapply trailing_at|].
  destruct Hp as [->|(t0 & a0 & rest & _ & _ & _ & ->)]; simpl; lia.
Qed.

Definition resizeBurst : list (DbEvent (A:=nat)) :=
  [DbCall 1%nat; DbAdvance 100; DbCall 2%nat; DbAdvance 250; DbFire 2].

Lemma debounce_runs_last_call_witness :
  dbHistory (default debounce (dbRun 250 resizeBurst debounce))
    = [Ran 350 2%nat; Called 100 2%nat; Called 0 1%nat] /\
  (100 + 250 <= 350)%Q.
Proof.
  split; [reflexivity|].
  assert (Hrun : dbRun 250 resizeBurst debounce
                 = Some (default debounce (dbRun 250 resizeBurst debounce)))
    by reflexivity.
  destruct (debounce_runs_last_call 250 resizeBurst _ Hrun) as (H & _).
  destruct (H [] 350%Q 2%nat [Called 100 2%nat; Called 0 1%nat] eq_refl)
    as (t0 & post' & Hpost & Hle).
  injection Hpost as <- _. exact Hle.
Defined.

(** * utils/helpers.js: deepMerge

    JavaScript values as far as [deepMerge] looks at them.  An object is
    the list of its own enumerable properties; the theorems below only
    speak about property lookup, not about the order of the keys. *)

#[local] Unset Elimination Schemes.
Inductive JVal :=
| JUndefined
| JNull
| JBool (b : bool)
| JNum (q : Q)
| JStr (s : string)
| JArr (items : list JVal)
| JObj (props : list (string * JVal)).
#[local] Set Elimination Schemes.

(** [obj[key]] for an own property. *)
Fixpoint getProp (key : string) (props : list (string * JVal)) : option JVal :=
  match props with
  | [] => None
  | (k, v) :: rest => if String.eqb k key then Some v else getProp key rest
  end.

(** [obj[key] = v] *)
Fixpoint setProp (key : string) (v : JVal) (props : list (string * JVal))
  : list (string * JVal) :=
  match props with
  | [] => [(key, v)]
  | (k, v') :: rest =>
      if String.eqb k key then (k, v) :: rest else (k, v') :: setProp key v rest
  end.

Definition truthy (v : JVal) : bool :=
  match v with
  | JUndefined | JNull => false
  | JBool b => b
  | JNum q => negb (Qeq_bool q 0)
  | JStr s => negb (String.eqb s EmptyString)
  | JArr _ | JObj _ => true
  end.

(** The index keys of an array or a string: "0", "1", ... *)
Fixpoint indexed {B} (i : nat) (xs : list B) : list (string * B) :=
  match xs with
  | [] => []
  | x :: rest => (pretty i, x) :: indexed (S i) rest
  end.

(** A string is the list of its code units, one character each. *)
Fixpoint chars (s : string) : list JVal :=
  match s with
  | EmptyString => []
  | String c rest => JStr (String c EmptyString) :: chars rest
  end.

(** The own enumerable properties [{ ...v }] copies and [for (key in v)]
    visits. *)
Definition ownProps (v : JVal) : list (string * JVal) :=
  match v with
  | JObj props => props
  | JArr items => indexed 0 items
  | JStr s => indexed 0 (chars s)
  | _ => []
  end.

(** [result[key] || {}] *)
Definition orEmpty (v : option JVal) : JVal :=
  match v with
  | Some v => if truthy v then v else JObj []
  | None => JObj []
  end.

Fixpoint deepMerge (target source : JVal) {struct source} : JVal :=
  let mergeInto :=
    fix mergeInto (entries : list (string * JVal)) (result : list (string * JVal)) :=
      match entries with
      | [] => result
      | (key, v) :: rest =>
          mergeInto rest
            (setProp key
               (match v with
                | JObj _ => deepMerge (orEmpty (getProp key result)) v
                | _ => v
                end) result)
      end in
  match source with
  | JObj props => JObj (mergeInto props (ownProps target))
  | JArr items =>
      JObj ((fix mergeItems (i : nat) (items : list JVal) (result : list (string * JVal)) :=
               match items with
               | [] => result
               | v :: rest =>
                   mergeItems (S i) rest
                     (setProp (pretty i)
                        (match v with
                         | JObj _ => deepMerge (orEmpty (getProp (pretty i) result)) v
                         | _ => v
                         end) result)
               end) 0%nat items (ownProps target))
  | JStr s => JObj (foldl (fun result '(key, v) => setProp key v result)
                      (ownProps target) (indexed 0 (chars s)))
  | _ => JObj (ownProps target)
  end.

(** The value [deepMerge] stores under [key] for the source value [v]. *)
Definition mergeValue (result : list (string * JVal)) (key : string) (v : JVal) : JVal :=
  match v with
  | JObj _ => deepMerge (orEmpty (getProp key result)) v
  | _ => v
  end.

Definition mergeProps (entries result : list (string * JVal)) : list (string * JVal) :=
  foldl (fun result '(key, v) => setProp key (mergeValue result key v) result) result entries.

(** A value as [JSON.parse] or an object literal gives it: the keys of an
    object are distinct, and none is ["__proto__"] (assigning to that key
    sets the prototype instead of a property). *)
Fixpoint wellFormed (v : JVal) : Prop :=
  match v with
  | JObj props =>
      NoDup (map fst props) /\
      (fix all (ps : list (string * JVal)) : Prop :=
         match ps with
         | [] => True
         | (k, x) :: rest => k <> "__proto__" /\ wellFormed x /\ all rest
         end) props
  | JArr items =>
      (fix all (xs : list JVal) : Prop :=
         match xs with
         | [] => True
         | x :: rest => wellFormed x /\ all rest
         end) items
  | _ => True
  end.

Lemma deepMerge_obj target props :
  deepMerge target (JObj props) = JObj (mergeProps props (ownProps target)).
Proof.
  unfold mergeProps. cbn [deepMerge]. f_equal.
  generalize (ownProps target). induction props as [|[k v] props IH]; intros result.
  - reflexivity.
  - cbn [foldl]. rewrite <- IH. reflexivity.
Qed.

Lemma getProp_setProp_eq k v r : getProp k (setProp k v r) = Some v.
Proof.
  induction r as [|[k' v'] r IH]; simpl.
  - by rewrite String.eqb_refl.
  - destruct (String.eqb_spec k' k) as [->|Hne]; simpl.
    + by rewrite String.eqb_refl.
    + destruct (String.eqb_spec k' k); [done|exact IH].
Qed.

Lemma getProp_setProp_ne k k' v r : k <> k' -> getProp k' (setProp k v r) = getProp k' r.
Proof.
  intros Hne. induction r as [|[k0 v0] r IH]; simpl.
  - destruct (String.eqb_spec k k'); [done|reflexivity].
  - destruct (String.eqb_spec k0 k) as [->|Hk]; simpl.
    + destruct (String.eqb_spec k k'); [done|reflexivity].
    + destruct (String.eqb_spec k0 k'); [reflexivity|exact IH].
Qed.

Lemma getProp_None k (ps : list (string * JVal)) : k ∉ map fst ps -> getProp k ps = None.
Proof.
  induction ps as [|[k' v'] ps IH]; simpl; [done|]. intros Hnin.
  destruct (String.eqb_spec k' k) as [->|Hne].
  - exfalso. apply Hnin. left.
  - apply IH. intros Hin. apply Hnin. by right.
Qed.

Lemma mergeProps_lookup entries result key :
  NoDup (map fst entries) ->
  getProp key (mergeProps entries result) =
    match getProp key entries with
    | Some v => Some (mergeValue result key v)
    | None => getProp key result
    end.
Proof.
  unfold mergeProps. revert result.
  induction entries as [|[k v] entries IH]; intros result Hnd; [reflexivity|].
  simpl in Hnd. apply NoDup_cons in Hnd as [Hnin Hnd].
  cbn [foldl getProp]. rewrite IH by done.
  destruct (String.eqb_spec k key) as [->|Hne].
  - rewrite (getProp_None key entries Hnin). apply getProp_setProp_eq.
  - destruct (getProp key entries) as [x|].
    + f_equal. unfold mergeValue. destruct x; try reflexivity.
      by rewrite getProp_setProp_ne.
    + by apply getProp_setProp_ne.
Qed.

(** [deepMerge(target, source)] for an object [source], property by
    property.  A key the source does not have keeps the target's value.  A
    source value that is not a plain object (a number, string, boolean,
    null, or an array) replaces the target's value.  A source value that is
    an object is merged, recursively, into the target's value under that key,
    or into an empty object when the target has none there or a falsy one. *)
Theorem deepMerge_lookup (target : JVal) (props : list (string * JVal)) (key : string) :
  wellFormed (JObj props) ->
  exists merged,
    deepMerge target (JObj props) = JObj merged /\
    getProp key merged =
      match getProp key props with
      | Some (JObj inner) =>
          Some (deepMerge (orEmpty (getProp key (ownProps target))) (JObj inner))
      | Some v => Some v
      | None => getProp key (ownProps target)
      end.
Proof.
  intros [Hnd _]. exists (mergeProps props (ownProps target)).
  split; [apply deepMerge_obj|].
  rewrite mergeProps_lookup by done.
  destruct (getProp key props) as [[]|]; reflexivity.
Qed.

(** Defaults and a loaded configuration that overrides one nested field. *)
Definition defaults : JVal :=
  JObj [ ("cameraGrid", JObj [("columns", JNum 2); ("rows", JNum 2)]);
         ("calendarFontSize", JNum 3) ].

Definition loaded : list (string * JVal) :=
  [ ("cameraGrid", JObj [("rows", JNum 3)]) ].

Lemma deepMerge_lookup_witness :
  exists merged,
    deepMerge defaults (JObj loaded) = JObj merged /\
    getProp "cameraGrid" merged
      = Some (JObj [("columns", JNum 2); ("rows", JNum 3)]) /\
    getProp "calendarFontSize" merged = Some (JNum 3).
Proof.
  assert (Hwf : wellFormed (JObj loaded)).
  { split; [apply NoDup_cons; split; [apply not_elem_of_nil|apply NoDup_nil_2]|].
    repeat split; try done. apply NoDup_cons; split; [apply not_elem_of_nil|apply NoDup_nil_2]. }
  destruct (deepMerge_lookup defaults loaded "cameraGrid" Hwf) as (merged & Heq & H1).
  destruct (deepMerge_lookup defaults loaded "calendarFontSize" Hwf) as (merged' & Heq' & H2).
  rewrite Heq in Heq'. injection Heq' as <-.
  exists merged. split; [exact Heq|]. split; [exact H1|exact H2].
Defined.

(** * utils/helpers.js: formatDateISO, and the calendar service *)

(** What [formatDateISO] reads of a (valid) [Date]: [getFullYear()],
    [getMonth()] (0 to 11) and [getDate()]. *)
Record JsDate := { fullYear : Z; monthIndex : nat; dayOfMonth : nat }.

(** [s.padStart(2, '0')] *)
Definition padStart2 (s : string) : string :=
  match String.length s with
  | 0%nat => "00" +:+ s
  | 1%nat => "0" +:+ s
  | _ => s
  end.

Definition formatDateISO (date : JsDate) : string :=
  let year := pretty (fullYear date) in
  let month := padStart2 (pretty (monthIndex date + 1)%nat) in
  let day := padStart2 (pretty (dayOfMonth date)) in
  year +:+ "-" +:+ month +:+ "-" +:+ day.

(** Decimal digits, written out: what a zero-padded field of two or
    four digits looks like. *)
Definition digit (n : nat) : Ascii.ascii := Ascii.ascii_of_nat (48 + n mod 10).
Definition twoDigit (n : nat) : string :=
  String (digit (n / 10)) (String (digit n) EmptyString).
Definition fourDigit (n : nat) : string :=
  String (digit (n / 1000)) (String (digit (n / 100)) (twoDigit n)).

Definition fourDigits (y : nat) : bool :=
  String.eqb (pretty (Z.of_nat y)) (fourDigit y).

Definition twoDigits (n : nat) : bool :=
  String.eqb (padStart2 (pretty n)) (twoDigit n).

Lemma fourDigits_years : forallb fourDigits (seq 1000 (9 * 1000)) = true.
Proof. vm_compute. reflexivity. Qed.

Lemma twoDigits_below_100 : forallb twoDigits (seq 0 100) = true.
Proof. vm_compute. reflexivity. Qed.

Lemma length_append (a b : string) :
  String.length (a +:+ b) = (String.length a + String.length b)%nat.
Proof. induction a as [|c a IH]; simpl; [done|]. by rewrite IH. Qed.

(** For a date in the years 1000 to 9999, [formatDateISO] gives the ten
    characters YYYY-MM-DD: the four digits of the year, the two digits of
    the month number (month index plus one) and the two digits of the day,
    the last two zero-padded, separated by dashes. *)
Theorem formatDateISO_shape (date : JsDate) :
  (1000 <= fullYear date <= 9999)%Z ->
  (monthIndex date < 12)%nat ->
  (dayOfMonth date <= 31)%nat ->
  formatDateISO date =
    fourDigit (Z.to_nat (fullYear date)) +:+ "-" +:+
    twoDigit (monthIndex date + 1) +:+ "-" +:+ twoDigit (dayOfMonth date) /\
  String.length (formatDateISO date) = 10%nat.
Proof.
  intros Hy Hm Hd.
  assert (H4 : pretty (fullYear date) = fourDigit (Z.to_nat (fullYear date))).
  { pose proof fourDigits_years as H. rewrite forallb_forall in H.
    specialize (H (Z.to_nat (fullYear date))).
    unfold fourDigits in H. rewrite Z2Nat.id in H by lia.
    apply String.eqb_eq, H, in_seq. lia. }
  assert (H2 : forall n, (n < 100)%nat -> padStart2 (pretty n) = twoDigit n).
  { intros n Hn. pose proof twoDigits_below_100 as H. rewrite forallb_forall in H.
    apply String.eqb_eq, (H n), in_seq. lia. }
  assert (E : formatDateISO date =
            fourDigit (Z.to_nat (fullYear date)) +:+ "-" +:+
            twoDigit (monthIndex date + 1) +:+ "-" +:+ twoDigit (dayOfMonth date)).
  { unfold formatDateISO. cbv zeta. by rewrite H4, !H2 by lia. }
  split; [exact E|]. rewrite E, !length_append. reflexivity.
Qed.

Lemma formatDateISO_shape_witness :
  formatDateISO {| fullYear := 2026; monthIndex := 2; dayOfMonth := 7 |} = "2026-03-07".
Proof.
  destruct (formatDateISO_shape {| fullYear := 2026; monthIndex := 2; dayOfMonth := 7 |})
    as (H & _); simpl; [lia|lia|lia|].
  exact H.
Defined.

(** ** CalendarService

    The banner element, the 30 s interval and the visibility handler.
    [loadEvents], the export functions and [setFontSize] are not part of
    the model; event messages are strings. *)

Module CalendarService.

Record Banner := {
  textContent : string;
  classVisible : bool;
  classSliding : bool;
  styleWidth : option string;
}.

Record Service := {
  events : list (string * string);
  bannerElement : option Banner;
  checkInterval : option nat;
  isVisible : bool;
  isDestroyed : bool;
  isPaused : bool;
  (* the browser *)
  listening : bool;                  (* the visibilitychange handler is registered *)
  intervals : list nat;              (* running intervals *)
  nextInterval : nat;
  todayIs : JsDate;                  (* [new Date()] *)
}.

Definition CHECK_INTERVAL_MS : Q := 30000.

(** [this.events[key]] *)
Fixpoint eventOn (key : string) (evs : list (string * string)) : option string :=
  match evs with
  | [] => None
  | (k, v) :: rest => if String.eqb k key then Some v else eventOn key rest
  end.

Definition constructor (today : JsDate) : Service :=
  {| events := []; bannerElement := None; checkInterval := None; isVisible := false;
     isDestroyed := false; isPaused := false; listening := true; intervals := [];
     nextInterval := 1; todayIs := today |}.

Definition with_banner (b : option Banner) (vis : bool) (s : Service) : Service :=
  {| events := events s; bannerElement := b; checkInterval := checkInterval s;
     isVisible := vis; isDestroyed := isDestroyed s; isPaused := isPaused s;
     listening := listening s; intervals := intervals s;
     nextInterval := nextInterval s; todayIs := todayIs s |}.

Definition with_interval (i : option nat) (running : list nat) (next : nat) (s : Service)
  : Service :=
  {| events := events s; bannerElement := bannerElement s; checkInterval := i;
     isVisible := isVisible s; isDestroyed := isDestroyed s; isPaused := isPaused s;
     listening := listening s; intervals := running; nextInterval := next;
     todayIs := todayIs s |}.

Definition with_flags (destroyed paused listen : bool) (s : Service) : Service :=
  {| events := events s; bannerElement := bannerElement s;
     checkInterval := checkInterval s; isVisible := isVisible s;
     isDestroyed := destroyed; isPaused := paused; listening := listen;
     intervals := intervals s; nextInterval := nextInterval s; todayIs := todayIs s |}.

Definition init (b : Banner) (s : Service) : Service :=
  with_banner (Some b) (isVisible s) s.

Definition setEvents (evs : option (list (string * string))) (s : Service) : Service :=
  {| events := default [] evs; bannerElement := bannerElement s;
     checkInterval := checkInterval s; isVisible := isVisible s;
     isDestroyed := isDestroyed s; isPaused := isPaused s; listening := listening s;
     intervals := intervals s; nextInterval := nextInterval s; todayIs := todayIs s |}.

Definition stopChecking (s : Service) : Service :=
  match checkInterval s with
  | Some id =>
      with_interval None (List.filter (fun i => negb (Nat.eqb i id)) (intervals s))
        (nextInterval s) s
  | None => s
  end.

Definition showBanner (message : string) (s : Service) : Service :=
  match bannerElement s with
  | None => s
  | Some b =>
      if isDestroyed s then s
      else
        with_banner (Some {| textContent := message; classVisible := true;
                             classSliding := true; styleWidth := Some "auto" |}) true s
  end.

Definition hideBanner (s : Service) : Service :=
  match bannerElement s with
  | None => s
  | Some b =>
      with_banner (Some {| textContent := textContent b; classVisible := false;
                           classSliding := false; styleWidth := styleWidth b |}) false s
  end.

Definition checkTodayEvent (s : Service) : Service :=
  match bannerElement s with
  | None => s
  | Some _ =>
      match eventOn (formatDateISO (todayIs s)) (events s) with
      | Some event => if String.eqb event EmptyString then hideBanner s else showBanner event s
      | None => hideBanner s
      end
  end.

Definition pause (s : Service) : Service :=
  stopChecking (with_flags (isDestroyed s) true (listening s) s).

Definition resume (s : Service) : Service :=
  if isDestroyed s then s
  else checkTodayEvent (with_flags (isDestroyed s) false (listening s) s).

(** [hidden] is [document.hidden]. *)
Definition handleVisibilityChange (hidden : bool) (s : Service) : Service :=
  if isDestroyed s then s
  else if hidden then pause s else resume s.

Definition startChecking (dashboardMode : bool) (s : Service) : Service :=
  if isDestroyed s || isPaused s then s
  else
    let s := stopChecking s in
    if negb dashboardMode then hideBanner s
    else
      let s := checkTodayEvent s in
      with_interval (Some (nextInterval s)) (intervals s ++ [nextInterval s])
        (S (nextInterval s)) s.

(** The callback of the interval. *)
Definition onInterval (s : Service) : Service :=
  if negb (isPaused s) then checkTodayEvent s else s.

Definition destroy (s : Service) : Service :=
  if isDestroyed s then s
  else hideBanner (stopChecking (with_flags true (isPaused s) false s)).

(** What can happen to the service. *)
Inductive Event :=
| Visibility (hidden : bool)
| Tick (id : nat)
| NewDay (today : JsDate)
| StartChecking (dashboardMode : bool)
| SetEvents (evs : option (list (string * string)))
| Destroy.

Definition step (ev : Event) (s : Service) : option Service :=
  match ev with
  | Visibility hidden =>
      Some (if listening s then handleVisibilityChange hidden s else s)
  | Tick id => if bool_decide (id ∈ intervals s) then Some (onInterval s) else None
  | NewDay today =>
      Some {| events := events s; bannerElement := bannerElement s;
              checkInterval := checkInterval s; isVisible := isVisible s;
              isDestroyed := isDestroyed s; isPaused := isPaused s;
              listening := listening s; intervals := intervals s;
              nextInterval := nextInterval s; todayIs := today |}
  | StartChecking dashboardMode => Some (startChecking dashboardMode s)
  | SetEvents evs => Some (setEvents evs s)
  | Destroy => Some (destroy s)
  end.

Fixpoint run (evs : list Event) (s : Service) : option Service :=
  match evs with
  | [] => Some s
  | ev :: evs' =>
      match step ev s with
      | Some s' => run evs' s'
      | None => None
      end
  end.

End CalendarService.

Section CalendarFacts.
Import CalendarService.

Lemma checkTodayEvent_interval s :
  checkInterval (checkTodayEvent s) = checkInterval s /\
  intervals (checkTodayEvent s) = intervals s /\
  isPaused (checkTodayEvent s) = isPaused s /\
  isDestroyed (checkTodayEvent s) = isDestroyed s.
Proof.
  unfold checkTodayEvent, showBanner, hideBanner.
  repeat case_match; done.
Qed.

Lemma checkTodayEvent_banner s b :
  bannerElement s = Some b -> isDestroyed s = false ->
  isVisible (checkTodayEvent s) =
    match eventOn (formatDateISO (todayIs s)) (events s) with
    | Some event => negb (String.eqb event EmptyString)
    | None => false
    end /\
  (forall event,
     eventOn (formatDateISO (todayIs s)) (events s) = Some event ->
     event <> EmptyString ->
     textContent <$> bannerElement (checkTodayEvent s) = Some event).
Proof.
  intros Hb Hd. unfold checkTodayEvent, showBanner, hideBanner. rewrite Hb, Hd.
  destruct (eventOn _ _) as [event|]; [|done].
  destruct (String.eqb_spec event EmptyString) as [->|Hne].
  - split; [done|]. by intros ? [= <-] ?.
  - split; [done|]. by intros ? [= <-] _.
Qed.

Lemma stopChecking_cleared s :
  checkInterval (stopChecking s) = None /\
  (forall id, checkInterval s = Some id -> id ∉ intervals (stopChecking s)) /\
  (forall id, id ∈ intervals (stopChecking s) -> id ∈ intervals s).
Proof.
  unfold stopChecking. destruct (checkInterval s) as [id|] eqn:E; simpl.
  - split; [done|]. split.
    + intros ? [= <-]. rewrite list_elem_of_In, filter_In.
      intros [_ H]. by rewrite Nat.eqb_refl in H.
    + intros id'. rewrite !list_elem_of_In, filter_In. tauto.
  - by rewrite E.
Qed.

Lemma pause_frame s :
  listening (pause s) = listening s /\ isDestroyed (pause s) = isDestroyed s /\
  bannerElement (pause s) = bannerElement s /\ events (pause s) = events s /\
  todayIs (pause s) = todayIs s /\ isPaused (pause s) = true.
Proof. unfold pause, stopChecking. by case_match. Qed.

Lemma idle_step ev s s' :
  (forall m, ev <> StartChecking m) ->
  checkInterval s = None ->
  step ev s = Some s' ->
  checkInterval s' = None /\ intervals s' = intervals s.
Proof.
  intros Hev Hnone Hstep.
  assert (Hstop : forall x, checkInterval x = None -> stopChecking x = x)
    by (intros x Hx; unfold stopChecking; by rewrite Hx).
  destruct ev; simpl in Hstep.
  - simplify_eq. destruct (listening s); [|done].
    unfold handleVisibilityChange, pause, resume.
    destruct (isDestroyed s); [done|]. destruct hidden.
    + by rewrite Hstop.
    + destruct (checkTodayEvent_interval (with_flags false false (listening s) s))
        as (-> & -> & _). done.
  - case_match; [|done]. simplify_eq. unfold onInterval.
    destruct (negb (isPaused s)); [|done].
    by destruct (checkTodayEvent_interval s) as (-> & -> & _).
  - by simplify_eq.
  - by destruct (Hev dashboardMode).
  - by simplify_eq.
  - simplify_eq. unfold destroy. destruct (isDestroyed s); [done|].
    rewrite Hstop by done. unfold hideBanner. by case_match.
Qed.

Lemma idle_run evs s s' :
  (forall ev, ev ∈ evs -> forall m, ev <> StartChecking m) ->
  checkInterval s = None ->
  run evs s = Some s' ->
  checkInterval s' = None /\ intervals s' = intervals s.
Proof.
  revert s. induction evs as [|ev evs IH]; intros s Hevs Hnone Hrun; simpl in Hrun.
  - by simplify_eq.
  - destruct (step ev s) as [s1|] eqn:Hstep; [|done].
    destruct (idle_step ev s s1) as [H1 H2]; [apply Hevs; left|done|done|].
    destruct (IH s1) as [H3 H4]; [intros ev' Hin; apply Hevs; by right|done|done|].
    split; [done|]. by rewrite H4.
Qed.

End CalendarFacts.

(** The calendar's periodic check does not survive the page being hidden.
    Hiding the page clears the 30 s interval; showing it again checks
    today's event once (the banner is shown exactly when today has a
    non-empty message) but arms no interval, and neither does anything else
    short of another [startChecking]: the day can change without the banner
    being updated. *)
Theorem calendar_checks_stop_after_hide (s s' : CalendarService.Service)
    (evs : list CalendarService.Event) :
  CalendarService.listening s = true ->
  CalendarService.isDestroyed s = false ->
  (forall ev, ev ∈ evs -> forall m, ev <> CalendarService.StartChecking m) ->
  CalendarService.run (CalendarService.Visibility true :: evs) s = Some s' ->
  CalendarService.checkInterval s' = None /\
  (forall id, CalendarService.checkInterval s = Some id ->
     id ∉ CalendarService.intervals s') /\
  (forall id, id ∈ CalendarService.intervals s' -> id ∈ CalendarService.intervals s) /\
  (forall b s2,
     CalendarService.bannerElement s = Some b ->
     CalendarService.step (CalendarService.Visibility false)
       (CalendarService.pause s) = Some s2 ->
     CalendarService.isPaused s2 = false /\
     CalendarService.checkInterval s2 = None /\
     CalendarService.isVisible s2 =
       match CalendarService.eventOn (formatDateISO (CalendarService.todayIs s))
               (CalendarService.events s) with
       | Some event => negb (String.eqb event EmptyString)
       | None => false
       end).
Proof.
  intros Hl Hd Hevs Hrun. cbn [CalendarService.run CalendarService.step] in Hrun.
  rewrite Hl in Hrun. unfold CalendarService.handleVisibilityChange in Hrun.
  rewrite Hd in Hrun.
  set (s1 := CalendarService.pause s) in *.
  destruct (stopChecking_cleared
              (CalendarService.with_flags (CalendarService.isDestroyed s) true
                 (CalendarService.listening s) s)) as (H1 & H2 & H3).
  fold (CalendarService.pause s) in H1, H2, H3. fold s1 in H1, H2, H3.
  destruct (idle_run evs s1 s' Hevs H1 Hrun) as [H4 H5].
  split; [done|]. split; [intros id Hid; rewrite H5; by apply H2|].
  split; [intros id; rewrite H5; apply H3|].
  intros b s2 Hb Hstep. cbn [CalendarService.step] in Hstep.
  destruct (pause_frame s) as (F1 & F2 & F3 & F4 & F5 & _). fold s1 in F1, F2, F3, F4, F5.
  rewrite F1, Hl in Hstep. unfold CalendarService.handleVisibilityChange in Hstep.
  rewrite F2, Hd in Hstep. simplify_eq. unfold CalendarService.resume. rewrite F2, Hd.
  set (s3 := CalendarService.with_flags _ _ _ s1).
  destruct (checkTodayEvent_interval s3) as (E1 & _ & E3 & _).
  assert (Hb3 : CalendarService.bannerElement s3 = Some b) by (subst s3; simpl; congruence).
  destruct (checkTodayEvent_banner s3 b Hb3) as [E4 _]; [done|].
  rewrite E1, E3, E4. split; [done|]. split; [exact H1|].
  subst s3. simpl. by rewrite F4, F5.
Qed.

(** A dashboard with a message for 7 March 2026, checking every 30 s. *)
Definition bannerShown : CalendarService.Service :=
  Eval vm_compute in
  CalendarService.startChecking true
    (CalendarService.setEvents (Some [("2026-03-07", "Bin day")])
       (CalendarService.init
          {| CalendarService.textContent := EmptyString;
             CalendarService.classVisible := false;
             CalendarService.classSliding := false;
             CalendarService.styleWidth := None |}
          (CalendarService.constructor
             {| fullYear := 2026; monthIndex := 2; dayOfMonth := 7 |}))).

Definition hideShowNextDay : list CalendarService.Event :=
  [ CalendarService.Visibility false;
    CalendarService.NewDay {| fullYear := 2026; monthIndex := 2; dayOfMonth := 8 |} ].

Lemma calendar_checks_stop_after_hide_witness :
  CalendarService.checkInterval bannerShown = Some 1%nat /\
  exists s',
    CalendarService.run (CalendarService.Visibility true :: hideShowNextDay) bannerShown
      = Some s' /\
    CalendarService.checkInterval s' = None /\
    CalendarService.isVisible s' = true.
Proof.
  split; [reflexivity|]. eexists. split; [reflexivity|].
  split; [|reflexivity].
  refine (proj1 (calendar_checks_stop_after_hide bannerShown _ hideShowNextDay
                   eq_refl eq_refl _ eq_refl)).
  intros ev Hin m. unfold hideShowNextDay in Hin.
  repeat (apply elem_of_cons in Hin as [Heq|Hin]; [subst ev; discriminate|]).
  apply elem_of_nil in Hin. destruct Hin.
Defined.

(** * SensorService

    Sensor objects live in a store and are named by their location: the
    part of [pollSensor] that runs after the request settles, and the 10 s
    abort timer, hold on to the object they started with.  What a request
    returns is the browser's business; of a successful response only the
    two parsed numbers are recorded. *)

Module SensorService.

Record Config := { url : string; name : string; refreshInterval : Q }.

(** A configuration as handed in: the object and each field may be missing. *)
Record InConfig := {
  inUrl : option string;
  inName : option string;
  inRefreshInterval : option Q;
}.

Record Sensor := {
  interval : option nat;
  abortController : option nat;
  consecutiveErrors : nat;
  config : Config;
}.

Definition with_interval (v : option nat) (r : Sensor) : Sensor :=
  {| interval := v; abortController := abortController r; consecutiveErrors := consecutiveErrors r; config := config r |}.
Definition with_abortController (v : option nat) (r : Sensor) : Sensor :=
  {| interval := interval r; abortController := v; consecutiveErrors := consecutiveErrors r; config := config r |}.
Definition with_consecutiveErrors (v : nat) (r : Sensor) : Sensor :=
  {| interval := interval r; abortController := abortController r; consecutiveErrors := v; config := config r |}.
Definition with_config (v : Config) (r : Sensor) : Sensor :=
  {| interval := interval r; abortController := abortController r; consecutiveErrors := consecutiveErrors r; config := v |}.

(** The argument of [updateWidget]. *)
Record WidgetData := {
  wName : string;
  temperature : option Q;
  humidity : option Q;
  wError : bool;
}.

Inductive Callback :=
| CbPoll (sensorId : string)            (* [() => this.pollSensor(sensorId)] *)
| CbAbort (l : nat).                    (* [() => sensor.abortController?.abort()] *)

Record Timer := {
  tmId : nat;
  tmDue : Q;
  tmRepeat : option Q;
  tmCb : Callback;
}.

(** A request in flight, with what the continuation of [pollSensor]
    captured: the sensor object, the configuration read before the request,
    and the abort timer. *)
Record Fetch := {
  fController : nat;
  fSensor : nat;
  fSensorId : string;
  fName : string;
  fTimeout : nat;
}.

Inductive Effect :=
| EFetch (sensorId : string) (u : string) (stamp : Q) (controller : nat)
| EAbort (controller : nat)
| EWidget (sensorId : string) (data : WidgetData)
| ELogError (sensorId : string) (attempt : nat).

Record Service := {
  sensors : list (string * nat);        (* [this.sensors], a Map *)
  isPaused : bool;
  isDestroyed : bool;
  objects : list Sensor;
  listening : bool;                     (* the visibilitychange handler is registered *)
  timers : list Timer;
  nextTimer : nat;
  nextController : nat;
  clock : Q;
  inflight : list Fetch;
  log : list Effect;                    (* newest first *)
}.

Definition set_sensors (v : list (string * nat)) (r : Service) : Service :=
  {| sensors := v; isPaused := isPaused r; isDestroyed := isDestroyed r; objects := objects r; listening := listening r; timers := timers r; nextTimer := nextTimer r; nextController := nextController r; clock := clock r; inflight := inflight r; log := log r |}.
Definition set_isPaused (v : bool) (r : Service) : Service :=
  {| sensors := sensors r; isPaused := v; isDestroyed := isDestroyed r; objects := objects r; listening := listening r; timers := timers r; nextTimer := nextTimer r; nextController := nextController r; clock := clock r; inflight := inflight r; log := log r |}.
Definition set_isDestroyed (v : bool) (r : Service) : Service :=
  {| sensors := sensors r; isPaused := isPaused r; isDestroyed := v; objects := objects r; listening := listening r; timers := timers r; nextTimer := nextTimer r; nextController := nextController r; clock := clock r; inflight := inflight r; log := log r |}.
Definition set_objects (v : list Sensor) (r : Service) : Service :=
  {| sensors := sensors r; isPaused := isPaused r; isDestroyed := isDestroyed r; objects := v; listening := listening r; timers := timers r; nextTimer := nextTimer r; nextController := nextController r; clock := clock r; inflight := inflight r; log := log r |}.
Definition set_listening (v : bool) (r : Service) : Service :=
  {| sensors := sensors r; isPaused := isPaused r; isDestroyed := isDestroyed r; objects := objects r; listening := v; timers := timers r; nextTimer := nextTimer r; nextController := nextController r; clock := clock r; inflight := inflight r; log := log r |}.
Definition set_timers (v : list Timer) (r : Service) : Service :=
  {| sensors := sensors r; isPaused := isPaused r; isDestroyed := isDestroyed r; objects := objects r; listening := listening r; timers := v; nextTimer := nextTimer r; nextController := nextController r; clock := clock r; inflight := inflight r; log := log r |}.
Definition set_nextTimer (v : nat) (r : Service) : Service :=
  {| sensors := sensors r; isPaused := isPaused r; isDestroyed := isDestroyed r; objects := objects r; listening := listening r; timers := timers r; nextTimer := v; nextController := nextController r; clock := clock r; inflight := inflight r; log := log r |}.
Definition set_nextController (v : nat) (r : Service) : Service :=
  {| sensors := sensors r; isPaused := isPaused r; isDestroyed := isDestroyed r; objects := objects r; listening := listening r; timers := timers r; nextTimer := nextTimer r; nextController := v; clock := clock r; inflight := inflight r; log := log r |}.
Definition set_clock (v : Q) (r : Service) : Service :=
  {| sensors := sensors r; isPaused := isPaused r; isDestroyed := isDestroyed r; objects := objects r; listening := listening r; timers := timers r; nextTimer := nextTimer r; nextController := nextController r; clock := v; inflight := inflight r; log := log r |}.
Definition set_inflight (v : list Fetch) (r : Service) : Service :=
  {| sensors := sensors r; isPaused := isPaused r; isDestroyed := isDestroyed r; objects := objects r; listening := listening r; timers := timers r; nextTimer := nextTimer r; nextController := nextController r; clock := clock r; inflight := v; log := log r |}.
Definition set_log (v : list Effect) (r : Service) : Service :=
  {| sensors := sensors r; isPaused := isPaused r; isDestroyed := isDestroyed r; objects := objects r; listening := listening r; timers := timers r; nextTimer := nextTimer r; nextController := nextController r; clock := clock r; inflight := inflight r; log := v |}.

Definition constructor : Service :=
  {| sensors := []; isPaused := false; isDestroyed := false; objects := [];
     listening := true; timers := []; nextTimer := 1; nextController := 0;
     clock := 0; inflight := []; log := [] |}.

Fixpoint get (m : list (string * nat)) (k : string) : option nat :=
  match m with
  | [] => None
  | (k', v) :: m' => if String.eqb k' k then Some v else get m' k
  end.

Fixpoint set (k : string) (v : nat) (m : list (string * nat)) : list (string * nat) :=
  match m with
  | [] => [(k, v)]
  | (k', v') :: m' =>
      if String.eqb k' k then (k', v) :: m' else (k', v') :: set k v m'
  end.

Definition emit (e : Effect) (s : Service) : Service := set_log (e :: log s) s.

Definition upd (l : nat) (f : Sensor -> Sensor) (s : Service) : Service :=
  set_objects (alter f l (objects s)) s.

Definition clearTimer (id : nat) (s : Service) : Service :=
  set_timers (List.filter (fun t => negb (Nat.eqb (tmId t) id)) (timers s)) s.

Definition addTimer (cb : Callback) (delay : Q) (repeat : bool) (s : Service)
  : nat * Service :=
  let id := nextTimer s in
  (id, set_nextTimer (S id)
         (set_timers (timers s ++
            [{| tmId := id; tmDue := (clock s + Qmax 0 delay)%Q;
                tmRepeat := if repeat then Some delay else None; tmCb := cb |}]) s)).

(** [config?.url || ''] and so on. *)
Definition normalise (sensorId : string) (c : option InConfig) : Config :=
  let orElse {B} (falsy : B -> bool) (d : B) (v : option B) : B :=
    match v with
    | Some x => if falsy x then d else x
    | None => d
    end in
  {| url := orElse (fun u => String.eqb u EmptyString) EmptyString (c ≫= inUrl);
     name := orElse (fun n => String.eqb n EmptyString) ("Sensor " +:+ sensorId)
               (c ≫= inName);
     refreshInterval := orElse (fun q => Qeq_bool q 0) 30%Q (c ≫= inRefreshInterval) |}.

(** What [stopPolling] and [pauseAll] do to one sensor object. *)
Definition halt (l : nat) (s : Service) : Service :=
  match objects s !! l with
  | None => s
  | Some sn =>
      let s :=
        match interval sn with
        | Some id => upd l (with_interval None) (clearTimer id s)
        | None => s
        end in
      match abortController sn with
      | Some c => upd l (with_abortController None) (emit (EAbort c) s)
      | None => s
      end
  end.

Definition stopPolling (sensorId : string) (s : Service) : Service :=
  match get (sensors s) sensorId with
  | None => s
  | Some l => halt l s
  end.

Definition initSensor (sensorId : string) (c : option InConfig) (s : Service) : Service :=
  let s := stopPolling sensorId s in
  let l := length (objects s) in
  let s := set_objects (objects s ++
             [{| interval := None; abortController := None; consecutiveErrors := 0;
                 config := normalise sensorId c |}]) s in
  set_sensors (set sensorId l (sensors s)) s.

Definition updateWidget (sensorId : string) (data : WidgetData) (s : Service) : Service :=
  emit (EWidget sensorId data) s.

(** [pollSensor] up to the request. *)
Definition pollSensor (sensorId : string) (s : Service) : Service :=
  if isDestroyed s || isPaused s then s
  else
    match get (sensors s) sensorId with
    | None => s
    | Some l =>
        match objects s !! l with
        | None => s
        | Some sn =>
            let s :=
              match abortController sn with
              | Some c => emit (EAbort c) s
              | None => s
              end in
            let c := nextController s in
            let s := set_nextController (S c) s in
            let s := upd l (with_abortController (Some c)) s in
            let '(timeoutId, s) := addTimer (CbAbort l) 10000 false s in
            let s := emit (EFetch sensorId (url (config sn)) (clock s) c) s in
            set_inflight (inflight s ++
              [{| fController := c; fSensor := l; fSensorId := sensorId;
                  fName := name (config sn); fTimeout := timeoutId |}]) s
        end
    end.

Definition startPolling (sensorId : string) (s : Service) : Service :=
  if isDestroyed s then s
  else
    match get (sensors s) sensorId with
    | None => s
    | Some l =>
        match objects s !! l with
        | None => s
        | Some sn =>
            let s := stopPolling sensorId s in
            if String.eqb (url (config sn)) EmptyString then
              updateWidget sensorId
                {| wName := name (config sn); temperature := None; humidity := None;
                   wError := false |} s
            else if isPaused s then s
            else
              let s := pollSensor sensorId s in
              let '(id, s) :=
                addTimer (CbPoll sensorId) (refreshInterval (config sn) * 1000)%Q true s in
              upd l (with_interval (Some id)) s
        end
    end.

Definition pauseAll (s : Service) : Service :=
  let s := set_isPaused true s in
  foldl (fun s '(_, l) => halt l s) s (sensors s).

(** The body of the [forEach] in [resumeAll]. *)
Definition resumeSensor (s : Service) (entry : string * nat) : Service :=
  let '(sensorId, l) := entry in
  match objects s !! l with
  | None => s
  | Some sn =>
      if String.eqb (url (config sn)) EmptyString then s
      else
        let s := pollSensor sensorId s in
        let '(id, s) :=
          addTimer (CbPoll sensorId) (refreshInterval (config sn) * 1000)%Q true s in
        upd l (with_interval (Some id)) s
  end.

Definition resumeAll (s : Service) : Service :=
  if isDestroyed s then s
  else
    let s := set_isPaused false s in
    foldl resumeSensor s (sensors s).

Definition handleVisibilityChange (hidden : bool) (s : Service) : Service :=
  if isDestroyed s then s
  else if hidden then pauseAll s else resumeAll s.

Definition updateConfig (sensorId : string) (c : option InConfig) (s : Service) : Service :=
  match get (sensors s) sensorId with
  | Some l =>
      match objects s !! l with
      | Some _ => upd l (with_config (normalise sensorId c)) s
      | None => initSensor sensorId c s
      end
  | None => initSensor sensorId c s
  end.

Definition getConfig (sensorId : string) (s : Service) : option Config :=
  l ← get (sensors s) sensorId; config <$> objects s !! l.

Definition applySettings (sensorId : string) (c : option InConfig) (s : Service) : Service :=
  startPolling sensorId (updateConfig sensorId c s).

Definition stopAll (s : Service) : Service :=
  foldl (fun s '(sensorId, _) => stopPolling sensorId s) s (sensors s).

Definition destroy (s : Service) : Service :=
  if isDestroyed s then s
  else
    let s := set_isDestroyed true s in
    let s := set_listening false s in
    let s := stopAll s in
    set_sensors [] s.

(** How a request ends. *)
Inductive Outcome :=
| Parsed (t h : option Q)      (* response ok; what the two patterns matched *)
| HttpError
| Aborted
| Failed.                      (* any other rejection *)

(** The rest of [pollSensor], run when the request of [f] settles. *)
Definition pollSettled (f : Fetch) (o : Outcome) (s : Service) : Service :=
  let s := clearTimer (fTimeout f) s in
  let failed (s : Service) :=
    let n := S (default 0%nat (consecutiveErrors <$> objects s !! fSensor f)) in
    let s := upd (fSensor f) (with_consecutiveErrors n) s in
    let s := if (n <=? 3)%nat || (n mod 10 =? 0)%nat
             then emit (ELogError (fSensorId f) n) s else s in
    updateWidget (fSensorId f)
      {| wName := fName f; temperature := None; humidity := None; wError := true |} s in
  let s :=
    match o with
    | Parsed t h =>
        if isDestroyed s then s
        else
          let s := upd (fSensor f) (with_consecutiveErrors 0%nat) s in
          updateWidget (fSensorId f)
            {| wName := fName f; temperature := t; humidity := h; wError := false |} s
    | HttpError => if isDestroyed s then s else failed s
    | Aborted => s
    | Failed => failed s
    end in
  upd (fSensor f) (with_abortController None) s.

Definition runCb (cb : Callback) (s : Service) : Service :=
  match cb with
  | CbPoll sensorId => pollSensor sensorId s
  | CbAbort l =>
      match objects s !! l with
      | Some sn =>
          match abortController sn with
          | Some c => emit (EAbort c) s
          | None => s
          end
      | None => s
      end
  end.

End SensorService.

Section SensorFacts.
Import SensorService.

(** The Map has one entry per key, no two keys share a sensor object, and
    timer ids are handed out in increasing order. *)
Definition wellKept (s : Service) : Prop :=
  NoDup (map fst (sensors s)) /\ NoDup (map snd (sensors s)) /\
  (forall t, t ∈ timers s -> (tmId t < nextTimer s)%nat).

Lemma get_elem_of (m : list (string * nat)) k l :
  NoDup (map fst m) -> (k, l) ∈ m -> get m k = Some l.
Proof.
  induction m as [|[k' l'] m IH]; simpl; intros Hnd Hin; [by apply elem_of_nil in Hin|].
  apply NoDup_cons in Hnd as [Hnin Hnd].
  apply elem_of_cons in Hin as [Heq|Hin].
  - simplify_eq. by rewrite String.eqb_refl.
  - destruct (String.eqb_spec k' k) as [->|Hne]; [|by apply IH].
    exfalso. apply Hnin. apply list_elem_of_fmap. by exists (k, l).
Qed.

(** What the loop of [resumeAll] does for one sensor with a URL. *)
Lemma resumeSensor_armed s sensorId l sn :
  isDestroyed s = false -> isPaused s = false ->
  get (sensors s) sensorId = Some l ->
  objects s !! l = Some sn ->
  url (config sn) <> EmptyString ->
  let s' := resumeSensor s (sensorId, l) in
  sensors s' = sensors s /\ isDestroyed s' = false /\ isPaused s' = false /\
  nextTimer s' = S (S (nextTimer s)) /\
  (exists t1 t2, timers s' = timers s ++ [t1; t2] /\
     tmId t1 = nextTimer s /\
     tmId t2 = S (nextTimer s) /\ tmCb t2 = CbPoll sensorId /\
     tmRepeat t2 = Some (refreshInterval (config sn) * 1000)%Q) /\
  (exists tr, log s' = EFetch sensorId (url (config sn)) (clock s) (nextController s)
                       :: tr ++ log s) /\
  objects s' !! l =
    Some (with_interval (Some (S (nextTimer s)))
            (with_abortController (Some (nextController s)) sn)) /\
  (forall l', l' <> l -> objects s' !! l' = objects s !! l').
Proof.
  intros Hd Hp Hget Hsn Hurl. cbv zeta. unfold resumeSensor. rewrite Hsn.
  destruct (String.eqb_spec (url (config sn)) EmptyString) as [E|_]; [done|].
  unfold pollSensor. rewrite Hd, Hp, Hget, Hsn. cbn [orb].
  unfold addTimer, upd, emit.
  destruct (abortController sn) as [c|];
    cbn [sensors isDestroyed isPaused nextTimer timers log objects clock nextController
         set_log set_objects set_timers set_nextTimer set_nextController set_inflight
         fst snd];
    (split; [done|]); (split; [done|]); (split; [done|]); (split; [done|]);
    (split; [eexists _, _; rewrite <- app_assoc; split; [reflexivity|done]|]).
  - split; [by exists [EAbort c]|]. split.
    + rewrite !list_lookup_alter. repeat case_decide; try done. by rewrite Hsn.
    + intros l' Hne. by rewrite !list_lookup_alter_ne.
  - split; [by exists []|]. split.
    + rewrite !list_lookup_alter. repeat case_decide; try done. by rewrite Hsn.
    + intros l' Hne. by rewrite !list_lookup_alter_ne.
Qed.

Lemma resumeSensor_skipped s sensorId l :
  (objects s !! l = None \/
   exists sn, objects s !! l = Some sn /\ url (config sn) = EmptyString) ->
  resumeSensor s (sensorId, l) = s.
Proof.
  intros [H|(sn & H & Hu)]; unfold resumeSensor; rewrite H; [done|].
  by rewrite Hu.
Qed.

Definition armed (s0 s' : Service) (sensorId : string) (l : nat) (sn : Sensor) : Prop :=
  exists id sn' stamp c t,
    objects s' !! l = Some sn' /\ interval sn' = Some id /\ config sn' = config sn /\
    (nextTimer s0 <= id)%nat /\
    t ∈ timers s' /\ tmId t = id /\ tmCb t = CbPoll sensorId /\
    tmRepeat t = Some (refreshInterval (config sn) * 1000)%Q /\
    EFetch sensorId (url (config sn)) stamp c ∈ log s'.

Lemma foldl_resumeSensor (xs : list (string * nat)) s :
  isDestroyed s = false -> isPaused s = false ->
  NoDup (map snd xs) ->
  (forall k l, (k, l) ∈ xs -> get (sensors s) k = Some l) ->
  let s' := foldl resumeSensor s xs in
  isPaused s' = false /\ sensors s' = sensors s /\
  (nextTimer s <= nextTimer s')%nat /\
  (forall t, t ∈ timers s -> t ∈ timers s') /\
  (forall e, e ∈ log s -> e ∈ log s') /\
  (forall l, l ∉ map snd xs -> objects s' !! l = objects s !! l) /\
  (forall k l sn, (k, l) ∈ xs -> objects s !! l = Some sn ->
     if String.eqb (url (config sn)) EmptyString then objects s' !! l = Some sn
     else armed s s' k l sn).
Proof.
  revert s. induction xs as [|[k0 l0] xs IH]; intros s Hd Hp Hnd Hget; cbn [foldl].
  - cbv zeta. repeat split; try done. intros k l sn Hin. by apply elem_of_nil in Hin.
  - simpl in Hnd. apply NoDup_cons in Hnd as [Hnin Hnd].
    set (s1 := resumeSensor s (k0, l0)).
    assert (H1 : isDestroyed s1 = false /\ isPaused s1 = false /\
                 sensors s1 = sensors s /\ (nextTimer s <= nextTimer s1)%nat /\
                 (forall t, t ∈ timers s -> t ∈ timers s1) /\
                 (forall e, e ∈ log s -> e ∈ log s1) /\
                 (forall l, l <> l0 -> objects s1 !! l = objects s !! l) /\
                 (forall sn, objects s !! l0 = Some sn ->
                    if String.eqb (url (config sn)) EmptyString
                    then objects s1 !! l0 = Some sn
                    else armed s s1 k0 l0 sn)).
    { destruct (objects s !! l0) as [sn|] eqn:Hsn;
        [|subst s1; rewrite resumeSensor_skipped by (by left); done].
      destruct (String.eqb_spec (url (config sn)) EmptyString) as [Hu|Hu].
      - subst s1. rewrite resumeSensor_skipped by (right; eauto).
        repeat split; try done. intros ? [= <-]. rewrite Hu. simpl. done.
      - destruct (resumeSensor_armed s k0 l0 sn Hd Hp) as
          (E1 & E2 & E3 & E4 & (t1 & t2 & E5 & _ & T2 & T3 & T4) & (tr & E6) & E7 & E8);
          [apply Hget; left|done|done|].
        cbv zeta in *. fold s1 in E1, E2, E3, E4, E5, E6, E7, E8.
        split; [done|]. split; [done|]. split; [done|]. split; [lia|].
        split; [intros t Ht; rewrite E5; apply elem_of_app; by left|].
        split; [intros e He; rewrite E6; right; apply elem_of_app; by right|].
        split; [exact E8|].
        intros ? [= <-]. destruct (String.eqb_spec (url (config sn)) EmptyString); [done|].
        exists (S (nextTimer s)),
          (with_interval (Some (S (nextTimer s)))
             (with_abortController (Some (nextController s)) sn)),
          (clock s), (nextController s), t2.
        split; [exact E7|]. split; [done|]. split; [done|]. split; [lia|].
        split; [rewrite E5; apply elem_of_app; right; right; left|].
        split; [done|]. split; [done|]. split; [done|]. rewrite E6. left. }
    destruct H1 as (Hd1 & Hp1 & Hs1 & Hn1 & Ht1 & Hl1 & Ho1 & Ha1).
    destruct (IH s1 Hd1 Hp1 Hnd) as (I1 & I2 & I3 & I4 & I5 & I6 & I7).
    { intros k l Hin. rewrite Hs1. apply Hget. by right. }
    cbv zeta in *.
    split; [done|]. split; [by rewrite I2|]. split; [lia|].
    split; [intros t Ht; by apply I4, Ht1|].
    split; [intros e He; by apply I5, Hl1|].
    split.
    { intros l Hl. rewrite I6; [apply Ho1|]; intros Hx; apply Hl; simpl.
      - subst. left.
      - by right. }
    intros k l sn Hin Hsn. apply elem_of_cons in Hin as [Heq|Hin].
    + simplify_eq. specialize (Ha1 sn Hsn).
      destruct (String.eqb (url (config sn)) EmptyString).
      * by rewrite I6.
      * destruct Ha1 as (id & sn' & stamp & c & t & A1 & A2 & A3 & A4 & A5 & A6 & A7 & A8 & A9).
        exists id, sn', stamp, c, t. rewrite I6 by done.
        repeat split; try done. by apply I4. by apply I5.
    + assert (Hne : l <> l0).
      { intros ->. apply Hnin. apply list_elem_of_fmap. by exists (k, l0). }
      specialize (I7 k l sn Hin). rewrite Ho1 in I7 by done. specialize (I7 Hsn).
      destruct (String.eqb (url (config sn)) EmptyString); [done|].
      destruct I7 as (id & sn' & stamp & c & t & A1 & A2 & A3 & A4 & A5 & A6 & A7 & A8 & A9).
      exists id, sn', stamp, c, t. repeat split; try done. lia.
Qed.

(** When the page becomes visible again, [resumeAll] polls every
    registered sensor that has a URL and arms a new interval for it, whether
    or not it was being polled before the page was hidden: a sensor stopped
    with [stopPolling] is polled again.  It clears nothing: every timer that
    was running still is, so an interval that a sensor still recorded keeps
    running, no longer recorded by anything.  Sensors without a URL are left
    as they are. *)
Theorem sensor_resume_arms_every_sensor (s : Service) :
  isDestroyed s = false ->
  wellKept s ->
  let s' := handleVisibilityChange false s in
  isPaused s' = false /\
  (forall sensorId l sn,
     (sensorId, l) ∈ sensors s -> objects s !! l = Some sn ->
     url (config sn) <> EmptyString ->
     exists id sn' stamp c t,
       objects s' !! l = Some sn' /\ interval sn' = Some id /\
       (nextTimer s <= id)%nat /\
       t ∈ timers s' /\ tmId t = id /\ tmCb t = CbPoll sensorId /\
       tmRepeat t = Some (refreshInterval (config sn) * 1000)%Q /\
       EFetch sensorId (url (config sn)) stamp c ∈ log s' /\
       (forall t0, t0 ∈ timers s -> Some (tmId t0) = interval sn ->
          t0 ∈ timers s' /\ tmId t0 <> id)) /\
  (forall t, t ∈ timers s -> t ∈ timers s') /\
  (forall sensorId l sn,
     (sensorId, l) ∈ sensors s -> objects s !! l = Some sn ->
     url (config sn) = EmptyString -> objects s' !! l = Some sn).
Proof.
  intros Hd (Hk & Hv & Hfresh). cbv zeta.
  unfold handleVisibilityChange, resumeAll. rewrite Hd. cbv zeta.
  cbn [sensors set_isPaused].
  destruct (foldl_resumeSensor (sensors s) (set_isPaused false s))
    as (I1 & _ & _ & I4 & _ & _ & I7); try done.
  { intros k l Hin. by apply get_elem_of. }
  cbv zeta in *. cbn [timers objects nextTimer set_isPaused] in *.
  split; [done|]. split; [|split; [exact I4|]].
  - intros sensorId l sn Hin Hsn Hurl. specialize (I7 sensorId l sn Hin Hsn).
    destruct (String.eqb_spec (url (config sn)) EmptyString) as [|_]; [done|].
    destruct I7 as (id & sn' & stamp & c & t & A1 & A2 & A3 & A4 & A5 & A6 & A7 & A8 & A9).
    cbn [nextTimer set_isPaused] in A4.
    exists id, sn', stamp, c, t.
    split; [done|]. split; [done|]. split; [done|].
    assert (Hold : forall t0, t0 ∈ timers s -> Some (tmId t0) = interval sn -> tmId t0 <> id).
    { intros t0 Ht0 _. specialize (Hfresh t0 Ht0). lia. }
    repeat split; try done; [by apply I4|by eapply Hold].
  - intros sensorId l sn Hin Hsn Hurl. specialize (I7 sensorId l sn Hin Hsn).
    by rewrite Hurl in I7.
Qed.

(** Two sensors with a URL; only the first is being polled (the widget of
    the second is switched off). *)
Definition sensorConfig (u : string) : option InConfig :=
  Some {| inUrl := Some u; inName := None; inRefreshInterval := None |}.

Definition onePolling : Service :=
  Eval vm_compute in
  startPolling "temp1"
    (initSensor "temp2" (sensorConfig "http://pi/temp2")
       (initSensor "temp1" (sensorConfig "http://pi/temp1") constructor)).

Lemma sensor_resume_arms_every_sensor_witness :
  interval <$> objects onePolling !! 1%nat = Some None /\
  (exists id, interval <$> objects (handleVisibilityChange false onePolling) !! 1%nat
              = Some (Some id)) /\
  (forall t, t ∈ timers onePolling -> t ∈ timers (handleVisibilityChange false onePolling)).
Proof.
  assert (Hwf : wellKept onePolling).
  { split; [|split].
    - apply (bool_decide_unpack _). vm_compute. reflexivity.
    - apply (bool_decide_unpack _). vm_compute. reflexivity.
    - intros t Ht. unfold onePolling in Ht. cbn [timers] in Ht.
      repeat (apply elem_of_cons in Ht as [->|Ht]; [simpl; lia|]).
      apply elem_of_nil in Ht. destruct Ht. }
  destruct (sensor_resume_arms_every_sensor onePolling eq_refl Hwf) as (_ & H & Ht & _).
  split; [reflexivity|]. split; [|exact Ht].
  destruct (H "temp2" 1%nat _ (list_elem_of_further _ _ _ (list_elem_of_here _ _)) eq_refl)
    as (id & sn' & _ & _ & _ & H1 & H2 & _); [discriminate|].
  exists id. by rewrite H1, <- H2.
Defined.

End SensorFacts.
